(** * open-calc: the recursive-descent expression evaluator

    A shallow embedding of [include/parser/expression_parser.hpp] and of the
    part of [include/computation/standard_calculator.hpp] it calls; further
    down, of the read-eval-print loop of [src/main.cpp] and of the matrix
    products of [include/computation/matrix_calculator.hpp] and
    [include/acceleration/metal_interface.hpp].

    - [double] is IEEE 754 binary64, embedded as the kernel's primitive
      floats: [+ - * /], negation, [sqrt], [fabs] and the comparisons are the
      IEEE operations the C++ compiles to.
    - The C library is an external collaborator: the transcendental
      functions, [pow] and [fmod] are the fields of a record [std.cmath]
      that every definition takes as a parameter.
    - The members [input_] and [pos_] are threaded explicitly: a production
      is a function from the cursor position to an outcome and the new
      position.  An exception leaves [pos_] where the throw happened.
    - The mutual recursion of the three productions is not structural; it is
      bounded by a fuel argument and [evaluate] supplies enough of it
      (theorem [EvaluateFacts.evaluate_total]). *)

From Stdlib Require Import ZArith String Ascii List Lia Bool Floats.
From stdpp Require Import gmap strings.

Set Warnings "-inexact-float".

(** ** <cctype> in the "C" locale

    Only the seven-bit characters are classified; every byte above 127 is
    in none of the classes. *)

Definition isdigit (c : ascii) : bool :=
  (48 <=? nat_of_ascii c) && (nat_of_ascii c <=? 57).

Definition isupper (c : ascii) : bool :=
  (65 <=? nat_of_ascii c) && (nat_of_ascii c <=? 90).

Definition islower (c : ascii) : bool :=
  (97 <=? nat_of_ascii c) && (nat_of_ascii c <=? 122).

Definition isalpha (c : ascii) : bool := isupper c || islower c.

Definition isalnum (c : ascii) : bool := isalpha c || isdigit c.

(** space, and the five controls \t \n \v \f \r *)
Definition isspace (c : ascii) : bool :=
  (nat_of_ascii c =? 32) || ((9 <=? nat_of_ascii c) && (nat_of_ascii c <=? 13)).

(** ** Exceptions and outcomes *)

Inductive exception : Type :=
| runtime_error (what : string)
| domain_error (what : string)
| invalid_argument (what : string)
| out_of_range (what : string).

Inductive outcome (A : Type) : Type :=
| Return (a : A)
| Throw (e : exception).
Arguments Return {A} a.
Arguments Throw {A} e.

Definition double : Type := float.

(** ** The C library *)

Module std.

(** The functions of <cmath> whose results the C standard does not fix
    bit for bit, and the one implementation-defined choice of [strtod]:
    whether a result that underflows sets [ERANGE]. *)
Record cmath : Type := {
  pow : double -> double -> double;
  fmod : double -> double -> double;
  cbrt : double -> double;
  exp : double -> double;
  log : double -> double;
  log10 : double -> double;
  log2 : double -> double;
  sin : double -> double;
  cos : double -> double;
  tan : double -> double;
  asin : double -> double;
  acos : double -> double;
  atan : double -> double;
  sinh : double -> double;
  cosh : double -> double;
  tanh : double -> double;
  floor : double -> double;
  ceil : double -> double;
  round : double -> double;
  underflow_sets_erange : bool
}.

(** [std::sqrt] and [std::fabs] are exact IEEE operations. *)
Definition sqrt (x : double) : double := PrimFloat.sqrt x.
Definition fabs (x : double) : double := PrimFloat.abs x.

(** *** [std::stod]

    [std::stod(str)] calls [strtod]: it converts the longest prefix of
    [str] that is a floating literal and ignores the rest, throws
    [invalid_argument] when no conversion can be performed and
    [out_of_range] when [strtod] reports [ERANGE].  The conversion is the
    correctly rounded one (to nearest, ties to even).  Only the decimal
    form without sign or leading blanks is modelled: [parse_number] passes
    nothing else. *)

Definition digit_value (c : ascii) : Z := Z.of_nat (nat_of_ascii c) - 48.

(** The digits at the front of [s]: their value appended to [acc], how
    many there are, and what follows them. *)
Fixpoint take_digits (s : string) (acc : Z) (count : nat) : Z * nat * string :=
  match s with
  | String c s' =>
      if isdigit c then take_digits s' (10 * acc + digit_value c)%Z (S count)
      else (acc, count, s)
  | EmptyString => (acc, count, s)
  end.

(** The exponent part at the front of [s]: [e] or [E], an optional sign
    and at least one digit; anything else is no exponent part. *)
Definition take_exponent (s : string) : Z :=
  match s with
  | String c s1 =>
      if (c =? "e")%char || (c =? "E")%char then
        let '(negative, s2) :=
          match s1 with
          | String "+"%char s2 => (false, s2)
          | String "-"%char s2 => (true, s2)
          | _ => (false, s1)
          end in
        let '(e, count, _) := take_digits s2 0%Z 0 in
        if (count =? 0)%nat then 0%Z else if negative then (- e)%Z else e
      else 0%Z
  | EmptyString => 0%Z
  end.

(** [m * 10^k] rounded to binary64, to nearest, ties to even. *)
Definition decimal_to_binary64 (m k : Z) : spec_float :=
  match m with
  | Zpos p =>
      if (0 <=? k)%Z then binary_normalize prec emax (m * 10 ^ k)%Z 0%Z false
      else match (10 ^ (- k))%Z with
           | Zpos q => SFdiv prec emax (S754_finite false p 0) (S754_finite false q 0)
           | _ => S754_nan
           end
  | _ => S754_zero false
  end.

(** Below the smallest normal number [2^-1022]. *)
Definition underflows (x : spec_float) : bool :=
  match x with
  | S754_zero _ => true
  | S754_finite _ m e => (Z.pos (digits2_pos m) + e <? -1021)%Z
  | _ => false
  end.

Definition stod (libm : cmath) (str : string) : outcome double :=
  let '(m1, n1, s1) := take_digits str 0%Z 0 in
  let '(m, n2, s2) :=
    match s1 with
    | String "."%char s1' => take_digits s1' m1 0
    | _ => (m1, 0, s1)
    end in
  if (n1 + n2 =? 0)%nat then Throw (invalid_argument "stod") else
  let x := decimal_to_binary64 m (take_exponent s2 - Z.of_nat n2) in
  match x with
  | S754_infinity _ => Throw (out_of_range "stod")
  | _ =>
      if (0 <? m)%Z && underflows x && underflow_sets_erange libm
      then Throw (out_of_range "stod")
      else Return (SF2Prim x)
  end.

(** The library functions behind the members of [StandardCalculator] that
    the parser does not register. *)
Record cmath_inverse : Type := {
  exp2 : double -> double;
  atan2 : double -> double -> double;
  asinh : double -> double;
  acosh : double -> double;
  atanh : double -> double
}.

End std.

(** ** StandardCalculator *)

Module StandardCalculator.
Section Calculator.

Variable libm : std.cmath.

Definition add (a b : double) : double := (a + b)%float.
Definition subtract (a b : double) : double := (a - b)%float.
Definition multiply (a b : double) : double := (a * b)%float.

Definition divide (a b : double) : outcome double :=
  if (b =? 0)%float then Throw (domain_error "Division by zero")
  else Return (a / b)%float.

Definition modulo (a b : double) : outcome double :=
  if (b =? 0)%float then Throw (domain_error "Modulo by zero")
  else Return (std.fmod libm a b).

Definition power (base exponent : double) : double :=
  std.pow libm base exponent.

Definition sqrt (x : double) : outcome double :=
  if (x <? 0)%float then Throw (domain_error "Square root of negative number")
  else Return (std.sqrt x).

Definition cbrt (x : double) : outcome double := Return (std.cbrt libm x).
Definition exp (x : double) : outcome double := Return (std.exp libm x).

Definition log (x : double) : outcome double :=
  if (x <=? 0)%float then Throw (domain_error "Logarithm of non-positive number")
  else Return (std.log libm x).

Definition log10 (x : double) : outcome double :=
  if (x <=? 0)%float then Throw (domain_error "Logarithm of non-positive number")
  else Return (std.log10 libm x).

Definition log2 (x : double) : outcome double :=
  if (x <=? 0)%float then Throw (domain_error "Logarithm of non-positive number")
  else Return (std.log2 libm x).

Definition sin (x : double) : outcome double := Return (std.sin libm x).
Definition cos (x : double) : outcome double := Return (std.cos libm x).
Definition tan (x : double) : outcome double := Return (std.tan libm x).

Definition asin (x : double) : outcome double :=
  if (x <? -1)%float || (1 <? x)%float
  then Throw (domain_error "asin domain error: x must be in [-1, 1]")
  else Return (std.asin libm x).

Definition acos (x : double) : outcome double :=
  if (x <? -1)%float || (1 <? x)%float
  then Throw (domain_error "acos domain error: x must be in [-1, 1]")
  else Return (std.acos libm x).

Definition atan (x : double) : outcome double := Return (std.atan libm x).
Definition sinh (x : double) : outcome double := Return (std.sinh libm x).
Definition cosh (x : double) : outcome double := Return (std.cosh libm x).
Definition tanh (x : double) : outcome double := Return (std.tanh libm x).
Definition abs (x : double) : outcome double := Return (std.fabs x).
Definition floor (x : double) : outcome double := Return (std.floor libm x).
Definition ceil (x : double) : outcome double := Return (std.ceil libm x).
Definition round (x : double) : outcome double := Return (std.round libm x).

Definition PI : double := 3.14159265358979323846%float.
Definition E : double := 2.71828182845904523536%float.
Definition GOLDEN_RATIO : double := 1.61803398874989484820%float.

End Calculator.

(** The members that [ExpressionParser] does not register. *)
Section Unregistered.

Variable libm' : std.cmath_inverse.

Definition exp2 (x : double) : outcome double := Return (std.exp2 libm' x).

Definition atan2 (y x : double) : outcome double := Return (std.atan2 libm' y x).

Definition asinh (x : double) : outcome double := Return (std.asinh libm' x).

Definition acosh (x : double) : outcome double :=
  if (x <? 1)%float then Throw (domain_error "acosh domain error: x must be >= 1")
  else Return (std.acosh libm' x).

Definition atanh (x : double) : outcome double :=
  if (x <=? -1)%float || (1 <=? x)%float
  then Throw (domain_error "atanh domain error: x must be in (-1, 1)")
  else Return (std.atanh libm' x).

End Unregistered.
End StandardCalculator.

(** ** The cursor monad

    A computation reads the cursor [pos_] and gives back an outcome and the
    new cursor; [None] is the model running out of fuel and nothing of the
    C++ program. *)

Definition parser (A : Type) : Type := nat -> option (outcome A * nat).

Definition ret {A : Type} (a : A) : parser A :=
  fun pos => Some (Return a, pos).

Definition throw {A : Type} (e : exception) : parser A :=
  fun pos => Some (Throw e, pos).

Definition lift {A : Type} (r : outcome A) : parser A :=
  fun pos => Some (r, pos).

Definition bind {A B : Type} (m : parser A) (k : A -> parser B) : parser B :=
  fun pos =>
    match m pos with
    | Some (Return a, pos') => k a pos'
    | Some (Throw e, pos') => Some (Throw e, pos')
    | None => None
    end.

Definition out_of_fuel {A : Type} : parser A := fun _ => None.

Declare Scope parser_scope.
Delimit Scope parser_scope with parser.
Notation "x <- m ;; k" := (bind m (fun x => k))
  (at level 100, m at next level, right associativity) : parser_scope.
Notation "m ;; k" := (bind m (fun _ => k))
  (at level 100, right associativity) : parser_scope.

(** [pos_ < input_.length() && input_[pos_] == ch], on what [peek] read *)
Definition is_char (ch : ascii) (c : option ascii) : bool :=
  match c with
  | Some c => (c =? ch)%char
  | None => false
  end.

(** ** ExpressionParser *)

Module ExpressionParser.

(** The two registries, [functions_] and [constants_]. *)
Record registry : Type := {
  functions_ : gmap string (double -> outcome double);
  constants_ : gmap string double
}.

Definition register_function (name : string) (func : double -> outcome double)
    (r : registry) : registry :=
  {| functions_ := <[name := func]> (functions_ r); constants_ := constants_ r |}.

Definition register_constant (name : string) (value : double)
    (r : registry) : registry :=
  {| functions_ := functions_ r; constants_ := <[name := value]> (constants_ r) |}.

Section Parser.

Variable libm : std.cmath.
Variable reg : registry.
Variable input_ : string.

Local Open Scope parser_scope.

(** [input_[pos_]], guarded by [pos_ < input_.length()] *)
Definition peek : parser (option ascii) :=
  fun pos => Some (Return (String.get pos input_), pos).

(** [++pos_] *)
Definition advance : parser unit :=
  fun pos => Some (Return tt, S pos).

Definition get_pos : parser nat :=
  fun pos => Some (Return pos, pos).

Fixpoint skip_whitespace_loop (n pos : nat) : nat :=
  match n with
  | O => pos
  | S n' =>
      match String.get pos input_ with
      | Some c => if isspace c then skip_whitespace_loop n' (S pos) else pos
      | None => pos
      end
  end.

Definition skip_whitespace : parser unit :=
  fun pos => Some (Return tt, skip_whitespace_loop (String.length input_ - pos) pos).

(** The first loop of [parse_number]: digits and at most one dot. *)
Fixpoint number_loop (n : nat) (has_dot : bool) (pos : nat) : outcome unit * nat :=
  match n with
  | O => (Return tt, pos)
  | S n' =>
      match String.get pos input_ with
      | Some c =>
          if isdigit c || (c =? ".")%char then
            if (c =? ".")%char then
              if has_dot then (Throw (runtime_error "Invalid number format"), pos)
              else number_loop n' true (S pos)
            else number_loop n' has_dot (S pos)
          else (Return tt, pos)
      | None => (Return tt, pos)
      end
  end.

(** The digit loop of the exponent part. *)
Fixpoint digits_loop (n pos : nat) : nat :=
  match n with
  | O => pos
  | S n' =>
      match String.get pos input_ with
      | Some c => if isdigit c then digits_loop n' (S pos) else pos
      | None => pos
      end
  end.

Definition scan_mantissa : parser unit :=
  fun pos => Some (number_loop (String.length input_ - pos) false pos).

Definition scan_digits : parser unit :=
  fun pos => Some (Return tt, digits_loop (String.length input_ - pos) pos).

(** The scientific-notation step of [parse_number]. *)
Definition exponent_part : parser unit :=
  c <- peek ;;
  if is_char "e" c || is_char "E" c then
    advance ;;
    c' <- peek ;;
    (if is_char "+" c' || is_char "-" c' then advance else ret tt) ;;
    scan_digits
  else ret tt.

Definition parse_number : parser double :=
  skip_whitespace ;;
  c <- peek ;;
  match c with
  | None => throw (runtime_error "Expected number")
  | Some _ =>
      start <- get_pos ;;
      scan_mantissa ;;
      exponent_part ;;
      pos <- get_pos ;;
      if (start =? pos)%nat then throw (runtime_error "Expected number")
      else
        let num_str := String.substring start (pos - start) input_ in
        match std.stod libm num_str with
        | Return v => ret v
        | Throw _ => throw (runtime_error ("Invalid number: " +:+ num_str))
        end
  end.

(** The identifier loop of [parse_factor]. *)
Fixpoint name_loop (n : nat) (name : string) (pos : nat) : string * nat :=
  match n with
  | O => (name, pos)
  | S n' =>
      match String.get pos input_ with
      | Some c =>
          if isalnum c || (c =? "_")%char
          then name_loop n' (name +:+ String c EmptyString) (S pos)
          else (name, pos)
      | None => (name, pos)
      end
  end.

Definition scan_name : parser string :=
  fun pos =>
    let '(name, pos') := name_loop (String.length input_ - pos) EmptyString pos in
    Some (Return name, pos').

(** [[ '^' factor ]] after a closing parenthesis or a number *)
Definition power_suffix (factor : parser double) (result : double) : parser double :=
  skip_whitespace ;;
  c <- peek ;;
  if is_char "^" c then
    advance ;;
    exponent <- factor ;;
    ret (StandardCalculator.power libm result exponent)
  else ret result.

Fixpoint parse_expression (fuel : nat) : parser double :=
  match fuel with
  | O => out_of_fuel
  | S n =>
      result <- parse_term n ;;
      expression_loop n result
  end
with expression_loop (fuel : nat) (result : double) : parser double :=
  match fuel with
  | O => out_of_fuel
  | S n =>
      c <- peek ;;
      match c with
      | None => ret result
      | Some _ =>
          skip_whitespace ;;
          c <- peek ;;
          match c with
          | None => ret result
          | Some op =>
              if (op =? "+")%char || (op =? "-")%char then
                advance ;;
                right <- parse_term n ;;
                expression_loop n
                  (if (op =? "+")%char then StandardCalculator.add result right
                   else StandardCalculator.subtract result right)
              else ret result
          end
      end
  end
with parse_term (fuel : nat) : parser double :=
  match fuel with
  | O => out_of_fuel
  | S n =>
      result <- parse_factor n ;;
      term_loop n result
  end
with term_loop (fuel : nat) (result : double) : parser double :=
  match fuel with
  | O => out_of_fuel
  | S n =>
      c <- peek ;;
      match c with
      | None => ret result
      | Some _ =>
          skip_whitespace ;;
          c <- peek ;;
          match c with
          | None => ret result
          | Some op =>
              if (op =? "*")%char || (op =? "/")%char || (op =? "%")%char then
                advance ;;
                right <- parse_factor n ;;
                result' <- lift (if (op =? "*")%char
                                 then Return (StandardCalculator.multiply result right)
                                 else if (op =? "/")%char
                                 then StandardCalculator.divide result right
                                 else StandardCalculator.modulo libm result right) ;;
                term_loop n result'
              else ret result
          end
      end
  end
with parse_factor (fuel : nat) : parser double :=
  match fuel with
  | O => out_of_fuel
  | S n =>
      skip_whitespace ;;
      c <- peek ;;
      match c with
      | None => throw (runtime_error "Unexpected end of expression")
      | Some c =>
          if (c =? "-")%char || (c =? "+")%char then
            advance ;;
            value <- parse_factor n ;;
            ret (if (c =? "-")%char then (- value)%float else value)
          else if (c =? "(")%char then
            advance ;;
            result <- parse_expression n ;;
            skip_whitespace ;;
            c' <- peek ;;
            if negb (is_char ")" c')
            then throw (runtime_error "Mismatched parentheses")
            else
              advance ;;
              power_suffix (parse_factor n) result
          else if isalpha c then
            name <- scan_name ;;
            skip_whitespace ;;
            c' <- peek ;;
            if is_char "(" c' then
              advance ;;
              arg <- parse_expression n ;;
              skip_whitespace ;;
              c'' <- peek ;;
              if negb (is_char ")" c'')
              then throw (runtime_error "Mismatched parentheses in function call")
              else
                advance ;;
                match functions_ reg !! name with
                | None => throw (runtime_error ("Unknown function: " +:+ name))
                | Some func => lift (func arg)
                end
            else
              match constants_ reg !! name with
              | Some value => ret value
              | None => throw (runtime_error ("Unknown identifier: " +:+ name))
              end
          else
            result <- parse_number ;;
            power_suffix (parse_factor n) result
      end
  end.

End Parser.

(** The constructor: the built-in functions and constants. *)
Definition new (libm : std.cmath) : registry :=
  register_constant "phi" StandardCalculator.GOLDEN_RATIO
  (register_constant "e" StandardCalculator.E
  (register_constant "pi" StandardCalculator.PI
  (register_function "round" (StandardCalculator.round libm)
  (register_function "ceil" (StandardCalculator.ceil libm)
  (register_function "floor" (StandardCalculator.floor libm)
  (register_function "log2" (StandardCalculator.log2 libm)
  (register_function "log" (StandardCalculator.log10 libm)
  (register_function "ln" (StandardCalculator.log libm)
  (register_function "exp" (StandardCalculator.exp libm)
  (register_function "abs" StandardCalculator.abs
  (register_function "cbrt" (StandardCalculator.cbrt libm)
  (register_function "sqrt" StandardCalculator.sqrt
  (register_function "tanh" (StandardCalculator.tanh libm)
  (register_function "cosh" (StandardCalculator.cosh libm)
  (register_function "sinh" (StandardCalculator.sinh libm)
  (register_function "atan" (StandardCalculator.atan libm)
  (register_function "acos" (StandardCalculator.acos libm)
  (register_function "asin" (StandardCalculator.asin libm)
  (register_function "tan" (StandardCalculator.tan libm)
  (register_function "cos" (StandardCalculator.cos libm)
  (register_function "sin" (StandardCalculator.sin libm)
     {| functions_ := ∅; constants_ := ∅ |}))))))))))))))))))))).

(** Fuel that suffices for an input of this length. *)
Definition fuel_for (expression : string) : nat := 3 * String.length expression + 3.

(** [evaluate]: [input_ = expression; pos_ = 0; return parse_expression();] *)
Definition evaluate (libm : std.cmath) (reg : registry) (expression : string)
    : option (outcome double) :=
  match parse_expression libm reg expression (fuel_for expression) 0 with
  | Some (r, _) => Some r
  | None => None
  end.

End ExpressionParser.

(** ** The error kinds of the specification, as the exceptions the code throws *)

Module EvalError.
Definition UnexpectedEnd : exception :=
  runtime_error "Unexpected end of expression".
Definition UnknownFunction (name : string) : exception :=
  runtime_error ("Unknown function: " +:+ name).
Definition UnknownIdentifier (name : string) : exception :=
  runtime_error ("Unknown identifier: " +:+ name).
Definition MismatchedParentheses : exception :=
  runtime_error "Mismatched parentheses".
Definition MismatchedCallParentheses : exception :=
  runtime_error "Mismatched parentheses in function call".
Definition InvalidNumberFormat : exception :=
  runtime_error "Invalid number format".
Definition DomainError (e : exception) : Prop :=
  match e with
  | domain_error _ => True
  | _ => False
  end.
End EvalError.

(** ** A C library to instantiate statements with

    It knows the integers: [pow] with a non-negative integer exponent is
    the repeated product, which is exact as long as the powers stay
    representable, and [fmod] of two integers is the remainder of the
    truncated division.  Everywhere else, and in every other function, it
    answers NaN; no statement depends on those answers. *)

Module SmallLibm.

(** The integer a finite float denotes, if it denotes one. *)
Definition integer_of (x : float) : option Z :=
  match Prim2SF x with
  | S754_zero _ => Some 0%Z
  | S754_finite s m e =>
      let v := if (0 <=? e)%Z then Some (Z.pos m * 2 ^ e)%Z
               else if (Z.pos m mod 2 ^ (- e) =? 0)%Z then Some (Z.pos m / 2 ^ (- e))%Z
               else None in
      if s then option_map Z.opp v else v
  | _ => None
  end.

(** The float nearest to an integer. *)
Definition of_integer (z : Z) : float :=
  SF2Prim (binary_normalize prec emax z 0%Z false).

Definition pow (x y : float) : float :=
  match integer_of y with
  | Some Z0 => 1%float
  | Some (Zpos n) => Pos.iter (fun acc => (acc * x)%float) 1%float n
  | _ => nan
  end.

Definition fmod (x y : float) : float :=
  match integer_of x, integer_of y with
  | Some a, Some b => if (b =? 0)%Z then nan else of_integer (Z.rem a b)
  | _, _ => nan
  end.

Definition unknown (x : float) : float := nan.

Definition libm : std.cmath :=
  {| std.pow := pow;
     std.fmod := fmod;
     std.cbrt := unknown; std.exp := unknown; std.log := unknown;
     std.log10 := unknown; std.log2 := unknown;
     std.sin := unknown; std.cos := unknown; std.tan := unknown;
     std.asin := unknown; std.acos := unknown; std.atan := unknown;
     std.sinh := unknown; std.cosh := unknown; std.tanh := unknown;
     std.floor := unknown; std.ceil := unknown; std.round := unknown;
     std.underflow_sets_erange := true |}.

End SmallLibm.

(** * Specification-side definitions *)

(** What is left of the input from a position on. *)
Fixpoint drop (n : nat) (s : string) : string :=
  match n with
  | O => s
  | S n' =>
      match s with
      | String _ s' => drop n' s'
      | EmptyString => EmptyString
      end
  end.

Fixpoint string_forall (p : ascii -> bool) (s : string) : bool :=
  match s with
  | String c s' => p c && string_forall p s'
  | EmptyString => true
  end.

(** [s] is empty or starts with a character that [p] rejects. *)
Definition stops_at (p : ascii -> bool) (s : string) : bool :=
  match s with
  | String c _ => negb (p c)
  | EmptyString => true
  end.

Module Cursor.
Section Predicates.

Variable input_ : string.

(** A computation keeps the cursor invariant when, started inside the
    input, it never moves the cursor back and never past the end --
    whether it returns or throws. *)
Definition keeps_bounds {A : Type} (m : parser A) : Prop :=
  forall pos r pos', pos <= String.length input_ -> m pos = Some (r, pos') ->
    pos <= pos' <= String.length input_.

(** The same, for a computation that is only run strictly before the end
    (after a successful bounds check). *)
Definition keeps_bounds_lt {A : Type} (m : parser A) : Prop :=
  forall pos r pos', pos < String.length input_ -> m pos = Some (r, pos') ->
    pos <= pos' <= String.length input_.

(** [m'] has every result of [m]. *)
Definition refines {A : Type} (m m' : parser A) : Prop :=
  forall pos r, m pos = Some r -> m' pos = Some r.

(** [m] has a result wherever three times the rest of the input is at
    most [b]. *)
Definition safe {A : Type} (b : nat) (m : parser A) : Prop :=
  forall pos, pos <= String.length input_ -> 3 * (String.length input_ - pos) <= b ->
    m pos <> None.

Definition safe_lt {A : Type} (b : nat) (m : parser A) : Prop :=
  forall pos, pos < String.length input_ -> 3 * (String.length input_ - pos) <= b ->
    m pos <> None.

Definition total {A : Type} (m : parser A) : Prop := forall pos, m pos <> None.

End Predicates.
End Cursor.

(** Where [skip_whitespace] leaves the cursor. *)
Definition after_blanks (input_ : string) (pos : nat) : nat :=
  ExpressionParser.skip_whitespace_loop input_ (String.length input_ - pos) pos.

(** The identifier that starts at [pos], and where it ends. *)
Definition identifier_at (input_ : string) (pos : nat) : string * nat :=
  ExpressionParser.name_loop input_ (String.length input_ - pos) EmptyString pos.

(** A character that continues nothing: no blank, no part of a number or
    of a name, no operator and no opening parenthesis. *)
Definition cannot_continue (c : ascii) : bool :=
  negb (isspace c || isalnum c || (c =? "_")%char || (c =? ".")%char ||
        (c =? "+")%char || (c =? "-")%char || (c =? "*")%char ||
        (c =? "/")%char || (c =? "%")%char || (c =? "^")%char ||
        (c =? "(")%char).

Module Trailing.
Section Predicates.

Variable s : string.

(** Every value [m1] returns from a position of [s], [m2] returns too,
    with the cursor at the same place. *)
Definition sim {A : Type} (m1 m2 : parser A) : Prop :=
  forall pos v pos', pos <= String.length s ->
    m1 pos = Some (Return v, pos') -> m2 pos = Some (Return v, pos').

Definition sim_lt {A : Type} (m1 m2 : parser A) : Prop :=
  forall pos v pos', pos < String.length s ->
    m1 pos = Some (Return v, pos') -> m2 pos = Some (Return v, pos').

Definition sim_at_end {A : Type} (m1 m2 : parser A) : Prop :=
  forall v pos',
    m1 (String.length s) = Some (Return v, pos') ->
    m2 (String.length s) = Some (Return v, pos').

End Predicates.
End Trailing.

(** ** Arithmetic expressions without parentheses

    The expressions of the first testable property: numeric literals
    joined by [+ - * / %], with any blanks around the literals.  An
    expression is a sum of terms and a term a product of literals; each
    tier is a first operand followed by (operator, operand) pairs, and its
    value folds the pairs into the operand from left to right. *)

Module Arithmetic.

Inductive multiplicative : Type := Times | Over | Modulo.
Inductive additive : Type := Plus | Minus.

Definition multiplicative_char (op : multiplicative) : ascii :=
  match op with
  | Times => "*"
  | Over => "/"
  | Modulo => "%"
  end%char.

Definition additive_char (op : additive) : ascii :=
  match op with
  | Plus => "+"
  | Minus => "-"
  end%char.

(** A literal -- mantissa and exponent part -- with the blanks around it. *)
Record operand : Type := {
  blanks_before : string;
  mantissa : string;
  exponent : string;
  blanks_after : string
}.

Record term : Type := {
  first_operand : operand;
  more_operands : list (multiplicative * operand)
}.

Record expression : Type := {
  first_term : term;
  more_terms : list (additive * term)
}.

(** *** Their text *)

Definition literal (x : operand) : string := mantissa x +:+ exponent x.

Definition render_operand (x : operand) : string :=
  blanks_before x +:+ (mantissa x +:+ (exponent x +:+ blanks_after x)).

Fixpoint render_operands (l : list (multiplicative * operand)) : string :=
  match l with
  | nil => EmptyString
  | (op, x) :: l' =>
      String (multiplicative_char op) (render_operand x +:+ render_operands l')
  end.

Definition render_term (t : term) : string :=
  render_operand (first_operand t) +:+ render_operands (more_operands t).

Fixpoint render_terms (l : list (additive * term)) : string :=
  match l with
  | nil => EmptyString
  | (op, t) :: l' => String (additive_char op) (render_term t +:+ render_terms l')
  end.

Definition render (e : expression) : string :=
  render_term (first_term e) +:+ render_terms (more_terms e).

(** A tower of powers: a literal, raised to a literal, raised to ... *)
Fixpoint render_powers (l : list operand) : string :=
  match l with
  | nil => EmptyString
  | y :: l' => String "^" (render_operand y +:+ render_powers l')
  end.

Definition render_tower (x : operand) (l : list operand) : string :=
  render_operand x +:+ render_powers l.

(** *** Well-formed literals: digits with at most one decimal point, then
    optionally [e] or [E], an optional sign and at least one digit *)

Fixpoint count_dots (s : string) : nat :=
  match s with
  | String c s' => (if (c =? ".")%char then 1 else 0) + count_dots s'
  | EmptyString => 0
  end.

Definition is_mantissa (s : string) : bool :=
  negb (String.eqb s EmptyString) &&
  string_forall (fun c => isdigit c || (c =? ".")%char) s &&
  (count_dots s <=? 1).

Definition is_digits (s : string) : bool :=
  negb (String.eqb s EmptyString) && string_forall isdigit s.

Definition is_exponent (s : string) : bool :=
  match s with
  | EmptyString => true
  | String marker s1 =>
      ((marker =? "e")%char || (marker =? "E")%char) &&
      match s1 with
      | String sign s2 =>
          if (sign =? "+")%char || (sign =? "-")%char then is_digits s2
          else is_digits s1
      | EmptyString => false
      end
  end.

Definition well_formed_operand (x : operand) : bool :=
  string_forall isspace (blanks_before x) && is_mantissa (mantissa x) &&
  is_exponent (exponent x) && string_forall isspace (blanks_after x).

Definition well_formed_term (t : term) : bool :=
  well_formed_operand (first_operand t) &&
  forallb (fun p => well_formed_operand (snd p)) (more_operands t).

Definition well_formed (e : expression) : bool :=
  well_formed_term (first_term e) &&
  forallb (fun p => well_formed_term (snd p)) (more_terms e).

(** *** Their value *)

Section Value.

Variable libm : std.cmath.

Definition and_then {A B : Type} (r : outcome A) (k : A -> outcome B) : outcome B :=
  match r with
  | Return a => k a
  | Throw e => Throw e
  end.

(** What the literal converts to. *)
Definition operand_value (x : operand) : outcome double :=
  match std.stod libm (literal x) with
  | Return v => Return v
  | Throw _ => Throw (runtime_error ("Invalid number: " +:+ literal x))
  end.

(** Where the cursor is after an operand: after its blanks if it has a
    value, after its literal if converting it throws. *)
Definition operand_end (x : operand) (pos : nat) : nat :=
  match operand_value x with
  | Return _ => pos + String.length (render_operand x)
  | Throw _ => pos + String.length (blanks_before x) + String.length (literal x)
  end.

Definition apply_multiplicative (op : multiplicative) (a b : double) : outcome double :=
  match op with
  | Times => Return (StandardCalculator.multiply a b)
  | Over => StandardCalculator.divide a b
  | Modulo => StandardCalculator.modulo libm a b
  end.

Definition apply_additive (op : additive) (a b : double) : double :=
  match op with
  | Plus => StandardCalculator.add a b
  | Minus => StandardCalculator.subtract a b
  end.

Fixpoint fold_operands (acc : double) (l : list (multiplicative * operand))
    : outcome double :=
  match l with
  | nil => Return acc
  | (op, x) :: l' =>
      and_then (operand_value x) (fun v =>
      and_then (apply_multiplicative op acc v) (fun acc' =>
      fold_operands acc' l'))
  end.

Definition term_value (t : term) : outcome double :=
  and_then (operand_value (first_operand t)) (fun v =>
  fold_operands v (more_operands t)).

Fixpoint fold_terms (acc : double) (l : list (additive * term)) : outcome double :=
  match l with
  | nil => Return acc
  | (op, t) :: l' =>
      and_then (term_value t) (fun v => fold_terms (apply_additive op acc v) l')
  end.

Definition value (e : expression) : outcome double :=
  and_then (term_value (first_term e)) (fun v => fold_terms v (more_terms e)).

(** The value of a tower, from the right: the exponent of each literal is
    the whole tower above it. *)
Fixpoint tower_value (x : operand) (l : list operand) : outcome double :=
  match l with
  | nil => operand_value x
  | y :: l' =>
      and_then (operand_value x) (fun base =>
      and_then (tower_value y l') (fun exponent =>
      Return (StandardCalculator.power libm base exponent)))
  end.

End Value.

(** *** Fuel that suffices for them *)

Definition term_fuel (t : term) : nat := List.length (more_operands t) + 3.

Fixpoint terms_fuel (l : list (additive * term)) : nat :=
  match l with
  | nil => 1
  | (_, t) :: l' => S (Nat.max (term_fuel t) (terms_fuel l'))
  end.

Definition expression_fuel (e : expression) : nat :=
  S (Nat.max (term_fuel (first_term e)) (terms_fuel (more_terms e))).

End Arithmetic.

(** The characters that would continue an operand, a term, an expression
    of the arithmetic fragment. *)
Definition continues_literal (c : ascii) : bool :=
  isdigit c || (c =? ".")%char || (c =? "e")%char || (c =? "E")%char.

Definition continues_operand (c : ascii) : bool :=
  isspace c || continues_literal c || (c =? "^")%char.

Definition continues_term (c : ascii) : bool :=
  continues_operand c || (c =? "*")%char || (c =? "/")%char || (c =? "%")%char.

Definition continues_expression (c : ascii) : bool :=
  continues_term c || (c =? "+")%char || (c =? "-")%char.

(** ** Sample texts to instantiate the statements with *)

Module Samples.
Import Arithmetic.

Definition spaced (before mantissa exponent after : string) : operand :=
  {| blanks_before := before; mantissa := mantissa; exponent := exponent;
     blanks_after := after |}.

(** The text [ 10 - 2.5e1 /4* 2 -1 ], blanks included. *)
Definition sum : expression :=
  {| first_term := {| first_operand := spaced " " "10" "" " "; more_operands := nil |};
     more_terms :=
       (Minus, {| first_operand := spaced " " "2.5" "e1" " ";
                  more_operands := (Over, spaced "" "4" "" "")
                                   :: (Times, spaced " " "2" "" " ") :: nil |})
       :: (Minus, {| first_operand := spaced "" "1" "" " "; more_operands := nil |})
       :: nil |}.

(** The text [ 4 ^ 0.5e1^1 ]. *)
Definition tower_base : operand := spaced " " "4" "" " ".
Definition tower_exponents : list operand :=
  spaced " " "0.5" "e1" "" :: spaced "" "1" "" " " :: nil.

End Samples.

(** A library for the unregistered members to instantiate statements with;
    it answers NaN everywhere. *)
Module SmallInverse.
Definition libm' : std.cmath_inverse :=
  {| std.exp2 := SmallLibm.unknown;
     std.atan2 := fun _ => SmallLibm.unknown;
     std.asinh := SmallLibm.unknown;
     std.acosh := SmallLibm.unknown;
     std.atanh := SmallLibm.unknown |}.
End SmallInverse.

(** ** The read-eval-print loop of [main]

    The loop of [main.cpp] from the first prompt on.  What it writes is
    the sequence of the operands of [<<], on [std::cout] or [std::cerr],
    and the commands handed to [std::system]; how a [double] is formatted
    is left to the stream.  The lines are what [std::getline] returns until
    it fails at the end of the input. *)

(** [std::exception::what] *)
Definition what (e : exception) : string :=
  match e with
  | runtime_error w | domain_error w | invalid_argument w | out_of_range w => w
  end.

Module Main.
Import ExpressionParser.

Inductive item : Type :=
| text (s : string)
| number (value : double)
| endl.

Inductive effect : Type :=
| cout (v : item)
| cerr (v : item)
| system (command : string).

(** [std::cout << s << std::endl] *)
Definition line (s : string) : list effect := cout (text s) :: cout endl :: nil.

Definition print_banner : list effect :=
  line "========================================" ++
  line "  Advanced Calculator - M-Series Build" ++
  line "  Hardware Accelerated Computing" ++
  line "========================================" ++
  cout endl :: nil.

Definition print_help : list effect :=
  line "Available Commands:" ++
  line "  help       - Show this help message" ++
  line "  exit/quit  - Exit the calculator" ++
  line "  clear      - Clear the screen" ++
  line "  gpu        - Toggle GPU acceleration" ++
  line "  mode       - Switch calculation mode" ++
  line (String "010" "Modes:") ++
  line "  standard   - Standard precision (double)" ++
  line "  complex    - Complex number calculations" ++
  line "  matrix     - Matrix operations" ++
  line "  symbolic   - Symbolic mathematics" ++
  line (String "010" "Examples:") ++
  line "  2 + 2 * 3" ++
  line "  sin(pi/2)" ++
  line "  sqrt(144)" ++
  line "  ln(e^2)" ++
  cout endl :: nil.

(** *** The members of [std::string] the loop calls *)

(** The argument [" \t"] of the two searches. *)
Definition blank_or_tab : string := String " " (String "009" EmptyString).

Fixpoint contains (chars : string) (c : ascii) : bool :=
  match chars with
  | String a chars' => (c =? a)%char || contains chars' c
  | EmptyString => false
  end.

(** [s.find_first_not_of(chars)]; [None] is [npos]. *)
Fixpoint find_first_not_of (chars s : string) : option nat :=
  match s with
  | String c s' =>
      if contains chars c then option_map S (find_first_not_of chars s')
      else Some 0
  | EmptyString => None
  end.

(** [s.find_last_not_of(chars)]; [None] is [npos]. *)
Fixpoint find_last_not_of (chars s : string) : option nat :=
  match s with
  | String c s' =>
      match find_last_not_of chars s' with
      | Some i => Some (S i)
      | None => if contains chars c then None else Some 0
      end
  | EmptyString => None
  end.

(** [s.erase(0, n)]: the first [n] characters go, all of them when [n] is
    [npos]. *)
Definition erase_front (n : option nat) (s : string) : string :=
  match n with
  | Some n => drop n s
  | None => EmptyString
  end.

(** [s.erase(i + 1)] for the result [i] of a search: everything behind
    position [i] goes; [npos + 1] wraps around to zero and everything
    goes. *)
Definition erase_behind (i : option nat) (s : string) : string :=
  match i with
  | Some i => String.substring 0 (S i) s
  | None => EmptyString
  end.

(** The two statements under "Trim whitespace". *)
Definition trim (input : string) : string :=
  let input := erase_front (find_first_not_of blank_or_tab input) input in
  erase_behind (find_last_not_of blank_or_tab input) input.

(** *** The loop *)

Record state : Type := {
  mode : string;
  gpu_enabled : bool
}.

Definition prompt (st : state) : list effect :=
  cout (text "[") :: cout (text (mode st)) :: cout (text "]") ::
  (if gpu_enabled st then cout (text "[GPU]") :: nil else nil) ++
  cout (text " > ") :: nil.

Section Loop.

Variable libm : std.cmath.

(** The body of the loop after [std::getline] has read [input]: what it
    writes, and the state the loop goes on with -- none after [break].
    The parser is the one [main] constructs and never registers anything
    with; [evaluate] always has an outcome, the last case is never
    taken. *)
Definition step (st : state) (input : string) : list effect * option state :=
  let input := trim input in
  if String.eqb input "" then (nil, Some st)
  else if String.eqb input "exit" || String.eqb input "quit" then
    (line "Goodbye!", None)
  else if String.eqb input "help" then (print_help, Some st)
  else if String.eqb input "clear" then (system "clear" :: print_banner, Some st)
  else if String.eqb input "gpu" then
    let gpu_enabled := negb (gpu_enabled st) in
    (cout (text "GPU acceleration: ") ::
     cout (text (if gpu_enabled then "ENABLED" else "DISABLED")) ::
     cout endl :: nil,
     Some {| mode := mode st; gpu_enabled := gpu_enabled |})
  else if String.prefix "mode " input then
    let mode := drop 5 input in
    (cout (text "Switched to ") :: cout (text mode) :: cout (text " mode") ::
     cout endl :: nil,
     Some {| mode := mode; gpu_enabled := gpu_enabled st |})
  else
    match evaluate libm (new libm) input with
    | Some (Return result) =>
        (cout (text "Result: ") :: cout (number result) :: cout endl :: nil, Some st)
    | Some (Throw e) =>
        (cerr (text "Error: ") :: cerr (text (what e)) :: cerr endl :: nil, Some st)
    | None => (nil, Some st)
    end.

(** [while (true)]: the prompt, then [break] at the end of the input, or
    the body. *)
Fixpoint loop (st : state) (lines : list string) : list effect :=
  prompt st ++
  match lines with
  | nil => nil
  | input :: rest =>
      let '(out, next) := step st input in
      out ++ match next with
             | Some st' => loop st' rest
             | None => nil
             end
  end.

(** The loop from its initial state; [gpu] is
    [metal && metal->is_available()]. *)
Definition session (gpu : bool) (lines : list string) : list effect :=
  loop {| mode := "standard"; gpu_enabled := gpu |} lines.

End Loop.
End Main.

(** ** The two matrix products

    [MatrixCalculator::multiply] and [MetalInterface::matrix_multiply] are
    the same three loops, over [double] and over [float]; the text of the
    loops is embedded once, over the element type.  Matrices are vectors in
    row-major order.  The three vectors are passed by reference: they live
    in a store, a reference is the address of a vector, and nothing keeps
    [result] from being one of the operands, or the operands from being the
    same vector.  Every read of an element is a read of the store as the
    writes before it have left it.  An index is a [size_t] of 64 bits: its
    product and its sum wrap around.  [operator[]] outside the vector is
    undefined behaviour; the model has no result there, and none for a
    reference to no vector.  Memory is not bounded: [resize] always
    succeeds. *)

Definition size_t (n : N) : N := (n mod 2 ^ 64)%N.

Module RowMajor.

Definition address : Type := nat.

Section Multiply.

Variable T : Type.

Definition store : Type := gmap address (list T).

(** [0.0], or [0.0f] *)
Variable zero : T.

(** [sum += x * y] as the compiler translates it: the product rounded and
    then the sum, or both fused into one operation. *)
Variable multiply_add : T -> T -> T -> T.

(** The message of the exception. *)
Variable mismatch : string.

Variable a : address.
Variable a_rows a_cols : N.
Variable b : address.
Variable b_rows b_cols : N.
Variable result : address.

(** [v[index]], read *)
Definition element (m : store) (v : address) (index : N) : option T :=
  elements ← m !! v;
  elements !! N.to_nat index.

(** [v[index] = x] *)
Definition assign (m : store) (v : address) (index : N) (x : T) : option store :=
  elements ← m !! v;
  if decide (N.to_nat index < length elements)
  then Some (<[v := <[N.to_nat index := x]> elements]> m)
  else None.

(** [v.resize(n, x)] *)
Definition resize_to (m : store) (v : address) (n : N) (x : T) : option store :=
  elements ← m !! v;
  Some (<[v := resize (N.to_nat n) x elements]> m).

(** [for (size_t k = ...; k < a_cols; ++k)], with [n] rounds to go *)
Fixpoint loop_k (m : store) (i j : N) (n : nat) (k : N) (sum : T) : option T :=
  match n with
  | O => Some sum
  | S n' =>
      x ← element m a (size_t (size_t (i * a_cols) + k));
      y ← element m b (size_t (size_t (k * b_cols) + j));
      loop_k m i j n' (k + 1)%N (multiply_add sum x y)
  end.

(** [for (size_t j = ...; j < b_cols; ++j)] *)
Fixpoint loop_j (i : N) (n : nat) (j : N) (m : store) : option store :=
  match n with
  | O => Some m
  | S n' =>
      sum ← loop_k m i j (N.to_nat a_cols) 0%N zero;
      m' ← assign m result (size_t (size_t (i * b_cols) + j)) sum;
      loop_j i n' (j + 1)%N m'
  end.

(** [for (size_t i = ...; i < a_rows; ++i)] *)
Fixpoint loop_i (n : nat) (i : N) (m : store) : option store :=
  match n with
  | O => Some m
  | S n' =>
      m' ← loop_j i (N.to_nat b_cols) 0%N m;
      loop_i n' (i + 1)%N m'
  end.

Definition multiply (m : store) : option (outcome unit * store) :=
  if negb (a_cols =? b_rows)%N
  then Some (Throw (runtime_error mismatch), m)
  else
    m ← resize_to m result (size_t (a_rows * b_cols)) zero;
    m' ← loop_i (N.to_nat a_rows) 0%N m;
    Some (Return tt, m').

End Multiply.
End RowMajor.

Module MatrixCalculator.

(** [sum += x * y], not fused. *)
Definition rounded_twice (sum x y : double) : double := (sum + x * y)%float.

Definition multiply (multiply_add : double -> double -> double -> double) :=
  RowMajor.multiply double 0%float multiply_add "Matrix dimension mismatch".

End MatrixCalculator.

Module MetalInterface.

(** [float] is IEEE 754 binary32. *)
Definition float : Type := spec_float.

Definition rounded_twice (sum x y : float) : float :=
  SFadd 24 128 sum (SFmul 24 128 x y).

Definition matrix_multiply (multiply_add : float -> float -> float -> float) :=
  RowMajor.multiply float (S754_zero false) multiply_add
    "Matrix dimensions don't match".

End MetalInterface.

(** ** Identifiers, calls and groups *)

(** A character of a name: letter, digit or underscore. *)
Definition name_char (c : ascii) : bool := isalnum c || (c =? "_")%char.

(** What the identifier loop of [parse_factor] reads as one name: a letter
    followed by name characters. *)
Definition is_identifier (s : string) : bool :=
  match s with
  | String c s' => isalpha c && string_forall name_char s'
  | EmptyString => false
  end.

(** A character that starts no factor: no blank, sign, parenthesis, letter,
    digit or decimal point. *)
Definition starts_no_factor (c : ascii) : bool :=
  negb (isspace c || isalpha c || isdigit c || (c =? ".")%char ||
        (c =? "+")%char || (c =? "-")%char || (c =? "(")%char).

(** [n] copies of a character. *)
Fixpoint replicate_char (n : nat) (c : ascii) : string :=
  match n with
  | O => EmptyString
  | S n' => String c (replicate_char n' c)
  end.

(** The text of a call: the name, blanks, and the argument in parentheses. *)
Definition render_call (name blanks : string) (argument : Arithmetic.expression)
    : string :=
  name +:+ (blanks +:+ String "(" (Arithmetic.render argument +:+ ")")).

(** What a call evaluates to: the argument first, then the lookup. *)
Definition call_value (libm : std.cmath) (reg : ExpressionParser.registry)
    (name : string) (argument : Arithmetic.expression) : outcome double :=
  Arithmetic.and_then (Arithmetic.value libm argument) (fun v =>
    match ExpressionParser.functions_ reg !! name with
    | Some func => func v
    | None => Throw (EvalError.UnknownFunction name)
    end).

(** Sample texts with names *)
Module CallSamples.
Import Arithmetic Samples.

(** The argument text [ 1 + 2*3 ]. *)
Definition argument : expression :=
  {| first_term := {| first_operand := spaced " " "1" "" " "; more_operands := nil |};
     more_terms :=
       (Plus, {| first_operand := spaced " " "2" "" "";
                 more_operands := (Times, spaced "" "3" "" " ") :: nil |})
       :: nil |}.

Definition twice (x : double) : outcome double := Return (x * 2)%float.

End CallSamples.

(** ** The exceptions of an evaluation *)

Module Errors.

(** What the parser itself throws. *)
Definition syntax_error (e : exception) : Prop :=
  e = EvalError.UnexpectedEnd \/ e = EvalError.MismatchedParentheses \/
  e = EvalError.MismatchedCallParentheses \/ e = EvalError.InvalidNumberFormat \/
  e = runtime_error "Expected number" \/
  (exists token, e = runtime_error ("Invalid number: " +:+ token)) \/
  (exists name, e = EvalError.UnknownFunction name) \/
  (exists name, e = EvalError.UnknownIdentifier name).

(** What the two checked operators throw. *)
Definition arithmetic_error (e : exception) : Prop :=
  e = domain_error "Division by zero" \/ e = domain_error "Modulo by zero".

(** What a registered function throws on some argument. *)
Definition function_error (reg : ExpressionParser.registry) (e : exception) : Prop :=
  exists name func x,
    ExpressionParser.functions_ reg !! name = Some func /\ func x = Throw e.

Definition evaluate_error (reg : ExpressionParser.registry) (e : exception) : Prop :=
  syntax_error e \/ arithmetic_error e \/ function_error reg e.

(** The messages of the domain checks of [StandardCalculator]. *)
Definition domain_messages : list string :=
  "Division by zero" :: "Modulo by zero" :: "Square root of negative number" ::
  "Logarithm of non-positive number" ::
  "asin domain error: x must be in [-1, 1]" ::
  "acos domain error: x must be in [-1, 1]" :: nil.

(** A computation that throws nothing outside [P]. *)
Definition throws_within {A : Type} (P : exception -> Prop) (m : parser A) : Prop :=
  forall pos e pos', m pos = Some (Throw e, pos') -> P e.

End Errors.

(** ** The built-in names, in the order of the constructor *)

Module Builtin.
Section Tables.

Variable libm : std.cmath.

Definition functions : list (string * (double -> outcome double)) :=
  ("sin", StandardCalculator.sin libm) :: ("cos", StandardCalculator.cos libm) ::
  ("tan", StandardCalculator.tan libm) :: ("asin", StandardCalculator.asin libm) ::
  ("acos", StandardCalculator.acos libm) :: ("atan", StandardCalculator.atan libm) ::
  ("sinh", StandardCalculator.sinh libm) :: ("cosh", StandardCalculator.cosh libm) ::
  ("tanh", StandardCalculator.tanh libm) :: ("sqrt", StandardCalculator.sqrt) ::
  ("cbrt", StandardCalculator.cbrt libm) :: ("abs", StandardCalculator.abs) ::
  ("exp", StandardCalculator.exp libm) :: ("ln", StandardCalculator.log libm) ::
  ("log", StandardCalculator.log10 libm) :: ("log2", StandardCalculator.log2 libm) ::
  ("floor", StandardCalculator.floor libm) :: ("ceil", StandardCalculator.ceil libm) ::
  ("round", StandardCalculator.round libm) :: nil.

Definition constants : list (string * double) :=
  ("pi", StandardCalculator.PI) :: ("e", StandardCalculator.E) ::
  ("phi", StandardCalculator.GOLDEN_RATIO) :: nil.

End Tables.

(** The built-in functions with a domain check. *)
Definition checked : list string :=
  "asin" :: "acos" :: "sqrt" :: "ln" :: "log" :: "log2" :: nil.

End Builtin.

(** ** Classes of floating-point numbers *)

Module Class.

(** Negative and not zero: a negative finite number or minus infinity. *)
Definition negative (x : double) : bool :=
  match Prim2SF x with
  | S754_finite true _ _ | S754_infinity true => true
  | _ => false
  end.

(** One of the two zeros. *)
Definition zero (x : double) : bool :=
  match Prim2SF x with
  | S754_zero _ => true
  | _ => false
  end.

End Class.

(** ** The same text at another place

    A run on a text and a run on the same text after a prefix of length
    [k]: what they return, and where the cursor is, [k] further. *)

Module Shift.

Definition shifted {A : Type} (k : nat) (r : option (outcome A * nat))
    : option (outcome A * nat) :=
  match r with
  | Some (o, p) => Some (o, k + p)
  | None => None
  end.

Definition agrees {A : Type} (k : nat) (m m' : parser A) : Prop :=
  forall pos, m' (k + pos) = shifted k (m pos).

End Shift.

(** ** The same text followed by one blank

    The cursor of a run on a text [s] and the cursor of a run on [s]
    followed by one blank are at the same place, or one is at the end of
    [s] and the other behind the blank. *)

Module Padded.
Section Predicates.

Variable s : string.

Definition same_place (pos pos' : nat) : Prop :=
  pos' = pos \/ (pos = String.length s /\ pos' = S (String.length s)).

(** Whatever [m] ends in from a place in [s], [m'] ends in from the same
    place. *)
Definition sim {A : Type} (m m' : parser A) : Prop :=
  forall pos pos' o q,
    pos <= String.length s -> same_place pos pos' -> m pos = Some (o, q) ->
    exists q', m' pos' = Some (o, q') /\ same_place q q'.

Definition sim_lt {A : Type} (m m' : parser A) : Prop :=
  forall pos o q,
    pos < String.length s -> m pos = Some (o, q) ->
    exists q', m' pos = Some (o, q') /\ same_place q q'.

End Predicates.
End Padded.

(** ** Lines of the read-eval-print loop *)

Module Repl.

(** A blank or a tab: what [main] trims. *)
Definition blank (c : ascii) : bool := Main.contains Main.blank_or_tab c.

Fixpoint last (s : string) : option ascii :=
  match s with
  | EmptyString => None
  | String c EmptyString => Some c
  | String _ s' => last s'
  end.

(** Neither the first nor the last character is a blank or a tab. *)
Definition trimmed (s : string) : bool :=
  stops_at blank s &&
  match last s with
  | Some c => negb (blank c)
  | None => true
  end.

(** A trimmed line that the loop does not hand to the parser. *)
Definition is_command (input : string) : bool :=
  String.eqb input "" || String.eqb input "exit" || String.eqb input "quit" ||
  String.eqb input "help" || String.eqb input "clear" || String.eqb input "gpu" ||
  String.prefix "mode " input.

(** What the loop writes about the outcome of an evaluation. *)
Definition report (r : outcome double) : list Main.effect :=
  match r with
  | Return result =>
      Main.cout (Main.text "Result: ") :: Main.cout (Main.number result) ::
      Main.cout Main.endl :: nil
  | Throw e =>
      Main.cerr (Main.text "Error: ") :: Main.cerr (Main.text (what e)) ::
      Main.cerr Main.endl :: nil
  end.

End Repl.

(** ** The product of two matrices in row-major order *)

Module Product.
Section Product.

Variable T : Type.
Variable zero : T.
Variable multiply_add : T -> T -> T -> T.

Variable a b : list T.
Variable rows inner cols : nat.

(** Row [i] of [a] times column [j] of [b], summed up in the order of the
    columns of [a]. *)
Definition entry (i j : nat) : T :=
  fold_left
    (fun sum k => multiply_add sum (nth (i * inner + k) a zero)
                                   (nth (k * cols + j) b zero))
    (seq 0 inner) zero.

Definition product : list T :=
  flat_map (fun i => map (entry i) (seq 0 cols)) (seq 0 rows).

End Product.

(** The vectors have the sizes the dimensions say, the inner dimensions
    agree, and every size is a [size_t]. *)
Definition well_sized {T : Type} (a : list T) (a_rows a_cols : N)
    (b : list T) (b_rows b_cols : N) : Prop :=
  a_cols = b_rows /\
  N.of_nat (length a) = (a_rows * a_cols)%N /\
  N.of_nat (length b) = (b_rows * b_cols)%N /\
  (a_rows * a_cols < 2 ^ 64)%N /\ (b_rows * b_cols < 2 ^ 64)%N /\
  (a_rows * b_cols < 2 ^ 64)%N.

End Product.

(** Sample matrices: a 2 x 3 and a 3 x 2 matrix of small integers and a
    vector of stale elements, at three addresses of a store; two square
    matrices; an empty vector beside a 1 x 1 matrix. *)
Module MatrixSamples.
Definition a : list double := (1 :: 2 :: 3 :: 4 :: 5 :: 6 :: nil)%float.
Definition b : list double := (7 :: 8 :: 9 :: 10 :: 11 :: 12 :: nil)%float.
Definition stale : list double := (99 :: 99 :: 99 :: 99 :: 99 :: 99 :: 99 :: nil)%float.
Definition memory : RowMajor.store double :=
  <[0 := a]> (<[1 := b]> (<[2 := stale]> ∅)).

Definition square_a : list double := (1 :: 2 :: 3 :: 4 :: nil)%float.
Definition square_b : list double := (5 :: 6 :: 7 :: 8 :: nil)%float.
Definition squares : RowMajor.store double :=
  <[0 := square_a]> (<[1 := square_b]> ∅).

Definition short : RowMajor.store double :=
  <[0 := nil]> (<[1 := (5 :: nil)%float]> ∅).
End MatrixSamples.

(** ** Signs before a factor *)

Module Signs.

Inductive sign : Type := Positive | Negative.

Definition sign_char (s : sign) : ascii :=
  match s with
  | Positive => "+"
  | Negative => "-"
  end%char.

Fixpoint render_signs (signs : list sign) : string :=
  match signs with
  | nil => EmptyString
  | s :: signs' => String (sign_char s) (render_signs signs')
  end.

(** The signs applied from the innermost to the outermost. *)
Fixpoint apply_signs (signs : list sign) (v : double) : double :=
  match signs with
  | nil => v
  | Positive :: signs' => apply_signs signs' v
  | Negative :: signs' => (- apply_signs signs' v)%float
  end.

End Signs.

(** ** The grammar

    The syntax trees of the language the parser reads, with the
    whitespace that may stand before each token:

      expression ::= term { ("+" | "-") term }
      term       ::= factor { ("*" | "/" | "%") factor }
      factor     ::= number [ "^" factor ] | ("+" | "-") factor
                   | "(" expression ")" [ "^" factor ]
                   | name | name "(" expression ")"

    The operators of a tier nest to the left, as the loops apply them. *)

Module Syntax.

Inductive factor : Type :=
| Number (blanks mantissa exponent : string)
| NumberPower (blanks mantissa exponent blanks_caret : string) (power : factor)
| Signed (blanks : string) (s : Signs.sign) (f : factor)
| Group (blanks : string) (e : expression) (blanks_close : string)
| GroupPower (blanks : string) (e : expression) (blanks_close blanks_caret : string)
    (power : factor)
| Constant (blanks name : string)
| Call (blanks name blanks_open : string) (argument : expression)
    (blanks_close : string)
with term : Type :=
| Single (f : factor)
| Product (t : term) (blanks : string) (op : Arithmetic.multiplicative) (f : factor)
with expression : Type :=
| Term (t : term)
| Sum (e : expression) (blanks : string) (op : Arithmetic.additive) (t : term).

(** *** The text of a tree *)

Fixpoint render_factor (f : factor) : string :=
  match f with
  | Number blanks mantissa exponent => blanks +:+ (mantissa +:+ exponent)
  | NumberPower blanks mantissa exponent blanks_caret power =>
      blanks +:+ (mantissa +:+ (exponent +:+ (blanks_caret +:+
        String "^" (render_factor power))))
  | Signed blanks s f => blanks +:+ String (Signs.sign_char s) (render_factor f)
  | Group blanks e blanks_close =>
      blanks +:+ String "(" (render_expression e +:+ (blanks_close +:+ ")"))
  | GroupPower blanks e blanks_close blanks_caret power =>
      blanks +:+ String "(" (render_expression e +:+ (blanks_close +:+
        String ")" (blanks_caret +:+ String "^" (render_factor power))))
  | Constant blanks name => blanks +:+ name
  | Call blanks name blanks_open argument blanks_close =>
      blanks +:+ (name +:+ (blanks_open +:+
        String "(" (render_expression argument +:+ (blanks_close +:+ ")"))))
  end
with render_term (t : term) : string :=
  match t with
  | Single f => render_factor f
  | Product t blanks op f =>
      render_term t +:+ (blanks +:+
        String (Arithmetic.multiplicative_char op) (render_factor f))
  end
with render_expression (e : expression) : string :=
  match e with
  | Term t => render_term t
  | Sum e blanks op t =>
      render_expression e +:+ (blanks +:+
        String (Arithmetic.additive_char op) (render_term t))
  end.

(** *** Well-formed trees: whitespace where whitespace is, literals that
    are literals, names that are names *)

Definition blanks_ok (s : string) : bool := string_forall isspace s.

Definition literal_ok (mantissa exponent : string) : bool :=
  Arithmetic.is_mantissa mantissa && Arithmetic.is_exponent exponent.

Fixpoint well_formed_factor (f : factor) : bool :=
  match f with
  | Number blanks mantissa exponent => blanks_ok blanks && literal_ok mantissa exponent
  | NumberPower blanks mantissa exponent blanks_caret power =>
      blanks_ok blanks && literal_ok mantissa exponent && blanks_ok blanks_caret &&
      well_formed_factor power
  | Signed blanks _ f => blanks_ok blanks && well_formed_factor f
  | Group blanks e blanks_close =>
      blanks_ok blanks && well_formed_expression e && blanks_ok blanks_close
  | GroupPower blanks e blanks_close blanks_caret power =>
      blanks_ok blanks && well_formed_expression e && blanks_ok blanks_close &&
      blanks_ok blanks_caret && well_formed_factor power
  | Constant blanks name => blanks_ok blanks && is_identifier name
  | Call blanks name blanks_open argument blanks_close =>
      blanks_ok blanks && is_identifier name && blanks_ok blanks_open &&
      well_formed_expression argument && blanks_ok blanks_close
  end
with well_formed_term (t : term) : bool :=
  match t with
  | Single f => well_formed_factor f
  | Product t blanks _ f =>
      well_formed_term t && blanks_ok blanks && well_formed_factor f
  end
with well_formed_expression (e : expression) : bool :=
  match e with
  | Term t => well_formed_term t
  | Sum e blanks _ t =>
      well_formed_expression e && blanks_ok blanks && well_formed_term t
  end.

(** *** The value of a tree: from left to right, the first exception
    ends the evaluation *)

Section Value.

Variable libm : std.cmath.
Variable reg : ExpressionParser.registry.

Definition number_value (mantissa exponent : string) : outcome double :=
  match std.stod libm (mantissa +:+ exponent) with
  | Return v => Return v
  | Throw _ => Throw (runtime_error ("Invalid number: " +:+ (mantissa +:+ exponent)))
  end.

Definition power_value (base : outcome double) (exponent : outcome double)
    : outcome double :=
  Arithmetic.and_then base (fun x =>
  Arithmetic.and_then exponent (fun y =>
  Return (StandardCalculator.power libm x y))).

Fixpoint value_factor (f : factor) : outcome double :=
  match f with
  | Number _ mantissa exponent => number_value mantissa exponent
  | NumberPower _ mantissa exponent _ power =>
      power_value (number_value mantissa exponent) (value_factor power)
  | Signed _ s f =>
      Arithmetic.and_then (value_factor f) (fun v =>
      Return match s with
             | Signs.Negative => (- v)%float
             | Signs.Positive => v
             end)
  | Group _ e _ => value_expression e
  | GroupPower _ e _ _ power => power_value (value_expression e) (value_factor power)
  | Constant _ name =>
      match ExpressionParser.constants_ reg !! name with
      | Some value => Return value
      | None => Throw (EvalError.UnknownIdentifier name)
      end
  | Call _ name _ argument _ =>
      Arithmetic.and_then (value_expression argument) (fun v =>
      match ExpressionParser.functions_ reg !! name with
      | Some func => func v
      | None => Throw (EvalError.UnknownFunction name)
      end)
  end
with value_term (t : term) : outcome double :=
  match t with
  | Single f => value_factor f
  | Product t _ op f =>
      Arithmetic.and_then (value_term t) (fun x =>
      Arithmetic.and_then (value_factor f) (fun y =>
      Arithmetic.apply_multiplicative libm op x y))
  end
with value_expression (e : expression) : outcome double :=
  match e with
  | Term t => value_term t
  | Sum e _ op t =>
      Arithmetic.and_then (value_expression e) (fun x =>
      Arithmetic.and_then (value_term t) (fun y =>
      Return (Arithmetic.apply_additive op x y)))
  end.

End Value.

(** *** Fuel that suffices for a tree *)

Fixpoint fuel_factor (f : factor) : nat :=
  match f with
  | Number _ _ _ => 1
  | NumberPower _ _ _ _ power => S (fuel_factor power)
  | Signed _ _ f => S (fuel_factor f)
  | Group _ e _ => S (S (fuel_expression e))
  | GroupPower _ e _ _ power => S (S (fuel_expression e) + fuel_factor power)
  | Constant _ _ => 1
  | Call _ _ _ argument _ => S (S (fuel_expression argument))
  end
with fuel_term (t : term) : nat :=
  match t with
  | Single f => S (fuel_factor f)
  | Product t _ _ f => fuel_term t + S (fuel_factor f)
  end
with fuel_expression (e : expression) : nat :=
  match e with
  | Term t => S (S (fuel_term t))
  | Sum e _ _ t => fuel_expression e + S (S (fuel_term t))
  end.

(** *** What the productions do on the text of a tree *)

(** What may follow a factor or a term in a text, after whitespace: the
    end, an operator or a closing parenthesis; and what may follow an
    expression. *)
Definition delimiter (c : ascii) : bool :=
  (c =? "+")%char || (c =? "-")%char || (c =? "*")%char || (c =? "/")%char ||
  (c =? "%")%char || (c =? ")")%char.

Definition closes_term (c : ascii) : bool :=
  (c =? "+")%char || (c =? "-")%char || (c =? ")")%char.

Definition follows (p : ascii -> bool) (rest : string) : Prop :=
  exists blanks rest',
    rest = blanks +:+ rest' /\ string_forall isspace blanks = true /\
    stops_at (fun c => negb (p c)) rest' = true.

Section Productions.

Variable libm : std.cmath.
Variable reg : ExpressionParser.registry.
Variable input_ : string.

(** The cursor is where a text ends, or after the whitespace that
    follows it. *)
Definition lands (cursor text_end : nat) : Prop :=
  cursor = text_end \/ cursor = after_blanks input_ text_end.

(** [parse_factor] on the text of a factor. *)
Definition factor_ok (f : factor) : Prop :=
  forall pos rest n,
    well_formed_factor f = true ->
    drop pos input_ = render_factor f +:+ rest -> follows delimiter rest ->
    fuel_factor f <= n ->
    match value_factor libm reg f with
    | Return v =>
        exists cursor,
          ExpressionParser.parse_factor libm reg input_ n pos = Some (Return v, cursor) /\
          lands cursor (pos + String.length (render_factor f))
    | Throw e =>
        exists cursor,
          ExpressionParser.parse_factor libm reg input_ n pos = Some (Throw e, cursor)
    end.

(** [parse_term] on the text of a term: it does what its loop does from
    the end of the text, with the value of the term. *)
Definition term_ok (t : term) : Prop :=
  forall pos rest,
    well_formed_term t = true ->
    drop pos input_ = render_term t +:+ rest -> follows delimiter rest ->
    match value_term libm reg t with
    | Return v =>
        exists cursor,
          lands cursor (pos + String.length (render_term t)) /\
          forall k result n,
            ExpressionParser.term_loop libm reg input_ k v cursor = Some result ->
            fuel_term t + k <= n ->
            ExpressionParser.parse_term libm reg input_ n pos = Some result
    | Throw e =>
        exists cursor, forall n, fuel_term t <= n ->
          ExpressionParser.parse_term libm reg input_ n pos = Some (Throw e, cursor)
    end.

(** [parse_expression] on the text of an expression, likewise. *)
Definition expression_ok (x : expression) : Prop :=
  forall pos rest,
    well_formed_expression x = true ->
    drop pos input_ = render_expression x +:+ rest -> follows closes_term rest ->
    match value_expression libm reg x with
    | Return v =>
        exists cursor,
          lands cursor (pos + String.length (render_expression x)) /\
          forall k result n,
            ExpressionParser.expression_loop libm reg input_ k v cursor = Some result ->
            fuel_expression x + k <= n ->
            ExpressionParser.parse_expression libm reg input_ n pos = Some result
    | Throw e =>
        exists cursor, forall n, fuel_expression x <= n ->
          ExpressionParser.parse_expression libm reg input_ n pos = Some (Throw e, cursor)
    end.

End Productions.

Scheme factor_tree := Induction for factor Sort Prop
  with term_tree := Induction for term Sort Prop
  with expression_tree := Induction for expression Sort Prop.

Combined Scheme syntax_tree from factor_tree, term_tree, expression_tree.

End Syntax.

Module SyntaxSamples.
Import Syntax.

(** [ -2 ^ 3 *(1 + abs (-5.5e0 ))^2 - pi] *)
Definition argument : expression :=
  Term (Single (Signed "" Signs.Negative (Number "" "5.5" "e0"))).

Definition group : expression :=
  Sum (Term (Single (Number "" "1" ""))) " " Arithmetic.Plus
      (Single (Call " " "abs" " " argument " ")).

Definition sample : expression :=
  Sum (Term (Product
               (Single (Signed " " Signs.Negative
                          (NumberPower "" "2" "" " " (Number " " "3" ""))))
               " " Arithmetic.Times
               (GroupPower "" group "" "" (Number "" "2" ""))))
      " " Arithmetic.Minus
      (Single (Constant " " "pi")).

End SyntaxSamples.

(** * Facts about the cursor *)

Lemma get_Some_lt (s : string) : forall n c,
  String.get n s = Some c -> n < String.length s.
Proof.
  induction s as [|a s IH]; intros [|n] c H; simpl in *; try discriminate; try lia.
  apply IH in H. lia.
Qed.

Lemma get_None_ge (s : string) : forall n,
  String.get n s = None -> String.length s <= n.
Proof.
  induction s as [|a s IH]; intros [|n] H; simpl in *; try discriminate; try lia.
  apply IH in H. lia.
Qed.

Lemma get_ge_None (s : string) : forall n,
  String.length s <= n -> String.get n s = None.
Proof.
  intros n H. destruct (String.get n s) eqn:E; [|reflexivity].
  apply get_Some_lt in E. lia.
Qed.

Lemma bind_Some {A B : Type} (m : parser A) (k : A -> parser B) pos r pos' :
  bind m k pos = Some (r, pos') ->
  (exists a p, m pos = Some (Return a, p) /\ k a p = Some (r, pos')) \/
  (exists e, m pos = Some (Throw e, pos') /\ r = Throw e).
Proof.
  unfold bind. destruct (m pos) as [[[a|e] p]|]; intros H.
  - left. eauto.
  - right. inversion H; subst. eauto.
  - discriminate.
Qed.

Module CursorFacts.
Import ExpressionParser Cursor.
Section Bounds.

Variable libm : std.cmath.
Variable reg : registry.
Variable input_ : string.

Local Abbreviation len := (String.length input_).
Local Abbreviation keeps_bounds := (Cursor.keeps_bounds input_).
Local Abbreviation keeps_bounds_lt := (Cursor.keeps_bounds_lt input_).
Local Abbreviation safe := (Cursor.safe input_).
Local Abbreviation safe_lt := (Cursor.safe_lt input_).



Lemma kb_weaken {A} (m : parser A) : keeps_bounds m -> keeps_bounds_lt m.
Proof. intros H pos r pos' Hlt. apply H. lia. Qed.

Lemma kb_ret {A} (a : A) : keeps_bounds (ret a).
Proof. intros pos r pos' Hle H. inversion H; subst. lia. Qed.

Lemma kb_throw {A} e : keeps_bounds (@throw A e).
Proof. intros pos r pos' Hle H. inversion H; subst. lia. Qed.

Lemma kb_lift {A} (o : outcome A) : keeps_bounds (lift o).
Proof. intros pos r pos' Hle H. inversion H; subst. lia. Qed.

Lemma kb_out_of_fuel {A} : keeps_bounds (@out_of_fuel A).
Proof. intros pos r pos' Hle H. discriminate. Qed.

Lemma kb_get_pos : keeps_bounds get_pos.
Proof. intros pos r pos' Hle H. inversion H; subst. lia. Qed.

Lemma kb_lt_advance : keeps_bounds_lt advance.
Proof. intros pos r pos' Hlt H. inversion H; subst. lia. Qed.

Lemma kb_bind {A B} (m : parser A) (k : A -> parser B) :
  keeps_bounds m -> (forall a, keeps_bounds (k a)) -> keeps_bounds (bind m k).
Proof.
  intros Hm Hk pos r pos' Hle H.
  apply bind_Some in H as [(a & p & H1 & H2) | (e & H1 & ->)].
  - apply Hm in H1; [|lia]. apply Hk in H2; lia.
  - apply Hm in H1; lia.
Qed.

Lemma kb_lt_bind {A B} (m : parser A) (k : A -> parser B) :
  keeps_bounds_lt m -> (forall a, keeps_bounds (k a)) -> keeps_bounds_lt (bind m k).
Proof.
  intros Hm Hk pos r pos' Hlt H.
  apply bind_Some in H as [(a & p & H1 & H2) | (e & H1 & ->)].
  - apply Hm in H1; [|lia]. apply Hk in H2; lia.
  - apply Hm in H1; lia.
Qed.

(** After [peek] the continuation runs before the end whenever it was
    handed a character. *)
Lemma kb_peek_bind {B} (k : option ascii -> parser B) :
  keeps_bounds (k None) -> (forall c, keeps_bounds_lt (k (Some c))) ->
  keeps_bounds (bind (peek input_) k).
Proof.
  intros HN HS pos r pos' Hle H. unfold bind, peek in H.
  destruct (String.get pos input_) as [c|] eqn:E.
  - apply (HS c) in H; [lia|]. eapply get_Some_lt; eauto.
  - apply HN in H; lia.
Qed.

Lemma skip_whitespace_loop_bounds n : forall pos,
  pos <= len -> pos <= skip_whitespace_loop input_ n pos <= len.
Proof.
  induction n as [|n IH]; intros pos Hle; simpl; [lia|].
  destruct (String.get pos input_) as [c|] eqn:E; [|lia].
  apply get_Some_lt in E. destruct (isspace c); [|lia].
  specialize (IH (S pos)). lia.
Qed.

Lemma digits_loop_bounds n : forall pos,
  pos <= len -> pos <= digits_loop input_ n pos <= len.
Proof.
  induction n as [|n IH]; intros pos Hle; simpl; [lia|].
  destruct (String.get pos input_) as [c|] eqn:E; [|lia].
  apply get_Some_lt in E. destruct (isdigit c); [|lia].
  specialize (IH (S pos)). lia.
Qed.

Lemma number_loop_bounds n : forall has_dot pos,
  pos <= len -> pos <= snd (number_loop input_ n has_dot pos) <= len.
Proof.
  induction n as [|n IH]; intros has_dot pos Hle; simpl; [lia|].
  destruct (String.get pos input_) as [c|] eqn:E; simpl; [|lia].
  apply get_Some_lt in E.
  destruct (isdigit c || (c =? ".")%char); simpl; [|lia].
  destruct (c =? ".")%char; [destruct has_dot; simpl; [lia|]|];
    match goal with |- context [number_loop _ _ ?d _] => specialize (IH d (S pos)) end; lia.
Qed.

Lemma name_loop_bounds n : forall name pos,
  pos <= len -> pos <= snd (name_loop input_ n name pos) <= len.
Proof.
  induction n as [|n IH]; intros name pos Hle; simpl; [lia|].
  destruct (String.get pos input_) as [c|] eqn:E; simpl; [|lia].
  apply get_Some_lt in E.
  destruct (isalnum c || (c =? "_")%char); simpl; [|lia].
  match goal with |- context [name_loop _ _ ?d _] => specialize (IH d (S pos)) end; lia.
Qed.

Lemma kb_skip_whitespace : keeps_bounds (skip_whitespace input_).
Proof.
  intros pos r pos' Hle H. inversion H; subst.
  apply skip_whitespace_loop_bounds; assumption.
Qed.

Lemma kb_scan_digits : keeps_bounds (scan_digits input_).
Proof.
  intros pos r pos' Hle H. inversion H; subst.
  apply digits_loop_bounds; assumption.
Qed.

Lemma kb_scan_mantissa : keeps_bounds (scan_mantissa input_).
Proof.
  intros pos r pos' Hle H. unfold scan_mantissa in H.
  pose proof (number_loop_bounds (len - pos) false pos Hle) as Hb.
  destruct (number_loop input_ (len - pos) false pos). inversion H; subst. exact Hb.
Qed.

Lemma kb_scan_name : keeps_bounds (scan_name input_).
Proof.
  intros pos r pos' Hle H. unfold scan_name in H.
  pose proof (name_loop_bounds (len - pos) EmptyString pos Hle) as Hb.
  destruct (name_loop input_ (len - pos) EmptyString pos). inversion H; subst. exact Hb.
Qed.

End Bounds.

(** The rules above, applied along the syntax of a computation. *)
Ltac kb_step :=
  match goal with
  | |- Cursor.keeps_bounds _ (bind (peek _) _) =>
      apply kb_peek_bind; [|intros ?]; cbn beta iota delta [is_char orb negb andb]
  | |- Cursor.keeps_bounds _ (bind _ _) => apply kb_bind; [|intros ?]
  | |- Cursor.keeps_bounds_lt _ (bind _ _) => apply kb_lt_bind; [|intros ?]
  | |- Cursor.keeps_bounds_lt _ (advance) => apply kb_lt_advance
  | |- Cursor.keeps_bounds _ (ret _) => apply kb_ret
  | |- Cursor.keeps_bounds _ (throw _) => apply kb_throw
  | |- Cursor.keeps_bounds _ (lift _) => apply kb_lift
  | |- Cursor.keeps_bounds _ out_of_fuel => apply kb_out_of_fuel
  | |- Cursor.keeps_bounds _ (get_pos) => apply kb_get_pos
  | |- Cursor.keeps_bounds _ (skip_whitespace _) => apply kb_skip_whitespace
  | |- Cursor.keeps_bounds _ (scan_digits _) => apply kb_scan_digits
  | |- Cursor.keeps_bounds _ (scan_mantissa _) => apply kb_scan_mantissa
  | |- Cursor.keeps_bounds _ (scan_name _) => apply kb_scan_name
  | H : Cursor.keeps_bounds _ ?m |- Cursor.keeps_bounds _ ?m => exact H
  | H : forall x, Cursor.keeps_bounds _ (?m x) |- Cursor.keeps_bounds _ (?m _) => apply H
  | |- Cursor.keeps_bounds_lt _ (if ?b then _ else _) => destruct b
  | |- Cursor.keeps_bounds _ (if ?b then _ else _) => destruct b
  | |- Cursor.keeps_bounds_lt _ (match ?x with _ => _ end) => destruct x
  | |- Cursor.keeps_bounds _ (match ?x with _ => _ end) => destruct x
  | |- Cursor.keeps_bounds_lt _ _ => apply kb_weaken
  end.

Section Productions.

Variable libm : std.cmath.
Variable reg : registry.
Variable input_ : string.

Local Abbreviation len := (String.length input_).
Local Abbreviation keeps_bounds := (Cursor.keeps_bounds input_).
Local Abbreviation keeps_bounds_lt := (Cursor.keeps_bounds_lt input_).
Local Abbreviation safe := (Cursor.safe input_).
Local Abbreviation safe_lt := (Cursor.safe_lt input_).

Lemma kb_exponent_part : keeps_bounds (exponent_part input_).
Proof. unfold exponent_part. repeat kb_step. Qed.

Lemma kb_parse_number : keeps_bounds (parse_number libm input_).
Proof.
  unfold parse_number.
  repeat first [apply kb_exponent_part | kb_step].
Qed.

Lemma kb_power_suffix (factor : parser double) result :
  keeps_bounds factor -> keeps_bounds (power_suffix libm input_ factor result).
Proof. intros H. unfold power_suffix. repeat kb_step. Qed.

Lemma kb_productions (n : nat) :
  keeps_bounds (parse_expression libm reg input_ n) /\
  (forall result, keeps_bounds (expression_loop libm reg input_ n result)) /\
  keeps_bounds (parse_term libm reg input_ n) /\
  (forall result, keeps_bounds (term_loop libm reg input_ n result)) /\
  keeps_bounds (parse_factor libm reg input_ n).
Proof.
  induction n as [|n (IHe & IHel & IHt & IHtl & IHf)].
  - split; [|split; [|split; [|split]]]; intros; apply kb_out_of_fuel.
  - split; [|split; [|split; [|split]]]; intros; simpl;
      repeat first [apply kb_parse_number | apply kb_power_suffix | kb_step].
Qed.

(** ** More fuel changes nothing once there is a result *)


Lemma refines_refl {A} (m : parser A) : refines m m.
Proof. intros pos r H. exact H. Qed.

Lemma refines_trans {A} (m1 m2 m3 : parser A) :
  refines m1 m2 -> refines m2 m3 -> refines m1 m3.
Proof. intros H1 H2 pos r H. apply H2, H1, H. Qed.

Lemma refines_out_of_fuel {A} (m : parser A) : refines out_of_fuel m.
Proof. intros pos r H. discriminate. Qed.

Lemma refines_bind {A B} (m m' : parser A) (k k' : A -> parser B) :
  refines m m' -> (forall a, refines (k a) (k' a)) -> refines (bind m k) (bind m' k').
Proof.
  intros Hm Hk pos r H. unfold bind in *.
  destruct (m pos) as [[[a|e] p]|] eqn:E; [| |discriminate];
    rewrite (Hm _ _ E); [apply Hk|]; exact H.
Qed.

Lemma refines_power_suffix (f f' : parser double) result :
  refines f f' ->
  refines (power_suffix libm input_ f result) (power_suffix libm input_ f' result).
Proof.
  intros H. unfold power_suffix.
  apply refines_bind; [apply refines_refl|intros _].
  apply refines_bind; [apply refines_refl|intros c].
  destruct (is_char "^" c); [|apply refines_refl].
  apply refines_bind; [apply refines_refl|intros _].
  apply refines_bind; [exact H|intros a; apply refines_refl].
Qed.

Ltac rf_step :=
  match goal with
  | |- refines ?m ?m => apply refines_refl
  | |- refines out_of_fuel _ => apply refines_out_of_fuel
  | H : refines ?a ?b |- refines ?a ?b => exact H
  | H : forall x, refines (?a x) (?b x) |- refines (?a _) (?b _) => apply H
  | |- refines (power_suffix _ _ _ _) (power_suffix _ _ _ _) => apply refines_power_suffix
  | |- refines (bind _ _) (bind _ _) => apply refines_bind; [|intros ?]
  | |- refines (if ?b then _ else _) _ => destruct b
  | |- refines (match ?x with _ => _ end) _ => destruct x
  end.

(** One unfolding of each production. *)
Lemma parse_expression_S n :
  parse_expression libm reg input_ (S n) =
  ltac:(let t := eval simpl in (parse_expression libm reg input_ (S n)) in exact t).
Proof. reflexivity. Qed.

Lemma expression_loop_S n result :
  expression_loop libm reg input_ (S n) result =
  ltac:(let t := eval simpl in (expression_loop libm reg input_ (S n) result) in exact t).
Proof. reflexivity. Qed.

Lemma parse_term_S n :
  parse_term libm reg input_ (S n) =
  ltac:(let t := eval simpl in (parse_term libm reg input_ (S n)) in exact t).
Proof. reflexivity. Qed.

Lemma term_loop_S n result :
  term_loop libm reg input_ (S n) result =
  ltac:(let t := eval simpl in (term_loop libm reg input_ (S n) result) in exact t).
Proof. reflexivity. Qed.

Lemma parse_factor_S n :
  parse_factor libm reg input_ (S n) =
  ltac:(let t := eval simpl in (parse_factor libm reg input_ (S n)) in exact t).
Proof. reflexivity. Qed.

Lemma fuel_step (n : nat) :
  refines (parse_expression libm reg input_ n) (parse_expression libm reg input_ (S n)) /\
  (forall result, refines (expression_loop libm reg input_ n result)
                          (expression_loop libm reg input_ (S n) result)) /\
  refines (parse_term libm reg input_ n) (parse_term libm reg input_ (S n)) /\
  (forall result, refines (term_loop libm reg input_ n result)
                          (term_loop libm reg input_ (S n) result)) /\
  refines (parse_factor libm reg input_ n) (parse_factor libm reg input_ (S n)).
Proof.
  induction n as [|n (IHe & IHel & IHt & IHtl & IHf)].
  - split; [|split; [|split; [|split]]]; intros; apply refines_out_of_fuel.
  - split; [|split; [|split; [|split]]]; intros;
      first [ rewrite (parse_expression_S n), (parse_expression_S (S n))
            | rewrite (expression_loop_S n), (expression_loop_S (S n))
            | rewrite (parse_term_S n), (parse_term_S (S n))
            | rewrite (term_loop_S n), (term_loop_S (S n))
            | rewrite (parse_factor_S n), (parse_factor_S (S n)) ];
      repeat rf_step.
Qed.

Lemma fuel_monotone (n m : nat) : n <= m ->
  refines (parse_expression libm reg input_ n) (parse_expression libm reg input_ m) /\
  (forall result, refines (expression_loop libm reg input_ n result)
                          (expression_loop libm reg input_ m result)) /\
  refines (parse_term libm reg input_ n) (parse_term libm reg input_ m) /\
  (forall result, refines (term_loop libm reg input_ n result)
                          (term_loop libm reg input_ m result)) /\
  refines (parse_factor libm reg input_ n) (parse_factor libm reg input_ m).
Proof.
  induction 1 as [|m Hle (IHe & IHel & IHt & IHtl & IHf)].
  - split; [|split; [|split; [|split]]]; intros; apply refines_refl.
  - destruct (fuel_step m) as (He & Hel & Ht & Htl & Hf).
    split; [|split; [|split; [|split]]]; intros; eapply refines_trans; eauto.
Qed.

End Productions.

Ltac kb :=
  repeat first [apply kb_parse_number | apply kb_power_suffix | apply kb_productions
               | kb_step].

Section Fuel.

Variable libm : std.cmath.
Variable reg : registry.
Variable input_ : string.

Local Abbreviation len := (String.length input_).
Local Abbreviation keeps_bounds := (Cursor.keeps_bounds input_).
Local Abbreviation keeps_bounds_lt := (Cursor.keeps_bounds_lt input_).
Local Abbreviation safe := (Cursor.safe input_).
Local Abbreviation safe_lt := (Cursor.safe_lt input_).


(** ** Enough fuel gives a result *)




Lemma total_safe {A} b (m : parser A) : total m -> safe b m.
Proof. intros H pos _ _. apply H. Qed.

Lemma safe_weaken {A} b (m : parser A) : safe b m -> safe_lt b m.
Proof. intros H pos Hlt. apply H. lia. Qed.

Lemma safe_bind {A B} b (m : parser A) (k : A -> parser B) :
  safe b m -> keeps_bounds m -> (forall a, safe b (k a)) -> safe b (bind m k).
Proof.
  intros Hm Hb Hk pos Hle Hfuel. unfold bind.
  specialize (Hm pos Hle Hfuel).
  destruct (m pos) as [[[a|e] p]|] eqn:E; [| discriminate | contradiction].
  apply Hb in E; [|assumption]. apply Hk; lia.
Qed.

Lemma safe_lt_bind {A B} b (m : parser A) (k : A -> parser B) :
  safe_lt b m -> keeps_bounds_lt m -> (forall a, safe b (k a)) -> safe_lt b (bind m k).
Proof.
  intros Hm Hb Hk pos Hlt Hfuel. unfold bind.
  specialize (Hm pos Hlt Hfuel).
  destruct (m pos) as [[[a|e] p]|] eqn:E; [| discriminate | contradiction].
  apply Hb in E; [|assumption]. apply Hk; lia.
Qed.

Lemma safe_peek_bind {B} b (k : option ascii -> parser B) :
  safe b (k None) -> (forall c, safe_lt b (k (Some c))) -> safe b (bind (peek input_) k).
Proof.
  intros HN HS pos Hle Hfuel. unfold bind, peek.
  destruct (String.get pos input_) as [c|] eqn:E.
  - apply HS; [|assumption]. eapply get_Some_lt; eauto.
  - apply HN; assumption.
Qed.

(** Consuming a character pays for three units of fuel. *)
Lemma safe_lt_advance_bind {B} b (k : parser B) :
  (3 <= b -> safe (b - 3) k) -> safe_lt b (bind advance (fun _ => k)).
Proof.
  intros Hk pos Hlt Hfuel. unfold bind, advance. apply Hk; lia.
Qed.

Lemma total_ret {A} (a : A) : total (ret a).
Proof. intros pos; discriminate. Qed.
Lemma total_throw {A} e : total (@throw A e).
Proof. intros pos; discriminate. Qed.
Lemma total_lift {A} (o : outcome A) : total (lift o).
Proof. intros pos; discriminate. Qed.
Lemma total_get_pos : total get_pos.
Proof. intros pos; discriminate. Qed.
Lemma total_advance : total advance.
Proof. intros pos; discriminate. Qed.
Lemma total_skip_whitespace : total (skip_whitespace input_).
Proof. intros pos; discriminate. Qed.
Lemma total_scan_digits : total (scan_digits input_).
Proof. intros pos; discriminate. Qed.
Lemma total_scan_mantissa : total (scan_mantissa input_).
Proof. intros pos; discriminate. Qed.
Lemma total_scan_name : total (scan_name input_).
Proof. intros pos. unfold scan_name. destruct (name_loop _ _ _ _). discriminate. Qed.

Lemma total_bind {A B} (m : parser A) (k : A -> parser B) :
  total m -> (forall a, total (k a)) -> total (bind m k).
Proof.
  intros Hm Hk pos. unfold bind. specialize (Hm pos).
  destruct (m pos) as [[[a|e] p]|]; [apply Hk | discriminate | contradiction].
Qed.

Lemma total_peek : total (peek input_).
Proof. intros pos; discriminate. Qed.

Ltac total_step :=
  match goal with
  | |- total (bind _ _) => apply total_bind; [|intros ?]
  | |- total (ret _) => apply total_ret
  | |- total (throw _) => apply total_throw
  | |- total (lift _) => apply total_lift
  | |- total get_pos => apply total_get_pos
  | |- total advance => apply total_advance
  | |- total (peek _) => apply total_peek
  | |- total (skip_whitespace _) => apply total_skip_whitespace
  | |- total (scan_digits _) => apply total_scan_digits
  | |- total (scan_mantissa _) => apply total_scan_mantissa
  | |- total (scan_name _) => apply total_scan_name
  | |- total (if ?b then _ else _) => destruct b
  | |- total (match ?x with _ => _ end) => destruct x
  end.

Lemma total_exponent_part : total (exponent_part input_).
Proof. unfold exponent_part. repeat total_step. Qed.

Lemma total_parse_number : total (parse_number libm input_).
Proof.
  unfold parse_number. repeat first [apply total_exponent_part | total_step].
Qed.

Ltac safe_step :=
  match goal with
  | |- safe _ (bind (peek _) _) =>
      apply safe_peek_bind; [|intros ?]; cbn beta iota delta [is_char orb negb andb]
  | |- safe _ (parse_number _ _) => apply total_safe, total_parse_number
  | |- safe _ (bind _ _) => apply safe_bind; [| solve [kb] |intros ?]
  | |- safe_lt _ (bind advance _) => apply safe_lt_advance_bind; intros ?
  | |- safe_lt _ (bind _ _) => apply safe_lt_bind; [| solve [kb] |intros ?]
  | |- safe _ (if ?b then _ else _) => destruct b
  | |- safe_lt _ (if ?b then _ else _) => destruct b
  | |- safe _ (match ?x with _ => _ end) => destruct x
  | |- safe_lt _ (match ?x with _ => _ end) => destruct x
  | |- safe_lt _ _ => apply safe_weaken
  | |- safe _ _ => apply total_safe; solve [repeat total_step]
  end.

Lemma safe_power_suffix b (factor : parser double) result :
  keeps_bounds factor -> (3 <= b -> safe (b - 3) factor) ->
  safe b (power_suffix libm input_ factor result).
Proof.
  intros Hkb H. unfold power_suffix. repeat safe_step. apply H. assumption.
Qed.

Lemma enough_fuel (n : nat) :
  (forall b, b + 3 <= n -> safe b (parse_expression libm reg input_ n)) /\
  (forall b result, 1 <= n -> b <= n -> safe b (expression_loop libm reg input_ n result)) /\
  (forall b, b + 2 <= n -> safe b (parse_term libm reg input_ n)) /\
  (forall b result, 1 <= n -> b <= n + 1 -> safe b (term_loop libm reg input_ n result)) /\
  (forall b, b + 1 <= n -> safe b (parse_factor libm reg input_ n)).
Proof.
  induction n as [|n (IHe & IHel & IHt & IHtl & IHf)].
  - split; [|split; [|split; [|split]]]; intros; lia.
  - split; [|split; [|split; [|split]]]; intros;
      cbn [parse_expression expression_loop parse_term term_loop parse_factor];
      repeat first
        [ apply IHe; lia | apply IHel; lia | apply IHt; lia | apply IHtl; lia
        | apply IHf; lia
        | apply safe_power_suffix; [solve [kb] | intros ?]
        | safe_step ].
Qed.

End Fuel.
End CursorFacts.

(** * [evaluate] *)

Module EvaluateFacts.
Import ExpressionParser Cursor CursorFacts.

Lemma parse_expression_enough libm reg input_ :
  exists r pos',
    parse_expression libm reg input_ (fuel_for input_) 0 = Some (r, pos') /\
    pos' <= String.length input_.
Proof.
  destruct (enough_fuel libm reg input_ (fuel_for input_)) as (He & _).
  specialize (He (3 * String.length input_) ltac:(unfold fuel_for; lia) 0
                 ltac:(lia) ltac:(lia)).
  destruct (parse_expression libm reg input_ (fuel_for input_) 0) as [[r p]|] eqn:E;
    [|contradiction].
  exists r, p. split; [reflexivity|].
  destruct (kb_productions libm reg input_ (fuel_for input_)) as (Hkb & _).
  apply Hkb in E; lia.
Qed.

(** [evaluate] always has an outcome: the fuel it passes is enough. *)
Lemma evaluate_total libm reg expression :
  exists r, evaluate libm reg expression = Some r.
Proof.
  destruct (parse_expression_enough libm reg expression) as (r & p & E & _).
  exists r. unfold evaluate. rewrite E. reflexivity.
Qed.

(** A run of the top-level production with any fuel that has an outcome
    is what [evaluate] computes. *)
Lemma evaluate_run libm reg expression n r pos' :
  parse_expression libm reg expression n 0 = Some (r, pos') ->
  evaluate libm reg expression = Some r.
Proof.
  intros H.
  destruct (parse_expression_enough libm reg expression) as (r0 & p0 & E & _).
  unfold evaluate. rewrite E.
  destruct (Nat.le_ge_cases n (fuel_for expression)) as [Hle|Hle].
  - destruct (fuel_monotone libm reg expression _ _ Hle) as (Hm & _).
    apply Hm in H. congruence.
  - destruct (fuel_monotone libm reg expression _ _ Hle) as (Hm & _).
    apply Hm in E. congruence.
Qed.

End EvaluateFacts.

(** * One step of a sequence *)

Module StepFacts.
Import ExpressionParser.

Lemma bind_peek {B} input_ (k : option ascii -> parser B) pos :
  bind (peek input_) k pos = k (String.get pos input_) pos.
Proof. reflexivity. Qed.

Lemma bind_advance {B} (k : unit -> parser B) pos :
  bind advance k pos = k tt (S pos).
Proof. reflexivity. Qed.

Lemma bind_get_pos {B} (k : nat -> parser B) pos :
  bind get_pos k pos = k pos pos.
Proof. reflexivity. Qed.

Lemma bind_skip_whitespace {B} input_ (k : unit -> parser B) pos :
  bind (skip_whitespace input_) k pos = k tt (after_blanks input_ pos).
Proof. reflexivity. Qed.

Lemma bind_ret {A B} (a : A) (k : A -> parser B) pos :
  bind (ret a) k pos = k a pos.
Proof. reflexivity. Qed.

Lemma bind_lift {A B} (o : outcome A) (k : A -> parser B) pos :
  bind (lift o) k pos =
  match o with
  | Return a => k a pos
  | Throw e => Some (Throw e, pos)
  end.
Proof. reflexivity. Qed.

Lemma bind_throw {A B} e (k : A -> parser B) pos :
  bind (throw e) k pos = Some (Throw e, pos).
Proof. reflexivity. Qed.

(** Two sequences agree at a position when their first steps do and
    their continuations do wherever the first step returns. *)
Lemma bind_agree {A B} (m1 m2 : parser A) (k1 k2 : A -> parser B) pos :
  m1 pos = m2 pos ->
  (forall a p, m1 pos = Some (Return a, p) -> k1 a p = k2 a p) ->
  bind m1 k1 pos = bind m2 k2 pos.
Proof.
  intros Hm Hk. unfold bind. rewrite <- Hm.
  destruct (m1 pos) as [[[a|e] p]|]; [apply Hk|..]; reflexivity.
Qed.

End StepFacts.

(** * The numeric model *)

Module NumericFacts.

(** [b == 0.0] holds of the two zeros and of nothing else. *)
Lemma eqb_zero_iff (b : float) :
  (b =? 0)%float = true <-> b = 0%float \/ b = (- 0)%float.
Proof.
  split.
  - intros H. rewrite FloatAxioms.eqb_spec in H.
    change (Prim2SF 0%float) with (S754_zero false) in H.
    rewrite <- (FloatAxioms.SF2Prim_Prim2SF b).
    destruct (Prim2SF b) as [s|s| |s m e];
      try discriminate H; try (destruct s; discriminate H).
    destruct s; [right|left]; reflexivity.
  - intros [-> | ->]; reflexivity.
Qed.

(** The conversion of [std::stod] agrees with the decimal literals of the
    proof assistant on a sample of inputs, converts the longest prefix
    that is a number, and reports what cannot be converted. *)
Lemma stod_examples (libm : std.cmath) :
  std.stod libm "2" = Return 2%float /\
  std.stod libm "0.1" = Return 0.1%float /\
  std.stod libm ".5" = Return 0.5%float /\
  std.stod libm "5." = Return 5%float /\
  std.stod libm "6.02214076e23" = Return 6.02214076e23%float /\
  std.stod libm "1E-7" = Return 1e-7%float /\
  std.stod libm "9007199254740993" = Return 9007199254740992%float /\
  std.stod libm "1.7976931348623157e308" = Return 1.7976931348623157e308%float /\
  std.stod libm "2.2250738585072014e-308" = Return 2.2250738585072014e-308%float /\
  std.stod libm "2e" = Return 2%float /\
  std.stod libm "2e+" = Return 2%float /\
  std.stod libm "." = Throw (invalid_argument "stod") /\
  std.stod libm "1e309" = Throw (out_of_range "stod").
Proof.
  repeat match goal with |- _ /\ _ => split end; vm_compute; reflexivity.
Qed.

End NumericFacts.

(** * Reading the input as a suffix *)

Module SuffixFacts.
Import ExpressionParser.

Lemma append_cons c (s r : string) : String c s +:+ r = String c (s +:+ r).
Proof. reflexivity. Qed.

Lemma append_nil (r : string) : "" +:+ r = r.
Proof. reflexivity. Qed.

Lemma append_length (s r : string) :
  String.length (s +:+ r) = String.length s + String.length r.
Proof. induction s as [|c s IH]; [reflexivity|]. rewrite append_cons. simpl. lia. Qed.

Lemma append_assoc (a b c : string) : (a +:+ b) +:+ c = a +:+ (b +:+ c).
Proof.
  induction a as [|x a IH]; [reflexivity|].
  rewrite !append_cons, IH. reflexivity.
Qed.

Lemma drop_cons pos : forall s c r,
  drop pos s = String c r -> String.get pos s = Some c /\ drop (S pos) s = r.
Proof.
  induction pos as [|pos IH]; intros [|a s] c r H; simpl in *; try discriminate.
  - inversion H; subst. destruct r; auto.
  - apply IH in H. exact H.
Qed.

Lemma drop_nil pos : forall s, drop pos s = "" -> String.get pos s = None.
Proof.
  induction pos as [|pos IH]; intros [|a s] H; simpl in *; try discriminate; auto.
Qed.

Lemma drop_length pos : forall s, String.length (drop pos s) = String.length s - pos.
Proof.
  induction pos as [|pos IH]; intros [|a s]; simpl; auto.
Qed.

Lemma drop_plus n : forall pos s, drop (pos + n) s = drop n (drop pos s).
Proof.
  intros pos; induction pos as [|pos IH]; intros [|a s]; simpl; auto.
  destruct n; reflexivity.
Qed.

Lemma drop_append (a : string) : forall r, drop (String.length a) (a +:+ r) = r.
Proof. induction a as [|c a IH]; intros r; [reflexivity|]. rewrite append_cons. simpl. apply IH. Qed.

(** Stepping over a known prefix of what is left. *)
Lemma drop_skip pos s a r :
  drop pos s = a +:+ r -> drop (pos + String.length a) s = r.
Proof. intros H. rewrite drop_plus, H. apply drop_append. Qed.

Lemma isdigit_not_dot c : isdigit c = true -> (c =? ".")%char = false.
Proof.
  destruct (Ascii.eqb_spec c ".") as [->|]; [discriminate|reflexivity].
Qed.

Section Scanning.

Variable input_ : string.

(** The mantissa loop runs over a run of digits. *)
Lemma number_loop_digits d : forall n has_dot pos r,
  drop pos input_ = d +:+ r -> string_forall isdigit d = true ->
  number_loop input_ (String.length d + n) has_dot pos =
  number_loop input_ n has_dot (pos + String.length d).
Proof.
  induction d as [|c d IH]; intros n has_dot pos r Hdrop Hd.
  - simpl. f_equal. lia.
  - rewrite append_cons in Hdrop. apply drop_cons in Hdrop as [Hget Hdrop].
    simpl in Hd. apply andb_prop in Hd as [Hc Hd].
    cbn [String.length Nat.add number_loop]. rewrite Hget, Hc.
    rewrite (isdigit_not_dot _ Hc). cbn [orb].
    rewrite (IH n has_dot (S pos) r Hdrop Hd). f_equal. lia.
Qed.

(** The first dot is accepted and remembered. *)
Lemma number_loop_first_dot n pos r :
  drop pos input_ = String "." r ->
  number_loop input_ (S n) false pos = number_loop input_ n true (S pos).
Proof.
  intros Hdrop. apply drop_cons in Hdrop as [Hget _].
  cbn [number_loop]. rewrite Hget. reflexivity.
Qed.

(** A second dot is where the loop throws. *)
Lemma number_loop_second_dot n pos r :
  drop pos input_ = String "." r ->
  number_loop input_ (S n) true pos =
  (Throw EvalError.InvalidNumberFormat, pos).
Proof.
  intros Hdrop. apply drop_cons in Hdrop as [Hget _].
  cbn [number_loop]. rewrite Hget. reflexivity.
Qed.

Lemma scan_mantissa_two_dots d1 d2 rest pos :
  drop pos input_ = d1 +:+ String "." (d2 +:+ String "." rest) ->
  string_forall isdigit d1 = true -> string_forall isdigit d2 = true ->
  scan_mantissa input_ pos =
  Some (Throw EvalError.InvalidNumberFormat,
        pos + String.length d1 + 1 + String.length d2).
Proof.
  intros Hdrop H1 H2. unfold scan_mantissa.
  assert (Hlen : String.length input_ - pos =
                 String.length d1 + S (String.length d2 + S (String.length rest))).
  { rewrite <- drop_length, Hdrop, append_length. simpl.
    rewrite append_length. simpl. lia. }
  rewrite Hlen.
  rewrite (number_loop_digits d1 _ _ _ _ Hdrop H1).
  apply drop_skip in Hdrop.
  rewrite (number_loop_first_dot _ _ _ Hdrop).
  apply drop_cons in Hdrop as [_ Hdrop].
  rewrite (number_loop_digits d2 _ _ _ _ Hdrop H2).
  apply drop_skip in Hdrop.
  rewrite (number_loop_second_dot _ _ _ Hdrop).
  do 2 f_equal. lia.
Qed.

End Scanning.
End SuffixFacts.

(** * The shape of one factor *)

Module FactorFacts.
Import ExpressionParser SuffixFacts CursorFacts.

Lemma number_start_class c :
  isdigit c || (c =? ".")%char = true ->
  isspace c = false /\ (c =? "-")%char = false /\ (c =? "+")%char = false /\
  (c =? "(")%char = false /\ isalpha c = false.
Proof.
  destruct c as [[] [] [] [] [] [] [] []]; intros H; try discriminate H;
    repeat match goal with |- _ /\ _ => split end; reflexivity.
Qed.

Section Factor.

Variable libm : std.cmath.
Variable reg : registry.
Variable input_ : string.

(** Whitespace is skipped up to the first character that is none. *)
Lemma skip_whitespace_loop_stop n pos c :
  String.get pos input_ = Some c -> isspace c = false ->
  skip_whitespace_loop input_ n pos = pos.
Proof. intros Hget Hc. destruct n; simpl; [reflexivity|]. rewrite Hget, Hc. reflexivity. Qed.

Lemma skip_whitespace_loop_end n pos :
  String.get pos input_ = None -> skip_whitespace_loop input_ n pos = pos.
Proof. intros Hget. destruct n; simpl; [reflexivity|]. rewrite Hget. reflexivity. Qed.

(** A factor that starts with a digit or a dot is a number with its
    optional power. *)
Lemma parse_factor_number n pos c :
  String.get pos input_ = Some c -> isdigit c || (c =? ".")%char = true ->
  parse_factor libm reg input_ (S n) pos =
  bind (parse_number libm input_)
       (power_suffix libm input_ (parse_factor libm reg input_ n)) pos.
Proof.
  intros Hget Hc.
  destruct (number_start_class c Hc) as (Hsp & Hm & Hp & Hpar & Hal).
  rewrite parse_factor_S. unfold bind at 1. unfold skip_whitespace at 1.
  rewrite (skip_whitespace_loop_stop _ _ _ Hget Hsp).
  unfold bind at 1. unfold peek at 1. rewrite Hget, Hm, Hp, Hpar, Hal.
  reflexivity.
Qed.

(** A number that starts with a digit or a dot: the scan of the mantissa
    starts right there. *)
Lemma parse_number_start pos c :
  String.get pos input_ = Some c -> isspace c = false ->
  parse_number libm input_ pos =
  bind (scan_mantissa input_)
       (fun _ => bind (exponent_part input_)
       (fun _ => bind get_pos
       (fun pos' =>
          if (pos =? pos')%nat then throw (runtime_error "Expected number")
          else
            let num_str := String.substring pos (pos' - pos) input_ in
            match std.stod libm num_str with
            | Return v => ret v
            | Throw _ => throw (runtime_error ("Invalid number: " +:+ num_str))
            end))) pos.
Proof.
  intros Hget Hsp. unfold parse_number.
  unfold bind at 1. unfold skip_whitespace at 1.
  rewrite (skip_whitespace_loop_stop _ _ _ Hget Hsp).
  unfold bind at 1. unfold peek at 1. rewrite Hget.
  reflexivity.
Qed.

(** Two dots in the run of digits and dots: the number, the factor, and
    every production above it throw where the second dot stands. *)
Lemma parse_factor_two_dots n d1 d2 rest pos :
  drop pos input_ = d1 +:+ String "." (d2 +:+ String "." rest) ->
  string_forall isdigit d1 = true -> string_forall isdigit d2 = true ->
  parse_factor libm reg input_ (S n) pos =
  Some (Throw EvalError.InvalidNumberFormat,
        pos + String.length d1 + 1 + String.length d2).
Proof.
  intros Hdrop H1 H2.
  assert (Hc : exists c, String.get pos input_ = Some c /\
                         isdigit c || (c =? ".")%char = true).
  { destruct d1 as [|c d1].
    - rewrite append_nil in Hdrop. apply drop_cons in Hdrop as [Hget _].
      exists "."%char. auto.
    - rewrite append_cons in Hdrop. apply drop_cons in Hdrop as [Hget _].
      exists c. split; [assumption|]. simpl in H1.
      apply andb_prop in H1 as [-> _]. reflexivity. }
  destruct Hc as (c & Hget & Hc).
  rewrite (parse_factor_number _ _ _ Hget Hc).
  destruct (number_start_class c Hc) as (Hsp & _).
  unfold bind at 1. rewrite (parse_number_start _ _ Hget Hsp).
  unfold bind at 1.
  rewrite (scan_mantissa_two_dots _ _ _ _ _ Hdrop H1 H2). reflexivity.
Qed.

(** What [[ '^' factor ]] does: after the blanks, a ['^'] is consumed and
    the exponent is one more factor; anything else is left alone. *)
Lemma power_suffix_explicit (factor : parser double) result pos :
  power_suffix libm input_ factor result pos =
  let p := after_blanks input_ pos in
  if is_char "^" (String.get p input_) then
    match factor (S p) with
    | Some (Return exponent, p') =>
        Some (Return (StandardCalculator.power libm result exponent), p')
    | Some (Throw e, p') => Some (Throw e, p')
    | None => None
    end
  else Some (Return result, p).
Proof.
  unfold power_suffix, bind, skip_whitespace, peek, advance, after_blanks. cbn zeta.
  destruct (is_char "^" _); [|reflexivity].
  destruct (factor _) as [[[v|e] p']|]; reflexivity.
Qed.

(** A sign: the factor is the signed value of the next factor, and the
    cursor stops where that factor stopped. *)
Lemma parse_factor_sign n pos c :
  String.get (after_blanks input_ pos) input_ = Some c ->
  (c =? "-")%char || (c =? "+")%char = true ->
  parse_factor libm reg input_ (S n) pos =
  match parse_factor libm reg input_ n (S (after_blanks input_ pos)) with
  | Some (Return value, p') =>
      Some (Return (if (c =? "-")%char then (- value)%float else value), p')
  | Some (Throw e, p') => Some (Throw e, p')
  | None => None
  end.
Proof.
  intros Hget Hc. rewrite parse_factor_S.
  unfold bind, skip_whitespace, peek, advance, ret. fold (after_blanks input_ pos).
  rewrite Hget, Hc.
  destruct (parse_factor _ _ _ _ _) as [[[v|e] p']|]; reflexivity.
Qed.

(** A parenthesis: one expression, the closing parenthesis, and then the
    optional power. *)
Lemma parse_factor_group n pos :
  String.get (after_blanks input_ pos) input_ = Some "("%char ->
  parse_factor libm reg input_ (S n) pos =
  match parse_expression libm reg input_ n (S (after_blanks input_ pos)) with
  | Some (Return result, p1) =>
      let p2 := after_blanks input_ p1 in
      if is_char ")" (String.get p2 input_)
      then power_suffix libm input_ (parse_factor libm reg input_ n) result (S p2)
      else Some (Throw EvalError.MismatchedParentheses, p2)
  | Some (Throw e, p1) => Some (Throw e, p1)
  | None => None
  end.
Proof.
  intros Hget. rewrite parse_factor_S.
  unfold bind at 1. unfold skip_whitespace at 1. fold (after_blanks input_ pos).
  unfold bind at 1. unfold peek at 1. rewrite Hget.
  cbn [Ascii.eqb Bool.eqb orb andb].
  unfold bind at 1. unfold advance at 1.
  unfold bind at 1.
  destruct (parse_expression _ _ _ _ _) as [[[v|e] p1]|]; [|reflexivity|reflexivity].
  unfold bind at 1. unfold skip_whitespace at 1. fold (after_blanks input_ p1).
  unfold bind at 1. unfold peek at 1. cbn zeta.
  destruct (is_char ")" _); reflexivity.
Qed.

(** An identifier: a call when a parenthesis follows the name, which only
    the function registry resolves; a constant otherwise, which only the
    constant registry resolves.  The cursor stops right after the closing
    parenthesis of the call, or where the blanks after the name end. *)
Lemma parse_factor_identifier n pos c :
  String.get (after_blanks input_ pos) input_ = Some c ->
  isalpha c = true ->
  parse_factor libm reg input_ (S n) pos =
  let '(name, p1) := identifier_at input_ (after_blanks input_ pos) in
  let p2 := after_blanks input_ p1 in
  if is_char "(" (String.get p2 input_) then
    match parse_expression libm reg input_ n (S p2) with
    | Some (Return arg, p3) =>
        let p4 := after_blanks input_ p3 in
        if is_char ")" (String.get p4 input_) then
          match functions_ reg !! name with
          | Some func => Some (func arg, S p4)
          | None => Some (Throw (EvalError.UnknownFunction name), S p4)
          end
        else Some (Throw EvalError.MismatchedCallParentheses, p4)
    | Some (Throw e, p3) => Some (Throw e, p3)
    | None => None
    end
  else
    match constants_ reg !! name with
    | Some value => Some (Return value, p2)
    | None => Some (Throw (EvalError.UnknownIdentifier name), p2)
    end.
Proof.
  intros Hget Hc. rewrite parse_factor_S.
  unfold bind at 1. unfold skip_whitespace at 1. fold (after_blanks input_ pos).
  unfold bind at 1. unfold peek at 1. rewrite Hget.
  assert (Hs : (c =? "-")%char || (c =? "+")%char = false /\ (c =? "(")%char = false).
  { clear Hget. destruct c as [[] [] [] [] [] [] [] []]; try discriminate Hc;
      split; reflexivity. }
  destruct Hs as [-> ->]. rewrite Hc.
  unfold bind at 1. unfold scan_name at 1. unfold identifier_at.
  destruct (name_loop _ _ _ _) as [name p1].
  unfold bind at 1. unfold skip_whitespace at 1. fold (after_blanks input_ p1).
  unfold bind at 1. unfold peek at 1. cbn zeta.
  destruct (is_char "(" _).
  - unfold bind at 1. unfold advance at 1. unfold bind at 1.
    destruct (parse_expression _ _ _ _ _) as [[[v|e] p3]|]; [|reflexivity|reflexivity].
    unfold bind at 1. unfold skip_whitespace at 1. fold (after_blanks input_ p3).
    unfold bind at 1. unfold peek at 1.
    destruct (is_char ")" _); [|reflexivity].
    cbn [negb]. unfold bind at 1. unfold advance at 1.
    destruct (functions_ reg !! name); reflexivity.
  - destruct (constants_ reg !! name); reflexivity.
Qed.

(** Anything else is a number and then the optional power. *)
Lemma parse_factor_literal n pos c :
  String.get (after_blanks input_ pos) input_ = Some c ->
  (c =? "-")%char || (c =? "+")%char = false ->
  (c =? "(")%char = false -> isalpha c = false ->
  parse_factor libm reg input_ (S n) pos =
  match parse_number libm input_ (after_blanks input_ pos) with
  | Some (Return result, p1) =>
      power_suffix libm input_ (parse_factor libm reg input_ n) result p1
  | Some (Throw e, p1) => Some (Throw e, p1)
  | None => None
  end.
Proof.
  intros Hget Hs Hp Ha. rewrite parse_factor_S.
  unfold bind at 1. unfold skip_whitespace at 1. fold (after_blanks input_ pos).
  unfold bind at 1. unfold peek at 1. rewrite Hget, Hs, Hp, Ha.
  unfold bind at 1.
  destruct (parse_number _ _ _) as [[[v|e] p1]|]; reflexivity.
Qed.

(** At the end of the input there is no factor. *)
Lemma parse_factor_end n pos :
  String.get (after_blanks input_ pos) input_ = None ->
  parse_factor libm reg input_ (S n) pos =
  Some (Throw EvalError.UnexpectedEnd, after_blanks input_ pos).
Proof.
  intros Hget. rewrite parse_factor_S.
  unfold bind, skip_whitespace, peek. fold (after_blanks input_ pos).
  rewrite Hget. reflexivity.
Qed.

(** The cursor is before the end wherever a character is read after
    the blanks. *)
Lemma get_after_blanks pos c :
  String.get (after_blanks input_ pos) input_ = Some c ->
  exists c0, String.get pos input_ = Some c0.
Proof.
  intros H. destruct (String.get pos input_) as [c0|] eqn:E; [eauto|].
  unfold after_blanks in H. rewrite (skip_whitespace_loop_end _ _ E) in H.
  congruence.
Qed.

(** One round of the loop of [parse_term] on an operator. *)
Lemma term_loop_operator n result pos op :
  String.get (after_blanks input_ pos) input_ = Some op ->
  (op =? "*")%char || (op =? "/")%char || (op =? "%")%char = true ->
  term_loop libm reg input_ (S n) result pos =
  match parse_factor libm reg input_ n (S (after_blanks input_ pos)) with
  | Some (Return rhs, p') =>
      match (if (op =? "*")%char
             then Return (StandardCalculator.multiply result rhs)
             else if (op =? "/")%char
             then StandardCalculator.divide result rhs
             else StandardCalculator.modulo libm result rhs) with
      | Return result' => term_loop libm reg input_ n result' p'
      | Throw e => Some (Throw e, p')
      end
  | Some (Throw e, p') => Some (Throw e, p')
  | None => None
  end.
Proof.
  intros Hget Hop. destruct (get_after_blanks _ _ Hget) as (c0 & Hget0).
  rewrite term_loop_S.
  unfold bind at 1. unfold peek at 1. rewrite Hget0.
  unfold bind at 1. unfold skip_whitespace at 1. fold (after_blanks input_ pos).
  unfold bind at 1. unfold peek at 1. rewrite Hget, Hop.
  unfold bind at 1. unfold advance at 1. unfold bind at 1.
  destruct (parse_factor _ _ _ _ _) as [[[v|e] p']|]; [|reflexivity|reflexivity].
  unfold bind at 1. unfold lift at 1. reflexivity.
Qed.

(** One round of the loop of [parse_expression] on an operator. *)
Lemma expression_loop_operator n result pos op :
  String.get (after_blanks input_ pos) input_ = Some op ->
  (op =? "+")%char || (op =? "-")%char = true ->
  expression_loop libm reg input_ (S n) result pos =
  match parse_term libm reg input_ n (S (after_blanks input_ pos)) with
  | Some (Return rhs, p') =>
      expression_loop libm reg input_ n
        (if (op =? "+")%char then StandardCalculator.add result rhs
         else StandardCalculator.subtract result rhs) p'
  | Some (Throw e, p') => Some (Throw e, p')
  | None => None
  end.
Proof.
  intros Hget Hop. destruct (get_after_blanks _ _ Hget) as (c0 & Hget0).
  rewrite expression_loop_S.
  unfold bind at 1. unfold peek at 1. rewrite Hget0.
  unfold bind at 1. unfold skip_whitespace at 1. fold (after_blanks input_ pos).
  unfold bind at 1. unfold peek at 1. rewrite Hget, Hop.
  unfold bind at 1. unfold advance at 1. unfold bind at 1.
  destruct (parse_term _ _ _ _ _) as [[[v|e] p']|]; reflexivity.
Qed.

(** The loops stop, with the value so far, at the end of the input and at
    a character that is not one of their operators. *)
Lemma term_loop_stop n result pos :
  match String.get (after_blanks input_ pos) input_ with
  | Some op => (op =? "*")%char || (op =? "/")%char || (op =? "%")%char = false
  | None => True
  end ->
  term_loop libm reg input_ (S n) result pos =
  Some (Return result,
        match String.get pos input_ with
        | Some _ => after_blanks input_ pos
        | None => pos
        end).
Proof.
  intros Hstop. rewrite term_loop_S.
  unfold bind at 1. unfold peek at 1.
  destruct (String.get pos input_) as [c0|] eqn:Hget0; [|reflexivity].
  unfold bind at 1. unfold skip_whitespace at 1. fold (after_blanks input_ pos).
  unfold bind at 1. unfold peek at 1.
  destruct (String.get (after_blanks input_ pos) input_) as [op|]; [|reflexivity].
  rewrite Hstop. reflexivity.
Qed.

Lemma expression_loop_stop n result pos :
  match String.get (after_blanks input_ pos) input_ with
  | Some op => (op =? "+")%char || (op =? "-")%char = false
  | None => True
  end ->
  expression_loop libm reg input_ (S n) result pos =
  Some (Return result,
        match String.get pos input_ with
        | Some _ => after_blanks input_ pos
        | None => pos
        end).
Proof.
  intros Hstop. rewrite expression_loop_S.
  unfold bind at 1. unfold peek at 1.
  destruct (String.get pos input_) as [c0|] eqn:Hget0; [|reflexivity].
  unfold bind at 1. unfold skip_whitespace at 1. fold (after_blanks input_ pos).
  unfold bind at 1. unfold peek at 1.
  destruct (String.get (after_blanks input_ pos) input_) as [op|]; [|reflexivity].
  rewrite Hstop. reflexivity.
Qed.

(** At an exponent marker the scanner always consumes the marker, and
    a sign after it; the digits may be none. *)
Lemma exponent_part_marker pos c :
  String.get pos input_ = Some c ->
  (c =? "e")%char || (c =? "E")%char = true ->
  exponent_part input_ pos =
  Some (Return tt,
        let p := if is_char "+" (String.get (S pos) input_) ||
                    is_char "-" (String.get (S pos) input_)
                 then S (S pos) else S pos in
        digits_loop input_ (String.length input_ - p) p).
Proof.
  intros Hget Hc. unfold exponent_part.
  rewrite StepFacts.bind_peek, Hget. cbn [is_char]. rewrite Hc.
  rewrite StepFacts.bind_advance, StepFacts.bind_peek.
  destruct (is_char "+" (String.get (S pos) input_) ||
            is_char "-" (String.get (S pos) input_)); reflexivity.
Qed.

End Factor.
End FactorFacts.


(** * Input after the expression *)

Module TrailingFacts.
Import ExpressionParser Cursor CursorFacts StepFacts SuffixFacts FactorFacts Trailing.

Lemma cannot_continue_class c :
  cannot_continue c = true ->
  isspace c = false /\ isalnum c = false /\ isdigit c = false /\ isalpha c = false /\
  (c =? "_")%char = false /\ (c =? ".")%char = false /\ (c =? "+")%char = false /\
  (c =? "-")%char = false /\ (c =? "*")%char = false /\ (c =? "/")%char = false /\
  (c =? "%")%char = false /\ (c =? "^")%char = false /\ (c =? "(")%char = false /\
  (c =? "e")%char = false /\ (c =? "E")%char = false.
Proof.
  destruct c as [[] [] [] [] [] [] [] []]; intros H; try discriminate H;
    repeat match goal with |- _ /\ _ => split end; reflexivity.
Qed.

Lemma substring_append (s r : string) : forall n m,
  n + m <= String.length s ->
  String.substring n m (s +:+ r) = String.substring n m s.
Proof.
  induction s as [|a s IH]; intros n m H.
  - simpl in H. assert (n = 0) by lia. assert (m = 0) by lia. subst.
    rewrite append_nil. destruct r; reflexivity.
  - rewrite append_cons. destruct n as [|n]; simpl.
    + destruct m as [|m]; [reflexivity|]. f_equal. apply IH. simpl in H. lia.
    + apply IH. simpl in H. lia.
Qed.

Section Appended.

Variable libm : std.cmath.
Variable reg : registry.
Variable s : string.
Variable c : ascii.
Variable t : string.
Hypothesis c_stops : cannot_continue c = true.

Local Abbreviation longer := (s +:+ String c t).
Local Abbreviation sim := (Trailing.sim s).
Local Abbreviation sim_lt := (Trailing.sim_lt s).
Local Abbreviation sim_at_end := (Trailing.sim_at_end s).

Lemma longer_length : String.length longer = String.length s + S (String.length t).
Proof. rewrite append_length. reflexivity. Qed.

Lemma get_longer_lt pos :
  pos < String.length s -> String.get pos longer = String.get pos s.
Proof. intros H. symmetry. apply String.append_correct1. exact H. Qed.

Lemma get_longer_end : String.get (String.length s) longer = Some c.
Proof.
  pose proof (String.append_correct2 s (String c t) 0) as H.
  cbn [Nat.add String.get] in H. symmetry. exact H.
Qed.

Lemma get_end : String.get (String.length s) s = None.
Proof. apply get_ge_None. lia. Qed.

(** The four loops do the same on both inputs. *)
Lemma skip_whitespace_loop_longer n1 : forall n2 pos,
  pos <= String.length s -> String.length s - pos <= n1 -> String.length s - pos < n2 ->
  skip_whitespace_loop s n1 pos = skip_whitespace_loop longer n2 pos.
Proof.
  destruct (cannot_continue_class c c_stops) as (Hsp & _).
  induction n1 as [|n1 IH]; intros n2 pos Hle H1 H2;
    (destruct n2 as [|n2]; [lia|]); simpl.
  - assert (pos = String.length s) by lia. subst.
    rewrite get_longer_end, Hsp. reflexivity.
  - destruct (String.get pos s) as [a|] eqn:E.
    + pose proof (get_Some_lt _ _ _ E) as Hlt.
      rewrite (get_longer_lt _ Hlt), E.
      destruct (isspace a); [|reflexivity]. apply IH; lia.
    + apply get_None_ge in E. assert (pos = String.length s) by lia. subst.
      rewrite get_longer_end, Hsp. reflexivity.
Qed.

Lemma digits_loop_longer n1 : forall n2 pos,
  pos <= String.length s -> String.length s - pos <= n1 -> String.length s - pos < n2 ->
  digits_loop s n1 pos = digits_loop longer n2 pos.
Proof.
  destruct (cannot_continue_class c c_stops) as (_ & _ & Hd & _).
  induction n1 as [|n1 IH]; intros n2 pos Hle H1 H2;
    (destruct n2 as [|n2]; [lia|]); simpl.
  - assert (pos = String.length s) by lia. subst.
    rewrite get_longer_end, Hd. reflexivity.
  - destruct (String.get pos s) as [a|] eqn:E.
    + pose proof (get_Some_lt _ _ _ E) as Hlt.
      rewrite (get_longer_lt _ Hlt), E.
      destruct (isdigit a); [|reflexivity]. apply IH; lia.
    + apply get_None_ge in E. assert (pos = String.length s) by lia. subst.
      rewrite get_longer_end, Hd. reflexivity.
Qed.

Lemma number_loop_longer n1 : forall n2 has_dot pos,
  pos <= String.length s -> String.length s - pos <= n1 -> String.length s - pos < n2 ->
  number_loop s n1 has_dot pos = number_loop longer n2 has_dot pos.
Proof.
  destruct (cannot_continue_class c c_stops) as (_ & _ & Hd & _ & _ & Hdot & _).
  induction n1 as [|n1 IH]; intros n2 has_dot pos Hle H1 H2;
    (destruct n2 as [|n2]; [lia|]); simpl.
  - assert (pos = String.length s) by lia. subst.
    rewrite get_longer_end, Hd, Hdot. reflexivity.
  - destruct (String.get pos s) as [a|] eqn:E.
    + pose proof (get_Some_lt _ _ _ E) as Hlt.
      rewrite (get_longer_lt _ Hlt), E.
      destruct (isdigit a || (a =? ".")%char); [|reflexivity].
      destruct (a =? ".")%char; [destruct has_dot; [reflexivity|]|]; apply IH; lia.
    + apply get_None_ge in E. assert (pos = String.length s) by lia. subst.
      rewrite get_longer_end, Hd, Hdot. reflexivity.
Qed.

Lemma name_loop_longer n1 : forall n2 name pos,
  pos <= String.length s -> String.length s - pos <= n1 -> String.length s - pos < n2 ->
  name_loop s n1 name pos = name_loop longer n2 name pos.
Proof.
  destruct (cannot_continue_class c c_stops) as (_ & Han & _ & _ & Hu & _).
  induction n1 as [|n1 IH]; intros n2 name pos Hle H1 H2;
    (destruct n2 as [|n2]; [lia|]); simpl.
  - assert (pos = String.length s) by lia. subst.
    rewrite get_longer_end, Han, Hu. reflexivity.
  - destruct (String.get pos s) as [a|] eqn:E.
    + pose proof (get_Some_lt _ _ _ E) as Hlt.
      rewrite (get_longer_lt _ Hlt), E.
      destruct (isalnum a || (a =? "_")%char); [|reflexivity]. apply IH; lia.
    + apply get_None_ge in E. assert (pos = String.length s) by lia. subst.
      rewrite get_longer_end, Han, Hu. reflexivity.
Qed.

Lemma skip_whitespace_longer pos :
  pos <= String.length s -> skip_whitespace s pos = skip_whitespace longer pos.
Proof.
  intros H. unfold skip_whitespace. do 2 f_equal.
  apply skip_whitespace_loop_longer; rewrite ?longer_length; lia.
Qed.

Lemma scan_digits_longer pos :
  pos <= String.length s -> scan_digits s pos = scan_digits longer pos.
Proof.
  intros H. unfold scan_digits. do 2 f_equal.
  apply digits_loop_longer; rewrite ?longer_length; lia.
Qed.

Lemma scan_mantissa_longer pos :
  pos <= String.length s -> scan_mantissa s pos = scan_mantissa longer pos.
Proof.
  intros H. unfold scan_mantissa. f_equal.
  apply number_loop_longer; rewrite ?longer_length; lia.
Qed.

Lemma scan_name_longer pos :
  pos <= String.length s -> scan_name s pos = scan_name longer pos.
Proof.
  intros H. unfold scan_name.
  rewrite (name_loop_longer (String.length s - pos) (String.length longer - pos));
    rewrite ?longer_length; try lia. reflexivity.
Qed.

(** What [peek] reads: the same character inside [s], and at its end
    nothing on one side and [c] on the other. *)
Lemma peek_longer pos :
  pos <= String.length s ->
  (pos < String.length s /\ String.get pos longer = String.get pos s /\
   exists a, String.get pos s = Some a) \/
  (pos = String.length s /\ String.get pos s = None /\ String.get pos longer = Some c).
Proof.
  intros H. destruct (Nat.eq_dec pos (String.length s)) as [->|Hne].
  - right. auto using get_end, get_longer_end.
  - left. assert (Hlt : pos < String.length s) by lia.
    split; [exact Hlt|]. split; [apply get_longer_lt; exact Hlt|].
    destruct (String.get pos s) as [a|] eqn:E; [eauto|].
    apply get_None_ge in E. lia.
Qed.

Lemma exponent_part_longer pos :
  pos <= String.length s -> exponent_part s pos = exponent_part longer pos.
Proof.
  destruct (cannot_continue_class c c_stops)
    as (_ & _ & _ & _ & _ & _ & Hplus & Hminus & _ & _ & _ & _ & _ & He & HE).
  intros H. unfold exponent_part, bind, peek, advance, ret.
  destruct (peek_longer pos H) as [(Hlt & -> & a & ->)|(-> & -> & ->)].
  - cbn [is_char]. destruct ((a =? "e")%char || (a =? "E")%char); [|reflexivity].
    destruct (peek_longer (S pos) ltac:(lia)) as [(Hlt' & -> & a' & ->)|(E & -> & ->)].
    + cbn [is_char]. destruct ((a' =? "+")%char || (a' =? "-")%char).
      * apply scan_digits_longer. lia.
      * apply scan_digits_longer. lia.
    + cbn [is_char]. rewrite Hplus, Hminus. cbn [orb].
      apply scan_digits_longer. lia.
  - cbn [is_char]. rewrite He, HE. reflexivity.
Qed.

Lemma parse_number_longer pos :
  pos <= String.length s -> parse_number libm s pos = parse_number libm longer pos.
Proof.
  destruct (cannot_continue_class c c_stops)
    as (Hsp & _ & Hd & _ & _ & Hdot & _ & _ & _ & _ & _ & _ & _ & He & HE).
  intros H. unfold parse_number.
  apply bind_agree; [apply skip_whitespace_longer; exact H|].
  intros [] p Hp. apply kb_skip_whitespace in Hp; [|exact H].
  rewrite !bind_peek.
  destruct (peek_longer p ltac:(lia)) as [(Hlt & -> & a & ->)|(E & -> & ->)].
  - apply bind_agree; [reflexivity|].
    intros start p0 Hp0. inversion Hp0; subst start p0; clear Hp0.
    apply bind_agree; [apply scan_mantissa_longer; lia|].
    intros [] p1 Hp1. apply kb_scan_mantissa in Hp1; [|lia].
    apply bind_agree; [apply exponent_part_longer; lia|].
    intros [] p2 Hp2. apply kb_exponent_part in Hp2; [|lia].
    apply bind_agree; [reflexivity|].
    intros pos' p3 Hp3. inversion Hp3; subst pos' p3; clear Hp3.
    destruct (p =? p2)%nat; [reflexivity|].
    rewrite substring_append by lia. reflexivity.
  - (* at the end of [s]: "Expected number" on both sides *)
    subst p. unfold throw at 1.
    rewrite bind_get_pos. unfold bind at 1.
    rewrite <- (scan_mantissa_longer _ (Nat.le_refl _)).
    unfold scan_mantissa. rewrite Nat.sub_diag. cbn [number_loop].
    unfold bind at 1.
    rewrite <- (exponent_part_longer _ (Nat.le_refl _)).
    unfold exponent_part. rewrite bind_peek, get_end. cbn [is_char orb].
    unfold ret at 1. rewrite bind_get_pos, Nat.eqb_refl. reflexivity.
Qed.

Lemma after_blanks_longer_end :
  after_blanks longer (String.length s) = String.length s.
Proof.
  destruct (cannot_continue_class c c_stops) as (Hsp & _).
  unfold after_blanks. apply (skip_whitespace_loop_stop _ _ _ c); auto using get_longer_end.
Qed.

(** ** The rules of the simulation *)

Lemma sim_same {A} (m : parser A) : sim m m.
Proof. intros pos v pos' _ H. exact H. Qed.

Lemma sim_agree {A} (m1 m2 : parser A) :
  (forall pos, pos <= String.length s -> m1 pos = m2 pos) -> sim m1 m2.
Proof. intros Hm pos v pos' Hle H. rewrite <- Hm; assumption. Qed.

Lemma sim_weaken {A} (m1 m2 : parser A) : sim m1 m2 -> sim_lt m1 m2.
Proof. intros H pos v pos' Hlt. apply H. lia. Qed.

Lemma sim_lt_advance : sim_lt advance advance.
Proof. intros pos v pos' _ H. exact H. Qed.

Lemma sim_bind {A B} (m1 m2 : parser A) (k1 k2 : A -> parser B) :
  sim m1 m2 -> Cursor.keeps_bounds s m1 -> (forall a, sim (k1 a) (k2 a)) ->
  sim (bind m1 k1) (bind m2 k2).
Proof.
  intros Hm Hb Hk pos v pos' Hle H.
  apply bind_Some in H as [(a & p & H1 & H2) | (e & _ & He)]; [|discriminate He].
  unfold bind. rewrite (Hm _ _ _ Hle H1).
  apply Hb in H1; [|exact Hle]. apply (Hk a); [lia|exact H2].
Qed.

Lemma sim_lt_bind {A B} (m1 m2 : parser A) (k1 k2 : A -> parser B) :
  sim_lt m1 m2 -> Cursor.keeps_bounds_lt s m1 -> (forall a, sim (k1 a) (k2 a)) ->
  sim_lt (bind m1 k1) (bind m2 k2).
Proof.
  intros Hm Hb Hk pos v pos' Hlt H.
  apply bind_Some in H as [(a & p & H1 & H2) | (e & _ & He)]; [|discriminate He].
  unfold bind. rewrite (Hm _ _ _ Hlt H1).
  apply Hb in H1; [|exact Hlt]. apply (Hk a); [lia|exact H2].
Qed.

(** Inside [s] both sides read the same character; at its end one side
    reads nothing and the other reads [c]. *)
Lemma sim_peek_bind {B} (k1 k2 : option ascii -> parser B) :
  sim_at_end (k1 None) (k2 (Some c)) ->
  (forall a, sim_lt (k1 (Some a)) (k2 (Some a))) ->
  sim (bind (peek s) k1) (bind (peek longer) k2).
Proof.
  intros Hend Hin pos v pos' Hle H. rewrite bind_peek in H |- *.
  destruct (peek_longer pos Hle) as [(Hlt & E2 & a & E1)|(-> & E1 & E2)];
    rewrite E2; rewrite E1 in *.
  - apply (Hin a); assumption.
  - apply Hend; assumption.
Qed.

Lemma sim_lt_same {A} (m : parser A) : sim_lt m m.
Proof. apply sim_weaken, sim_same. Qed.

(** At the end of [s]: what the side that read nothing returns, the side
    that read [c] returns too, because [c] continues nothing. *)
Ltac at_end :=
  let v := fresh "v" in
  let pos' := fresh "pos'" in
  let H := fresh "H" in
  let Hsp := fresh in let Han := fresh in let Hd := fresh in let Hal := fresh in
  let Hu := fresh in let Hdot := fresh in let Hplus := fresh in
  let Hminus := fresh in let Hmul := fresh in let Hdiv := fresh in
  let Hmod := fresh in let Hpow := fresh in let Hpar := fresh in
  let He := fresh in let HE := fresh in
  intros v pos' H;
  destruct (cannot_continue_class c c_stops)
    as (Hsp & Han & Hd & Hal & Hu & Hdot & Hplus & Hminus & Hmul & Hdiv & Hmod
        & Hpow & Hpar & He & HE);
  cbn beta iota delta [is_char negb orb andb] in H |- *;
  rewrite ?bind_skip_whitespace, ?after_blanks_longer_end, ?bind_peek, ?get_longer_end;
  rewrite ?Hsp, ?Han, ?Hd, ?Hal, ?Hu, ?Hdot, ?Hplus, ?Hminus, ?Hmul, ?Hdiv, ?Hmod,
    ?Hpow, ?Hpar, ?He, ?HE;
  cbn beta iota delta [is_char negb orb andb] in H |- *;
  first [ exact H | discriminate H ].

Ltac sim_step :=
  match goal with
  | |- Trailing.sim _ ?m ?m => apply sim_same
  | |- Trailing.sim_lt _ ?m ?m => apply sim_lt_same
  | H : Trailing.sim _ ?a ?b |- Trailing.sim _ ?a ?b => exact H
  | H : forall x, Trailing.sim _ (?a x) (?b x) |- Trailing.sim _ (?a _) (?b _) => apply H
  | |- Trailing.sim _ (skip_whitespace _) (skip_whitespace _) =>
      apply sim_agree, skip_whitespace_longer
  | |- Trailing.sim _ (scan_name _) (scan_name _) =>
      apply sim_agree, scan_name_longer
  | |- Trailing.sim _ (parse_number _ _) (parse_number _ _) =>
      apply sim_agree, parse_number_longer
  | |- Trailing.sim _ (bind (peek _) _) (bind (peek _) _) =>
      apply sim_peek_bind;
      [ at_end | intros ?; cbn beta iota delta [is_char negb orb andb] ]
  | |- Trailing.sim _ (bind _ _) (bind _ _) =>
      apply sim_bind; [ | solve [kb] | intros ? ]
  | |- Trailing.sim_lt _ (bind _ _) (bind _ _) =>
      apply sim_lt_bind; [ | solve [apply kb_lt_advance | apply kb_weaken; kb] | intros ? ]
  | |- Trailing.sim_lt _ (if ?b then _ else _) (if ?b then _ else _) => destruct b
  | |- Trailing.sim _ (if ?b then _ else _) (if ?b then _ else _) => destruct b
  | |- Trailing.sim_lt _ (match ?x with _ => _ end) (match ?x with _ => _ end) =>
      destruct x
  | |- Trailing.sim _ (match ?x with _ => _ end) (match ?x with _ => _ end) =>
      destruct x
  | |- Trailing.sim_lt _ _ _ => apply sim_weaken
  end.

Lemma sim_power_suffix (f1 f2 : parser double) result :
  sim f1 f2 -> Cursor.keeps_bounds s f1 ->
  sim (power_suffix libm s f1 result) (power_suffix libm longer f2 result).
Proof.
  intros Hf Hkb. unfold power_suffix. repeat sim_step.
Qed.

(** Every value a production returns on [s], it returns on the longer
    input, leaving the cursor at the same place. *)
Lemma sim_productions (n : nat) :
  sim (parse_expression libm reg s n) (parse_expression libm reg longer n) /\
  (forall result, sim (expression_loop libm reg s n result)
                      (expression_loop libm reg longer n result)) /\
  sim (parse_term libm reg s n) (parse_term libm reg longer n) /\
  (forall result, sim (term_loop libm reg s n result)
                      (term_loop libm reg longer n result)) /\
  sim (parse_factor libm reg s n) (parse_factor libm reg longer n).
Proof.
  induction n as [|n (IHe & IHel & IHt & IHtl & IHf)].
  - split; [|split; [|split; [|split]]]; intros; intros pos v pos' _ H; discriminate H.
  - split; [|split; [|split; [|split]]]; intros;
      rewrite ?parse_expression_S, ?expression_loop_S, ?parse_term_S, ?term_loop_S,
        ?parse_factor_S;
      repeat first [ apply sim_power_suffix; [ | solve [kb] ] | sim_step ].
Qed.

(** An expression that evaluates to a value evaluates to the same value
    when input that cannot continue it is appended. *)
Lemma evaluate_longer v :
  evaluate libm reg s = Some (Return v) ->
  evaluate libm reg longer = Some (Return v).
Proof.
  intros H. unfold evaluate in H.
  destruct (parse_expression libm reg s (fuel_for s) 0) as [[r p]|] eqn:E;
    [|discriminate H].
  inversion H; subst r; clear H.
  destruct (sim_productions (fuel_for s)) as (He & _).
  apply He in E; [|lia].
  exact (EvaluateFacts.evaluate_run _ _ _ _ _ _ E).
Qed.

End Appended.
End TrailingFacts.

(** * Expressions without parentheses *)

Module ArithmeticFacts.
Import ExpressionParser StepFacts SuffixFacts FactorFacts CursorFacts EvaluateFacts Arithmetic.

Lemma append_nil_r (s : string) : s +:+ "" = s.
Proof. induction s as [|c s IH]; [reflexivity|]. rewrite append_cons, IH. reflexivity. Qed.

Lemma substring_prefix (a : string) : forall r,
  String.substring 0 (String.length a) (a +:+ r) = a.
Proof.
  induction a as [|c a IH]; intros r.
  - rewrite append_nil. destruct r; reflexivity.
  - rewrite append_cons. simpl. rewrite IH. reflexivity.
Qed.

Lemma substring_drop pos : forall s a r,
  drop pos s = a +:+ r -> String.substring pos (String.length a) s = a.
Proof.
  induction pos as [|pos IH]; intros s a r H.
  - simpl in H. subst s. apply substring_prefix.
  - destruct s as [|c s]; simpl in H.
    + destruct a as [|x a]; [reflexivity|discriminate H].
    + simpl. apply (IH _ _ r). exact H.
Qed.

(** What the cursor reads where the rest of the input is known to stop. *)
Lemma get_stops_at p pos input_ r :
  drop pos input_ = r -> stops_at p r = true ->
  match String.get pos input_ with
  | Some c => p c = false
  | None => True
  end.
Proof.
  intros Hdrop Hstop. destruct r as [|c r].
  - rewrite (drop_nil _ _ Hdrop). exact I.
  - apply drop_cons in Hdrop as [-> _]. simpl in Hstop.
    apply negb_true_iff in Hstop. exact Hstop.
Qed.

Lemma stops_at_weaken (p q : ascii -> bool) r :
  (forall c, p c = false -> q c = false) ->
  stops_at p r = true -> stops_at q r = true.
Proof.
  intros Hpq. destruct r as [|c r]; [reflexivity|]. simpl.
  rewrite !negb_true_iff. apply Hpq.
Qed.

Section Scanning.

Variable input_ : string.

(** Blanks are skipped up to what follows them. *)
Lemma skip_whitespace_loop_blanks ws : forall k pos r,
  drop pos input_ = ws +:+ r -> string_forall isspace ws = true ->
  stops_at isspace r = true ->
  skip_whitespace_loop input_ (String.length ws + k) pos = pos + String.length ws.
Proof.
  induction ws as [|c ws IH]; intros k pos r Hdrop Hws Hstop.
  - rewrite append_nil in Hdrop. cbn [String.length Nat.add]. rewrite Nat.add_0_r.
    pose proof (get_stops_at _ _ _ _ Hdrop Hstop) as Hget.
    destruct (String.get pos input_) as [c|] eqn:E.
    + apply (skip_whitespace_loop_stop _ _ _ c); assumption.
    + apply skip_whitespace_loop_end; assumption.
  - rewrite append_cons in Hdrop. apply drop_cons in Hdrop as [Hget Hdrop].
    simpl in Hws. apply andb_prop in Hws as [Hc Hws].
    cbn [String.length Nat.add skip_whitespace_loop]. rewrite Hget, Hc.
    rewrite (IH k (S pos) r Hdrop Hws Hstop). lia.
Qed.

Lemma after_blanks_blanks ws pos r :
  drop pos input_ = ws +:+ r -> string_forall isspace ws = true ->
  stops_at isspace r = true ->
  after_blanks input_ pos = pos + String.length ws.
Proof.
  intros Hdrop Hws Hstop. unfold after_blanks.
  rewrite <- drop_length, Hdrop, append_length.
  apply (skip_whitespace_loop_blanks ws _ pos r); assumption.
Qed.

(** The digits of the exponent. *)
Lemma digits_loop_digits d : forall k pos r,
  drop pos input_ = d +:+ r -> string_forall isdigit d = true ->
  stops_at isdigit r = true ->
  digits_loop input_ (String.length d + k) pos = pos + String.length d.
Proof.
  induction d as [|c d IH]; intros k pos r Hdrop Hd Hstop.
  - rewrite append_nil in Hdrop. cbn [String.length Nat.add]. rewrite Nat.add_0_r.
    pose proof (get_stops_at _ _ _ _ Hdrop Hstop) as Hget.
    destruct k as [|k]; [reflexivity|]. simpl.
    destruct (String.get pos input_) as [c|]; [rewrite Hget|]; reflexivity.
  - rewrite append_cons in Hdrop. apply drop_cons in Hdrop as [Hget Hdrop].
    simpl in Hd. apply andb_prop in Hd as [Hc Hd].
    cbn [String.length Nat.add digits_loop]. rewrite Hget, Hc.
    rewrite (IH k (S pos) r Hdrop Hd Hstop). lia.
Qed.

(** The mantissa: digits and at most one dot. *)
Lemma number_loop_mantissa m : forall k (has_dot : bool) pos r,
  drop pos input_ = m +:+ r ->
  string_forall (fun c => isdigit c || (c =? ".")%char) m = true ->
  count_dots m + (if has_dot then 1 else 0) <= 1 ->
  stops_at (fun c => isdigit c || (c =? ".")%char) r = true ->
  number_loop input_ (String.length m + k) has_dot pos =
  (Return tt, pos + String.length m).
Proof.
  induction m as [|c m IH]; intros k has_dot pos r Hdrop Hm Hdots Hstop.
  - rewrite append_nil in Hdrop. cbn [String.length Nat.add]. rewrite Nat.add_0_r.
    pose proof (get_stops_at _ _ _ _ Hdrop Hstop) as Hget.
    destruct k as [|k]; [reflexivity|]. simpl.
    destruct (String.get pos input_) as [c|]; [rewrite Hget|]; reflexivity.
  - rewrite append_cons in Hdrop. apply drop_cons in Hdrop as [Hget Hdrop].
    simpl in Hm. apply andb_prop in Hm as [Hc Hm].
    cbn [String.length Nat.add number_loop]. rewrite Hget, Hc.
    simpl in Hdots. revert Hdots.
    destruct (c =? ".")%char; intros Hdots.
    + destruct has_dot; [exfalso; lia|].
      assert (Hdots' : count_dots m + 1 <= 1) by lia.
      rewrite (IH k true (S pos) r Hdrop Hm Hdots' Hstop). f_equal. lia.
    + rewrite (IH k has_dot (S pos) r Hdrop Hm Hdots Hstop). f_equal. lia.
Qed.

Lemma scan_mantissa_mantissa m pos r :
  drop pos input_ = m +:+ r -> is_mantissa m = true ->
  stops_at (fun c => isdigit c || (c =? ".")%char) r = true ->
  scan_mantissa input_ pos = Some (Return tt, pos + String.length m).
Proof.
  intros Hdrop Hm Hstop. unfold is_mantissa in Hm.
  apply andb_prop in Hm as [Hm Hdots]. apply andb_prop in Hm as [_ Hm].
  apply Nat.leb_le in Hdots.
  unfold scan_mantissa. rewrite <- drop_length, Hdrop, append_length.
  rewrite (number_loop_mantissa m _ false pos r); auto. lia.
Qed.

(** The exponent part: nothing, or the marker, the sign and the digits. *)
Lemma exponent_part_exponent ex pos r :
  drop pos input_ = ex +:+ r -> is_exponent ex = true ->
  stops_at (fun c => isdigit c || (c =? "e")%char || (c =? "E")%char) r = true ->
  exponent_part input_ pos = Some (Return tt, pos + String.length ex).
Proof.
  intros Hdrop Hex Hstop. unfold exponent_part. rewrite bind_peek.
  destruct ex as [|marker s1].
  - (* no exponent part: what follows is no marker *)
    rewrite append_nil in Hdrop.
    pose proof (get_stops_at _ _ _ _ Hdrop Hstop) as Hget.
    cbn [String.length]. rewrite Nat.add_0_r.
    destruct (String.get pos input_) as [c|]; [|reflexivity].
    cbn [is_char]. cbn beta in Hget.
    apply orb_false_iff in Hget as [Hget HE].
    apply orb_false_iff in Hget as [_ He]. rewrite He, HE. reflexivity.
  - rewrite append_cons in Hdrop. apply drop_cons in Hdrop as [Hget Hdrop].
    simpl in Hex. apply andb_prop in Hex as [Hmarker Hex].
    rewrite Hget. cbn [is_char]. rewrite Hmarker.
    rewrite bind_advance, bind_peek.
    assert (Hdigits : forall d p,
              drop p input_ = d +:+ r -> is_digits d = true ->
              scan_digits input_ p = Some (Return tt, p + String.length d)).
    { intros d p Hd Hdig. unfold is_digits in Hdig.
      apply andb_prop in Hdig as [_ Hdig]. unfold scan_digits.
      rewrite <- drop_length, Hd, append_length.
      rewrite (digits_loop_digits d _ p r); auto.
      eapply stops_at_weaken; [|exact Hstop].
      intros x Hx. cbn beta in Hx. apply orb_false_iff in Hx as [Hx _].
      apply orb_false_iff in Hx as [Hx _]. exact Hx. }
    destruct s1 as [|sign s2]; [discriminate Hex|].
    rewrite append_cons in Hdrop.
    pose proof Hdrop as Hdrop'. apply drop_cons in Hdrop' as [Hget1 Hdrop2].
    rewrite Hget1. cbn [is_char].
    destruct ((sign =? "+")%char || (sign =? "-")%char).
    + rewrite bind_advance.
      rewrite (Hdigits s2 (S (S pos)) Hdrop2 Hex). cbn [String.length].
      do 2 f_equal. lia.
    + rewrite bind_ret.
      rewrite <- append_cons in Hdrop.
      rewrite (Hdigits (String sign s2) (S pos) Hdrop Hex). cbn [String.length].
      do 2 f_equal. lia.
Qed.

End Scanning.

Lemma blank_class c :
  isspace c = true -> continues_literal c = false /\ (c =? "^")%char = false.
Proof.
  destruct c as [[] [] [] [] [] [] [] []]; intros H; try discriminate H;
    split; reflexivity.
Qed.

Lemma marker_class c :
  (c =? "e")%char || (c =? "E")%char = true ->
  isdigit c || (c =? ".")%char = false.
Proof.
  destruct c as [[] [] [] [] [] [] [] []]; intros H; try discriminate H; reflexivity.
Qed.

Lemma multiplicative_class op :
  continues_operand (multiplicative_char op) = false /\
  (multiplicative_char op =? "*")%char || (multiplicative_char op =? "/")%char ||
    (multiplicative_char op =? "%")%char = true /\
  isspace (multiplicative_char op) = false.
Proof. destruct op; repeat split; reflexivity. Qed.

Lemma additive_class op :
  continues_term (additive_char op) = false /\
  (additive_char op =? "+")%char || (additive_char op =? "-")%char = true /\
  isspace (additive_char op) = false.
Proof. destruct op; repeat split; reflexivity. Qed.

(** A mantissa starts with a digit or a dot. *)
Lemma mantissa_start m :
  is_mantissa m = true ->
  exists c m', m = String c m' /\ isdigit c || (c =? ".")%char = true.
Proof.
  unfold is_mantissa. intros H.
  apply andb_prop in H as [H _]. apply andb_prop in H as [Hne Hall].
  destruct m as [|c m']; [discriminate Hne|].
  exists c, m'. split; [reflexivity|]. simpl in Hall.
  apply andb_prop in Hall as [Hc _]. exact Hc.
Qed.

Section Operand.

Variable libm : std.cmath.
Variable reg : registry.
Variable input_ : string.

(** A literal is scanned as one token and converted. *)
Lemma parse_number_literal x pos r :
  drop pos input_ = mantissa x +:+ (exponent x +:+ r) ->
  is_mantissa (mantissa x) = true -> is_exponent (exponent x) = true ->
  stops_at continues_literal r = true ->
  parse_number libm input_ pos =
  Some (operand_value libm x, pos + String.length (literal x)).
Proof.
  intros Hdrop Hm Hex Hstop.
  destruct (mantissa_start _ Hm) as (c & m' & Em & Hc).
  destruct (number_start_class c Hc) as (Hsp & _).
  assert (Hget : String.get pos input_ = Some c).
  { rewrite Em, append_cons in Hdrop. apply drop_cons in Hdrop as [Hget _].
    exact Hget. }
  rewrite (parse_number_start libm input_ pos c Hget Hsp).
  unfold bind at 1.
  rewrite (scan_mantissa_mantissa input_ (mantissa x) pos (exponent x +:+ r) Hdrop Hm).
  2:{ destruct (exponent x) as [|marker s1] eqn:Ex.
      - rewrite append_nil. eapply stops_at_weaken; [|exact Hstop].
        intros a Ha. unfold continues_literal in Ha.
        apply orb_false_iff in Ha as [Ha _]. apply orb_false_iff in Ha as [Ha _].
        exact Ha.
      - rewrite append_cons. simpl. simpl in Hex.
        apply andb_prop in Hex as [Hmarker _].
        rewrite (marker_class _ Hmarker). reflexivity. }
  unfold bind at 1.
  pose proof (drop_skip _ _ _ _ Hdrop) as Hdrop1.
  rewrite (exponent_part_exponent input_ (exponent x) _ r Hdrop1 Hex).
  2:{ eapply stops_at_weaken; [|exact Hstop].
      intros a Ha. unfold continues_literal in Ha.
      apply orb_false_iff in Ha as [Ha HE]. apply orb_false_iff in Ha as [Ha He].
      apply orb_false_iff in Ha as [Ha _]. rewrite Ha, He, HE. reflexivity. }
  rewrite bind_get_pos.
  assert (Hlen : String.length (literal x) =
                 String.length (mantissa x) + String.length (exponent x)).
  { unfold literal. apply append_length. }
  assert (Hpos : String.length (mantissa x) <> 0).
  { rewrite Em. simpl. lia. }
  destruct (Nat.eqb_spec pos (pos + String.length (mantissa x) + String.length (exponent x)))
    as [Heq|_]; [lia|].
  replace (pos + String.length (mantissa x) + String.length (exponent x) - pos)
    with (String.length (literal x)) by lia.
  rewrite <- append_assoc in Hdrop. fold (literal x) in Hdrop.
  rewrite (substring_drop _ _ _ _ Hdrop).
  unfold operand_value.
  replace (pos + String.length (mantissa x) + String.length (exponent x))
    with (pos + String.length (literal x)) by lia.
  destruct (std.stod libm (literal x)); reflexivity.
Qed.

(** An operand and what may follow it: the factor is the operand, raised
    to the next factor if a ['^'] follows. *)
Lemma parse_factor_operand_power x n pos r :
  well_formed_operand x = true ->
  drop pos input_ = render_operand x +:+ r ->
  stops_at (fun c => isspace c || continues_literal c) r = true ->
  parse_factor libm reg input_ (S n) pos =
  match operand_value libm x with
  | Return v =>
      let p := pos + String.length (render_operand x) in
      if is_char "^" (String.get p input_) then
        match parse_factor libm reg input_ n (S p) with
        | Some (Return exponent, p') =>
            Some (Return (StandardCalculator.power libm v exponent), p')
        | Some (Throw e, p') => Some (Throw e, p')
        | None => None
        end
      else Some (Return v, p)
  | Throw e =>
      Some (Throw e, pos + String.length (blanks_before x) + String.length (literal x))
  end.
Proof.
  intros Hwf Hdrop Hstop. unfold well_formed_operand in Hwf.
  apply andb_prop in Hwf as [Hwf Hba]. apply andb_prop in Hwf as [Hwf Hex].
  apply andb_prop in Hwf as [Hbb Hm].
  destruct (mantissa_start _ Hm) as (c & m' & Em & Hc).
  destruct (number_start_class c Hc) as (Hsp & Hminus & Hplus & Hpar & Hal).
  assert (Hblank : stops_at isspace r = true).
  { eapply stops_at_weaken; [|exact Hstop].
    intros a Ha. cbn beta in Ha. apply orb_false_iff in Ha as [Ha _]. exact Ha. }
  unfold render_operand in Hdrop. rewrite append_assoc in Hdrop.
  (* the blanks before *)
  assert (Hp1 : after_blanks input_ pos = pos + String.length (blanks_before x)).
  { apply (after_blanks_blanks input_ _ pos _ Hdrop Hbb).
    rewrite Em, append_cons. simpl. rewrite Hsp. reflexivity. }
  apply drop_skip in Hdrop.
  assert (Hget : String.get (after_blanks input_ pos) input_ = Some c).
  { rewrite Hp1. rewrite Em, append_cons in Hdrop.
    apply drop_cons in Hdrop as [Hget _]. exact Hget. }
  rewrite (parse_factor_literal libm reg input_ n pos c Hget); auto.
  2:{ rewrite Hminus, Hplus. reflexivity. }
  rewrite Hp1.
  (* the literal *)
  rewrite !append_assoc in Hdrop.
  rewrite (parse_number_literal x _ (blanks_after x +:+ r)); auto.
  2:{ destruct (blanks_after x) as [|b ba] eqn:Eba.
      - rewrite append_nil. eapply stops_at_weaken; [|exact Hstop].
        intros a Ha. cbn beta in Ha. apply orb_false_iff in Ha as [_ Ha]. exact Ha.
      - rewrite append_cons. simpl. simpl in Hba.
        apply andb_prop in Hba as [Hb _].
        destruct (blank_class b Hb) as [-> _]. reflexivity. }
  destruct (operand_value libm x) as [v|e]; [|reflexivity].
  (* the blanks after, and the power *)
  rewrite power_suffix_explicit.
  assert (Hdrop2 : drop (pos + String.length (blanks_before x) + String.length (literal x))
                     input_ = blanks_after x +:+ r).
  { rewrite <- append_assoc in Hdrop. fold (literal x) in Hdrop.
    apply drop_skip in Hdrop. exact Hdrop. }
  assert (Hp3 : after_blanks input_
                  (pos + String.length (blanks_before x) + String.length (literal x)) =
                pos + String.length (render_operand x)).
  { rewrite (after_blanks_blanks input_ _ _ _ Hdrop2 Hba Hblank).
    unfold render_operand, literal. rewrite !append_length. lia. }
  cbn zeta. rewrite Hp3. reflexivity.
Qed.

(** Where the text of an operand ends. *)
Lemma drop_operand x pos r :
  drop pos input_ = render_operand x +:+ r ->
  drop (pos + String.length (render_operand x)) input_ = r.
Proof. apply drop_skip. Qed.

(** An operand that no power follows is one factor. *)
Lemma parse_factor_operand x n pos r :
  well_formed_operand x = true ->
  drop pos input_ = render_operand x +:+ r ->
  stops_at continues_operand r = true ->
  parse_factor libm reg input_ (S n) pos =
  Some (operand_value libm x, operand_end libm x pos).
Proof.
  intros Hwf Hdrop Hstop.
  rewrite (parse_factor_operand_power x n pos r Hwf Hdrop).
  2:{ eapply stops_at_weaken; [|exact Hstop].
      intros a Ha. unfold continues_operand in Ha.
      apply orb_false_iff in Ha as [Ha _]. exact Ha. }
  unfold operand_end.
  destruct (operand_value libm x) as [v|e]; [|reflexivity].
  pose proof (get_stops_at _ _ _ _ (drop_operand _ _ _ Hdrop) Hstop) as Hnext.
  cbn zeta.
  destruct (String.get (pos + String.length (render_operand x)) input_) as [a|];
    [|reflexivity].
  cbn [is_char]. unfold continues_operand in Hnext.
  apply orb_false_iff in Hnext as [_ ->]. reflexivity.
Qed.

(** Where nothing of a tier follows, the cursor stays. *)
Lemma after_blanks_stops p pos r :
  drop pos input_ = r -> stops_at p r = true ->
  (forall c, p c = false -> isspace c = false) ->
  after_blanks input_ pos = pos.
Proof.
  intros Hdrop Hstop Hp. pose proof (get_stops_at _ _ _ _ Hdrop Hstop) as Hget.
  unfold after_blanks.
  destruct (String.get pos input_) as [c|] eqn:E.
  - apply (skip_whitespace_loop_stop _ _ _ c); auto.
  - apply skip_whitespace_loop_end; assumption.
Qed.

Lemma continues_term_class c :
  continues_term c = false ->
  continues_operand c = false /\ isspace c = false /\
  (c =? "*")%char || (c =? "/")%char || (c =? "%")%char = false.
Proof.
  unfold continues_term, continues_operand. intros H.
  apply orb_false_iff in H as [H Hmod]. apply orb_false_iff in H as [H Hdiv].
  apply orb_false_iff in H as [H Hmul]. split; [exact H|].
  apply orb_false_iff in H as [H _]. apply orb_false_iff in H as [H _].
  split; [exact H|]. rewrite Hmul, Hdiv, Hmod. reflexivity.
Qed.

Lemma continues_expression_class c :
  continues_expression c = false ->
  continues_term c = false /\ isspace c = false /\
  (c =? "+")%char || (c =? "-")%char = false.
Proof.
  unfold continues_expression. intros H.
  apply orb_false_iff in H as [H Hminus]. apply orb_false_iff in H as [H Hplus].
  split; [exact H|]. destruct (continues_term_class c H) as (_ & Hsp & _).
  split; [exact Hsp|]. rewrite Hplus, Hminus. reflexivity.
Qed.

(** The loop of [parse_term] folds the operands that follow, from left
    to right. *)
Lemma term_loop_operands l : forall n acc pos r,
  forallb (fun p => well_formed_operand (snd p)) l = true ->
  drop pos input_ = render_operands l +:+ r ->
  stops_at continues_term r = true ->
  List.length l < n ->
  match fold_operands libm acc l with
  | Return v =>
      term_loop libm reg input_ n acc pos =
      Some (Return v, pos + String.length (render_operands l))
  | Throw e => exists p', term_loop libm reg input_ n acc pos = Some (Throw e, p')
  end.
Proof.
  induction l as [|[op x] l IH]; intros n acc pos r Hwf Hdrop Hstop Hfuel;
    (destruct n as [|n]; [simpl in Hfuel; lia|]).
  - cbn [fold_operands render_operands String.length]. rewrite append_nil in Hdrop.
    assert (Hp : after_blanks input_ pos = pos).
    { apply (after_blanks_stops _ _ _ Hdrop Hstop).
      intros c Hc. apply continues_term_class in Hc. tauto. }
    pose proof (get_stops_at _ _ _ _ Hdrop Hstop) as Hget.
    rewrite term_loop_stop.
    + rewrite Hp, Nat.add_0_r. destruct (String.get pos input_); reflexivity.
    + rewrite Hp. destruct (String.get pos input_) as [c|]; [|exact I].
      apply continues_term_class in Hget. tauto.
  - cbn [forallb snd] in Hwf. apply andb_prop in Hwf as [Hx Hl].
    cbn [render_operands] in Hdrop. rewrite append_cons in Hdrop.
    apply drop_cons in Hdrop as [Hget Hdrop]. rewrite append_assoc in Hdrop.
    destruct (multiplicative_class op) as (Hcont & Hop & Hsp).
    assert (Hp : after_blanks input_ pos = pos).
    { unfold after_blanks. apply (skip_whitespace_loop_stop _ _ _ _ Hget Hsp). }
    rewrite <- Hp in Hget.
    rewrite (term_loop_operator libm reg input_ n acc pos _ Hget Hop). rewrite Hp.
    destruct n as [|n]; [simpl in Hfuel; lia|].
    rewrite (parse_factor_operand x n (S pos) _ Hx Hdrop).
    2:{ destruct l as [|[op' x'] l'].
        - rewrite append_nil. eapply stops_at_weaken; [|exact Hstop].
          intros c Hc. apply continues_term_class in Hc. tauto.
        - cbn [render_operands]. rewrite append_cons. simpl.
          destruct (multiplicative_class op') as (-> & _). reflexivity. }
    cbn [fold_operands]. unfold operand_end.
    destruct (operand_value libm x) as [v|e]; cbn [and_then]; [|eauto].
    assert (Happly : (if (multiplicative_char op =? "*")%char
                      then Return (StandardCalculator.multiply acc v)
                      else if (multiplicative_char op =? "/")%char
                      then StandardCalculator.divide acc v
                      else StandardCalculator.modulo libm acc v) =
                     apply_multiplicative libm op acc v).
    { destruct op; reflexivity. }
    rewrite Happly.
    destruct (apply_multiplicative libm op acc v) as [acc'|e]; cbn [and_then]; [|eauto].
    apply drop_skip in Hdrop.
    specialize (IH (S n) acc' _ r Hl Hdrop Hstop ltac:(simpl in Hfuel; lia)).
    destruct (fold_operands libm acc' l) as [w|e]; [|exact IH].
    rewrite IH. cbn [render_operands String.length]. rewrite append_length.
    do 2 f_equal. lia.
Qed.

(** A term is its first operand folded with the others. *)
Lemma parse_term_term t n pos r :
  well_formed_term t = true ->
  drop pos input_ = render_term t +:+ r ->
  stops_at continues_term r = true ->
  term_fuel t <= n ->
  match term_value libm t with
  | Return v =>
      parse_term libm reg input_ n pos =
      Some (Return v, pos + String.length (render_term t))
  | Throw e => exists p', parse_term libm reg input_ n pos = Some (Throw e, p')
  end.
Proof.
  intros Hwf Hdrop Hstop Hfuel. unfold term_fuel in Hfuel.
  unfold well_formed_term in Hwf. apply andb_prop in Hwf as [Hx Hl].
  unfold render_term in Hdrop. rewrite append_assoc in Hdrop.
  destruct n as [|[|n]]; [lia|lia|].
  rewrite parse_term_S. unfold bind.
  rewrite (parse_factor_operand (first_operand t) n pos _ Hx Hdrop).
  2:{ destruct (more_operands t) as [|[op' x'] l'].
      - rewrite append_nil. eapply stops_at_weaken; [|exact Hstop].
        intros c Hc. apply continues_term_class in Hc. tauto.
      - cbn [render_operands]. rewrite append_cons. simpl.
        destruct (multiplicative_class op') as (-> & _). reflexivity. }
  unfold term_value, operand_end.
  destruct (operand_value libm (first_operand t)) as [v|e]; cbn [and_then]; [|eauto].
  apply drop_skip in Hdrop.
  pose proof (term_loop_operands (more_operands t) (S n) v _ r Hl Hdrop Hstop
                ltac:(lia)) as Hloop.
  destruct (fold_operands libm v (more_operands t)) as [w|e]; [|exact Hloop].
  rewrite Hloop. unfold render_term. rewrite append_length.
  do 2 f_equal. lia.
Qed.

(** The loop of [parse_expression] folds the terms that follow, from
    left to right. *)
Lemma expression_loop_terms l : forall n acc pos r,
  forallb (fun p => well_formed_term (snd p)) l = true ->
  drop pos input_ = render_terms l +:+ r ->
  stops_at continues_expression r = true ->
  terms_fuel l <= n ->
  match fold_terms libm acc l with
  | Return v =>
      expression_loop libm reg input_ n acc pos =
      Some (Return v, pos + String.length (render_terms l))
  | Throw e =>
      exists p', expression_loop libm reg input_ n acc pos = Some (Throw e, p')
  end.
Proof.
  induction l as [|[op t] l IH]; intros n acc pos r Hwf Hdrop Hstop Hfuel;
    (destruct n as [|n]; [simpl in Hfuel; lia|]).
  - cbn [fold_terms render_terms String.length]. rewrite append_nil in Hdrop.
    assert (Hp : after_blanks input_ pos = pos).
    { apply (after_blanks_stops _ _ _ Hdrop Hstop).
      intros c Hc. apply continues_expression_class in Hc. tauto. }
    pose proof (get_stops_at _ _ _ _ Hdrop Hstop) as Hget.
    rewrite expression_loop_stop.
    + rewrite Hp, Nat.add_0_r. destruct (String.get pos input_); reflexivity.
    + rewrite Hp. destruct (String.get pos input_) as [c|]; [|exact I].
      apply continues_expression_class in Hget. tauto.
  - cbn [forallb snd] in Hwf. apply andb_prop in Hwf as [Ht Hl].
    cbn [render_terms] in Hdrop. rewrite append_cons in Hdrop.
    apply drop_cons in Hdrop as [Hget Hdrop]. rewrite append_assoc in Hdrop.
    destruct (additive_class op) as (Hcont & Hop & Hsp).
    assert (Hp : after_blanks input_ pos = pos).
    { unfold after_blanks. apply (skip_whitespace_loop_stop _ _ _ _ Hget Hsp). }
    rewrite <- Hp in Hget.
    rewrite (expression_loop_operator libm reg input_ n acc pos _ Hget Hop). rewrite Hp.
    cbn [terms_fuel] in Hfuel.
    pose proof (parse_term_term t n (S pos) _ Ht Hdrop) as Hterm.
    cbn [fold_terms].
    destruct (term_value libm t) as [v|e]; cbn [and_then].
    2:{ destruct Hterm as (p' & ->); [| lia | eauto].
        destruct l as [|[op' t'] l'].
        - rewrite append_nil. eapply stops_at_weaken; [|exact Hstop].
          intros c Hc. apply continues_expression_class in Hc. tauto.
        - cbn [render_terms]. rewrite append_cons. simpl.
          destruct (additive_class op') as (-> & _). reflexivity. }
    rewrite Hterm; [| | lia].
    2:{ destruct l as [|[op' t'] l'].
        - rewrite append_nil. eapply stops_at_weaken; [|exact Hstop].
          intros c Hc. apply continues_expression_class in Hc. tauto.
        - cbn [render_terms]. rewrite append_cons. simpl.
          destruct (additive_class op') as (-> & _). reflexivity. }
    assert (Happly : (if (additive_char op =? "+")%char
                      then StandardCalculator.add acc v
                      else StandardCalculator.subtract acc v) =
                     apply_additive op acc v).
    { destruct op; reflexivity. }
    rewrite Happly.
    apply drop_skip in Hdrop.
    specialize (IH n (apply_additive op acc v) _ r Hl Hdrop Hstop ltac:(lia)).
    destruct (fold_terms libm (apply_additive op acc v) l) as [w|e]; [|exact IH].
    rewrite IH. cbn [render_terms String.length]. rewrite append_length.
    do 2 f_equal. lia.
Qed.

(** An expression is its first term folded with the others. *)
Lemma parse_expression_expression e n pos r :
  well_formed e = true ->
  drop pos input_ = render e +:+ r ->
  stops_at continues_expression r = true ->
  expression_fuel e <= n ->
  match value libm e with
  | Return v =>
      parse_expression libm reg input_ n pos =
      Some (Return v, pos + String.length (render e))
  | Throw x => exists p', parse_expression libm reg input_ n pos = Some (Throw x, p')
  end.
Proof.
  intros Hwf Hdrop Hstop Hfuel. unfold expression_fuel in Hfuel.
  unfold well_formed in Hwf. apply andb_prop in Hwf as [Ht Hl].
  unfold render in Hdrop. rewrite append_assoc in Hdrop.
  destruct n as [|n]; [lia|].
  rewrite parse_expression_S. unfold bind.
  pose proof (parse_term_term (first_term e) n pos _ Ht Hdrop) as Hterm.
  assert (Hrest : stops_at continues_term (render_terms (more_terms e) +:+ r) = true).
  { destruct (more_terms e) as [|[op' t'] l'].
    - rewrite append_nil. eapply stops_at_weaken; [|exact Hstop].
      intros c Hc. apply continues_expression_class in Hc. tauto.
    - cbn [render_terms]. rewrite append_cons. simpl.
      destruct (additive_class op') as (-> & _). reflexivity. }
  specialize (Hterm Hrest ltac:(lia)).
  unfold value.
  destruct (term_value libm (first_term e)) as [v|x]; cbn [and_then].
  2:{ destruct Hterm as (p' & ->). eauto. }
  rewrite Hterm. apply drop_skip in Hdrop.
  pose proof (expression_loop_terms (more_terms e) n v _ r Hl Hdrop Hstop
                ltac:(lia)) as Hloop.
  destruct (fold_terms libm v (more_terms e)) as [w|x]; [|exact Hloop].
  rewrite Hloop. unfold render. rewrite append_length.
  do 2 f_equal. lia.
Qed.

(** A tower of powers is one factor, evaluated from the right. *)
Lemma parse_factor_tower l : forall x n pos r,
  well_formed_operand x = true ->
  forallb well_formed_operand l = true ->
  drop pos input_ = render_operand x +:+ (render_powers l +:+ r) ->
  stops_at continues_operand r = true ->
  List.length l < n ->
  match tower_value libm x l with
  | Return v =>
      parse_factor libm reg input_ n pos =
      Some (Return v,
            pos + (String.length (render_operand x) + String.length (render_powers l)))
  | Throw e => exists p', parse_factor libm reg input_ n pos = Some (Throw e, p')
  end.
Proof.
  induction l as [|y l IH]; intros x n pos r Hx Hl Hdrop Hstop Hfuel;
    (destruct n as [|n]; [simpl in Hfuel; lia|]).
  - cbn [render_powers] in Hdrop. rewrite append_nil in Hdrop.
    rewrite (parse_factor_operand x n pos r Hx Hdrop Hstop).
    cbn [tower_value render_powers String.length]. unfold operand_end.
    destruct (operand_value libm x) as [v|e]; [|eauto].
    do 2 f_equal. lia.
  - cbn [forallb] in Hl. apply andb_prop in Hl as [Hy Hl].
    rewrite (parse_factor_operand_power x n pos _ Hx Hdrop); [|reflexivity].
    cbn [tower_value].
    destruct (operand_value libm x) as [base|e]; cbn [and_then]; [|eauto].
    apply drop_operand in Hdrop. cbn [render_powers] in Hdrop.
    rewrite append_cons in Hdrop. apply drop_cons in Hdrop as [Hget Hdrop].
    cbn zeta. rewrite Hget. cbn [is_char Ascii.eqb Bool.eqb andb].
    rewrite append_assoc in Hdrop.
    specialize (IH y n _ r Hy Hl Hdrop Hstop ltac:(simpl in Hfuel; lia)).
    destruct (tower_value libm y l) as [exponent|e]; cbn [and_then].
    + rewrite IH. cbn [render_powers String.length]. rewrite append_length.
      do 2 f_equal. lia.
    + destruct IH as (p' & ->). eauto.
Qed.

(** A factor that ends where the input ends is the whole expression. *)
Lemma parse_expression_one_factor n pos r p :
  parse_factor libm reg input_ n pos = Some (r, p) ->
  String.get p input_ = None ->
  parse_expression libm reg input_ (S (S n)) pos = Some (r, p).
Proof.
  intros Hfactor Hend.
  destruct n as [|n]; [discriminate Hfactor|].
  assert (Hp : after_blanks input_ p = p).
  { unfold after_blanks. apply skip_whitespace_loop_end. exact Hend. }
  rewrite parse_expression_S. unfold bind at 1.
  rewrite parse_term_S. unfold bind at 1. rewrite Hfactor.
  destruct r as [v|e]; [|reflexivity].
  rewrite term_loop_stop; rewrite Hp, Hend; [|exact I].
  rewrite expression_loop_stop; rewrite Hp, Hend; [reflexivity|exact I].
Qed.

End Operand.

(** The text of a well-formed expression evaluates to its value. *)
Lemma evaluate_render libm reg e :
  well_formed e = true ->
  evaluate libm reg (render e) = Some (value libm e).
Proof.
  intros Hwf.
  pose proof (parse_expression_expression libm reg (render e) e (expression_fuel e) 0 ""
                Hwf (eq_sym (append_nil_r _)) eq_refl (Nat.le_refl _)) as H.
  destruct (value libm e) as [v|x].
  - exact (EvaluateFacts.evaluate_run _ _ _ _ _ _ H).
  - destruct H as (p' & H). exact (EvaluateFacts.evaluate_run _ _ _ _ _ _ H).
Qed.

(** The text of a well-formed tower evaluates to its value. *)
Lemma evaluate_tower libm reg x l :
  well_formed_operand x = true -> forallb well_formed_operand l = true ->
  evaluate libm reg (render_tower x l) = Some (tower_value libm x l).
Proof.
  intros Hx Hl. unfold render_tower.
  pose proof (parse_factor_tower libm reg (render_operand x +:+ render_powers l)
                l x (S (List.length l)) 0 "" Hx Hl) as H.
  rewrite append_nil_r in H. specialize (H eq_refl eq_refl (Nat.lt_succ_diag_r _)).
  destruct (tower_value libm x l) as [v|e].
  - apply parse_expression_one_factor in H.
    + exact (EvaluateFacts.evaluate_run _ _ _ _ _ _ H).
    + apply get_ge_None. rewrite append_length. cbn [Nat.add]. lia.
  - destruct H as (p' & H).
    (* the factor throws, and so does every production above it *)
    assert (Hrun : parse_expression libm reg (render_operand x +:+ render_powers l)
                     (S (S (S (List.length l)))) 0 = Some (Throw e, p')).
    { rewrite parse_expression_S. unfold bind at 1.
      rewrite parse_term_S. unfold bind at 1. rewrite H. reflexivity. }
    exact (EvaluateFacts.evaluate_run _ _ _ _ _ _ Hrun).
Qed.

End ArithmeticFacts.

(** * Edge cases of the factor production *)

Module EdgeFacts.
Import ExpressionParser SuffixFacts FactorFacts ArithmeticFacts Arithmetic.

Lemma starts_no_factor_class c :
  starts_no_factor c = true ->
  isspace c = false /\ isalpha c = false /\ isdigit c = false /\
  (c =? ".")%char = false /\ (c =? "+")%char = false /\ (c =? "-")%char = false /\
  (c =? "(")%char = false /\ (c =? "e")%char = false /\ (c =? "E")%char = false.
Proof.
  destruct c as [[] [] [] [] [] [] [] []]; try discriminate;
    repeat split; reflexivity.
Qed.

Lemma isspace_not_name_char c : isspace c = true -> name_char c = false.
Proof.
  destruct c as [[] [] [] [] [] [] [] []]; try discriminate; reflexivity.
Qed.

Lemma isalpha_class c :
  isalpha c = true ->
  isspace c = false /\ name_char c = true /\
  (c =? "-")%char || (c =? "+")%char = false /\ (c =? "(")%char = false.
Proof.
  destruct c as [[] [] [] [] [] [] [] []]; try discriminate;
    repeat split; reflexivity.
Qed.

Section Edge.

Variable libm : std.cmath.
Variable reg : registry.
Variable input_ : string.

(** An exception of the first factor is the exception of the expression. *)
Lemma parse_expression_factor_throws n pos e p :
  parse_factor libm reg input_ n pos = Some (Throw e, p) ->
  parse_expression libm reg input_ (S (S n)) pos = Some (Throw e, p).
Proof.
  intros H. rewrite CursorFacts.parse_expression_S. unfold bind at 1.
  rewrite CursorFacts.parse_term_S. unfold bind at 1. rewrite H. reflexivity.
Qed.

(** A factor after which nothing of an expression follows is the whole
    expression. *)
Lemma parse_expression_single_factor n pos v p :
  parse_factor libm reg input_ n pos = Some (Return v, p) ->
  stops_at continues_expression (drop p input_) = true ->
  parse_expression libm reg input_ (S (S n)) pos = Some (Return v, p).
Proof.
  intros H Hstop.
  assert (Hblank : after_blanks input_ p = p).
  { apply (after_blanks_stops input_ continues_expression p _ eq_refl Hstop).
    intros c Hc. apply continues_expression_class in Hc. tauto. }
  pose proof (get_stops_at continues_expression p input_ _ eq_refl Hstop) as Hget.
  rewrite CursorFacts.parse_expression_S. unfold bind at 1.
  rewrite CursorFacts.parse_term_S. unfold bind at 1. rewrite H.
  destruct n as [|n]; [discriminate H|].
  rewrite term_loop_stop.
  - rewrite Hblank.
    replace (match String.get p input_ with Some _ => p | None => p end) with p
      by (destruct (String.get p input_); reflexivity).
    rewrite expression_loop_stop.
    + rewrite Hblank. destruct (String.get p input_); reflexivity.
    + rewrite Hblank. destruct (String.get p input_) as [c|]; [|exact I].
      apply continues_expression_class in Hget. tauto.
  - rewrite Hblank. destruct (String.get p input_) as [c|]; [|exact I].
    apply continues_expression_class in Hget. destruct Hget as (Hget & _).
    apply continues_term_class in Hget. tauto.
Qed.

Lemma after_blanks_to_end pos :
  string_forall isspace (drop pos input_) = true ->
  pos <= String.length input_ ->
  after_blanks input_ pos = String.length input_.
Proof.
  intros Hb Hle.
  rewrite (after_blanks_blanks input_ (drop pos input_) pos ""
             (eq_sym (append_nil_r _)) Hb eq_refl).
  rewrite drop_length. lia.
Qed.

(** Only blanks up to the end: the factor is missing. *)
Lemma parse_factor_blank n pos :
  string_forall isspace (drop pos input_) = true ->
  pos <= String.length input_ ->
  parse_factor libm reg input_ (S n) pos =
  Some (Throw EvalError.UnexpectedEnd, String.length input_).
Proof.
  intros Hb Hle.
  rewrite parse_factor_end; rewrite (after_blanks_to_end pos Hb Hle).
  - reflexivity.
  - apply get_ge_None. lia.
Qed.

(** A character that starts no factor: no number is found there. *)
Lemma parse_number_no_digit pos c :
  String.get pos input_ = Some c -> starts_no_factor c = true ->
  parse_number libm input_ pos =
  Some (Throw (runtime_error "Expected number"), pos).
Proof.
  intros Hget Hc.
  destruct (starts_no_factor_class c Hc)
    as (Hsp & Hal & Hd & Hdot & Hplus & Hminus & Hpar & He & HE).
  rewrite (parse_number_start libm input_ pos c Hget Hsp).
  assert (Hm : scan_mantissa input_ pos = Some (Return tt, pos)).
  { unfold scan_mantissa. destruct (String.length input_ - pos); simpl;
      [reflexivity|]. rewrite Hget, Hd, Hdot. reflexivity. }
  unfold bind at 1. rewrite Hm.
  unfold bind at 1, exponent_part.
  rewrite StepFacts.bind_peek, Hget. cbn [is_char]. rewrite He, HE. cbn [orb].
  unfold ret at 1.
  rewrite StepFacts.bind_get_pos, Nat.eqb_refl. reflexivity.
Qed.

Lemma parse_factor_no_factor n pos c :
  String.get (after_blanks input_ pos) input_ = Some c ->
  starts_no_factor c = true ->
  parse_factor libm reg input_ (S n) pos =
  Some (Throw (runtime_error "Expected number"), after_blanks input_ pos).
Proof.
  intros Hget Hc.
  destruct (starts_no_factor_class c Hc)
    as (Hsp & Hal & Hd & Hdot & Hplus & Hminus & Hpar & He & HE).
  rewrite (parse_factor_literal libm reg input_ n pos c Hget);
    [|rewrite Hminus, Hplus; reflexivity|assumption|assumption].
  rewrite (parse_number_no_digit _ c Hget Hc). reflexivity.
Qed.

(** An operator after which only blanks follow: the operand is missing,
    whatever was evaluated before. *)
Lemma expression_loop_dangling n result pos op :
  String.get (after_blanks input_ pos) input_ = Some op ->
  (op =? "+")%char || (op =? "-")%char = true ->
  string_forall isspace (drop (S (after_blanks input_ pos)) input_) = true ->
  expression_loop libm reg input_ (S (S (S n))) result pos =
  Some (Throw EvalError.UnexpectedEnd, String.length input_).
Proof.
  intros Hget Hop Hb.
  rewrite (expression_loop_operator libm reg input_ _ result pos op Hget Hop).
  rewrite CursorFacts.parse_term_S. unfold bind at 1.
  rewrite parse_factor_blank; [reflexivity|exact Hb|].
  apply get_Some_lt in Hget. lia.
Qed.

Lemma term_loop_dangling n result pos op :
  String.get (after_blanks input_ pos) input_ = Some op ->
  (op =? "*")%char || (op =? "/")%char || (op =? "%")%char = true ->
  string_forall isspace (drop (S (after_blanks input_ pos)) input_) = true ->
  term_loop libm reg input_ (S (S n)) result pos =
  Some (Throw EvalError.UnexpectedEnd, String.length input_).
Proof.
  intros Hget Hop Hb.
  rewrite (term_loop_operator libm reg input_ _ result pos op Hget Hop).
  rewrite parse_factor_blank; [reflexivity|exact Hb|].
  apply get_Some_lt in Hget. lia.
Qed.

(** The identifier loop reads the name characters and stops. *)
Lemma name_loop_names id : forall k acc pos r,
  drop pos input_ = id +:+ r -> string_forall name_char id = true ->
  stops_at name_char r = true ->
  name_loop input_ (String.length id + k) acc pos =
  (acc +:+ id, pos + String.length id).
Proof.
  induction id as [|c id IH]; intros k acc pos r Hdrop Hid Hstop.
  - rewrite append_nil in Hdrop. rewrite append_nil_r, Nat.add_0_r.
    cbn [String.length Nat.add].
    pose proof (get_stops_at name_char pos input_ r Hdrop Hstop) as Hget.
    destruct k as [|k]; simpl; [reflexivity|].
    destruct (String.get pos input_) as [c|]; [|reflexivity].
    unfold name_char in Hget. rewrite Hget. reflexivity.
  - rewrite append_cons in Hdrop. apply drop_cons in Hdrop as (Hget & Hdrop).
    cbn [string_forall] in Hid. apply andb_true_iff in Hid as (Hc & Hid).
    cbn [String.length Nat.add]. simpl name_loop. rewrite Hget.
    unfold name_char in Hc. rewrite Hc.
    rewrite (IH k _ (S pos) r Hdrop Hid Hstop).
    rewrite append_assoc, append_cons, append_nil.
    f_equal. lia.
Qed.

Lemma identifier_at_names id pos r :
  drop pos input_ = id +:+ r -> string_forall name_char id = true ->
  stops_at name_char r = true ->
  identifier_at input_ pos = (id, pos + String.length id).
Proof.
  intros Hdrop Hid Hstop. unfold identifier_at.
  replace (String.length input_ - pos) with (String.length id + String.length r).
  - rewrite (name_loop_names id _ EmptyString pos r Hdrop Hid Hstop).
    rewrite append_nil. reflexivity.
  - rewrite <- drop_length, Hdrop, append_length. reflexivity.
Qed.

End Edge.
End EdgeFacts.

(** * Calls, constants and groups around arithmetic expressions *)

Module CallFacts.
Import ExpressionParser SuffixFacts FactorFacts ArithmeticFacts Arithmetic EdgeFacts.

Lemma is_identifier_start name :
  is_identifier name = true ->
  exists c name', name = String c name' /\ isalpha c = true /\
                  string_forall name_char name = true.
Proof.
  destruct name as [|c name']; [discriminate|]. cbn [is_identifier].
  intros H. apply andb_true_iff in H as (Hc & Hrest).
  exists c, name'. split; [reflexivity|]. split; [exact Hc|].
  cbn [string_forall]. rewrite Hrest.
  destruct (isalpha_class c Hc) as (_ & -> & _). reflexivity.
Qed.

Lemma stops_at_blanks_then (p : ascii -> bool) blanks c r :
  string_forall isspace blanks = true ->
  (forall a, isspace a = true -> p a = false) -> p c = false ->
  stops_at p (blanks +:+ String c r) = true.
Proof.
  intros Hb Hsp Hc. destruct blanks as [|b blanks].
  - rewrite append_nil. cbn [stops_at]. rewrite Hc. reflexivity.
  - rewrite append_cons. cbn [stops_at string_forall] in *.
    apply andb_true_iff in Hb as (Hb & _). rewrite (Hsp b Hb). reflexivity.
Qed.

Lemma replicate_char_shift n c r :
  replicate_char (S n) c +:+ r = replicate_char n c +:+ String c r.
Proof.
  induction n as [|n IH].
  - reflexivity.
  - change (replicate_char (S (S n)) c) with (String c (replicate_char (S n) c)).
    rewrite append_cons, IH. reflexivity.
Qed.

Lemma replicate_char_length n c : String.length (replicate_char n c) = n.
Proof. induction n as [|n IH]; simpl; congruence. Qed.

Section Call.

Variable libm : std.cmath.
Variable reg : registry.
Variable input_ : string.

(** A name, then blanks, then something that is no name character. *)
Lemma parse_factor_name name blanks c r pos :
  is_identifier name = true -> string_forall isspace blanks = true ->
  isspace c = false -> name_char c = false ->
  drop pos input_ = name +:+ (blanks +:+ String c r) ->
  after_blanks input_ pos = pos /\
  (exists a, String.get pos input_ = Some a /\ isalpha a = true) /\
  identifier_at input_ pos = (name, pos + String.length name) /\
  after_blanks input_ (pos + String.length name) =
    pos + String.length name + String.length blanks /\
  String.get (pos + String.length name + String.length blanks) input_ = Some c /\
  drop (S (pos + String.length name + String.length blanks)) input_ = r.
Proof.
  intros Hname Hb Hsp Hnc Hdrop.
  destruct (is_identifier_start name Hname) as (a & name' & -> & Ha & Hchars).
  destruct (isalpha_class a Ha) as (Hasp & _).
  pose proof Hdrop as Hfirst. rewrite append_cons in Hfirst.
  apply drop_cons in Hfirst as (Hget & _).
  assert (Hrest : drop (pos + String.length (String a name')) input_ =
                  blanks +:+ String c r) by exact (drop_skip _ _ _ _ Hdrop).
  assert (Hopen : drop (pos + String.length (String a name') + String.length blanks)
                    input_ = String c r) by exact (drop_skip _ _ _ _ Hrest).
  apply drop_cons in Hopen as (Hc & Hafter).
  split; [|split; [|split; [|split; [|split]]]].
  - unfold after_blanks. apply (skip_whitespace_loop_stop input_ _ pos a Hget Hasp).
  - exists a. split; assumption.
  - apply (identifier_at_names input_ _ pos _ Hdrop Hchars).
    apply stops_at_blanks_then; auto using isspace_not_name_char.
  - apply (after_blanks_blanks input_ blanks _ (String c r) Hrest Hb).
    cbn [stops_at]. rewrite Hsp. reflexivity.
  - exact Hc.
  - exact Hafter.
Qed.

(** A call with an arithmetic argument: the argument is evaluated, the
    closing parenthesis is required, then the name is looked up. *)
Lemma parse_factor_call name blanks e n pos r :
  is_identifier name = true -> string_forall isspace blanks = true ->
  well_formed e = true ->
  drop pos input_ = render_call name blanks e +:+ r ->
  expression_fuel e <= n ->
  match call_value libm reg name e with
  | Return v =>
      parse_factor libm reg input_ (S n) pos =
      Some (Return v, pos + String.length (render_call name blanks e))
  | Throw x => exists p', parse_factor libm reg input_ (S n) pos = Some (Throw x, p')
  end.
Proof.
  intros Hname Hb Hwf Hdrop Hfuel. unfold render_call in Hdrop |- *.
  rewrite append_assoc, append_assoc, append_cons, append_assoc, append_cons,
    append_nil in Hdrop.
  destruct (parse_factor_name name blanks "(" _ pos Hname Hb eq_refl eq_refl Hdrop)
    as (Hstart & (a & Hget & Ha) & Hid & Hblanks & Hopen & Hafter).
  rewrite <- Hstart in Hget.
  rewrite (parse_factor_identifier libm reg input_ n pos a Hget Ha).
  rewrite Hstart, Hid, Hblanks. cbn zeta. rewrite Hopen. cbn [is_char Ascii.eqb Bool.eqb].
  set (p2 := pos + String.length name + String.length blanks) in *.
  pose proof (parse_expression_expression libm reg input_ e n (S p2) _ Hwf Hafter
                eq_refl Hfuel) as He.
  unfold call_value. destruct (value libm e) as [v|x]; cbn [and_then].
  - rewrite He.
    assert (Hclose : drop (S p2 + String.length (render e)) input_ = String ")" r)
      by exact (drop_skip _ _ _ _ Hafter).
    rewrite (after_blanks_stops input_ isspace _ _ Hclose eq_refl ltac:(auto)).
    apply drop_cons in Hclose as (-> & _). cbn [is_char Ascii.eqb Bool.eqb].
    assert (Hlen : S (S p2 + String.length (render e)) =
                   pos + String.length (name +:+ blanks +:+ String "(" (render e +:+ ")"))).
    { rewrite !append_length. cbn [String.length]. rewrite append_length.
      cbn [String.length]. unfold p2. lia. }
    rewrite Hlen.
    destruct (functions_ reg !! name) as [func|].
    + destruct (func v); eauto.
    + eauto.
  - destruct He as (p' & ->). eauto.
Qed.

(** A bare name is looked up among the constants. *)
Lemma parse_factor_constant name n pos r :
  is_identifier name = true ->
  drop pos input_ = name +:+ r ->
  stops_at (fun c => name_char c || (c =? "(")%char) (drop (after_blanks input_
    (pos + String.length name)) input_) = true ->
  stops_at name_char r = true ->
  parse_factor libm reg input_ (S n) pos =
  match constants_ reg !! name with
  | Some value => Some (Return value, after_blanks input_ (pos + String.length name))
  | None => Some (Throw (EvalError.UnknownIdentifier name),
                  after_blanks input_ (pos + String.length name))
  end.
Proof.
  intros Hname Hdrop Hnext Hstop.
  destruct (is_identifier_start name Hname) as (a & name' & -> & Ha & Hchars).
  destruct (isalpha_class a Ha) as (Hasp & _).
  pose proof Hdrop as Hfirst. rewrite append_cons in Hfirst.
  apply drop_cons in Hfirst as (Hget & _).
  assert (Hstart : after_blanks input_ pos = pos)
    by apply (skip_whitespace_loop_stop input_ _ pos a Hget Hasp).
  rewrite <- Hstart in Hget.
  rewrite (parse_factor_identifier libm reg input_ n pos a Hget Ha).
  rewrite Hstart, (identifier_at_names input_ _ pos _ Hdrop Hchars Hstop). cbn zeta.
  pose proof (get_stops_at _ _ input_ _ eq_refl Hnext) as Hc.
  destruct (String.get (after_blanks input_ (pos + String.length (String a name')))
              input_) as [c|]; cbn [is_char].
  - apply orb_false_iff in Hc as (_ & ->). reflexivity.
  - reflexivity.
Qed.

(** Balanced parentheses around an arithmetic expression. *)
Lemma parse_expression_nested k : forall e n pos r,
  well_formed e = true ->
  drop pos input_ =
    replicate_char k "(" +:+ (render e +:+ (replicate_char k ")" +:+ r)) ->
  stops_at continues_expression r = true ->
  expression_fuel e + 3 * k <= n ->
  match value libm e with
  | Return v =>
      parse_expression libm reg input_ n pos =
      Some (Return v, pos + (k + (String.length (render e) + k)))
  | Throw x => exists p', parse_expression libm reg input_ n pos = Some (Throw x, p')
  end.
Proof.
  induction k as [|k IH]; intros e n pos r Hwf Hdrop Hstop Hfuel.
  - cbn [replicate_char] in Hdrop. rewrite !append_nil in Hdrop.
    pose proof (parse_expression_expression libm reg input_ e n pos r Hwf Hdrop
                  Hstop ltac:(lia)) as He.
    destruct (value libm e) as [v|x]; [|exact He].
    rewrite He. f_equal. f_equal. lia.
  - rewrite (replicate_char_shift k ")") in Hdrop.
    change (replicate_char (S k) "(") with (String "(" (replicate_char k "(")) in Hdrop.
    rewrite append_cons in Hdrop.
    apply drop_cons in Hdrop as (Hget & Hdrop).
    destruct n as [|[|[|n]]]; try lia.
    assert (Hstart : after_blanks input_ pos = pos)
      by apply (skip_whitespace_loop_stop input_ _ pos "(" Hget eq_refl).
    specialize (IH e n (S pos) (String ")" r) Hwf Hdrop eq_refl ltac:(lia)).
    rewrite <- Hstart in Hget.
    pose proof (parse_factor_group libm reg input_ n pos Hget) as Hgroup.
    rewrite Hstart in Hgroup.
    destruct (value libm e) as [v|x].
    + rewrite IH in Hgroup. cbn zeta in Hgroup.
      assert (Hclose : drop (S pos + (k + (String.length (render e) + k))) input_ =
                       String ")" r).
      { replace (S pos + (k + (String.length (render e) + k)))
          with (S pos + String.length (replicate_char k "(") +
                String.length (render e) + String.length (replicate_char k ")"))
          by (rewrite !replicate_char_length; lia).
        apply drop_skip with (a := replicate_char k ")").
        apply drop_skip with (a := render e).
        apply drop_skip with (a := replicate_char k "(").
        exact Hdrop. }
      set (p1 := S pos + (k + (String.length (render e) + k))) in *.
      rewrite (after_blanks_stops input_ isspace _ _ Hclose eq_refl ltac:(auto))
        in Hgroup.
      pose proof Hclose as Hc. apply drop_cons in Hc as (Hc & Hrest).
      rewrite Hc in Hgroup. cbn [is_char Ascii.eqb Bool.eqb] in Hgroup.
      rewrite power_suffix_explicit in Hgroup.
      assert (Hr : after_blanks input_ (S p1) = S p1).
      { apply (after_blanks_stops input_ continues_expression _ _ Hrest Hstop).
        intros c H. apply continues_expression_class in H. tauto. }
      rewrite Hr in Hgroup. cbn zeta in Hgroup.
      pose proof (get_stops_at continues_expression _ input_ _ Hrest Hstop) as Hnext.
      assert (Hpow : is_char "^" (String.get (S p1) input_) = false).
      { destruct (String.get (S p1) input_) as [c|]; [|reflexivity]. cbn [is_char].
        unfold continues_expression, continues_term, continues_operand in Hnext.
        repeat (apply orb_false_iff in Hnext; destruct Hnext as [Hnext ?]).
        assumption. }
      rewrite Hpow in Hgroup.
      apply parse_expression_single_factor in Hgroup; [|rewrite Hrest; exact Hstop].
      rewrite Hgroup. f_equal. f_equal. unfold p1. lia.
    + destruct IH as (p' & IH). rewrite IH in Hgroup.
      exists p'. apply parse_expression_factor_throws. exact Hgroup.
Qed.

End Call.
End CallFacts.

(** * The text handed to [evaluate] *)

Module InputFacts.
Import ExpressionParser SuffixFacts FactorFacts ArithmeticFacts Arithmetic EdgeFacts
  CallFacts.

Section Input.

Variable libm : std.cmath.
Variable reg : registry.

Lemma drop_all (s : string) : drop (String.length s) s = "".
Proof.
  rewrite <- (append_nil_r s) at 2. apply drop_append.
Qed.

(** The outcome of the first factor is the outcome of [evaluate] when the
    factor throws or uses up the input. *)
Lemma evaluate_factor s n r p :
  parse_factor libm reg s n 0 = Some (r, p) ->
  match r with Return _ => p = String.length s | Throw _ => True end ->
  evaluate libm reg s = Some r.
Proof.
  intros H Hend. destruct r as [v|e].
  - subst p. apply parse_expression_single_factor in H.
    + exact (EvaluateFacts.evaluate_run _ _ _ _ _ _ H).
    + rewrite drop_all. reflexivity.
  - apply parse_expression_factor_throws in H.
    exact (EvaluateFacts.evaluate_run _ _ _ _ _ _ H).
Qed.

Lemma evaluate_call name blanks e :
  is_identifier name = true -> string_forall isspace blanks = true ->
  well_formed e = true ->
  evaluate libm reg (render_call name blanks e) = Some (call_value libm reg name e).
Proof.
  intros Hname Hb Hwf.
  pose proof (parse_factor_call libm reg (render_call name blanks e) name blanks e
                (expression_fuel e) 0 "" Hname Hb Hwf (eq_sym (append_nil_r _))
                (Nat.le_refl _)) as H.
  destruct (call_value libm reg name e) as [v|x].
  - apply (evaluate_factor _ _ _ _ H). reflexivity.
  - destruct H as (p' & H). apply (evaluate_factor _ _ _ _ H). exact I.
Qed.

Lemma evaluate_constant name :
  is_identifier name = true ->
  evaluate libm reg name =
  Some match constants_ reg !! name with
       | Some value => Return value
       | None => Throw (EvalError.UnknownIdentifier name)
       end.
Proof.
  intros Hname.
  assert (Hend : after_blanks name (0 + String.length name) = String.length name).
  { cbn [Nat.add].
    apply (after_blanks_to_end name); [rewrite drop_all; reflexivity|lia]. }
  pose proof (parse_factor_constant libm reg name name 0 0 "" Hname
                (eq_sym (append_nil_r _))) as H.
  rewrite Hend, drop_all in H. specialize (H eq_refl eq_refl).
  destruct (constants_ reg !! name) as [value|];
    apply (evaluate_factor _ _ _ _ H); [reflexivity|exact I].
Qed.

Lemma evaluate_nested k e :
  well_formed e = true ->
  evaluate libm reg
    (replicate_char k "(" +:+ (render e +:+ replicate_char k ")")) =
  Some (value libm e).
Proof.
  intros Hwf.
  pose proof (parse_expression_nested libm reg
                (replicate_char k "(" +:+ (render e +:+ replicate_char k ")"))
                k e (expression_fuel e + 3 * k) 0 "" Hwf) as H.
  rewrite append_nil_r in H. specialize (H eq_refl eq_refl (Nat.le_refl _)).
  destruct (value libm e) as [v|x].
  - exact (EvaluateFacts.evaluate_run _ _ _ _ _ _ H).
  - destruct H as (p' & H). exact (EvaluateFacts.evaluate_run _ _ _ _ _ _ H).
Qed.

(** An opening parenthesis that is never closed. *)
Lemma evaluate_unclosed e :
  well_formed e = true ->
  evaluate libm reg (String "(" (render e)) =
  Some (and_then (value libm e) (fun _ => Throw EvalError.MismatchedParentheses)).
Proof.
  intros Hwf. set (s := String "(" (render e)).
  assert (Hget : String.get (after_blanks s 0) s = Some "("%char) by reflexivity.
  pose proof (parse_factor_group libm reg s (expression_fuel e) 0 Hget) as H.
  change (after_blanks s 0) with 0 in H.
  pose proof (parse_expression_expression libm reg s e (expression_fuel e) 1 ""
                Hwf (eq_sym (append_nil_r _)) eq_refl (Nat.le_refl _)) as He.
  destruct (value libm e) as [v|x]; cbn [and_then].
  - rewrite He in H. cbn zeta in H.
    assert (Hend : after_blanks s (1 + String.length (render e)) = String.length s).
    { apply (after_blanks_to_end s); [|cbn; lia].
      change (1 + String.length (render e)) with (String.length s).
      rewrite drop_all. reflexivity. }
    rewrite Hend, (get_ge_None s _ (Nat.le_refl _)) in H. cbn [is_char] in H.
    apply (evaluate_factor _ _ _ _ H). exact I.
  - destruct He as (p' & He). rewrite He in H.
    apply (evaluate_factor _ _ _ _ H). exact I.
Qed.

(** Blanks, then a character that starts no factor. *)
Lemma evaluate_no_factor ws c rest :
  string_forall isspace ws = true -> starts_no_factor c = true ->
  evaluate libm reg (ws +:+ String c rest) =
  Some (Throw (runtime_error "Expected number")).
Proof.
  intros Hws Hc. set (s := ws +:+ String c rest).
  destruct (starts_no_factor_class c Hc) as (Hsp & _).
  assert (Hblank : after_blanks s 0 = 0 + String.length ws).
  { apply (after_blanks_blanks s ws 0 (String c rest) eq_refl Hws).
    cbn [stops_at]. rewrite Hsp. reflexivity. }
  assert (Hget : String.get (after_blanks s 0) s = Some c).
  { rewrite Hblank. cbn [Nat.add].
    pose proof (drop_append ws (String c rest)) as Hd.
    apply drop_cons in Hd as (Hd & _). exact Hd. }
  pose proof (parse_factor_no_factor libm reg s 0 0 c Hget Hc) as H.
  apply (evaluate_factor _ _ _ _ H). exact I.
Qed.

Lemma evaluate_blank s :
  string_forall isspace s = true ->
  evaluate libm reg s = Some (Throw EvalError.UnexpectedEnd).
Proof.
  intros Hs.
  pose proof (parse_factor_blank libm reg s 0 0 Hs (Nat.le_0_l _)) as H.
  apply (evaluate_factor _ _ _ _ H). exact I.
Qed.

End Input.
End InputFacts.

(** * The domain checks of [StandardCalculator] *)

Module CheckFacts.

Lemma SFcompare_refl x : x <> S754_nan -> SFcompare x x = Some Eq.
Proof.
  destruct x as [s|s| |s m e]; intros H; cbn [SFcompare].
  - reflexivity.
  - destruct s; reflexivity.
  - contradiction.
  - rewrite Z.compare_refl.
    change (PosDef.Pos.compare_cont Eq m m) with (Pos.compare m m).
    rewrite Pos.compare_refl. destruct s; reflexivity.
Qed.

Lemma is_nan_Prim2SF x : PrimFloat.is_nan x = true -> Prim2SF x = S754_nan.
Proof.
  unfold PrimFloat.is_nan. rewrite FloatAxioms.eqb_spec. intros H.
  destruct (Prim2SF x) as [s|s| |s m e] eqn:E; [| |reflexivity|];
    unfold SFeqb in H; rewrite SFcompare_refl in H by discriminate; discriminate H.
Qed.

(** Every comparison with a NaN is false. *)
Lemma compare_nan x :
  PrimFloat.is_nan x = true ->
  forall y, (x <? y)%float = false /\ (y <? x)%float = false /\
            (x <=? y)%float = false /\ (y <=? x)%float = false /\
            (x =? y)%float = false.
Proof.
  intros H y. apply is_nan_Prim2SF in H.
  rewrite !FloatAxioms.ltb_spec, !FloatAxioms.leb_spec, FloatAxioms.eqb_spec, H.
  unfold SFltb, SFleb, SFeqb.
  destruct (Prim2SF y) as [s|s| |s m e]; repeat split; reflexivity.
Qed.

Lemma ltb_zero x : (x <? 0)%float = Class.negative x.
Proof.
  rewrite FloatAxioms.ltb_spec. unfold Class.negative.
  change (Prim2SF 0%float) with (S754_zero false).
  destruct (Prim2SF x) as [s|s| |s m e]; try reflexivity; destruct s; reflexivity.
Qed.

Lemma leb_zero x : (x <=? 0)%float = Class.negative x || Class.zero x.
Proof.
  rewrite FloatAxioms.leb_spec. unfold Class.negative, Class.zero.
  change (Prim2SF 0%float) with (S754_zero false).
  destruct (Prim2SF x) as [s|s| |s m e]; try reflexivity; destruct s; reflexivity.
Qed.

End CheckFacts.

(** * The registry the constructor builds *)

Module RegistryFacts.
Import ExpressionParser.

Lemma functions_new libm name func :
  functions_ (new libm) !! name = Some func <->
  In (name, func) (Builtin.functions libm).
Proof.
  split.
  - unfold new. cbn [register_function register_constant functions_]. intros H.
    repeat (rewrite lookup_insert_Some in H; destruct H as [[<- <-]|[_ H]];
            [cbn; tauto|]).
    rewrite lookup_empty in H. discriminate H.
  - intros H. cbn in H.
    repeat (destruct H as [H|H]; [injection H as <- <-; vm_compute; reflexivity|]).
    contradiction.
Qed.

Lemma constants_new libm name value :
  constants_ (new libm) !! name = Some value <->
  In (name, value) Builtin.constants.
Proof.
  split.
  - unfold new. cbn [register_function register_constant constants_]. intros H.
    repeat (rewrite lookup_insert_Some in H; destruct H as [[<- <-]|[_ H]];
            [cbn; tauto|]).
    rewrite lookup_empty in H. discriminate H.
  - intros H. cbn in H.
    repeat (destruct H as [H|H]; [injection H as <- <-; vm_compute; reflexivity|]).
    contradiction.
Qed.

(** Only the checked built-ins throw, and only their domain errors. *)
Lemma builtin_throws libm name func x e :
  functions_ (new libm) !! name = Some func -> func x = Throw e ->
  In name Builtin.checked /\
  exists what, In what Errors.domain_messages /\ e = domain_error what.
Proof.
  intros H Hthrow. apply functions_new in H. cbn in H.
  repeat (destruct H as [H|H];
          [injection H as <- <-;
           cbv beta delta
             [StandardCalculator.sin StandardCalculator.cos StandardCalculator.tan
              StandardCalculator.asin StandardCalculator.acos StandardCalculator.atan
              StandardCalculator.sinh StandardCalculator.cosh StandardCalculator.tanh
              StandardCalculator.sqrt StandardCalculator.cbrt StandardCalculator.abs
              StandardCalculator.exp StandardCalculator.log StandardCalculator.log10
              StandardCalculator.log2 StandardCalculator.floor StandardCalculator.ceil
              StandardCalculator.round] in Hthrow;
           first
             [ discriminate Hthrow
             | match type of Hthrow with
               | (if ?b then _ else _) = _ => destruct b
               end; [|discriminate Hthrow];
               injection Hthrow as <-;
               (split; [cbn; tauto|eexists; split; [|reflexivity]; cbn; tauto]) ]|]).
  contradiction.
Qed.

End RegistryFacts.

(** * The exceptions an evaluation can end in *)

Module ErrorFacts.
Import ExpressionParser Errors.

Section Rules.

Variable P : exception -> Prop.

Lemma tw_ret {A} (a : A) : throws_within P (ret a).
Proof. intros pos e pos' H. discriminate H. Qed.

Lemma tw_throw {A} e : P e -> throws_within P (@throw A e).
Proof. intros He pos e' pos' H. injection H as <- _. exact He. Qed.

Lemma tw_lift {A} (o : outcome A) :
  (forall e, o = Throw e -> P e) -> throws_within P (lift o).
Proof. intros Ho pos e pos' H. injection H as -> _. apply Ho. reflexivity. Qed.

Lemma tw_out_of_fuel {A} : throws_within P (@out_of_fuel A).
Proof. intros pos e pos' H. discriminate H. Qed.

Lemma tw_bind {A B} (m : parser A) (k : A -> parser B) :
  throws_within P m -> (forall a, throws_within P (k a)) ->
  throws_within P (bind m k).
Proof.
  intros Hm Hk pos e pos' H.
  apply bind_Some in H as [(a & p & H1 & H2) | (e' & H1 & H2)].
  - exact (Hk a _ _ _ H2).
  - injection H2 as ->. exact (Hm _ _ _ H1).
Qed.

Lemma tw_peek input_ : throws_within P (peek input_).
Proof. intros pos e pos' H. discriminate H. Qed.

Lemma tw_advance : throws_within P advance.
Proof. intros pos e pos' H. discriminate H. Qed.

Lemma tw_get_pos : throws_within P get_pos.
Proof. intros pos e pos' H. discriminate H. Qed.

Lemma tw_skip_whitespace input_ : throws_within P (skip_whitespace input_).
Proof. intros pos e pos' H. discriminate H. Qed.

Lemma tw_scan_digits input_ : throws_within P (scan_digits input_).
Proof. intros pos e pos' H. discriminate H. Qed.

Lemma tw_scan_name input_ : throws_within P (scan_name input_).
Proof.
  intros pos e pos' H. unfold scan_name in H.
  destruct (name_loop input_ _ _ _). discriminate H.
Qed.

Lemma number_loop_throws input_ n : forall has_dot pos e pos',
  number_loop input_ n has_dot pos = (Throw e, pos') ->
  e = EvalError.InvalidNumberFormat.
Proof.
  induction n as [|n IH]; intros has_dot pos e pos' H; simpl in H; [discriminate H|].
  destruct (String.get pos input_) as [c|]; [|discriminate H].
  destruct (isdigit c || (c =? ".")%char); [|discriminate H].
  destruct (c =? ".")%char.
  - destruct has_dot.
    + injection H as <- _. reflexivity.
    + exact (IH _ _ _ _ H).
  - exact (IH _ _ _ _ H).
Qed.

Lemma tw_scan_mantissa input_ :
  P EvalError.InvalidNumberFormat -> throws_within P (scan_mantissa input_).
Proof.
  intros HP pos e pos' H. unfold scan_mantissa in H. injection H as H.
  apply number_loop_throws in H. subst e. exact HP.
Qed.

End Rules.

Ltac tw_step :=
  match goal with
  | H : Errors.throws_within _ ?m |- Errors.throws_within _ ?m => exact H
  | H : forall x, Errors.throws_within _ (?m x) |- Errors.throws_within _ (?m _) =>
      apply H
  | |- Errors.throws_within _ (bind _ _) => apply tw_bind; [|intros ?]
  | |- Errors.throws_within _ (ret _) => apply tw_ret
  | |- Errors.throws_within _ out_of_fuel => apply tw_out_of_fuel
  | |- Errors.throws_within _ (peek _) => apply tw_peek
  | |- Errors.throws_within _ advance => apply tw_advance
  | |- Errors.throws_within _ get_pos => apply tw_get_pos
  | |- Errors.throws_within _ (skip_whitespace _) => apply tw_skip_whitespace
  | |- Errors.throws_within _ (scan_digits _) => apply tw_scan_digits
  | |- Errors.throws_within _ (scan_name _) => apply tw_scan_name
  | |- Errors.throws_within _ (if ?b then _ else _) => destruct b
  | |- Errors.throws_within _ (match ?x with _ => _ end) => destruct x eqn:?
  end.

Section Productions.

Variable libm : std.cmath.
Variable reg : registry.
Variable input_ : string.

Local Abbreviation within := (throws_within (evaluate_error reg)).

Lemma syntax_is_evaluate_error e : syntax_error e -> evaluate_error reg e.
Proof. intros H. left. exact H. Qed.

Lemma tw_exponent_part : within (exponent_part input_).
Proof. unfold exponent_part. repeat tw_step. Qed.

Lemma tw_parse_number : within (parse_number libm input_).
Proof.
  unfold parse_number.
  repeat first
    [ apply tw_exponent_part
    | apply tw_scan_mantissa; apply syntax_is_evaluate_error; unfold syntax_error; tauto
    | apply tw_ret
    | apply tw_throw; apply syntax_is_evaluate_error; unfold syntax_error;
        solve [eauto 10]
    | tw_step ].
Qed.

Lemma tw_power_suffix (factor : parser double) result :
  within factor -> within (power_suffix libm input_ factor result).
Proof. intros H. unfold power_suffix. repeat tw_step. Qed.

Lemma tw_operator (op : ascii) result rhs :
  within (lift (if (op =? "*")%char
                then Return (StandardCalculator.multiply result rhs)
                else if (op =? "/")%char
                then StandardCalculator.divide result rhs
                else StandardCalculator.modulo libm result rhs)).
Proof.
  apply tw_lift. intros e H. right. left. unfold arithmetic_error.
  destruct (op =? "*")%char; [discriminate H|].
  unfold StandardCalculator.divide, StandardCalculator.modulo in H.
  destruct (op =? "/")%char; destruct (rhs =? 0)%float; try discriminate H;
    injection H as <-; tauto.
Qed.

Lemma tw_productions (n : nat) :
  within (parse_expression libm reg input_ n) /\
  (forall result, within (expression_loop libm reg input_ n result)) /\
  within (parse_term libm reg input_ n) /\
  (forall result, within (term_loop libm reg input_ n result)) /\
  within (parse_factor libm reg input_ n).
Proof.
  induction n as [|n (IHe & IHel & IHt & IHtl & IHf)].
  - split; [|split; [|split; [|split]]]; intros; apply tw_out_of_fuel.
  - split; [|split; [|split; [|split]]]; intros; simpl;
      repeat first
        [ apply tw_parse_number
        | apply tw_power_suffix
        | apply tw_ret
        | apply tw_operator
        | apply tw_throw; apply syntax_is_evaluate_error; unfold syntax_error,
            EvalError.UnknownFunction, EvalError.UnknownIdentifier; solve [eauto 10]
        | apply tw_lift; intros ? ?; right; right; unfold function_error;
            solve [eauto 10]
        | tw_step ].
Qed.

End Productions.

Lemma evaluate_throws libm reg expression e :
  evaluate libm reg expression = Some (Throw e) -> evaluate_error reg e.
Proof.
  unfold evaluate. intros H.
  destruct (parse_expression libm reg expression (fuel_for expression) 0)
    as [[r p]|] eqn:E; [|discriminate H].
  injection H as ->.
  destruct (tw_productions libm reg expression (fuel_for expression)) as (He & _).
  exact (He _ _ _ E).
Qed.

End ErrorFacts.

(** * Literals that do not convert *)

Module LiteralFacts.
Import ExpressionParser Arithmetic ArithmeticFacts SuffixFacts.

Lemma take_digits_exponent ex acc :
  is_exponent ex = true -> std.take_digits ex acc 0 = (acc, 0, ex).
Proof.
  destruct ex as [|marker s1]; [reflexivity|]. cbn [is_exponent]. intros H.
  apply andb_true_iff in H as (Hm & _). apply marker_class in Hm.
  apply orb_false_iff in Hm as (Hd & _). cbn [std.take_digits]. rewrite Hd.
  reflexivity.
Qed.

(** A decimal point without a digit converts to nothing. *)
Lemma stod_lone_point libm ex :
  is_exponent ex = true ->
  std.stod libm (String "." ex) = Throw (invalid_argument "stod").
Proof.
  intros H. unfold std.stod. cbn [std.take_digits isdigit].
  change (isdigit ".") with false. cbn iota.
  rewrite (take_digits_exponent ex 0%Z H). reflexivity.
Qed.

Lemma evaluate_operand libm reg x :
  well_formed_operand x = true ->
  evaluate libm reg (render_operand x) = Some (operand_value libm x).
Proof.
  intros Hwf.
  pose proof (parse_factor_operand libm reg (render_operand x) x 0 0 "" Hwf
                (eq_sym (append_nil_r _)) eq_refl) as H.
  apply (InputFacts.evaluate_factor _ _ _ _ _ _ H).
  unfold operand_end. destruct (operand_value libm x); [reflexivity|exact I].
Qed.

End LiteralFacts.

(** * The parser does not depend on where the text stands *)

Module ShiftFacts.
Import ExpressionParser SuffixFacts Shift.

Lemma get_append_shift (pre s : string) pos :
  String.get (String.length pre + pos) (pre +:+ s) = String.get pos s.
Proof.
  induction pre as [|c pre IH]; [reflexivity|].
  rewrite append_cons. exact IH.
Qed.

Lemma substring_append_shift (pre s : string) start n :
  String.substring (String.length pre + start) n (pre +:+ s) =
  String.substring start n s.
Proof.
  induction pre as [|c pre IH]; [reflexivity|].
  rewrite append_cons. exact IH.
Qed.

Section Shifted.

Variable libm : std.cmath.
Variable reg : registry.
Variable pre : string.
Variable s : string.

Local Abbreviation k := (String.length pre).
Local Abbreviation longer := (pre +:+ s).
Local Abbreviation agrees := (Shift.agrees (String.length pre)).

Lemma rest_shift pos :
  String.length longer - (k + pos) = String.length s - pos.
Proof. rewrite append_length. lia. Qed.

Lemma skip_whitespace_loop_shift n : forall pos,
  skip_whitespace_loop longer n (k + pos) = k + skip_whitespace_loop s n pos.
Proof.
  induction n as [|n IH]; intros pos; simpl; [reflexivity|].
  rewrite get_append_shift. destruct (String.get pos s) as [c|]; [|reflexivity].
  destruct (isspace c); [|reflexivity].
  rewrite <- Nat.add_succ_r. apply IH.
Qed.

Lemma digits_loop_shift n : forall pos,
  digits_loop longer n (k + pos) = k + digits_loop s n pos.
Proof.
  induction n as [|n IH]; intros pos; simpl; [reflexivity|].
  rewrite get_append_shift. destruct (String.get pos s) as [c|]; [|reflexivity].
  destruct (isdigit c); [|reflexivity].
  rewrite <- Nat.add_succ_r. apply IH.
Qed.

Lemma number_loop_shift n : forall has_dot pos,
  number_loop longer n has_dot (k + pos) =
  let '(o, p) := number_loop s n has_dot pos in (o, k + p).
Proof.
  induction n as [|n IH]; intros has_dot pos; simpl; [reflexivity|].
  rewrite get_append_shift. destruct (String.get pos s) as [c|]; [|reflexivity].
  destruct (isdigit c || (c =? ".")%char); [|reflexivity].
  destruct (c =? ".")%char; [destruct has_dot; [reflexivity|]|];
    rewrite <- Nat.add_succ_r; apply IH.
Qed.

Lemma name_loop_shift n : forall name pos,
  name_loop longer n name (k + pos) =
  let '(o, p) := name_loop s n name pos in (o, k + p).
Proof.
  induction n as [|n IH]; intros name pos; simpl; [reflexivity|].
  rewrite get_append_shift. destruct (String.get pos s) as [c|]; [|reflexivity].
  destruct (isalnum c || (c =? "_")%char); [|reflexivity].
  rewrite <- Nat.add_succ_r. apply IH.
Qed.

Lemma agrees_ret {A} (a : A) : agrees (ret a) (ret a).
Proof. intros pos. reflexivity. Qed.

Lemma agrees_throw {A} e : agrees (@throw A e) (throw e).
Proof. intros pos. reflexivity. Qed.

Lemma agrees_lift {A} (o : outcome A) : agrees (lift o) (lift o).
Proof. intros pos. reflexivity. Qed.

Lemma agrees_out_of_fuel {A} : agrees (@out_of_fuel A) out_of_fuel.
Proof. intros pos. reflexivity. Qed.

Lemma agrees_advance : agrees advance advance.
Proof. intros pos. unfold advance, shifted. rewrite Nat.add_succ_r. reflexivity. Qed.

Lemma agrees_peek : agrees (peek s) (peek longer).
Proof. intros pos. unfold peek, shifted. rewrite get_append_shift. reflexivity. Qed.

Lemma agrees_skip_whitespace : agrees (skip_whitespace s) (skip_whitespace longer).
Proof.
  intros pos. unfold skip_whitespace, shifted.
  rewrite rest_shift, skip_whitespace_loop_shift. reflexivity.
Qed.

Lemma agrees_scan_digits : agrees (scan_digits s) (scan_digits longer).
Proof.
  intros pos. unfold scan_digits, shifted.
  rewrite rest_shift, digits_loop_shift. reflexivity.
Qed.

Lemma agrees_scan_mantissa : agrees (scan_mantissa s) (scan_mantissa longer).
Proof.
  intros pos. unfold scan_mantissa, shifted.
  rewrite rest_shift, number_loop_shift.
  destruct (number_loop s _ _ _). reflexivity.
Qed.

Lemma agrees_scan_name : agrees (scan_name s) (scan_name longer).
Proof.
  intros pos. unfold scan_name, shifted.
  rewrite rest_shift, name_loop_shift.
  destruct (name_loop s _ _ _). reflexivity.
Qed.

(** One step at one place. *)
Lemma shifted_bind {A B} (m m' : parser A) (f f' : A -> parser B) pos :
  m' (k + pos) = shifted k (m pos) ->
  (forall a p, m pos = Some (Return a, p) -> f' a (k + p) = shifted k (f a p)) ->
  bind m' f' (k + pos) = shifted k (bind m f pos).
Proof.
  intros Hm Hf. unfold bind. rewrite Hm.
  destruct (m pos) as [[[a|e] p]|]; cbn [shifted]; [apply Hf|..]; reflexivity.
Qed.

Lemma agrees_bind {A B} (m m' : parser A) (f f' : A -> parser B) :
  agrees m m' -> (forall a, agrees (f a) (f' a)) -> agrees (bind m f) (bind m' f').
Proof.
  intros Hm Hf pos. unfold bind. rewrite Hm.
  destruct (m pos) as [[[a|e] p]|]; cbn [shifted]; [apply Hf|reflexivity..].
Qed.

End Shifted.

Ltac agrees_step :=
  match goal with
  | H : Shift.agrees _ ?a ?b |- Shift.agrees _ ?a ?b => exact H
  | H : forall x, Shift.agrees _ (?a x) (?b x) |- Shift.agrees _ (?a _) (?b _) =>
      apply H
  | |- Shift.agrees _ (bind _ _) (bind _ _) => apply agrees_bind; [|intros ?]
  | |- Shift.agrees _ (ret _) (ret _) => apply agrees_ret
  | |- Shift.agrees _ (throw _) (throw _) => apply agrees_throw
  | |- Shift.agrees _ (lift _) (lift _) => apply agrees_lift
  | |- Shift.agrees _ out_of_fuel out_of_fuel => apply agrees_out_of_fuel
  | |- Shift.agrees _ advance advance => apply agrees_advance
  | |- Shift.agrees _ (peek _) (peek _) => apply agrees_peek
  | |- Shift.agrees _ (skip_whitespace _) (skip_whitespace _) =>
      apply agrees_skip_whitespace
  | |- Shift.agrees _ (scan_digits _) (scan_digits _) => apply agrees_scan_digits
  | |- Shift.agrees _ (scan_name _) (scan_name _) => apply agrees_scan_name
  | |- Shift.agrees _ (if ?b then _ else _) (if ?b then _ else _) => destruct b
  | |- Shift.agrees _ (match ?x with _ => _ end) (match ?x with _ => _ end) =>
      destruct x
  end.

Section Productions.

Variable libm : std.cmath.
Variable reg : registry.
Variable pre : string.
Variable s : string.

Local Abbreviation k := (String.length pre).
Local Abbreviation longer := (pre +:+ s).
Local Abbreviation agrees := (Shift.agrees (String.length pre)).

Lemma agrees_exponent_part : agrees (exponent_part s) (exponent_part longer).
Proof. unfold exponent_part. repeat agrees_step. Qed.

(** [parse_number] reads the cursor to cut the token out; the token is
    the same. *)
Lemma agrees_parse_number : agrees (parse_number libm s) (parse_number libm longer).
Proof.
  intros pos. unfold parse_number.
  rewrite !StepFacts.bind_skip_whitespace.
  unfold after_blanks. rewrite rest_shift, skip_whitespace_loop_shift.
  set (p := skip_whitespace_loop s (String.length s - pos) pos).
  rewrite !StepFacts.bind_peek, get_append_shift.
  destruct (String.get p s) as [c|]; [|reflexivity].
  rewrite !StepFacts.bind_get_pos.
  apply shifted_bind; [apply agrees_scan_mantissa|intros _ p1 _].
  apply shifted_bind; [apply agrees_exponent_part|intros _ p2 _].
  rewrite !StepFacts.bind_get_pos.
  replace (k + p =? k + p2)%nat with (p =? p2)%nat
    by (destruct (Nat.eqb_spec p p2), (Nat.eqb_spec (k + p) (k + p2)); lia || reflexivity).
  destruct (p =? p2)%nat; [reflexivity|].
  replace (k + p2 - (k + p)) with (p2 - p) by lia.
  rewrite substring_append_shift.
  destruct (std.stod libm _); reflexivity.
Qed.

Lemma agrees_power_suffix (f f' : parser double) result :
  agrees f f' ->
  agrees (power_suffix libm s f result) (power_suffix libm longer f' result).
Proof. intros H. unfold power_suffix. repeat agrees_step. Qed.

Lemma agrees_productions (n : nat) :
  agrees (parse_expression libm reg s n) (parse_expression libm reg longer n) /\
  (forall result, agrees (expression_loop libm reg s n result)
                         (expression_loop libm reg longer n result)) /\
  agrees (parse_term libm reg s n) (parse_term libm reg longer n) /\
  (forall result, agrees (term_loop libm reg s n result)
                         (term_loop libm reg longer n result)) /\
  agrees (parse_factor libm reg s n) (parse_factor libm reg longer n).
Proof.
  induction n as [|n (IHe & IHel & IHt & IHtl & IHf)].
  - split; [|split; [|split; [|split]]]; intros; apply agrees_out_of_fuel.
  - split; [|split; [|split; [|split]]]; intros;
      first [ rewrite !CursorFacts.parse_expression_S
            | rewrite !CursorFacts.expression_loop_S
            | rewrite !CursorFacts.parse_term_S
            | rewrite !CursorFacts.term_loop_S
            | rewrite !CursorFacts.parse_factor_S ];
      repeat first [ apply agrees_parse_number
                   | apply agrees_power_suffix
                   | agrees_step ].
Qed.

End Productions.
End ShiftFacts.

(** * Whitespace before the expression *)

Module LeadingFacts.
Import ExpressionParser SuffixFacts.

Section Leading.

Variable libm : std.cmath.
Variable reg : registry.

Lemma skip_whitespace_loop_over input_ ws : forall n pos rest,
  drop pos input_ = ws +:+ rest -> string_forall isspace ws = true ->
  skip_whitespace_loop input_ (String.length ws + n) pos =
  skip_whitespace_loop input_ n (pos + String.length ws).
Proof.
  induction ws as [|c ws IH]; intros n pos rest Hdrop Hws.
  - cbn [String.length Nat.add]. rewrite Nat.add_0_r. reflexivity.
  - rewrite append_cons in Hdrop. apply drop_cons in Hdrop as (Hget & Hdrop).
    cbn [string_forall] in Hws. apply andb_true_iff in Hws as (Hc & Hws).
    cbn [String.length Nat.add]. simpl skip_whitespace_loop. rewrite Hget, Hc.
    rewrite (IH n (S pos) rest Hdrop Hws). f_equal. lia.
Qed.

Lemma bind_from {A B} (m : parser A) (f : A -> parser B) pos pos' :
  m pos = m pos' -> bind m f pos = bind m f pos'.
Proof. unfold bind. intros ->. reflexivity. Qed.

(** A factor starts where the whitespace ends. *)
Lemma parse_factor_from_blanks input_ n pos pos' :
  after_blanks input_ pos = after_blanks input_ pos' ->
  parse_factor libm reg input_ (S n) pos = parse_factor libm reg input_ (S n) pos'.
Proof.
  intros H. rewrite CursorFacts.parse_factor_S.
  rewrite !StepFacts.bind_skip_whitespace, H. reflexivity.
Qed.

Lemma parse_expression_from_blanks input_ n pos pos' :
  after_blanks input_ pos = after_blanks input_ pos' ->
  parse_expression libm reg input_ (S (S (S n))) pos =
  parse_expression libm reg input_ (S (S (S n))) pos'.
Proof.
  intros H. rewrite CursorFacts.parse_expression_S. apply bind_from.
  rewrite CursorFacts.parse_term_S. apply bind_from.
  exact (parse_factor_from_blanks input_ n pos pos' H).
Qed.

Lemma after_blanks_leading ws s :
  string_forall isspace ws = true ->
  after_blanks (ws +:+ s) 0 = after_blanks (ws +:+ s) (String.length ws).
Proof.
  intros Hws. unfold after_blanks.
  rewrite append_length, Nat.sub_0_r.
  rewrite (skip_whitespace_loop_over (ws +:+ s) ws (String.length s) 0 s eq_refl Hws).
  f_equal. lia.
Qed.

Lemma evaluate_leading ws s :
  string_forall isspace ws = true ->
  evaluate libm reg (ws +:+ s) = evaluate libm reg s.
Proof.
  intros Hws.
  destruct (EvaluateFacts.parse_expression_enough libm reg s) as (r & p & E & _).
  transitivity (Some r); [|unfold evaluate; rewrite E; reflexivity].
  apply (EvaluateFacts.evaluate_run libm reg (ws +:+ s) (fuel_for s) r
           (String.length ws + p)).
  assert (Hf : fuel_for s = S (S (S (3 * String.length s))))
    by (unfold fuel_for; lia).
  rewrite Hf in E |- *.
  rewrite (parse_expression_from_blanks (ws +:+ s) _ 0 (String.length ws)
             (after_blanks_leading ws s Hws)).
  destruct (ShiftFacts.agrees_productions libm reg ws s
              (S (S (S (3 * String.length s))))) as (He & _).
  specialize (He 0). rewrite Nat.add_0_r in He. rewrite He, E. reflexivity.
Qed.

End Leading.
End LeadingFacts.

(** * Whitespace after the expression *)

Module PaddedFacts.
Import ExpressionParser Cursor CursorFacts StepFacts SuffixFacts FactorFacts Padded.

Lemma blank_is_no_token b :
  isspace b = true ->
  isdigit b = false /\ (b =? ".")%char = false /\ isalnum b = false /\
  (b =? "_")%char = false /\ (b =? "+")%char = false /\ (b =? "-")%char = false /\
  (b =? "e")%char = false /\ (b =? "E")%char = false.
Proof.
  destruct b as [[] [] [] [] [] [] [] []]; intros H; try discriminate H;
    repeat match goal with |- _ /\ _ => split end; reflexivity.
Qed.

Section Blank.

Variable libm : std.cmath.
Variable reg : registry.
Variable s : string.
Variable b : ascii.
Hypothesis b_blank : isspace b = true.

Local Abbreviation longer := (s +:+ String b "").
Local Abbreviation same_place := (Padded.same_place s).
Local Abbreviation sim := (Padded.sim s).
Local Abbreviation sim_lt := (Padded.sim_lt s).

Lemma padded_length : String.length longer = S (String.length s).
Proof. rewrite append_length. cbn [String.length]. lia. Qed.

Lemma get_padded_lt pos :
  pos < String.length s -> String.get pos longer = String.get pos s.
Proof. intros H. symmetry. apply String.append_correct1. exact H. Qed.

Lemma get_padded_end : String.get (String.length s) longer = Some b.
Proof.
  pose proof (String.append_correct2 s (String b "") 0) as H.
  cbn [Nat.add String.get] in H. symmetry. exact H.
Qed.

Lemma get_padded_behind : String.get (S (String.length s)) longer = None.
Proof. apply get_ge_None. rewrite padded_length. lia. Qed.

Lemma get_at_end : String.get (String.length s) s = None.
Proof. apply get_ge_None. lia. Qed.

(** The scanning loops stop at the blank as they stop at the end. *)
Lemma digits_loop_padded n1 : forall n2 pos,
  pos <= String.length s -> String.length s - pos <= n1 -> String.length s - pos < n2 ->
  digits_loop s n1 pos = digits_loop longer n2 pos.
Proof.
  destruct (blank_is_no_token b b_blank) as (Hd & _).
  induction n1 as [|n1 IH]; intros n2 pos Hle H1 H2;
    (destruct n2 as [|n2]; [lia|]); simpl.
  - assert (pos = String.length s) by lia. subst.
    rewrite get_padded_end, Hd. reflexivity.
  - destruct (String.get pos s) as [a|] eqn:E.
    + pose proof (get_Some_lt _ _ _ E) as Hlt.
      rewrite (get_padded_lt _ Hlt), E.
      destruct (isdigit a); [|reflexivity]. apply IH; lia.
    + apply get_None_ge in E. assert (pos = String.length s) by lia. subst.
      rewrite get_padded_end, Hd. reflexivity.
Qed.

Lemma number_loop_padded n1 : forall n2 has_dot pos,
  pos <= String.length s -> String.length s - pos <= n1 -> String.length s - pos < n2 ->
  number_loop s n1 has_dot pos = number_loop longer n2 has_dot pos.
Proof.
  destruct (blank_is_no_token b b_blank) as (Hd & Hdot & _).
  induction n1 as [|n1 IH]; intros n2 has_dot pos Hle H1 H2;
    (destruct n2 as [|n2]; [lia|]); simpl.
  - assert (pos = String.length s) by lia. subst.
    rewrite get_padded_end, Hd, Hdot. reflexivity.
  - destruct (String.get pos s) as [a|] eqn:E.
    + pose proof (get_Some_lt _ _ _ E) as Hlt.
      rewrite (get_padded_lt _ Hlt), E.
      destruct (isdigit a || (a =? ".")%char); [|reflexivity].
      destruct (a =? ".")%char; [destruct has_dot; [reflexivity|]|]; apply IH; lia.
    + apply get_None_ge in E. assert (pos = String.length s) by lia. subst.
      rewrite get_padded_end, Hd, Hdot. reflexivity.
Qed.

Lemma name_loop_padded n1 : forall n2 name pos,
  pos <= String.length s -> String.length s - pos <= n1 -> String.length s - pos < n2 ->
  name_loop s n1 name pos = name_loop longer n2 name pos.
Proof.
  destruct (blank_is_no_token b b_blank) as (_ & _ & Han & Hu & _).
  induction n1 as [|n1 IH]; intros n2 name pos Hle H1 H2;
    (destruct n2 as [|n2]; [lia|]); simpl.
  - assert (pos = String.length s) by lia. subst.
    rewrite get_padded_end, Han, Hu. reflexivity.
  - destruct (String.get pos s) as [a|] eqn:E.
    + pose proof (get_Some_lt _ _ _ E) as Hlt.
      rewrite (get_padded_lt _ Hlt), E.
      destruct (isalnum a || (a =? "_")%char); [|reflexivity]. apply IH; lia.
    + apply get_None_ge in E. assert (pos = String.length s) by lia. subst.
      rewrite get_padded_end, Han, Hu. reflexivity.
Qed.

Lemma scan_digits_padded pos :
  pos <= String.length s -> scan_digits s pos = scan_digits longer pos.
Proof.
  intros H. unfold scan_digits. do 2 f_equal.
  apply digits_loop_padded; rewrite ?padded_length; lia.
Qed.

Lemma scan_mantissa_padded pos :
  pos <= String.length s -> scan_mantissa s pos = scan_mantissa longer pos.
Proof.
  intros H. unfold scan_mantissa. f_equal.
  apply number_loop_padded; rewrite ?padded_length; lia.
Qed.

Lemma scan_name_padded pos :
  pos <= String.length s -> scan_name s pos = scan_name longer pos.
Proof.
  intros H. unfold scan_name.
  rewrite (name_loop_padded (String.length s - pos) (String.length longer - pos));
    rewrite ?padded_length; try lia. reflexivity.
Qed.

(** What [peek] reads at a place of [s]. *)
Lemma peek_padded pos :
  pos <= String.length s ->
  (pos < String.length s /\ String.get pos longer = String.get pos s /\
   exists a, String.get pos s = Some a) \/
  (pos = String.length s /\ String.get pos s = None /\ String.get pos longer = Some b).
Proof.
  intros H. destruct (Nat.eq_dec pos (String.length s)) as [->|Hne].
  - right. auto using get_at_end, get_padded_end.
  - left. assert (Hlt : pos < String.length s) by lia.
    split; [exact Hlt|]. split; [apply get_padded_lt; exact Hlt|].
    destruct (String.get pos s) as [a|] eqn:E; [eauto|].
    apply get_None_ge in E. lia.
Qed.

Lemma exponent_part_padded pos :
  pos <= String.length s -> exponent_part s pos = exponent_part longer pos.
Proof.
  destruct (blank_is_no_token b b_blank) as (_ & _ & _ & _ & Hplus & Hminus & He & HE).
  intros H. unfold exponent_part, bind, peek, advance, ret.
  destruct (peek_padded pos H) as [(Hlt & -> & a & ->)|(-> & -> & ->)].
  - cbn [is_char]. destruct ((a =? "e")%char || (a =? "E")%char); [|reflexivity].
    destruct (peek_padded (S pos) ltac:(lia)) as [(Hlt' & -> & a' & ->)|(E & -> & ->)].
    + cbn [is_char]. destruct ((a' =? "+")%char || (a' =? "-")%char).
      * apply scan_digits_padded. lia.
      * apply scan_digits_padded. lia.
    + cbn [is_char]. rewrite Hplus, Hminus. cbn [orb].
      apply scan_digits_padded. lia.
  - cbn [is_char]. rewrite He, HE. reflexivity.
Qed.

(** [skip_whitespace] stops at the same place inside [s], and goes on
    over the blank where it reached the end of [s]. *)
Lemma skip_whitespace_loop_padded n1 : forall n2 pos,
  pos <= String.length s -> String.length s - pos <= n1 -> String.length s - pos < n2 ->
  (skip_whitespace_loop s n1 pos < String.length s /\
   skip_whitespace_loop longer n2 pos = skip_whitespace_loop s n1 pos) \/
  (skip_whitespace_loop s n1 pos = String.length s /\
   skip_whitespace_loop longer n2 pos = S (String.length s)).
Proof.
  assert (Hend : forall n2, 0 < n2 ->
            skip_whitespace_loop longer n2 (String.length s) = S (String.length s)).
  { intros [|n2] Hn2; [lia|]. simpl. rewrite get_padded_end, b_blank.
    destruct n2; simpl; [reflexivity|]. rewrite get_padded_behind. reflexivity. }
  induction n1 as [|n1 IH]; intros n2 pos Hle H1 H2.
  - assert (pos = String.length s) by lia. subst. right.
    split; [reflexivity|]. apply Hend. lia.
  - simpl. destruct (String.get pos s) as [a|] eqn:E.
    + pose proof (get_Some_lt _ _ _ E) as Hlt.
      destruct n2 as [|n2]; [lia|]. simpl.
      rewrite (get_padded_lt _ Hlt), E.
      destruct (isspace a); [apply IH; lia|]. left. split; [exact Hlt|reflexivity].
    + apply get_None_ge in E. assert (pos = String.length s) by lia. subst.
      right. split; [reflexivity|]. apply Hend. lia.
Qed.

Lemma after_blanks_end : after_blanks longer (String.length s) = S (String.length s).
Proof.
  unfold after_blanks. rewrite padded_length.
  replace (S (String.length s) - String.length s) with 1 by lia. simpl.
  rewrite get_padded_end, b_blank. reflexivity.
Qed.

Lemma after_blanks_behind :
  after_blanks longer (S (String.length s)) = S (String.length s).
Proof.
  unfold after_blanks. rewrite padded_length, Nat.sub_diag. reflexivity.
Qed.

Lemma after_blanks_padded pos pos' :
  pos <= String.length s -> same_place pos pos' ->
  (after_blanks s pos < String.length s /\
   after_blanks longer pos' = after_blanks s pos) \/
  (after_blanks s pos = String.length s /\
   after_blanks longer pos' = S (String.length s)).
Proof.
  intros Hle [->|(-> & ->)].
  - unfold after_blanks. apply skip_whitespace_loop_padded;
      rewrite ?padded_length; lia.
  - right. split; [|exact after_blanks_behind].
    unfold after_blanks. rewrite Nat.sub_diag. reflexivity.
Qed.

(** ** The rules of the simulation *)

Lemma same_place_refl pos : same_place pos pos.
Proof. left. reflexivity. Qed.

Lemma pad_lift {A} (r : outcome A) : sim (lift r) (lift r).
Proof.
  intros pos pos' o q _ Hsp H. injection H as <- <-.
  exists pos'. split; [reflexivity|exact Hsp].
Qed.

Lemma pad_out_of_fuel {A} (m : parser A) : sim out_of_fuel m.
Proof. intros pos pos' o q _ _ H. discriminate H. Qed.

Lemma pad_weaken {A} (m m' : parser A) : sim m m' -> sim_lt m m'.
Proof.
  intros H pos o q Hlt Hm. apply (H pos pos o q); [lia|apply same_place_refl|exact Hm].
Qed.

(** Computations that do the same at every place of [s]. *)
Lemma pad_lt_agree {A} (m m' : parser A) :
  (forall pos, pos <= String.length s -> m pos = m' pos) -> sim_lt m m'.
Proof.
  intros Hm pos o q Hlt H. exists q. rewrite <- Hm by lia.
  split; [exact H|apply same_place_refl].
Qed.

Lemma pad_lt_advance : sim_lt advance advance.
Proof. apply pad_lt_agree. reflexivity. Qed.

Lemma pad_bind {A B} (m m' : parser A) (f f' : A -> parser B) :
  sim m m' -> Cursor.keeps_bounds s m -> (forall a, sim (f a) (f' a)) ->
  sim (bind m f) (bind m' f').
Proof.
  intros Hm Hb Hf pos pos' o q Hle Hsp H.
  apply bind_Some in H as [(a & p & H1 & H2) | (e & H1 & ->)].
  - destruct (Hm _ _ _ _ Hle Hsp H1) as (p' & H1' & Hsp').
    unfold bind. rewrite H1'. apply Hb in H1; [|exact Hle].
    apply (Hf a p p' o q); [lia|exact Hsp'|exact H2].
  - destruct (Hm _ _ _ _ Hle Hsp H1) as (q' & H1' & Hsp').
    exists q'. unfold bind. rewrite H1'. split; [reflexivity|exact Hsp'].
Qed.

Lemma pad_lt_bind {A B} (m m' : parser A) (f f' : A -> parser B) :
  sim_lt m m' -> Cursor.keeps_bounds_lt s m -> (forall a, sim (f a) (f' a)) ->
  sim_lt (bind m f) (bind m' f').
Proof.
  intros Hm Hb Hf pos o q Hlt H.
  apply bind_Some in H as [(a & p & H1 & H2) | (e & H1 & ->)].
  - destruct (Hm _ _ _ Hlt H1) as (p' & H1' & Hsp').
    unfold bind. rewrite H1'. apply Hb in H1; [|exact Hlt].
    apply (Hf a p p' o q); [lia|exact Hsp'|exact H2].
  - destruct (Hm _ _ _ Hlt H1) as (q' & H1' & Hsp').
    exists q'. unfold bind. rewrite H1'. split; [reflexivity|exact Hsp'].
Qed.

(** After [skip_whitespace] both sides read the same character inside
    [s], or one is at the end of [s], the other behind the blank, and
    both read nothing. *)
Lemma pad_skip_peek {B} (f f' : option ascii -> parser B) :
  (forall a, sim_lt (f (Some a)) (f' (Some a))) ->
  (forall o q, f None (String.length s) = Some (o, q) ->
     exists q', f' None (S (String.length s)) = Some (o, q') /\ same_place q q') ->
  sim (bind (skip_whitespace s) (fun _ => bind (peek s) f))
      (bind (skip_whitespace longer) (fun _ => bind (peek longer) f')).
Proof.
  intros Hin Hend pos pos' o q Hle Hsp H.
  rewrite bind_skip_whitespace, bind_peek in H |- *.
  destruct (after_blanks_padded pos pos' Hle Hsp) as [(Hlt & ->)|(E & ->)].
  - rewrite (get_padded_lt _ Hlt).
    destruct (String.get (after_blanks s pos) s) as [a|] eqn:Ea.
    + exact (Hin a _ _ _ Hlt H).
    + apply get_None_ge in Ea. lia.
  - rewrite E, get_at_end in H. rewrite get_padded_behind. exact (Hend _ _ H).
Qed.

(** Without [skip_whitespace] before it, [peek] at the end of [s] reads
    nothing on one side and the blank, or nothing behind it, on the
    other. *)
Lemma pad_peek_bind {B} (f f' : option ascii -> parser B) :
  (forall a, sim_lt (f (Some a)) (f' (Some a))) ->
  (forall o q, f None (String.length s) = Some (o, q) ->
     (exists q', f' (Some b) (String.length s) = Some (o, q') /\ same_place q q') /\
     (exists q', f' None (S (String.length s)) = Some (o, q') /\ same_place q q')) ->
  sim (bind (peek s) f) (bind (peek longer) f').
Proof.
  intros Hin Hend pos pos' o q Hle Hsp H. rewrite bind_peek in H |- *.
  destruct Hsp as [->|(-> & ->)].
  - destruct (peek_padded pos Hle) as [(Hlt & -> & a & E)|(-> & E & ->)].
    + rewrite E in H |- *. exact (Hin a _ _ _ Hlt H).
    + rewrite E in H. exact (proj1 (Hend _ _ H)).
  - rewrite get_at_end in H. rewrite get_padded_behind. exact (proj2 (Hend _ _ H)).
Qed.

(** [parse_number] cuts the same token out. *)
Lemma pad_parse_number : sim (parse_number libm s) (parse_number libm longer).
Proof.
  intros pos pos' o q Hle Hsp H. unfold parse_number in H |- *.
  rewrite bind_skip_whitespace, bind_peek in H |- *.
  destruct (after_blanks_padded pos pos' Hle Hsp) as [(Hlt & ->)|(E & ->)].
  - set (p := after_blanks s pos) in *.
    rewrite (get_padded_lt _ Hlt).
    destruct (String.get p s) as [a|] eqn:Ea; [|apply get_None_ge in Ea; lia].
    exists q. split; [|apply same_place_refl]. rewrite <- H. symmetry.
    apply bind_agree; [reflexivity|].
    intros start p0 Hp0. inversion Hp0; subst start p0; clear Hp0.
    apply bind_agree; [apply scan_mantissa_padded; lia|].
    intros [] p1 Hp1. apply kb_scan_mantissa in Hp1; [|lia].
    apply bind_agree; [apply exponent_part_padded; lia|].
    intros [] p2 Hp2. apply kb_exponent_part in Hp2; [|lia].
    apply bind_agree; [reflexivity|].
    intros pos'' p3 Hp3. inversion Hp3; subst pos'' p3; clear Hp3.
    destruct (p =? p2)%nat; [reflexivity|].
    rewrite TrailingFacts.substring_append by lia. reflexivity.
  - rewrite E, get_at_end in H. rewrite get_padded_behind.
    injection H as <- <-. exists (S (String.length s)).
    split; [reflexivity|right; split; reflexivity].
Qed.

Lemma pad_ret {A} (a : A) : sim (ret a) (ret a).
Proof. exact (pad_lift (Return a)). Qed.

Lemma pad_throw {A} e : sim (@throw A e) (throw e).
Proof. exact (pad_lift (Throw e)). Qed.

(** At the end of [s], after [skip_whitespace]: nothing is read on either
    side. *)
Ltac behind :=
  let o := fresh "o" in
  let q := fresh "q" in
  let H := fresh "H" in
  intros o q H;
  cbn beta iota delta [is_char negb orb andb] in H |- *;
  repeat match type of H with
         | context [match ?x with _ => _ end] => destruct x
         end;
  cbv beta delta [ret throw] in H |- *;
  injection H as <- <-;
  exists (S (String.length s));
  (split; [reflexivity|right; split; reflexivity]).

(** At the end of [s], at the head of a loop: one side leaves the loop,
    the other skips the blank first. *)
Ltac loop_end :=
  let o := fresh "o" in
  let q := fresh "q" in
  let H := fresh "H" in
  intros o q H;
  cbn beta iota in H |- *;
  cbv beta delta [ret] in H;
  injection H as <- <-;
  split; exists (S (String.length s));
  (split; [|right; split; reflexivity]);
  [ rewrite bind_skip_whitespace, after_blanks_end, bind_peek, get_padded_behind;
    reflexivity
  | reflexivity ].

Ltac pad_step :=
  match goal with
  | H : Padded.sim _ ?a ?b |- Padded.sim _ ?a ?b => exact H
  | H : forall x, Padded.sim _ (?a x) (?b x) |- Padded.sim _ (?a _) (?b _) => apply H
  | |- Padded.sim _ (ret _) (ret _) => apply pad_ret
  | |- Padded.sim _ (throw _) (throw _) => apply pad_throw
  | |- Padded.sim _ (lift _) (lift _) => apply pad_lift
  | |- Padded.sim _ out_of_fuel _ => apply pad_out_of_fuel
  | |- Padded.sim _ (parse_number _ _) (parse_number _ _) => apply pad_parse_number
  | |- Padded.sim_lt _ (scan_name _) (scan_name _) =>
      apply pad_lt_agree, scan_name_padded
  | |- Padded.sim_lt _ advance advance => apply pad_lt_advance
  | |- Padded.sim_lt _ (bind (skip_whitespace _) _) (bind (skip_whitespace _) _) =>
      apply pad_weaken
  | |- Padded.sim _ (bind (skip_whitespace _) _) (bind (skip_whitespace _) _) =>
      apply pad_skip_peek;
      [ intros ?; cbn beta iota delta [is_char negb orb andb] | behind ]
  | |- Padded.sim _ (bind (peek _) _) (bind (peek _) _) =>
      apply pad_peek_bind;
      [ intros ?; cbn beta iota delta [is_char negb orb andb] | loop_end ]
  | |- Padded.sim _ (bind _ _) (bind _ _) =>
      apply pad_bind; [ | solve [kb] | intros ? ]
  | |- Padded.sim_lt _ (bind _ _) (bind _ _) =>
      apply pad_lt_bind; [ | solve [apply kb_lt_advance | apply kb_weaken; kb] | intros ? ]
  | |- Padded.sim_lt _ (if ?c then _ else _) (if ?c then _ else _) => destruct c
  | |- Padded.sim _ (if ?c then _ else _) (if ?c then _ else _) => destruct c
  | |- Padded.sim_lt _ (match ?x with _ => _ end) (match ?x with _ => _ end) =>
      destruct x
  | |- Padded.sim _ (match ?x with _ => _ end) (match ?x with _ => _ end) =>
      destruct x
  | |- Padded.sim_lt _ _ _ => apply pad_weaken
  end.

Lemma pad_power_suffix (f f' : parser double) result :
  sim f f' -> Cursor.keeps_bounds s f ->
  sim (power_suffix libm s f result) (power_suffix libm longer f' result).
Proof.
  intros Hf Hkb. unfold power_suffix. repeat pad_step.
Qed.

(** Whatever a production ends in on [s], it ends in on [s] followed by
    the blank. *)
Lemma pad_productions (n : nat) :
  sim (parse_expression libm reg s n) (parse_expression libm reg longer n) /\
  (forall result, sim (expression_loop libm reg s n result)
                      (expression_loop libm reg longer n result)) /\
  sim (parse_term libm reg s n) (parse_term libm reg longer n) /\
  (forall result, sim (term_loop libm reg s n result)
                      (term_loop libm reg longer n result)) /\
  sim (parse_factor libm reg s n) (parse_factor libm reg longer n).
Proof.
  induction n as [|n (IHe & IHel & IHt & IHtl & IHf)].
  - split; [|split; [|split; [|split]]]; intros; apply pad_out_of_fuel.
  - split; [|split; [|split; [|split]]]; intros;
      rewrite ?parse_expression_S, ?expression_loop_S, ?parse_term_S, ?term_loop_S,
        ?parse_factor_S;
      repeat first [ apply pad_power_suffix; [ | solve [kb] ] | pad_step ].
Qed.

Lemma evaluate_padded : evaluate libm reg longer = evaluate libm reg s.
Proof.
  destruct (EvaluateFacts.parse_expression_enough libm reg s) as (r & p & E & _).
  transitivity (Some r); [|unfold evaluate; rewrite E; reflexivity].
  destruct (pad_productions (fuel_for s)) as (He & _).
  destruct (He 0 0 r p (Nat.le_0_l _) (same_place_refl 0) E) as (q' & E' & _).
  exact (EvaluateFacts.evaluate_run _ _ _ _ _ _ E').
Qed.

End Blank.

(** Any number of blanks. *)
Lemma evaluate_trailing libm reg ws : forall s,
  string_forall isspace ws = true ->
  evaluate libm reg (s +:+ ws) = evaluate libm reg s.
Proof.
  induction ws as [|b ws IH]; intros s Hws.
  - rewrite ArithmeticFacts.append_nil_r. reflexivity.
  - cbn [string_forall] in Hws. apply andb_true_iff in Hws as (Hb & Hws).
    replace (s +:+ String b ws) with ((s +:+ String b "") +:+ ws)
      by (rewrite append_assoc, append_cons, append_nil; reflexivity).
    rewrite (IH _ Hws). apply evaluate_padded. exact Hb.
Qed.

End PaddedFacts.

(** * The read-eval-print loop *)

Module MainFacts.
Import ExpressionParser SuffixFacts Main Repl.

Lemma blank_isspace c : blank c = true -> isspace c = true.
Proof.
  destruct c as [[] [] [] [] [] [] [] []]; intros H; try discriminate H; reflexivity.
Qed.

Lemma blanks_isspace s :
  string_forall blank s = true -> string_forall isspace s = true.
Proof.
  induction s as [|c s IH]; [reflexivity|]. cbn [string_forall]. intros H.
  apply andb_true_iff in H as (Hc & Hs).
  rewrite (blank_isspace c Hc), (IH Hs). reflexivity.
Qed.

(** ** The two searches *)

(** What [erase(0, find_first_not_of(" \t"))] leaves: the line without
    the blanks and tabs at its front. *)
Lemma strip_front (s : string) :
  exists before,
    s = before +:+ erase_front (find_first_not_of blank_or_tab s) s /\
    string_forall blank before = true /\
    stops_at blank (erase_front (find_first_not_of blank_or_tab s) s) = true.
Proof.
  induction s as [|c s (before & Hs & Hb & Hstop)].
  - exists EmptyString. repeat split.
  - cbn [find_first_not_of]. fold (blank c). destruct (blank c) eqn:Hc.
    + exists (String c before).
      destruct (find_first_not_of blank_or_tab s) as [k|]; cbn [option_map erase_front] in *.
      * cbn [drop]. rewrite append_cons, <- Hs. cbn [string_forall].
        rewrite Hc, Hb. repeat split. exact Hstop.
      * rewrite append_cons, <- Hs. cbn [string_forall].
        rewrite Hc, Hb. repeat split.
    + exists EmptyString. cbn [erase_front drop stops_at]. rewrite Hc. repeat split.
Qed.

Lemma substring_0_0 (s : string) : String.substring 0 0 s = "".
Proof. destruct s; reflexivity. Qed.

(** What [erase(find_last_not_of(" \t") + 1)] leaves: the line without
    the blanks and tabs at its end. *)
Lemma strip_behind (s : string) :
  exists after,
    s = erase_behind (find_last_not_of blank_or_tab s) s +:+ after /\
    string_forall blank after = true /\
    match find_last_not_of blank_or_tab s with
    | Some i =>
        i < String.length s /\
        exists c, last (erase_behind (Some i) s) = Some c /\ blank c = false
    | None => True
    end.
Proof.
  induction s as [|c s (after & Hs & Hb & Hlast)].
  - exists EmptyString. repeat split.
  - cbn [find_last_not_of]. fold (blank c).
    destruct (find_last_not_of blank_or_tab s) as [i|].
    + exists after. cbn [erase_behind] in *.
      change (String.substring 0 (S (S i)) (String c s))
        with (String c (String.substring 0 (S i) s)).
      rewrite append_cons, <- Hs. split; [reflexivity|]. split; [exact Hb|].
      destruct Hlast as (Hi & x & Hx & Hbx). split; [cbn; lia|].
      exists x. split; [|exact Hbx].
      cbn [last]. destruct (String.substring 0 (S i) s); [discriminate Hx|exact Hx].
    + cbn [erase_behind] in Hs. rewrite append_nil in Hs. subst after.
      destruct (blank c) eqn:Hc.
      * exists (String c s). cbn [erase_behind string_forall]. rewrite Hc, Hb.
        repeat split.
      * exists s. cbn [erase_behind].
        change (String.substring 0 1 (String c s))
          with (String c (String.substring 0 0 s)).
        rewrite substring_0_0. repeat split; [exact Hb|cbn; lia|].
        exists c. split; [reflexivity|exact Hc].
Qed.

Lemma stops_at_prefix p (t after : string) :
  stops_at p (t +:+ after) = true -> t <> "" -> stops_at p t = true.
Proof.
  destruct t as [|c t]; [congruence|]. rewrite append_cons. cbn [stops_at]. auto.
Qed.

(** [trim] takes blanks and tabs off both ends and nothing else. *)
Lemma trim_spec (s : string) :
  exists before after,
    s = before +:+ (trim s +:+ after) /\
    string_forall blank before = true /\ string_forall blank after = true /\
    trimmed (trim s) = true.
Proof.
  destruct (strip_front s) as (before & Hs & Hb & Hstop).
  unfold trim. cbn zeta.
  set (s1 := erase_front (find_first_not_of blank_or_tab s) s) in *.
  destruct (strip_behind s1) as (after & Hs1 & Ha & Hlast).
  exists before, after. rewrite <- Hs1, <- Hs.
  split; [reflexivity|]. split; [exact Hb|]. split; [exact Ha|].
  unfold trimmed.
  destruct (find_last_not_of blank_or_tab s1) as [i|]; [|reflexivity].
  destruct Hlast as (_ & x & Hx & Hbx). rewrite Hx, Hbx.
  rewrite andb_true_r. rewrite Hs1 in Hstop.
  apply (stops_at_prefix _ _ _ Hstop).
  intros E. rewrite E in Hx. discriminate Hx.
Qed.

Lemma find_first_not_of_over (a rest : string) :
  string_forall blank a = true ->
  erase_front (find_first_not_of blank_or_tab (a +:+ rest)) (a +:+ rest) =
  erase_front (find_first_not_of blank_or_tab rest) rest.
Proof.
  induction a as [|c a IH]; intros Ha; [reflexivity|].
  cbn [string_forall] in Ha. apply andb_true_iff in Ha as (Hc & Ha).
  rewrite append_cons. cbn [find_first_not_of]. fold (blank c). rewrite Hc.
  specialize (IH Ha).
  destruct (find_first_not_of blank_or_tab (a +:+ rest)) as [k|];
    cbn [option_map erase_front drop] in *; exact IH.
Qed.

Lemma find_first_not_of_blanks (s : string) :
  string_forall blank s = true -> find_first_not_of blank_or_tab s = None.
Proof.
  induction s as [|c s IH]; [reflexivity|]. cbn [string_forall]. intros H.
  apply andb_true_iff in H as (Hc & Hs).
  cbn [find_first_not_of]. fold (blank c). rewrite Hc, (IH Hs). reflexivity.
Qed.

Lemma find_last_not_of_blanks (s : string) :
  string_forall blank s = true -> find_last_not_of blank_or_tab s = None.
Proof.
  induction s as [|c s IH]; [reflexivity|]. cbn [string_forall]. intros H.
  apply andb_true_iff in H as (Hc & Hs).
  cbn [find_last_not_of]. fold (blank c). rewrite Hc, (IH Hs). reflexivity.
Qed.

(** The last position of a text that does not end in a blank or a tab,
    with blanks and tabs behind it. *)
Lemma find_last_not_of_middle (m after : string) : forall x,
  last m = Some x -> blank x = false -> string_forall blank after = true ->
  find_last_not_of blank_or_tab (m +:+ after) = Some (pred (String.length m)).
Proof.
  induction m as [|c m IH]; intros x Hx Hbx Ha; [discriminate Hx|].
  rewrite append_cons. cbn [find_last_not_of]. fold (blank c).
  destruct m as [|c' m].
  - rewrite append_nil, (find_last_not_of_blanks after Ha).
    cbn [last] in Hx. injection Hx as ->. rewrite Hbx. reflexivity.
  - rewrite (IH x Hx Hbx Ha). reflexivity.
Qed.

Lemma last_cons c (m : string) : exists x, last (String c m) = Some x.
Proof.
  revert c. induction m as [|c' m IH]; intros c; [exists c; reflexivity|].
  destruct (IH c') as (x & Hx). exists x. exact Hx.
Qed.

(** [trim] gives back a trimmed text from between blanks and tabs. *)
Lemma trim_middle (before m after : string) :
  string_forall blank before = true -> string_forall blank after = true ->
  trimmed m = true ->
  trim (before +:+ (m +:+ after)) = m.
Proof.
  intros Hb Ha Hm. unfold trim. cbn zeta.
  rewrite (find_first_not_of_over before _ Hb).
  unfold trimmed in Hm. apply andb_true_iff in Hm as (Hfirst & Hlast).
  destruct m as [|c m].
  - rewrite append_nil, (find_first_not_of_blanks after Ha). reflexivity.
  - cbn [stops_at] in Hfirst. apply negb_true_iff in Hfirst.
    rewrite append_cons. cbn [find_first_not_of]. fold (blank c). rewrite Hfirst.
    cbn [erase_front drop]. rewrite <- append_cons.
    destruct (last (String c m)) as [x|] eqn:Hx.
    + apply negb_true_iff in Hlast.
      rewrite (find_last_not_of_middle _ after x Hx Hlast Ha).
      cbn [erase_behind String.length pred].
      exact (ArithmeticFacts.substring_prefix (String c m) after).
    + destruct (last_cons c m) as (x & Hx'). congruence.
Qed.

Lemma trim_idempotent (s : string) : trim (trim s) = trim s.
Proof.
  destruct (trim_spec s) as (_ & _ & _ & _ & _ & Ht).
  pose proof (trim_middle "" (trim s) "" eq_refl eq_refl Ht) as H.
  rewrite append_nil, ArithmeticFacts.append_nil_r in H. exact H.
Qed.

Lemma trim_blanks (s : string) :
  trim s = "" <-> string_forall blank s = true.
Proof.
  split.
  - intros H. destruct (trim_spec s) as (before & after & Hs & Hb & Ha & _).
    rewrite H, append_nil in Hs. rewrite Hs. clear Hs H.
    induction before as [|c before IH]; [exact Ha|].
    cbn [string_forall] in Hb. apply andb_true_iff in Hb as (Hc & Hb).
    rewrite append_cons. cbn [string_forall]. rewrite Hc. exact (IH Hb).
  - intros H. unfold trim. rewrite (find_first_not_of_blanks s H). reflexivity.
Qed.

(** Trimming is invisible to the parser. *)
Lemma evaluate_trim libm reg (s : string) :
  evaluate libm reg (trim s) = evaluate libm reg s.
Proof.
  destruct (trim_spec s) as (before & after & Hs & Hb & Ha & _).
  rewrite Hs at 2. symmetry.
  rewrite (LeadingFacts.evaluate_leading libm reg before _ (blanks_isspace _ Hb)).
  exact (PaddedFacts.evaluate_trailing libm reg after _ (blanks_isspace _ Ha)).
Qed.

(** ** The body of the loop *)

Section Step.

Variable libm : std.cmath.

Lemma step_blank st input :
  string_forall blank input = true -> step libm st input = (nil, Some st).
Proof.
  intros H. unfold step. cbn zeta. rewrite (proj2 (trim_blanks input) H). reflexivity.
Qed.

(** A line that is no command is handed to [evaluate]; trimmed or not,
    the outcome is the same. *)
Lemma step_expression st input :
  is_command (trim input) = false ->
  exists r, evaluate libm (new libm) input = Some r /\
            step libm st input = (report r, Some st).
Proof.
  intros H. unfold is_command in H.
  repeat (apply orb_false_iff in H; destruct H as [H ?]).
  destruct (EvaluateFacts.evaluate_total libm (new libm) input) as (r & Hr).
  exists r. split; [exact Hr|].
  unfold step. cbn zeta.
  repeat match goal with
         | E : _ = false |- _ => rewrite E; clear E
         end.
  cbn [orb]. rewrite (evaluate_trim libm (new libm) input), Hr.
  destruct r; reflexivity.
Qed.

Lemma not_letter_first c (s w : string) a :
  isalpha c = false -> isalpha a = true ->
  String.eqb (String c s) (String a w) = false.
Proof.
  intros Hc Ha. cbn [String.eqb].
  destruct (Ascii.eqb_spec c a) as [->|_]; [congruence|reflexivity].
Qed.

(** Every command starts with a letter. *)
Lemma is_command_letter c (s : string) :
  isalpha c = false -> is_command (String c s) = false.
Proof.
  intros Hc. unfold is_command.
  rewrite !(not_letter_first c s _ _ Hc) by reflexivity.
  cbn [String.eqb orb String.prefix].
  destruct (Ascii.eqb_spec "m"%char c) as [<-|_]; [discriminate Hc|].
  destruct (ascii_dec "m" c) as [<-|_]; [discriminate Hc|reflexivity].
Qed.

Lemma prefix_drop (p : string) : forall s,
  String.prefix p s = true -> s = p +:+ drop (String.length p) s.
Proof.
  induction p as [|a p IH]; intros s H; [reflexivity|].
  destruct s as [|c s]; [discriminate H|]. cbn [String.prefix] in H.
  destruct (ascii_dec a c) as [->|]; [|discriminate H].
  rewrite append_cons. cbn [String.length drop]. f_equal. exact (IH s H).
Qed.

Lemma prefix_append (p s : string) : String.prefix p (p +:+ s) = true.
Proof.
  induction p as [|a p IH]; [destruct s; reflexivity|].
  rewrite append_cons. cbn [String.prefix].
  destruct (ascii_dec a a) as [_|Hne]; [exact IH|destruct Hne; reflexivity].
Qed.

Lemma last_append_cons (p : string) : forall c (m : string),
  last (p +:+ String c m) = last (String c m).
Proof.
  induction p as [|a p IH]; intros c m; [reflexivity|].
  rewrite append_cons. cbn [last].
  destruct (p +:+ String c m) eqn:E.
  - destruct p; discriminate E.
  - rewrite <- E. apply IH.
Qed.

(** The [mode] command. *)
Lemma step_mode st input m :
  trim input = "mode " +:+ m ->
  step libm st input =
    (cout (text "Switched to ") :: cout (text m) :: cout (text " mode") ::
     cout endl :: nil,
     Some {| mode := m; gpu_enabled := gpu_enabled st |}) /\
  exists c, last m = Some c /\ blank c = false.
Proof.
  intros H. split.
  - unfold step. cbn zeta. rewrite H.
    rewrite (prefix_append "mode " m).
    change ("mode " +:+ m)
      with (String "m" (String "o" (String "d" (String "e" (String " " m))))).
    reflexivity.
  - destruct (trim_spec input) as (_ & _ & _ & _ & _ & Ht).
    rewrite H in Ht. unfold trimmed in Ht. apply andb_true_iff in Ht as (_ & Ht).
    destruct m as [|c m]; [discriminate Ht|].
    rewrite last_append_cons in Ht.
    destruct (last_cons c m) as (x & Hx). rewrite Hx in Ht |- *.
    exists x. split; [reflexivity|]. apply negb_true_iff. exact Ht.
Qed.

Lemma string_forall_append p (a b : string) :
  string_forall p (a +:+ b) = string_forall p a && string_forall p b.
Proof.
  induction a as [|c a IH]; [reflexivity|].
  rewrite append_cons. cbn [string_forall]. rewrite IH, andb_assoc. reflexivity.
Qed.

Lemma isspace_not_alpha c : isspace c = true -> isalpha c = false.
Proof.
  destruct c as [[] [] [] [] [] [] [] []]; intros H; try discriminate H; reflexivity.
Qed.

(** A line of whitespace that is not only blanks and tabs is handed to
    the parser. *)
Lemma step_whitespace st input :
  string_forall isspace input = true -> string_forall blank input = false ->
  step libm st input = (report (Throw EvalError.UnexpectedEnd), Some st).
Proof.
  intros Hsp Hb.
  assert (Hcmd : is_command (trim input) = false).
  { destruct (trim_spec input) as (before & after & Hs & _).
    rewrite Hs, !string_forall_append in Hsp.
    apply andb_true_iff in Hsp as (_ & Hsp). apply andb_true_iff in Hsp as (Hsp & _).
    destruct (trim input) as [|c t] eqn:E.
    - apply trim_blanks in E. congruence.
    - cbn [string_forall] in Hsp. apply andb_true_iff in Hsp as (Hc & _).
      apply is_command_letter, isspace_not_alpha, Hc. }
  destruct (step_expression st input Hcmd) as (r & Hr & Hstep).
  rewrite (InputFacts.evaluate_blank libm (new libm) input Hsp) in Hr.
  injection Hr as <-. exact Hstep.
Qed.

(** [mode] without an argument is no command. *)
Lemma step_bare_mode st input :
  trim input = "mode"%string ->
  step libm st input =
  (report (Throw (EvalError.UnknownIdentifier "mode")), Some st).
Proof.
  intros H.
  assert (Hcmd : is_command (trim input) = false) by (rewrite H; vm_compute; reflexivity).
  destruct (step_expression st input Hcmd) as (r & Hr & Hstep).
  rewrite <- (evaluate_trim libm (new libm) input), H in Hr.
  rewrite (InputFacts.evaluate_constant libm (new libm) "mode" eq_refl) in Hr.
  injection Hr as <-. exact Hstep.
Qed.

(** Which lines change the state, and which end the loop. *)
Lemma step_state st input :
  match snd (step libm st input) with
  | None => trim input = "exit"%string \/ trim input = "quit"%string
  | Some st' =>
      trim input <> "exit"%string /\ trim input <> "quit"%string /\
      (st' = st \/
       (trim input = "gpu"%string /\
        st' = {| mode := mode st; gpu_enabled := negb (gpu_enabled st) |}) \/
       (exists m, trim input = "mode " +:+ m /\
                  st' = {| mode := m; gpu_enabled := gpu_enabled st |}))
  end.
Proof.
  unfold step. cbn zeta.
  destruct (String.eqb_spec (trim input) "") as [E|_].
  { cbn [snd]. rewrite E. repeat split; try discriminate. left. reflexivity. }
  destruct (String.eqb_spec (trim input) "exit") as [E|Hexit].
  { cbn [orb snd]. left. exact E. }
  destruct (String.eqb_spec (trim input) "quit") as [E|Hquit].
  { cbn [orb snd]. right. exact E. }
  cbn [orb].
  destruct (String.eqb (trim input) "help");
    [cbn [snd]; repeat split; try assumption; left; reflexivity|].
  destruct (String.eqb (trim input) "clear");
    [cbn [snd]; repeat split; try assumption; left; reflexivity|].
  destruct (String.eqb_spec (trim input) "gpu") as [E|_].
  { cbn [snd]. repeat split; try assumption. right. left. split; [exact E|reflexivity]. }
  destruct (String.prefix "mode " (trim input)) eqn:Hp.
  { cbn [snd]. repeat split; try assumption. right. right.
    exists (drop 5 (trim input)). split; [|reflexivity].
    exact (prefix_drop "mode " _ Hp). }
  destruct (evaluate libm (new libm) (trim input)) as [[v|e]|];
    cbn [snd]; repeat split; try assumption; left; reflexivity.
Qed.

(** Nothing behind the line that ends the loop is read. *)
Lemma loop_stops l1 : forall st input l2,
  trim input = "exit"%string \/ trim input = "quit"%string ->
  loop libm st (l1 ++ input :: l2) = loop libm st (l1 ++ input :: nil).
Proof.
  induction l1 as [|x l1 IH]; intros st input l2 H.
  - cbn [app loop]. f_equal.
    pose proof (step_state st input) as Hs.
    destruct (step libm st input) as [out [st'|]]; cbn [snd] in Hs.
    + destruct Hs as (Hexit & Hquit & _). destruct H; contradiction.
    + reflexivity.
  - cbn [app loop]. f_equal.
    destruct (step libm st x) as [out [st'|]]; [|reflexivity].
    f_equal. apply IH. exact H.
Qed.

End Step.
End MainFacts.

(** * The matrix product *)

Module MatrixFacts.
Import RowMajor Product.

Lemma size_t_small (n : N) : (n < 2 ^ 64)%N -> size_t n = n.
Proof. intros H. unfold size_t. apply N.mod_small. exact H. Qed.

Lemma lookup_nth {T} (l : list T) (d : T) i :
  i < length l -> l !! i = Some (nth i l d).
Proof.
  revert i. induction l as [|x l IH]; intros [|i] H; cbn in *; try lia.
  - reflexivity.
  - apply IH. lia.
Qed.

Lemma fold_left_seq_S {A} (f : A -> nat -> A) k n x :
  fold_left f (seq k (S n)) x = fold_left f (seq (S k) n) (f x k).
Proof. reflexivity. Qed.

(** ** A result that is a vector of its own *)

Lemma assign_other {T} (m : store T) v index x m' w :
  assign T m v index x = Some m' -> w <> v -> m' !! w = m !! w.
Proof.
  unfold assign. intros H Hne.
  destruct (m !! v) as [elements|]; [|discriminate H]. cbn [mbind option_bind] in H.
  destruct (decide _); [|discriminate H]. inversion H; subst.
  unfold store. rewrite lookup_insert_ne by congruence. reflexivity.
Qed.

Section Sized.

Variable T : Type.
Variable zero : T.
Variable multiply_add : T -> T -> T -> T.
Variable mismatch : string.
Variable a : address.
Variable a_rows a_cols : N.
Variable b : address.
Variable b_cols : N.
Variable result : address.

(** The elements of the two operands. *)
Variable va vb : list T.

Local Abbreviation R := (N.to_nat a_rows).
Local Abbreviation I := (N.to_nat a_cols).
Local Abbreviation C := (N.to_nat b_cols).

Hypothesis a_size : N.of_nat (length va) = (a_rows * a_cols)%N.
Hypothesis b_size : N.of_nat (length vb) = (a_cols * b_cols)%N.
Hypothesis a_fits : (a_rows * a_cols < 2 ^ 64)%N.
Hypothesis b_fits : (a_cols * b_cols < 2 ^ 64)%N.
Hypothesis result_fits : (a_rows * b_cols < 2 ^ 64)%N.
Hypothesis result_not_a : result <> a.
Hypothesis result_not_b : result <> b.

Local Abbreviation loop_k := (RowMajor.loop_k T multiply_add a a_cols b b_cols).
Local Abbreviation loop_j := (RowMajor.loop_j T zero multiply_add a a_cols b b_cols result).
Local Abbreviation loop_i := (RowMajor.loop_i T zero multiply_add a a_cols b b_cols result).
Local Abbreviation entry := (Product.entry T zero multiply_add va vb I C).

(** The store holds the operands. *)
Local Abbreviation holds m := (m !! a = Some va /\ m !! b = Some vb).

Lemma holds_result (m : store T) elements :
  holds m -> holds (<[result := elements]> m).
Proof.
  intros (Ha & Hb). unfold store in *.
  split; (rewrite lookup_insert_ne; [assumption|congruence]).
Qed.

Lemma a_index i k :
  i < R -> k < I ->
  N.to_nat (size_t (size_t (N.of_nat i * a_cols) + N.of_nat k)) = i * I + k /\
  i * I + k < length va.
Proof.
  intros Hi Hk.
  assert (Hlt : (N.of_nat i * a_cols + N.of_nat k < a_rows * a_cols)%N) by nia.
  rewrite (size_t_small (N.of_nat i * a_cols)) by nia.
  rewrite size_t_small by nia. split; nia.
Qed.

Lemma b_index k j :
  k < I -> j < C ->
  N.to_nat (size_t (size_t (N.of_nat k * b_cols) + N.of_nat j)) = k * C + j /\
  k * C + j < length vb.
Proof.
  intros Hk Hj.
  assert (Hlt : (N.of_nat k * b_cols + N.of_nat j < a_cols * b_cols)%N) by nia.
  rewrite (size_t_small (N.of_nat k * b_cols)) by nia.
  rewrite size_t_small by nia. split; nia.
Qed.

Lemma result_index i j :
  i < R -> j < C ->
  N.to_nat (size_t (size_t (N.of_nat i * b_cols) + N.of_nat j)) = i * C + j.
Proof.
  intros Hi Hj.
  assert (Hlt : (N.of_nat i * b_cols + N.of_nat j < a_rows * b_cols)%N) by nia.
  rewrite (size_t_small (N.of_nat i * b_cols)) by nia.
  rewrite size_t_small by nia. nia.
Qed.

Lemma loop_k_sum (m : store T) i j :
  holds m -> i < R -> j < C -> forall n k sum,
  k + n = I ->
  loop_k m (N.of_nat i) (N.of_nat j) n (N.of_nat k) sum =
  Some (fold_left
          (fun sum k => multiply_add sum (nth (i * I + k) va zero)
                                         (nth (k * C + j) vb zero))
          (seq k n) sum).
Proof.
  intros (Hma & Hmb) Hi Hj. induction n as [|n IH]; intros k sum Hk; [reflexivity|].
  cbn [RowMajor.loop_k]. unfold element. rewrite Hma, Hmb. cbn [mbind option_bind].
  destruct (a_index i k Hi ltac:(lia)) as (-> & Ha).
  destruct (b_index k j ltac:(lia) Hj) as (-> & Hb).
  rewrite (lookup_nth va zero _ Ha), (lookup_nth vb zero _ Hb). cbn [mbind option_bind].
  replace (N.of_nat k + 1)%N with (N.of_nat (S k)) by lia.
  rewrite IH by lia. reflexivity.
Qed.

Lemma loop_j_row (m : store T) i :
  holds m -> i < R -> forall n j done rest,
  j + n = C -> length done = i * C + j -> n <= length rest ->
  loop_j (N.of_nat i) n (N.of_nat j) (<[result := done ++ rest]> m) =
  Some (<[result := done ++ map (entry i) (seq j n) ++ skipn n rest]> m).
Proof.
  intros Hm Hi. induction n as [|n IH]; intros j done rest Hj Hdone Hrest.
  - cbn [RowMajor.loop_j seq map app skipn]. reflexivity.
  - cbn [RowMajor.loop_j].
    pose proof (loop_k_sum _ i j (holds_result m (done ++ rest) Hm) Hi ltac:(lia)
                  I 0 zero eq_refl) as Hsum.
    change (N.of_nat 0) with 0%N in Hsum. rewrite Hsum. cbn [mbind option_bind].
    unfold assign, store. rewrite lookup_insert_eq. cbn [mbind option_bind].
    rewrite (result_index i j Hi ltac:(lia)).
    destruct rest as [|r rest]; [cbn in Hrest; lia|].
    rewrite decide_True by (rewrite length_app; cbn; lia).
    cbn [mbind option_bind]. rewrite insert_insert_eq.
    rewrite <- Hdone.
    replace (length done) with (length done + 0) at 1 by lia.
    rewrite insert_app_r. cbn [insert list_insert].
    replace (N.of_nat j + 1)%N with (N.of_nat (S j)) by lia.
    replace (done ++ fold_left _ (seq 0 I) zero :: rest)
      with ((done ++ [entry i j]) ++ rest)
      by (rewrite <- app_assoc; reflexivity).
    rewrite IH; [|lia|rewrite length_app; cbn; lia|cbn in Hrest; lia].
    rewrite <- app_assoc. reflexivity.
Qed.

Lemma loop_i_rows (m : store T) :
  holds m -> forall n i done rest,
  i + n = R -> length done = i * C -> length rest = n * C ->
  loop_i n (N.of_nat i) (<[result := done ++ rest]> m) =
  Some (<[result := done ++ flat_map (fun i => map (entry i) (seq 0 C)) (seq i n)]> m).
Proof.
  intros Hm. induction n as [|n IH]; intros i done rest Hi Hdone Hrest.
  - cbn in Hrest. destruct rest; [|discriminate Hrest].
    cbn [RowMajor.loop_i seq flat_map]. reflexivity.
  - cbn [RowMajor.loop_i].
    pose proof (loop_j_row m i Hm ltac:(lia) C 0 done rest eq_refl ltac:(lia) ltac:(nia))
      as Hrow.
    change (N.of_nat 0) with 0%N in Hrow. rewrite Hrow. cbn [mbind option_bind].
    replace (N.of_nat i + 1)%N with (N.of_nat (S i)) by lia.
    rewrite app_assoc.
    rewrite IH; [|lia|rewrite length_app, length_map, length_seq; lia
                    |rewrite length_drop; nia].
    rewrite <- app_assoc. reflexivity.
Qed.

(** The operands are where they were, and [result] is the product. *)
Lemma multiply_product (m : store T) elements :
  holds m -> m !! result = Some elements ->
  RowMajor.multiply T zero multiply_add mismatch a a_rows a_cols b a_cols b_cols result m =
  Some (Return tt, <[result := Product.product T zero multiply_add va vb R I C]> m).
Proof.
  intros Hm Hr. unfold RowMajor.multiply. rewrite N.eqb_refl. cbn [negb].
  unfold resize_to. rewrite Hr. cbn [mbind option_bind].
  rewrite (size_t_small _ result_fits).
  pose proof (loop_i_rows m Hm R 0 [] (resize (N.to_nat (a_rows * b_cols)) zero elements)
                eq_refl eq_refl) as H.
  cbn [app] in H. change (N.of_nat 0) with 0%N in H.
  rewrite H; [reflexivity|]. rewrite length_resize. lia.
Qed.

End Sized.

(** ** The product as a matrix *)

Section Shape.

Variable T : Type.
Variable zero : T.
Variable multiply_add : T -> T -> T -> T.
Variable a b : list T.
Variable inner cols : nat.

Local Abbreviation entry := (Product.entry T zero multiply_add a b inner cols).
Local Abbreviation rows_from :=
  (fun k n => flat_map (fun i => map (entry i) (seq 0 cols)) (seq k n)).

Lemma rows_length n : forall k, length (rows_from k n) = n * cols.
Proof.
  induction n as [|n IH]; intros k; [reflexivity|].
  cbn [seq flat_map]. rewrite length_app, length_map, length_seq, IH. reflexivity.
Qed.

Lemma rows_nth d n : forall k i j,
  i < n -> j < cols -> nth (i * cols + j) (rows_from k n) d = entry (k + i) j.
Proof.
  induction n as [|n IH]; intros k i j Hi Hj; [lia|].
  cbn [seq flat_map]. destruct i as [|i].
  - cbn [Nat.mul Nat.add]. rewrite app_nth1 by (rewrite length_map, length_seq; lia).
    rewrite (nth_indep _ d (entry k 0)) by (rewrite length_map, length_seq; lia).
    rewrite (map_nth (entry k) (seq 0 cols) 0 j), seq_nth by lia.
    rewrite Nat.add_0_r. reflexivity.
  - rewrite app_nth2 by (rewrite length_map, length_seq; nia).
    rewrite length_map, length_seq.
    replace (S i * cols + j - cols) with (i * cols + j) by nia.
    rewrite (IH (S k) i j) by lia. f_equal. lia.
Qed.

Lemma product_length rows :
  length (Product.product T zero multiply_add a b rows inner cols) = rows * cols.
Proof. apply rows_length. Qed.

Lemma product_nth d rows i j :
  i < rows -> j < cols ->
  nth (i * cols + j) (Product.product T zero multiply_add a b rows inner cols) d =
  entry i j.
Proof. intros Hi Hj. exact (rows_nth d rows 0 i j Hi Hj). Qed.

End Shape.

(** ** Reads outside a vector *)

Section Undefined.

Variable T : Type.
Variable zero : T.
Variable multiply_add : T -> T -> T -> T.
Variable mismatch : string.
Variable a : address.
Variable a_rows a_cols : N.
Variable b : address.
Variable b_cols : N.
Variable result : address.

Local Abbreviation loop_k := (RowMajor.loop_k T multiply_add a a_cols b b_cols).
Local Abbreviation loop_j := (RowMajor.loop_j T zero multiply_add a a_cols b b_cols result).
Local Abbreviation loop_i := (RowMajor.loop_i T zero multiply_add a a_cols b b_cols result).

(** A loop that comes by a read outside a vector has no result. *)
Lemma loop_k_undefined m i j n : forall k sum k',
  (k <= k' < k + N.of_nat n)%N ->
  element T m a (size_t (size_t (i * a_cols) + k')) = None \/
  element T m b (size_t (size_t (k' * b_cols) + j)) = None ->
  loop_k m i j n k sum = None.
Proof.
  induction n as [|n IH]; intros k sum k' Hk H; [lia|].
  cbn [RowMajor.loop_k].
  destruct (element T m a (size_t (size_t (i * a_cols) + k))) as [x|] eqn:Ea;
    [|reflexivity].
  destruct (element T m b (size_t (size_t (k * b_cols) + j))) as [y|] eqn:Eb;
    [|reflexivity].
  cbn [mbind option_bind]. apply (IH _ _ k'); [|exact H].
  destruct (N.eq_dec k k') as [<-|Hne]; [|lia].
  destruct H; congruence.
Qed.

(** What the writes to [result] keep. *)
Variable kept : store T -> Prop.

Hypothesis assign_keeps : forall m index x m',
  kept m -> assign T m result index x = Some m' -> kept m'.

Lemma loop_j_keeps i n : forall j m m',
  kept m -> loop_j i n j m = Some m' -> kept m'.
Proof.
  induction n as [|n IH]; intros j m m' Hm H; cbn [RowMajor.loop_j] in H.
  - inversion H; subst. exact Hm.
  - destruct (loop_k m i j (N.to_nat a_cols) 0%N zero) as [sum|]; [|discriminate H].
    cbn [mbind option_bind] in H.
    destruct (assign T m result _ sum) as [m1|] eqn:E; [|discriminate H].
    cbn [mbind option_bind] in H.
    exact (IH _ _ _ (assign_keeps _ _ _ _ Hm E) H).
Qed.

Lemma loop_j_undefined i n : forall j m j',
  (j <= j' < j + N.of_nat n)%N -> kept m ->
  (forall m1, kept m1 -> loop_k m1 i j' (N.to_nat a_cols) 0%N zero = None) ->
  loop_j i n j m = None.
Proof.
  induction n as [|n IH]; intros j m j' Hj Hm H; [lia|].
  cbn [RowMajor.loop_j].
  destruct (loop_k m i j (N.to_nat a_cols) 0%N zero) as [sum|] eqn:E; [|reflexivity].
  cbn [mbind option_bind].
  destruct (assign T m result _ sum) as [m1|] eqn:Ew; [|reflexivity].
  cbn [mbind option_bind].
  apply (IH _ _ j'); [|exact (assign_keeps _ _ _ _ Hm Ew)|exact H].
  destruct (N.eq_dec j j') as [<-|Hne]; [|lia].
  rewrite (H m Hm) in E. discriminate E.
Qed.

Lemma loop_i_undefined n : forall i m i',
  (i <= i' < i + N.of_nat n)%N -> kept m ->
  (forall m1, kept m1 -> loop_j i' (N.to_nat b_cols) 0%N m1 = None) ->
  loop_i n i m = None.
Proof.
  induction n as [|n IH]; intros i m i' Hi Hm H; [lia|].
  cbn [RowMajor.loop_i].
  destruct (loop_j i (N.to_nat b_cols) 0%N m) as [m1|] eqn:E; [|reflexivity].
  cbn [mbind option_bind].
  apply (IH _ _ i'); [|exact (loop_j_keeps _ _ _ _ _ Hm E)|exact H].
  destruct (N.eq_dec i i') as [<-|Hne]; [|lia].
  rewrite (H m Hm) in E. discriminate E.
Qed.

(** One read outside a vector, anywhere in the three loops. *)
Lemma multiply_undefined m i k j :
  (forall m1, resize_to T m result (size_t (a_rows * b_cols)) zero = Some m1 -> kept m1) ->
  (i < a_rows)%N -> (k < a_cols)%N -> (j < b_cols)%N ->
  (forall m1, kept m1 ->
     element T m1 a (size_t (size_t (i * a_cols) + k)) = None \/
     element T m1 b (size_t (size_t (k * b_cols) + j)) = None) ->
  RowMajor.multiply T zero multiply_add mismatch a a_rows a_cols b a_cols b_cols result m =
  None.
Proof.
  intros Hresize Hi Hk Hj H. unfold RowMajor.multiply. rewrite N.eqb_refl. cbn [negb].
  destruct (resize_to T m result _ zero) as [m1|] eqn:E; [|reflexivity].
  cbn [mbind option_bind].
  rewrite (loop_i_undefined _ 0%N _ i); [reflexivity|lia|exact (Hresize _ eq_refl)|].
  intros m2 Hm2. apply (loop_j_undefined _ _ 0%N _ j); [lia|exact Hm2|].
  intros m3 Hm3. apply (loop_k_undefined _ _ _ _ 0%N _ k); [lia|exact (H _ Hm3)].
Qed.

End Undefined.

Section Short.

Variable T : Type.
Variable zero : T.
Variable multiply_add : T -> T -> T -> T.
Variable mismatch : string.
Variable a : address.
Variable a_rows a_cols : N.
Variable b : address.
Variable b_cols : N.
Variable result : address.

(** A vector that [result] is not stays as it is. *)
Lemma multiply_keeps v elements m i k j :
  result <> v -> m !! v = Some elements ->
  (i < a_rows)%N -> (k < a_cols)%N -> (j < b_cols)%N ->
  (forall m1, m1 !! v = Some elements ->
     element T m1 a (size_t (size_t (i * a_cols) + k)) = None \/
     element T m1 b (size_t (size_t (k * b_cols) + j)) = None) ->
  RowMajor.multiply T zero multiply_add mismatch a a_rows a_cols b a_cols b_cols result m =
  None.
Proof.
  intros Hne Hv Hi Hk Hj H.
  apply (multiply_undefined T zero multiply_add mismatch a a_rows a_cols b b_cols result
           (fun m1 => m1 !! v = Some elements)) with (i := i) (k := k) (j := j);
    try assumption.
  - intros m0 index x m' Hm0 Hassign.
    rewrite (assign_other _ _ _ _ _ v Hassign); [exact Hm0|congruence].
  - unfold resize_to. intros m1 Hm1.
    destruct (m !! result) as [old|]; [|discriminate Hm1].
    cbn [mbind option_bind] in Hm1. inversion Hm1; subst.
    unfold store in *. rewrite lookup_insert_ne; [exact Hv|exact Hne].
Qed.

(** The sizes of the vectors are not checked.  A first operand that is
    not [result] and shorter than its dimensions say is read past its end
    as soon as the result has a column. *)
Lemma multiply_short_a m elements :
  result <> a -> m !! a = Some elements ->
  (N.of_nat (length elements) < a_rows * a_cols)%N -> (a_rows * a_cols < 2 ^ 64)%N ->
  (0 < b_cols)%N ->
  RowMajor.multiply T zero multiply_add mismatch a a_rows a_cols b a_cols b_cols result m =
  None.
Proof.
  intros Hne Ha Hshort Hfits Hcols.
  assert (Hr : (a_rows = (a_rows - 1) + 1)%N) by nia.
  assert (Hc : (a_cols = (a_cols - 1) + 1)%N) by nia.
  set (r := (a_rows - 1)%N) in *. set (c := (a_cols - 1)%N) in *.
  apply (multiply_keeps a elements m r c 0 Hne Ha); try lia.
  intros m1 Hm1. left. unfold element. rewrite Hm1. cbn [mbind option_bind].
  apply lookup_ge_None.
  rewrite (size_t_small (r * a_cols)) by nia.
  rewrite size_t_small by nia. nia.
Qed.

(** A second operand that is not [result] and shorter than its dimensions
    say is read past its end as soon as the result has a row. *)
Lemma multiply_short_b m elements :
  result <> b -> m !! b = Some elements ->
  (N.of_nat (length elements) < a_cols * b_cols)%N -> (a_cols * b_cols < 2 ^ 64)%N ->
  (0 < a_rows)%N ->
  RowMajor.multiply T zero multiply_add mismatch a a_rows a_cols b a_cols b_cols result m =
  None.
Proof.
  intros Hne Hb Hshort Hfits Hrows.
  assert (Hk : (a_cols = (a_cols - 1) + 1)%N) by nia.
  assert (Hc : (b_cols = (b_cols - 1) + 1)%N) by nia.
  set (k := (a_cols - 1)%N) in *. set (c := (b_cols - 1)%N) in *.
  apply (multiply_keeps b elements m 0 k c Hne Hb); try lia.
  intros m1 Hm1. right. unfold element. rewrite Hm1. cbn [mbind option_bind].
  apply lookup_ge_None.
  rewrite (size_t_small (k * b_cols)) by nia.
  rewrite size_t_small by nia. nia.
Qed.

End Short.
End MatrixFacts.

(** * Signs *)

Module SignFacts.
Import ExpressionParser SuffixFacts FactorFacts ArithmeticFacts Arithmetic Signs.

Section Signed.

Variable libm : std.cmath.
Variable reg : registry.
Variable input_ : string.

Lemma render_signs_length signs : String.length (render_signs signs) = List.length signs.
Proof. induction signs as [|s signs IH]; cbn; congruence. Qed.

(** Every sign is applied to the whole factor behind it. *)
Lemma parse_factor_signs x l r signs : forall n pos,
  well_formed_operand x = true -> forallb well_formed_operand l = true ->
  drop pos input_ = render_signs signs +:+ (render_tower x l +:+ r) ->
  stops_at continues_operand r = true ->
  List.length signs + List.length l < n ->
  match tower_value libm x l with
  | Return v =>
      parse_factor libm reg input_ n pos =
      Some (Return (apply_signs signs v),
            pos + (List.length signs + String.length (render_tower x l)))
  | Throw e => exists p', parse_factor libm reg input_ n pos = Some (Throw e, p')
  end.
Proof.
  induction signs as [|s signs IH]; intros n pos Hx Hl Hdrop Hstop Hn.
  - cbn [render_signs] in Hdrop. rewrite append_nil in Hdrop.
    unfold render_tower in Hdrop |- *. rewrite append_assoc in Hdrop.
    pose proof (parse_factor_tower libm reg input_ l x n pos r Hx Hl Hdrop Hstop
                  ltac:(cbn in Hn; lia)) as H.
    destruct (tower_value libm x l) as [v|e]; [|exact H].
    rewrite H. cbn [apply_signs List.length Nat.add]. rewrite append_length.
    reflexivity.
  - cbn [render_signs] in Hdrop. rewrite append_cons in Hdrop.
    apply drop_cons in Hdrop as (Hget & Hdrop).
    destruct n as [|n]; [cbn in Hn; lia|].
    assert (Hsp : isspace (sign_char s) = false) by (destruct s; reflexivity).
    assert (Hstart : after_blanks input_ pos = pos)
      by apply (skip_whitespace_loop_stop input_ _ pos _ Hget Hsp).
    rewrite <- Hstart in Hget.
    rewrite (parse_factor_sign libm reg input_ n pos _ Hget)
      by (destruct s; reflexivity).
    rewrite Hstart.
    specialize (IH n (S pos) Hx Hl Hdrop Hstop ltac:(cbn in Hn; lia)).
    destruct (tower_value libm x l) as [v|e].
    + rewrite IH. cbn [List.length].
      replace (S pos + (List.length signs + String.length (render_tower x l)))
        with (pos + (S (List.length signs) + String.length (render_tower x l)))
        by lia.
      destruct s; reflexivity.
    + destruct IH as (p' & ->). eauto.
Qed.

End Signed.

Lemma evaluate_signs libm reg x l signs :
  well_formed_operand x = true -> forallb well_formed_operand l = true ->
  evaluate libm reg (render_signs signs +:+ render_tower x l) =
  Some (and_then (tower_value libm x l) (fun v => Return (apply_signs signs v))).
Proof.
  intros Hx Hl.
  pose proof (parse_factor_signs libm reg (render_signs signs +:+ render_tower x l)
                x l "" signs (S (List.length signs + List.length l)) 0 Hx Hl) as H.
  rewrite append_nil_r in H.
  specialize (H eq_refl eq_refl (Nat.lt_succ_diag_r _)).
  destruct (tower_value libm x l) as [v|e]; cbn [and_then].
  - apply (InputFacts.evaluate_factor _ _ _ _ _ _ H).
    rewrite append_length, render_signs_length. reflexivity.
  - destruct H as (p' & H). apply (InputFacts.evaluate_factor _ _ _ _ _ _ H). exact I.
Qed.

End SignFacts.
(** * The grammar: the productions on the text of a syntax tree *)

Module SyntaxFacts.
Import ExpressionParser SuffixFacts FactorFacts ArithmeticFacts CursorFacts.
Import EdgeFacts CallFacts Syntax.

Lemma delimiter_class c :
  delimiter c = true ->
  isspace c = false /\ continues_literal c = false /\ name_char c = false /\
  (c =? "^")%char = false /\ (c =? "(")%char = false.
Proof.
  destruct c as [[] [] [] [] [] [] [] []]; intros H; try discriminate H;
    repeat match goal with |- _ /\ _ => split end; reflexivity.
Qed.

Lemma closes_term_class c :
  closes_term c = true ->
  delimiter c = true /\
  (c =? "*")%char || (c =? "/")%char || (c =? "%")%char = false.
Proof.
  destruct c as [[] [] [] [] [] [] [] []]; intros H; try discriminate H;
    split; reflexivity.
Qed.

Lemma follows_weaken (p q : ascii -> bool) rest :
  (forall c, p c = true -> q c = true) -> follows p rest -> follows q rest.
Proof.
  intros Hpq (ws & r & -> & Hws & Hstop). exists ws, r.
  split; [reflexivity|]. split; [exact Hws|].
  destruct r as [|c r]; [reflexivity|]. cbn [stops_at] in *.
  rewrite negb_involutive in *. apply Hpq. exact Hstop.
Qed.

(** Whitespace and then a character of the class. *)
Lemma follows_char (p : ascii -> bool) ws c r :
  string_forall isspace ws = true -> p c = true ->
  follows p (ws +:+ String c r).
Proof.
  intros Hws Hc. exists ws, (String c r).
  split; [reflexivity|]. split; [exact Hws|].
  cbn [stops_at]. rewrite Hc. reflexivity.
Qed.

Lemma follows_end (p : ascii -> bool) : follows p EmptyString.
Proof. exists EmptyString, EmptyString. repeat split. Qed.

(** What follows stops every token that neither whitespace nor the
    class continues. *)
Lemma follows_stops (p q : ascii -> bool) rest :
  follows p rest ->
  (forall c, isspace c = true -> q c = false) ->
  (forall c, p c = true -> q c = false) ->
  stops_at q rest = true.
Proof.
  intros (ws & r & -> & Hws & Hstop) Hsp Hp.
  destruct ws as [|b ws].
  - rewrite append_nil. destruct r as [|c r]; [reflexivity|].
    cbn [stops_at] in *. rewrite negb_involutive in Hstop.
    rewrite (Hp c Hstop). reflexivity.
  - rewrite append_cons. cbn [stops_at string_forall] in *.
    apply andb_prop in Hws as [Hb _]. rewrite (Hsp b Hb). reflexivity.
Qed.

(** The text of a tree as one sequence. *)
Ltac flatten_text H :=
  repeat first [ rewrite append_assoc in H | rewrite append_cons in H
               | rewrite append_nil in H ].

Section Tree.

Variable libm : std.cmath.
Variable reg : registry.
Variable input_ : string.

(** Where the whitespace after a text ends, and what is read there. *)
Lemma follows_position (p : ascii -> bool) text_end rest :
  (forall c, p c = true -> isspace c = false) ->
  drop text_end input_ = rest -> follows p rest ->
  exists ws rest',
    rest = ws +:+ rest' /\ string_forall isspace ws = true /\
    after_blanks input_ text_end = text_end + String.length ws /\
    after_blanks input_ (text_end + String.length ws) = text_end + String.length ws /\
    match String.get (text_end + String.length ws) input_ with
    | Some c => p c = true
    | None => True
    end.
Proof.
  intros Hp Hdrop (ws & r & -> & Hws & Hstop). exists ws, r.
  assert (Hblank : stops_at isspace r = true).
  { destruct r as [|c r]; [reflexivity|]. cbn [stops_at] in *.
    rewrite negb_involutive in Hstop. rewrite (Hp c Hstop). reflexivity. }
  split; [reflexivity|]. split; [exact Hws|].
  pose proof (drop_skip _ _ _ _ Hdrop) as Hdrop'.
  split; [|split].
  - apply (after_blanks_blanks input_ ws _ r Hdrop Hws Hblank).
  - apply (after_blanks_stops input_ isspace _ r Hdrop' Hblank). auto.
  - pose proof (get_stops_at _ _ _ _ Hdrop' Hstop) as Hget.
    destruct (String.get _ input_) as [c|]; [|exact I].
    apply negb_false_iff in Hget. exact Hget.
Qed.

Lemma lands_after cursor text_end stop :
  lands input_ cursor text_end ->
  after_blanks input_ text_end = stop -> after_blanks input_ stop = stop ->
  after_blanks input_ cursor = stop.
Proof. intros [->| ->] H1 H2; [exact H1|]. rewrite H1. exact H2. Qed.

(** Where a loop that stops leaves the cursor. *)
Lemma lands_stop cursor text_end stop :
  lands input_ cursor text_end ->
  after_blanks input_ text_end = stop -> after_blanks input_ stop = stop ->
  lands input_ match String.get cursor input_ with
               | Some _ => after_blanks input_ cursor
               | None => cursor
               end text_end.
Proof.
  intros Hl H1 H2. destruct (String.get cursor input_); [|exact Hl].
  right. rewrite (lands_after _ _ _ Hl H1 H2). symmetry. exact H1.
Qed.

(** More fuel keeps a result. *)
Lemma more_fuel_factor n m pos r :
  n <= m -> parse_factor libm reg input_ n pos = Some r ->
  parse_factor libm reg input_ m pos = Some r.
Proof. intros Hle. destruct (fuel_monotone libm reg input_ n m Hle) as (_ & _ & _ & _ & H). apply H. Qed.

Lemma more_fuel_term_loop n m v pos r :
  n <= m -> term_loop libm reg input_ n v pos = Some r ->
  term_loop libm reg input_ m v pos = Some r.
Proof. intros Hle. destruct (fuel_monotone libm reg input_ n m Hle) as (_ & _ & _ & H & _). apply H. Qed.

Lemma more_fuel_term n m pos r :
  n <= m -> parse_term libm reg input_ n pos = Some r ->
  parse_term libm reg input_ m pos = Some r.
Proof. intros Hle. destruct (fuel_monotone libm reg input_ n m Hle) as (_ & _ & H & _). apply H. Qed.

Lemma more_fuel_expression_loop n m v pos r :
  n <= m -> expression_loop libm reg input_ n v pos = Some r ->
  expression_loop libm reg input_ m v pos = Some r.
Proof. intros Hle. destruct (fuel_monotone libm reg input_ n m Hle) as (_ & H & _). apply H. Qed.

Lemma more_fuel_expression n m pos r :
  n <= m -> parse_expression libm reg input_ n pos = Some r ->
  parse_expression libm reg input_ m pos = Some r.
Proof. intros Hle. destruct (fuel_monotone libm reg input_ n m Hle) as (H & _). apply H. Qed.


(** ** Numbers *)

Lemma number_ok blanks mantissa exponent :
  factor_ok libm reg input_ (Number blanks mantissa exponent).
Proof.
  intros pos rest n Hwf Hdrop Hfollows Hfuel.
  cbn [well_formed_factor well_formed_term well_formed_expression
       value_factor value_term value_expression
       fuel_factor fuel_term fuel_expression] in *.
  apply andb_prop in Hwf as [Hb Hlit]. apply andb_prop in Hlit as [Hm He].
  destruct n as [|n]; [lia|].
  destruct (follows_position delimiter _ rest
              ltac:(intros c Hc; apply delimiter_class in Hc; tauto)
              (drop_skip _ _ _ _ Hdrop) Hfollows)
    as (ws & r & -> & Hws & Hafter & _ & Hget).
  set (x := {| Arithmetic.blanks_before := blanks; Arithmetic.mantissa := mantissa;
               Arithmetic.exponent := exponent; Arithmetic.blanks_after := ws |}).
  assert (Hx : Arithmetic.well_formed_operand x = true).
  { unfold Arithmetic.well_formed_operand. cbn. unfold blanks_ok in Hb.
    rewrite Hb, Hm, He, Hws. reflexivity. }
  assert (Hdrop' : drop pos input_ = Arithmetic.render_operand x +:+ r).
  { rewrite Hdrop. unfold Arithmetic.render_operand. cbn.
    rewrite !append_assoc. reflexivity. }
  assert (Hlen : pos + String.length (Arithmetic.render_operand x) =
                 pos + String.length (render_factor (Number blanks mantissa exponent)) +
                 String.length ws).
  { unfold Arithmetic.render_operand. cbn. rewrite !append_length. lia. }
  rewrite <- Hlen in Hafter, Hget.
  rewrite (parse_factor_operand_power libm reg input_ x n pos r Hx Hdrop').
  2:{ destruct r as [|c r]; [reflexivity|]. cbn [stops_at].
      pose proof (drop_skip _ _ _ _ Hdrop') as Hr. apply drop_cons in Hr as [Hr _].
      rewrite Hr in Hget. apply delimiter_class in Hget as (-> & -> & _).
      reflexivity. }
  change (Arithmetic.operand_value libm x) with (number_value libm mantissa exponent).
  destruct (number_value libm mantissa exponent) as [v|e]; [|eauto].
  cbn zeta.
  destruct (String.get _ input_) as [c|] eqn:Ec.
  - apply delimiter_class in Hget as (_ & _ & _ & Hc & _). cbn [is_char].
    rewrite Hc. eexists. split; [reflexivity|]. right. symmetry. exact Hafter.
  - eexists. split; [reflexivity|]. right. symmetry. exact Hafter.
Qed.

Lemma number_power_ok blanks mantissa exponent blanks_caret power :
  factor_ok libm reg input_ power ->
  factor_ok libm reg input_ (NumberPower blanks mantissa exponent blanks_caret power).
Proof.
  intros IH pos rest n Hwf Hdrop Hfollows Hfuel.
  cbn [well_formed_factor well_formed_term well_formed_expression
       value_factor value_term value_expression
       fuel_factor fuel_term fuel_expression] in *.
  apply andb_prop in Hwf as [Hwf Hp]. apply andb_prop in Hwf as [Hwf Hbc].
  apply andb_prop in Hwf as [Hb Hlit]. apply andb_prop in Hlit as [Hm He].
  destruct n as [|n]; [lia|].
  set (x := {| Arithmetic.blanks_before := blanks; Arithmetic.mantissa := mantissa;
               Arithmetic.exponent := exponent; Arithmetic.blanks_after := blanks_caret |}).
  assert (Hx : Arithmetic.well_formed_operand x = true).
  { unfold Arithmetic.well_formed_operand. cbn. unfold blanks_ok in Hb, Hbc.
    rewrite Hb, Hm, He, Hbc. reflexivity. }
  assert (Hdrop' : drop pos input_ =
                   Arithmetic.render_operand x +:+ String "^" (render_factor power +:+ rest)).
  { rewrite Hdrop. unfold Arithmetic.render_operand. cbn [render_factor render_term render_expression]. cbn.
    rewrite ?append_assoc, ?append_cons. reflexivity. }
  assert (Hlen : S (pos + String.length (Arithmetic.render_operand x)) +
                 String.length (render_factor power) =
                 pos + String.length
                   (render_factor (NumberPower blanks mantissa exponent blanks_caret power))).
  { unfold Arithmetic.render_operand. cbn. rewrite !append_length.
    cbn [String.length]. lia. }
  rewrite (parse_factor_operand_power libm reg input_ x n pos _ Hx Hdrop' eq_refl).
  change (Arithmetic.operand_value libm x) with (number_value libm mantissa exponent).
  unfold power_value.
  destruct (number_value libm mantissa exponent) as [v|e]; cbn [Arithmetic.and_then];
    [|eauto].
  cbn zeta. apply drop_skip in Hdrop'. apply drop_cons in Hdrop' as [Hget Hrest].
  rewrite Hget. cbn [is_char Ascii.eqb Bool.eqb].
  specialize (IH _ rest n Hp Hrest Hfollows ltac:(lia)).
  destruct (value_factor libm reg power) as [y|e]; cbn [Arithmetic.and_then].
  - destruct IH as (cursor & -> & Hl). eexists. split; [reflexivity|].
    rewrite <- Hlen. exact Hl.
  - destruct IH as (cursor & ->). eauto.
Qed.

(** Whitespace and then a character that is none. *)
Lemma blanks_position ws c r pos :
  drop pos input_ = ws +:+ String c r -> string_forall isspace ws = true ->
  isspace c = false ->
  after_blanks input_ pos = pos + String.length ws /\
  after_blanks input_ (pos + String.length ws) = pos + String.length ws /\
  String.get (pos + String.length ws) input_ = Some c /\
  drop (S (pos + String.length ws)) input_ = r.
Proof.
  intros Hdrop Hws Hc.
  assert (Hstop : stops_at isspace (String c r) = true).
  { cbn [stops_at]. rewrite Hc. reflexivity. }
  pose proof (drop_skip _ _ _ _ Hdrop) as Hdrop'.
  split; [|split].
  - apply (after_blanks_blanks input_ ws _ _ Hdrop Hws Hstop).
  - apply (after_blanks_stops input_ isspace _ _ Hdrop' Hstop). auto.
  - apply drop_cons in Hdrop'. exact Hdrop'.
Qed.

(** ** Signs *)

Lemma signed_ok blanks s f :
  factor_ok libm reg input_ f -> factor_ok libm reg input_ (Signed blanks s f).
Proof.
  intros IH pos rest n Hwf Hdrop Hfollows Hfuel.
  cbn [well_formed_factor well_formed_term well_formed_expression
       value_factor value_term value_expression
       fuel_factor fuel_term fuel_expression] in *.
  apply andb_prop in Hwf as [Hb Hf].
  destruct n as [|n]; [lia|].
  assert (Hlen : S (pos + String.length blanks) + String.length (render_factor f) =
                 pos + String.length (render_factor (Signed blanks s f))).
  { cbn [render_factor render_term render_expression]. rewrite !append_length. cbn [String.length]. lia. }
  cbn [render_factor render_term render_expression] in Hdrop. rewrite append_assoc, append_cons in Hdrop.
  destruct (blanks_position _ _ _ _ Hdrop Hb ltac:(destruct s; reflexivity))
    as (Hafter & _ & Hget & Hrest).
  rewrite <- Hafter in Hget.
  rewrite (parse_factor_sign libm reg input_ n pos _ Hget ltac:(destruct s; reflexivity)).
  rewrite Hafter.
  specialize (IH _ rest n Hf Hrest Hfollows ltac:(lia)).
  destruct (value_factor libm reg f) as [y|e]; cbn [Arithmetic.and_then].
  - destruct IH as (cursor & -> & Hl). eexists. split.
    + destruct s; reflexivity.
    + rewrite <- Hlen. exact Hl.
  - destruct IH as (cursor & ->). eauto.
Qed.

(** ** The optional power *)

Lemma power_suffix_none n result text_end rest :
  drop text_end input_ = rest -> follows delimiter rest ->
  power_suffix libm input_ (parse_factor libm reg input_ n) result text_end =
  Some (Return result, after_blanks input_ text_end).
Proof.
  intros Hdrop Hfollows. rewrite power_suffix_explicit. cbn zeta.
  destruct (follows_position delimiter _ rest
              ltac:(intros c Hc; apply delimiter_class in Hc; tauto) Hdrop Hfollows)
    as (ws & r & _ & _ & Hafter & _ & Hget).
  rewrite Hafter.
  destruct (String.get _ input_) as [c|]; [|reflexivity].
  apply delimiter_class in Hget as (_ & _ & _ & Hc & _). cbn [is_char].
  rewrite Hc. reflexivity.
Qed.

Lemma power_suffix_power n result pos blanks_caret power rest :
  factor_ok libm reg input_ power ->
  well_formed_factor power = true -> blanks_ok blanks_caret = true ->
  drop pos input_ = blanks_caret +:+ String "^" (render_factor power +:+ rest) ->
  follows delimiter rest -> fuel_factor power <= n ->
  match value_factor libm reg power with
  | Return y =>
      exists cursor,
        power_suffix libm input_ (parse_factor libm reg input_ n) result pos =
          Some (Return (StandardCalculator.power libm result y), cursor) /\
        lands input_ cursor
          (S (pos + String.length blanks_caret) + String.length (render_factor power))
  | Throw e =>
      exists cursor,
        power_suffix libm input_ (parse_factor libm reg input_ n) result pos =
          Some (Throw e, cursor)
  end.
Proof.
  intros IH Hp Hbc Hdrop Hfollows Hfuel. rewrite power_suffix_explicit. cbn zeta.
  destruct (blanks_position _ _ _ _ Hdrop Hbc eq_refl) as (Hafter & _ & Hget & Hrest).
  rewrite Hafter, Hget. cbn [is_char Ascii.eqb Bool.eqb].
  specialize (IH _ rest n Hp Hrest Hfollows Hfuel).
  destruct (value_factor libm reg power) as [y|e].
  - destruct IH as (cursor & -> & Hl). eauto.
  - destruct IH as (cursor & ->). eauto.
Qed.

(** ** An expression before its closing parenthesis *)

Lemma expression_closed e pos blanks_close r n :
  expression_ok libm reg input_ e ->
  well_formed_expression e = true -> blanks_ok blanks_close = true ->
  drop pos input_ = render_expression e +:+ (blanks_close +:+ String ")" r) ->
  S (fuel_expression e) <= n ->
  match value_expression libm reg e with
  | Return v =>
      parse_expression libm reg input_ n pos =
      Some (Return v, pos + String.length (render_expression e) +
                      String.length blanks_close)
  | Throw x =>
      exists cursor, parse_expression libm reg input_ n pos = Some (Throw x, cursor)
  end.
Proof.
  intros IH Hwf Hbc Hdrop Hfuel.
  specialize (IH pos _ Hwf Hdrop (follows_char closes_term _ ")" r Hbc eq_refl)).
  destruct (value_expression libm reg e) as [v|x].
  - destruct IH as (cursor & Hl & Hk).
    destruct (blanks_position _ _ _ _ (drop_skip _ _ _ _ Hdrop) Hbc eq_refl)
      as (Hafter & Hidem & Hget & _).
    pose proof (lands_after _ _ _ Hl Hafter Hidem) as Hcursor.
    apply (Hk 1); [|lia].
    rewrite expression_loop_stop.
    + f_equal. f_equal.
      destruct (String.get cursor input_) as [c|] eqn:Ec; [exact Hcursor|].
      rewrite <- Hcursor in Hget.
      destruct (get_after_blanks input_ _ _ Hget) as (c0 & Hc0). congruence.
    + rewrite Hcursor, Hget. reflexivity.
  - destruct IH as (cursor & Hk). exists cursor. apply Hk. lia.
Qed.

(** ** Groups *)

Lemma group_start blanks n pos tail :
  blanks_ok blanks = true ->
  drop pos input_ = blanks +:+ String "(" tail ->
  parse_factor libm reg input_ (S n) pos =
  match parse_expression libm reg input_ n (S (pos + String.length blanks)) with
  | Some (Return result, p1) =>
      let p2 := after_blanks input_ p1 in
      if is_char ")" (String.get p2 input_)
      then power_suffix libm input_ (parse_factor libm reg input_ n) result (S p2)
      else Some (Throw EvalError.MismatchedParentheses, p2)
  | Some (Throw e, p1) => Some (Throw e, p1)
  | None => None
  end /\
  drop (S (pos + String.length blanks)) input_ = tail.
Proof.
  intros Hb Hdrop.
  destruct (blanks_position _ _ _ _ Hdrop Hb eq_refl) as (Hafter & _ & Hget & Hrest).
  rewrite <- Hafter in Hget.
  rewrite (parse_factor_group libm reg input_ n pos Hget), Hafter.
  split; [reflexivity|exact Hrest].
Qed.

Lemma group_ok blanks e blanks_close :
  expression_ok libm reg input_ e ->
  factor_ok libm reg input_ (Group blanks e blanks_close).
Proof.
  intros IH pos rest n Hwf Hdrop Hfollows Hfuel.
  change (value_factor libm reg (Group blanks e blanks_close))
    with (value_expression libm reg e).
  cbn [well_formed_factor well_formed_term well_formed_expression
       value_factor value_term value_expression
       fuel_factor fuel_term fuel_expression] in *.
  apply andb_prop in Hwf as [Hwf Hbc]. apply andb_prop in Hwf as [Hb He].
  destruct n as [|n]; [lia|].
  assert (Hlen : S (S (pos + String.length blanks) + String.length (render_expression e) +
                    String.length blanks_close) =
                 pos + String.length (render_factor (Group blanks e blanks_close))).
  { cbn [render_factor render_term render_expression]. rewrite !append_length. cbn [String.length].
    rewrite !append_length. cbn [String.length]. lia. }
  cbn [render_factor render_term render_expression] in Hdrop.
  flatten_text Hdrop.
  destruct (group_start blanks n pos _ Hb Hdrop) as (-> & Htail).
  pose proof (expression_closed e _ _ _ n IH He Hbc Htail ltac:(lia)) as Hclosed.
  destruct (value_expression libm reg e) as [v|x].
  - rewrite Hclosed. cbn zeta.
    apply drop_skip in Htail.
    destruct (blanks_position _ _ _ _ Htail Hbc eq_refl) as (_ & Hidem & Hget & Hrest).
    rewrite Hidem, Hget. cbn [is_char Ascii.eqb Bool.eqb].
    rewrite (power_suffix_none n v _ rest Hrest Hfollows).
    eexists. split; [reflexivity|]. right. rewrite Hlen. reflexivity.
  - destruct Hclosed as (cursor & ->). eauto.
Qed.

Lemma group_power_ok blanks e blanks_close blanks_caret power :
  expression_ok libm reg input_ e -> factor_ok libm reg input_ power ->
  factor_ok libm reg input_ (GroupPower blanks e blanks_close blanks_caret power).
Proof.
  intros IH IHp pos rest n Hwf Hdrop Hfollows Hfuel.
  change (value_factor libm reg (GroupPower blanks e blanks_close blanks_caret power))
    with (power_value libm (value_expression libm reg e) (value_factor libm reg power)).
  cbn [well_formed_factor well_formed_term well_formed_expression
       value_factor value_term value_expression
       fuel_factor fuel_term fuel_expression] in *.
  apply andb_prop in Hwf as [Hwf Hp]. apply andb_prop in Hwf as [Hwf Hbk].
  apply andb_prop in Hwf as [Hwf Hbc]. apply andb_prop in Hwf as [Hb He].
  destruct n as [|n]; [lia|].
  assert (Hlen : S (S (S (pos + String.length blanks) +
                       String.length (render_expression e) +
                       String.length blanks_close) + String.length blanks_caret) +
                 String.length (render_factor power) =
                 pos + String.length
                   (render_factor (GroupPower blanks e blanks_close blanks_caret power))).
  { cbn [render_factor render_term render_expression]. rewrite !append_length. cbn [String.length].
    rewrite !append_length. cbn [String.length]. rewrite !append_length.
    cbn [String.length]. lia. }
  cbn [render_factor render_term render_expression] in Hdrop.
  flatten_text Hdrop.
  destruct (group_start blanks n pos _ Hb Hdrop) as (-> & Htail).
  pose proof (expression_closed e _ _ _ n IH He Hbc Htail ltac:(lia)) as Hclosed.
  unfold power_value.
  destruct (value_expression libm reg e) as [v|x]; cbn [Arithmetic.and_then].
  - rewrite Hclosed. cbn zeta.
    apply drop_skip in Htail.
    destruct (blanks_position _ _ _ _ Htail Hbc eq_refl) as (_ & Hidem & Hget & Hrest).
    rewrite Hidem, Hget. cbn [is_char Ascii.eqb Bool.eqb].
    pose proof (power_suffix_power n v _ _ _ rest IHp Hp Hbk Hrest Hfollows ltac:(lia))
      as Hpower.
    destruct (value_factor libm reg power) as [y|x]; cbn [Arithmetic.and_then].
    + destruct Hpower as (cursor & -> & Hl). eexists. split; [reflexivity|].
      rewrite <- Hlen. exact Hl.
    + destruct Hpower as (cursor & ->). eauto.
  - destruct Hclosed as (cursor & ->). eauto.
Qed.

(** ** Names *)

Lemma constant_ok blanks name :
  factor_ok libm reg input_ (Constant blanks name).
Proof.
  intros pos rest n Hwf Hdrop Hfollows Hfuel.
  cbn [well_formed_factor fuel_factor] in *.
  apply andb_prop in Hwf as [Hb Hname].
  destruct n as [|n]; [lia|].
  destruct (is_identifier_start name Hname) as (a & name' & Ename & Ha & Hchars).
  destruct (isalpha_class a Ha) as (Hasp & _).
  assert (Hlen : pos + String.length blanks + String.length name =
                 pos + String.length (render_factor (Constant blanks name))).
  { cbn [render_factor]. rewrite !append_length. lia. }
  pose proof (drop_skip _ _ _ _ Hdrop) as Hend. rewrite <- Hlen in Hend.
  cbn [render_factor] in Hdrop. rewrite append_assoc in Hdrop.
  pose proof (drop_skip _ _ _ _ Hdrop) as Hstart.
  rewrite Ename, append_cons in Hdrop.
  destruct (blanks_position _ _ _ _ Hdrop Hb Hasp) as (Hafter & _ & Hget & _).
  rewrite <- Hafter in Hget.
  rewrite (parse_factor_identifier libm reg input_ n pos a Hget Ha), Hafter.
  rewrite (identifier_at_names input_ name _ rest Hstart Hchars).
  2:{ apply (follows_stops delimiter); auto using isspace_not_name_char.
      intros c Hc. apply delimiter_class in Hc. tauto. }
  destruct (follows_position delimiter _ rest
              ltac:(intros c Hc; apply delimiter_class in Hc; tauto) Hend Hfollows)
    as (ws & r & _ & _ & Hafter' & _ & Hnext).
  cbn zeta. rewrite Hafter'.
  assert (Hopen : is_char "(" (String.get (pos + String.length blanks +
                     String.length name + String.length ws) input_) = false).
  { clear Hget. destruct (String.get _ input_) as [c|]; [|reflexivity].
    apply delimiter_class in Hnext as (_ & _ & _ & _ & Hc). exact Hc. }
  rewrite Hopen.
  change (value_factor libm reg (Constant blanks name))
    with (match constants_ reg !! name with
          | Some value => Return value
          | None => Throw (EvalError.UnknownIdentifier name)
          end).
  destruct (constants_ reg !! name) as [value|]; [|eauto].
  eexists. split; [reflexivity|]. right. rewrite <- Hlen, Hafter'. reflexivity.
Qed.

Lemma call_ok blanks name blanks_open argument blanks_close :
  expression_ok libm reg input_ argument ->
  factor_ok libm reg input_ (Call blanks name blanks_open argument blanks_close).
Proof.
  intros IH pos rest n Hwf Hdrop Hfollows Hfuel.
  change (value_factor libm reg (Call blanks name blanks_open argument blanks_close))
    with (Arithmetic.and_then (value_expression libm reg argument) (fun v =>
          match functions_ reg !! name with
          | Some func => func v
          | None => Throw (EvalError.UnknownFunction name)
          end)).
  cbn [well_formed_factor well_formed_term well_formed_expression
       fuel_factor fuel_term fuel_expression] in *.
  apply andb_prop in Hwf as [Hwf Hbc]. apply andb_prop in Hwf as [Hwf He].
  apply andb_prop in Hwf as [Hwf Hbo]. apply andb_prop in Hwf as [Hb Hname].
  destruct n as [|n]; [lia|].
  destruct (is_identifier_start name Hname) as (a & name' & Ename & Ha & Hchars).
  destruct (isalpha_class a Ha) as (Hasp & _).
  assert (Hlen : S (S (pos + String.length blanks + String.length name +
                       String.length blanks_open) +
                    String.length (render_expression argument) +
                    String.length blanks_close) =
                 pos + String.length
                   (render_factor (Call blanks name blanks_open argument blanks_close))).
  { cbn [render_factor render_term render_expression]. rewrite !append_length.
    cbn [String.length]. rewrite !append_length. cbn [String.length]. lia. }
  cbn [render_factor render_term render_expression] in Hdrop.
  rewrite (append_assoc blanks) in Hdrop.
  pose proof (drop_skip _ _ _ _ Hdrop) as Hstart.
  flatten_text Hstart.
  destruct (parse_factor_name input_ name blanks_open "(" _ _ Hname Hbo eq_refl eq_refl
              Hstart) as (_ & _ & Hid & Hafter1 & Hopen & Htail).
  rewrite Ename, !append_cons in Hdrop.
  destruct (blanks_position _ _ _ _ Hdrop Hb Hasp) as (Hafter & _ & Hget & _).
  rewrite <- Hafter in Hget.
  rewrite (parse_factor_identifier libm reg input_ n pos a Hget Ha), Hafter.
  rewrite Hid. cbn zeta. rewrite Hafter1, Hopen. cbn [is_char Ascii.eqb Bool.eqb].
  pose proof (expression_closed argument _ _ _ n IH He Hbc Htail ltac:(lia)) as Hclosed.
  destruct (value_expression libm reg argument) as [v|x]; cbn [Arithmetic.and_then].
  - rewrite Hclosed.
    apply drop_skip in Htail.
    destruct (blanks_position _ _ _ _ Htail Hbc eq_refl) as (_ & Hidem & Hclose & _).
    rewrite Hidem, Hclose. cbn [is_char Ascii.eqb Bool.eqb]. rewrite Hlen.
    destruct (functions_ reg !! name) as [func|].
    + destruct (func v) as [w|x]; [|eauto].
      eexists. split; [reflexivity|]. left. reflexivity.
    + eauto.
  - destruct Hclosed as (cursor & ->). eauto.
Qed.

(** ** Terms *)

Lemma single_ok f :
  factor_ok libm reg input_ f -> term_ok libm reg input_ (Single f).
Proof.
  intros IH pos rest Hwf Hdrop Hfollows.
  change (value_term libm reg (Single f)) with (value_factor libm reg f).
  change (render_term (Single f)) with (render_factor f) in *.
  change (well_formed_term (Single f)) with (well_formed_factor f) in Hwf.
  change (fuel_term (Single f)) with (S (fuel_factor f)).
  pose proof (IH pos rest (fuel_factor f) Hwf Hdrop Hfollows (le_n _)) as Hf.
  destruct (value_factor libm reg f) as [v|e].
  - destruct Hf as (cursor & Hf & Hl). exists cursor. split; [exact Hl|].
    intros k result n Hloop Hfuel.
    destruct n as [|n]; [lia|]. rewrite parse_term_S.
    unfold bind at 1.
    rewrite (more_fuel_factor (fuel_factor f) n _ _ ltac:(lia) Hf).
    apply (more_fuel_term_loop k); [lia|exact Hloop].
  - destruct Hf as (cursor & Hf). exists cursor. intros n Hfuel.
    destruct n as [|n]; [lia|]. rewrite parse_term_S.
    unfold bind at 1.
    rewrite (more_fuel_factor (fuel_factor f) n _ _ ltac:(lia) Hf). reflexivity.
Qed.

Lemma product_ok t blanks op f :
  term_ok libm reg input_ t -> factor_ok libm reg input_ f ->
  term_ok libm reg input_ (Product t blanks op f).
Proof.
  intros IHt IHf pos rest Hwf Hdrop Hfollows.
  change (value_term libm reg (Product t blanks op f))
    with (Arithmetic.and_then (value_term libm reg t) (fun x =>
          Arithmetic.and_then (value_factor libm reg f) (fun y =>
          Arithmetic.apply_multiplicative libm op x y))).
  change (fuel_term (Product t blanks op f)) with (fuel_term t + S (fuel_factor f)).
  change (well_formed_term (Product t blanks op f))
    with (well_formed_term t && blanks_ok blanks && well_formed_factor f) in Hwf.
  apply andb_prop in Hwf as [Hwf Hf]. apply andb_prop in Hwf as [Ht Hb].
  destruct (multiplicative_class op) as (_ & Hop & Hsp).
  assert (Hlen : S (pos + String.length (render_term t) + String.length blanks) +
                 String.length (render_factor f) =
                 pos + String.length (render_term (Product t blanks op f))).
  { cbn [render_factor render_term render_expression]. rewrite !append_length.
    cbn [String.length]. lia. }
  cbn [render_factor render_term render_expression] in Hdrop.
  flatten_text Hdrop.
  assert (Hleft : follows delimiter
                    (blanks +:+ String (Arithmetic.multiplicative_char op)
                                  (render_factor f +:+ rest))).
  { apply follows_char; [exact Hb|]. destruct op; reflexivity. }
  specialize (IHt pos _ Ht Hdrop Hleft).
  destruct (value_term libm reg t) as [x|e]; cbn [Arithmetic.and_then].
  2:{ destruct IHt as (cursor & Hk). exists cursor. intros n Hfuel.
      apply Hk. lia. }
  destruct IHt as (cursor & Hl & Hk).
  destruct (blanks_position _ _ _ _ (drop_skip _ _ _ _ Hdrop) Hb Hsp)
    as (Hafter & Hidem & Hget & Hrest).
  pose proof (lands_after _ _ _ Hl Hafter Hidem) as Hcursor.
  rewrite <- Hcursor in Hget.
  pose proof (fun m => term_loop_operator libm reg input_ m x cursor _ Hget Hop) as Hstep.
  rewrite Hcursor in Hstep.
  pose proof (IHf _ rest (fuel_factor f) Hf Hrest Hfollows (le_n _)) as Hright.
  assert (Happly : (if (Arithmetic.multiplicative_char op =? "*")%char
                    then fun y => Return (StandardCalculator.multiply x y)
                    else if (Arithmetic.multiplicative_char op =? "/")%char
                    then fun y => StandardCalculator.divide x y
                    else fun y => StandardCalculator.modulo libm x y) =
                   Arithmetic.apply_multiplicative libm op x).
  { destruct op; reflexivity. }
  destruct (value_factor libm reg f) as [y|e]; cbn [Arithmetic.and_then].
  - destruct Hright as (cursor' & Hright & Hl').
    assert (Hround : forall m, fuel_factor f <= m ->
              term_loop libm reg input_ (S m) x cursor =
              match Arithmetic.apply_multiplicative libm op x y with
              | Return result' => term_loop libm reg input_ m result' cursor'
              | Throw e => Some (Throw e, cursor')
              end).
    { intros m Hm. rewrite Hstep, (more_fuel_factor _ m _ _ Hm Hright).
      rewrite <- Happly. destruct op; reflexivity. }
    destruct (Arithmetic.apply_multiplicative libm op x y) as [w|e].
    + exists cursor'. split; [rewrite <- Hlen; exact Hl'|].
      intros k result n Hloop Hfuel.
      apply (Hk (S (fuel_factor f + k))); [|lia].
      rewrite Hround by lia. apply (more_fuel_term_loop k); [lia|exact Hloop].
    + exists cursor'. intros n Hfuel.
      apply (Hk (S (fuel_factor f))); [|lia]. apply Hround. lia.
  - destruct Hright as (cursor' & Hright). exists cursor'. intros n Hfuel.
    apply (Hk (S (fuel_factor f))); [|lia].
    rewrite Hstep, Hright. reflexivity.
Qed.

(** A term before what closes it. *)
Lemma term_closed t pos rest n :
  term_ok libm reg input_ t -> well_formed_term t = true ->
  drop pos input_ = render_term t +:+ rest -> follows closes_term rest ->
  S (fuel_term t) <= n ->
  match value_term libm reg t with
  | Return v =>
      exists cursor,
        parse_term libm reg input_ n pos = Some (Return v, cursor) /\
        lands input_ cursor (pos + String.length (render_term t))
  | Throw e =>
      exists cursor, parse_term libm reg input_ n pos = Some (Throw e, cursor)
  end.
Proof.
  intros IH Hwf Hdrop Hfollows Hfuel.
  specialize (IH pos rest Hwf Hdrop
                (follows_weaken _ _ _ (fun c H => proj1 (closes_term_class c H)) Hfollows)).
  destruct (value_term libm reg t) as [v|e].
  - destruct IH as (cursor & Hl & Hk).
    destruct (follows_position closes_term _ rest
                ltac:(intros c Hc; apply closes_term_class in Hc as [Hc _];
                      apply delimiter_class in Hc; tauto)
                (drop_skip _ _ _ _ Hdrop) Hfollows)
      as (ws & r & _ & _ & Hafter & Hidem & Hnext).
    pose proof (lands_after _ _ _ Hl Hafter Hidem) as Hcursor.
    eexists. split.
    + apply (Hk 1); [|lia]. apply term_loop_stop.
      rewrite Hcursor. destruct (String.get _ input_) as [c|]; [|exact I].
      apply closes_term_class in Hnext. tauto.
    + apply (lands_stop _ _ _ Hl Hafter Hidem).
  - destruct IH as (cursor & Hk). exists cursor. apply Hk. lia.
Qed.

(** ** Expressions *)

Lemma term_expression_ok t :
  term_ok libm reg input_ t -> expression_ok libm reg input_ (Term t).
Proof.
  intros IH pos rest Hwf Hdrop Hfollows.
  change (value_expression libm reg (Term t)) with (value_term libm reg t).
  change (render_expression (Term t)) with (render_term t) in *.
  change (well_formed_expression (Term t)) with (well_formed_term t) in Hwf.
  change (fuel_expression (Term t)) with (S (S (fuel_term t))).
  pose proof (term_closed t pos rest (S (fuel_term t)) IH Hwf Hdrop Hfollows (le_n _))
    as Ht.
  destruct (value_term libm reg t) as [v|e].
  - destruct Ht as (cursor & Ht & Hl). exists cursor. split; [exact Hl|].
    intros k result n Hloop Hfuel.
    destruct n as [|n]; [lia|]. rewrite parse_expression_S.
    unfold bind at 1.
    rewrite (more_fuel_term (S (fuel_term t)) n _ _ ltac:(lia) Ht).
    apply (more_fuel_expression_loop k); [lia|exact Hloop].
  - destruct Ht as (cursor & Ht). exists cursor. intros n Hfuel.
    destruct n as [|n]; [lia|]. rewrite parse_expression_S.
    unfold bind at 1.
    rewrite (more_fuel_term (S (fuel_term t)) n _ _ ltac:(lia) Ht). reflexivity.
Qed.

Lemma sum_ok e blanks op t :
  expression_ok libm reg input_ e -> term_ok libm reg input_ t ->
  expression_ok libm reg input_ (Sum e blanks op t).
Proof.
  intros IHe IHt pos rest Hwf Hdrop Hfollows.
  change (value_expression libm reg (Sum e blanks op t))
    with (Arithmetic.and_then (value_expression libm reg e) (fun x =>
          Arithmetic.and_then (value_term libm reg t) (fun y =>
          Return (Arithmetic.apply_additive op x y)))).
  change (fuel_expression (Sum e blanks op t))
    with (fuel_expression e + S (S (fuel_term t))).
  change (well_formed_expression (Sum e blanks op t))
    with (well_formed_expression e && blanks_ok blanks && well_formed_term t) in Hwf.
  apply andb_prop in Hwf as [Hwf Ht]. apply andb_prop in Hwf as [He Hb].
  destruct (additive_class op) as (_ & Hop & Hsp).
  assert (Hlen : S (pos + String.length (render_expression e) + String.length blanks) +
                 String.length (render_term t) =
                 pos + String.length (render_expression (Sum e blanks op t))).
  { cbn [render_factor render_term render_expression]. rewrite !append_length.
    cbn [String.length]. lia. }
  cbn [render_factor render_term render_expression] in Hdrop.
  flatten_text Hdrop.
  assert (Hleft : follows closes_term
                    (blanks +:+ String (Arithmetic.additive_char op)
                                  (render_term t +:+ rest))).
  { apply follows_char; [exact Hb|]. destruct op; reflexivity. }
  specialize (IHe pos _ He Hdrop Hleft).
  destruct (value_expression libm reg e) as [x|err]; cbn [Arithmetic.and_then].
  2:{ destruct IHe as (cursor & Hk). exists cursor. intros n Hfuel.
      apply Hk. lia. }
  destruct IHe as (cursor & Hl & Hk).
  destruct (blanks_position _ _ _ _ (drop_skip _ _ _ _ Hdrop) Hb Hsp)
    as (Hafter & Hidem & Hget & Hrest).
  pose proof (lands_after _ _ _ Hl Hafter Hidem) as Hcursor.
  rewrite <- Hcursor in Hget.
  pose proof (fun m => expression_loop_operator libm reg input_ m x cursor _ Hget Hop)
    as Hstep.
  rewrite Hcursor in Hstep.
  pose proof (term_closed t _ rest (S (fuel_term t)) IHt Ht Hrest Hfollows (le_n _))
    as Hright.
  destruct (value_term libm reg t) as [y|err]; cbn [Arithmetic.and_then].
  - destruct Hright as (cursor' & Hright & Hl').
    exists cursor'. split; [rewrite <- Hlen; exact Hl'|].
    intros k result n Hloop Hfuel.
    apply (Hk (S (S (fuel_term t) + k))); [|lia].
    rewrite Hstep, (more_fuel_term (S (fuel_term t)) (S (fuel_term t) + k) _ _ ltac:(lia) Hright).
    apply (more_fuel_expression_loop k); [lia|].
    replace (if (Arithmetic.additive_char op =? "+")%char
             then StandardCalculator.add x y else StandardCalculator.subtract x y)
      with (Arithmetic.apply_additive op x y) by (destruct op; reflexivity).
    exact Hloop.
  - destruct Hright as (cursor' & Hright). exists cursor'. intros n Hfuel.
    apply (Hk (S (S (fuel_term t)))); [|lia].
    rewrite Hstep, Hright. reflexivity.
Qed.

(** ** Every tree *)

Lemma productions_ok :
  (forall f, factor_ok libm reg input_ f) /\
  (forall t, term_ok libm reg input_ t) /\
  (forall e, expression_ok libm reg input_ e).
Proof.
  apply syntax_tree;
    eauto using number_ok, number_power_ok, signed_ok, group_ok, group_power_ok,
      constant_ok, call_ok, single_ok, product_ok, term_expression_ok, sum_ok.
Qed.

End Tree.
(** The text of a well-formed tree evaluates to the value of the tree. *)
Lemma evaluate_tree libm reg e :
  well_formed_expression e = true ->
  evaluate libm reg (render_expression e) = Some (value_expression libm reg e).
Proof.
  intros Hwf.
  destruct (productions_ok libm reg (render_expression e)) as (_ & _ & Hok).
  assert (Hdrop : drop 0 (render_expression e) = render_expression e +:+ EmptyString).
  { rewrite ArithmeticFacts.append_nil_r. reflexivity. }
  specialize (Hok e 0 EmptyString Hwf Hdrop (follows_end _)).
  destruct (value_expression libm reg e) as [v|x].
  - destruct Hok as (cursor & Hl & Hk).
    destruct (follows_position (render_expression e) closes_term _ EmptyString
                ltac:(intros c Hc; apply closes_term_class in Hc as [Hc _];
                      apply delimiter_class in Hc; tauto)
                (drop_skip _ _ _ _ Hdrop) (follows_end _))
      as (ws & r & _ & _ & Hafter & Hidem & _).
    pose proof (lands_after _ _ _ _ Hl Hafter Hidem) as Hcursor.
    eapply EvaluateFacts.evaluate_run. apply (Hk 1); [|apply le_n].
    apply expression_loop_stop. rewrite Hcursor.
    rewrite get_ge_None; [exact I|]. cbn [Nat.add]. lia.
  - destruct Hok as (cursor & Hk).
    eapply EvaluateFacts.evaluate_run. apply Hk. apply le_n.
Qed.

End SyntaxFacts.

(** * The claims *)

Import ExpressionParser.

(** C1. The help text of the program lists [ln(e^2)] among its examples
    and [ln] is bound to the natural logarithm, but the expression does not
    evaluate: the factor [e] is a constant reference, which leaves the ['^']
    unread, and the call then finds ['^'] where it requires [')'].
    [evaluate("ln(e^2)")] throws "Mismatched parentheses in function call",
    while [ln(e)] is the natural logarithm of [e]. *)
Theorem ln_of_e_squared_throws :
  forall libm,
    functions_ (new libm) !! "ln"%string = Some (StandardCalculator.log libm) /\
    constants_ (new libm) !! "e"%string = Some StandardCalculator.E /\
    evaluate libm (new libm) "ln(e^2)" =
      Some (Throw EvalError.MismatchedCallParentheses) /\
    evaluate libm (new libm) "ln(e)" =
      Some (Return (std.log libm StandardCalculator.E)).
Proof.
  intros libm. repeat match goal with |- _ /\ _ => split end; vm_compute; reflexivity.
Qed.

(** C2. The factor production reads a ['^'] in two places only.  After
    the closing parenthesis of a group and after a number it skips blanks,
    and if a ['^'] is there it consumes it and takes one more factor as the
    exponent.  After a sign it does not: the signed factor is the negation
    of whatever the next factor is, power included, and the cursor stops
    where that factor stopped.  After an identifier it does not either, on
    any input: the factor of a constant is its value with the cursor where
    the blanks after the name end, and the factor of a call is the function
    applied to the argument with the cursor right after the parenthesis
    that closes the argument -- whatever comes next, a ['^'] included.  So
    [-2^2] is [-(2^2)], and the ['^'] of [pi^2], of [sqrt(4)^2] and of
    [sqrt(4)^(3)] is never read. *)
Theorem power_is_read_after_group_and_number_only :
  (forall libm input_ (factor : parser double) result pos,
     power_suffix libm input_ factor result pos =
     let p := after_blanks input_ pos in
     if is_char "^" (String.get p input_) then
       match factor (S p) with
       | Some (Return exponent, p') =>
           Some (Return (StandardCalculator.power libm result exponent), p')
       | Some (Throw e, p') => Some (Throw e, p')
       | None => None
       end
     else Some (Return result, p)) /\
  (forall libm reg input_ n pos,
     String.get (after_blanks input_ pos) input_ = Some "("%char ->
     parse_factor libm reg input_ (S n) pos =
     match parse_expression libm reg input_ n (S (after_blanks input_ pos)) with
     | Some (Return result, p1) =>
         let p2 := after_blanks input_ p1 in
         if is_char ")" (String.get p2 input_)
         then power_suffix libm input_ (parse_factor libm reg input_ n) result (S p2)
         else Some (Throw EvalError.MismatchedParentheses, p2)
     | Some (Throw e, p1) => Some (Throw e, p1)
     | None => None
     end) /\
  (forall libm reg input_ n pos c,
     String.get (after_blanks input_ pos) input_ = Some c ->
     (c =? "-")%char || (c =? "+")%char = false ->
     (c =? "(")%char = false -> isalpha c = false ->
     parse_factor libm reg input_ (S n) pos =
     match parse_number libm input_ (after_blanks input_ pos) with
     | Some (Return result, p1) =>
         power_suffix libm input_ (parse_factor libm reg input_ n) result p1
     | Some (Throw e, p1) => Some (Throw e, p1)
     | None => None
     end) /\
  (forall libm reg input_ n pos c,
     String.get (after_blanks input_ pos) input_ = Some c ->
     (c =? "-")%char || (c =? "+")%char = true ->
     parse_factor libm reg input_ (S n) pos =
     match parse_factor libm reg input_ n (S (after_blanks input_ pos)) with
     | Some (Return value, p') =>
         Some (Return (if (c =? "-")%char then (- value)%float else value), p')
     | Some (Throw e, p') => Some (Throw e, p')
     | None => None
     end) /\
  (forall libm reg input_ n pos c,
     String.get (after_blanks input_ pos) input_ = Some c ->
     isalpha c = true ->
     parse_factor libm reg input_ (S n) pos =
     let '(name, p1) := identifier_at input_ (after_blanks input_ pos) in
     let p2 := after_blanks input_ p1 in
     if is_char "(" (String.get p2 input_) then
       match parse_expression libm reg input_ n (S p2) with
       | Some (Return arg, p3) =>
           let p4 := after_blanks input_ p3 in
           if is_char ")" (String.get p4 input_) then
             match functions_ reg !! name with
             | Some func => Some (func arg, S p4)
             | None => Some (Throw (EvalError.UnknownFunction name), S p4)
             end
           else Some (Throw EvalError.MismatchedCallParentheses, p4)
       | Some (Throw e, p3) => Some (Throw e, p3)
       | None => None
       end
     else
       match constants_ reg !! name with
       | Some value => Some (Return value, p2)
       | None => Some (Throw (EvalError.UnknownIdentifier name), p2)
       end) /\
  (forall libm reg,
     evaluate libm reg "-2^2" =
       Some (Return (- StandardCalculator.power libm 2%float 2%float)%float) /\
     evaluate libm reg "(-2)^2" =
       Some (Return (StandardCalculator.power libm (-2)%float 2%float)) /\
     (std.pow libm 2%float 2%float = 4%float ->
      evaluate libm reg "-2^2" = Some (Return (-4)%float))) /\
  (forall libm,
     evaluate libm (new libm) "pi^2" = Some (Return StandardCalculator.PI) /\
     evaluate libm (new libm) "sqrt(4)^2" = Some (Return 2%float) /\
     parse_factor libm (new libm) "pi ^2" 5 0 = Some (Return StandardCalculator.PI, 3) /\
     parse_factor libm (new libm) "sqrt(4) ^2" 9 0 = Some (Return 2%float, 7) /\
     parse_factor libm (new libm) "sqrt(4)^(3)" 9 0 = Some (Return 2%float, 7) /\
     evaluate libm (new libm) "sqrt(4)^(3)" = Some (Return 2%float)).
Proof.
  split; [|split; [|split; [|split; [|split; [|split]]]]].
  - intros. apply FactorFacts.power_suffix_explicit.
  - intros. apply FactorFacts.parse_factor_group; assumption.
  - intros. eapply FactorFacts.parse_factor_literal; eassumption.
  - intros. apply FactorFacts.parse_factor_sign; assumption.
  - intros libm reg input_ n pos c Hget Hc.
    exact (FactorFacts.parse_factor_identifier libm reg input_ n pos c Hget Hc).
  - intros libm reg.
    assert (H : evaluate libm reg "-2^2" =
       Some (Return (- StandardCalculator.power libm 2%float 2%float)%float)).
    { vm_compute. reflexivity. }
    split; [exact H|]. split; [vm_compute; reflexivity|].
    intros Hpow. rewrite H. unfold StandardCalculator.power. rewrite Hpow. reflexivity.
  - intros libm.
    repeat match goal with |- _ /\ _ => split end; vm_compute; reflexivity.
Qed.

Lemma power_is_read_after_group_and_number_only_witness :
  (std.pow SmallLibm.libm 2%float 2%float = 4%float /\
   evaluate SmallLibm.libm (new SmallLibm.libm) "-2^2" = Some (Return (-4)%float)) /\
  (String.get (after_blanks " - 3^2" 0) " - 3^2" = Some "-"%char /\
   parse_factor SmallLibm.libm (new SmallLibm.libm) " - 3^2" 4 0 =
   Some (Return (-9)%float, 6)) /\
  (String.get (after_blanks "sqrt(4)^(3)" 0) "sqrt(4)^(3)" = Some "s"%char /\
   parse_factor SmallLibm.libm (new SmallLibm.libm) "sqrt(4)^(3)" 9 0 =
   Some (Return 2%float, 7)).
Proof.
  split; [|split]; split.
  - reflexivity.
  - apply (proj2 (proj2 (proj1 (proj2 (proj2 (proj2 (proj2 (proj2
             power_is_read_after_group_and_number_only)))))
             SmallLibm.libm (new SmallLibm.libm)))).
    reflexivity.
  - reflexivity.
  - rewrite (proj1 (proj2 (proj2 (proj2 power_is_read_after_group_and_number_only)))
               SmallLibm.libm (new SmallLibm.libm) " - 3^2" 3 0 "-"%char
               eq_refl eq_refl).
    vm_compute. reflexivity.
  - reflexivity.
  - rewrite (proj1 (proj2 (proj2 (proj2 (proj2
               power_is_read_after_group_and_number_only))))
               SmallLibm.libm (new SmallLibm.libm) "sqrt(4)^(3)" 8 0 "s"%char
               eq_refl eq_refl).
    vm_compute. reflexivity.
Defined.

(** C3. The power operator is right-associative, because the exponent is
    itself parsed as a factor: a tower of literals [x ^ y ^ z ^ ...]
    evaluates from the right, each literal raised to the whole tower above
    it.  For three literals with values [a], [b] and [c] that is
    [pow(a, pow(b, c))]; [2^3^2] evaluates as [pow(2, pow(3, 2))], which is
    512 as soon as [pow] is exact on these two small integer powers. *)
Theorem power_is_right_associative :
  (forall libm reg x l,
     Arithmetic.well_formed_operand x = true ->
     forallb Arithmetic.well_formed_operand l = true ->
     evaluate libm reg (Arithmetic.render_tower x l) =
     Some (Arithmetic.tower_value libm x l)) /\
  (forall libm reg x y z a b c,
     Arithmetic.well_formed_operand x = true ->
     Arithmetic.well_formed_operand y = true ->
     Arithmetic.well_formed_operand z = true ->
     Arithmetic.operand_value libm x = Return a ->
     Arithmetic.operand_value libm y = Return b ->
     Arithmetic.operand_value libm z = Return c ->
     evaluate libm reg (Arithmetic.render_tower x (y :: z :: nil)) =
     Some (Return (StandardCalculator.power libm a (StandardCalculator.power libm b c)))) /\
  (forall libm reg,
     evaluate libm reg "2^3^2" =
       Some (Return (StandardCalculator.power libm 2%float
                       (StandardCalculator.power libm 3%float 2%float))) /\
     (std.pow libm 3%float 2%float = 9%float ->
      std.pow libm 2%float 9%float = 512%float ->
      evaluate libm reg "2^3^2" = Some (Return 512%float))).
Proof.
  split; [|split].
  - intros libm reg x l Hx Hl.
    exact (ArithmeticFacts.evaluate_tower libm reg x l Hx Hl).
  - intros libm reg x y z a b c Hx Hy Hz Ha Hb Hc.
    rewrite (ArithmeticFacts.evaluate_tower libm reg x (y :: z :: nil) Hx).
    + cbn [Arithmetic.tower_value]. rewrite Ha, Hb, Hc. reflexivity.
    + cbn [forallb]. rewrite Hy, Hz. reflexivity.
  - intros libm reg.
    assert (H : evaluate libm reg "2^3^2" =
        Some (Return (StandardCalculator.power libm 2%float
                        (StandardCalculator.power libm 3%float 2%float)))).
    { vm_compute. reflexivity. }
    split; [exact H|].
    intros H1 H2. rewrite H. unfold StandardCalculator.power. rewrite H1, H2.
    reflexivity.
Qed.

Lemma power_is_right_associative_witness :
  (std.pow SmallLibm.libm 3%float 2%float = 9%float /\
   std.pow SmallLibm.libm 2%float 9%float = 512%float /\
   evaluate SmallLibm.libm (new SmallLibm.libm) "2^3^2" = Some (Return 512%float)) /\
  (Arithmetic.well_formed_operand Samples.tower_base = true /\
   forallb Arithmetic.well_formed_operand Samples.tower_exponents = true /\
   evaluate SmallLibm.libm (new SmallLibm.libm) " 4 ^ 0.5e1^1 " =
   Some (Return 1024%float)).
Proof.
  split; (split; [reflexivity|split; [reflexivity|]]).
  - apply (proj2 (proj2 (proj2 power_is_right_associative)
                    SmallLibm.libm (new SmallLibm.libm))); reflexivity.
  - apply (proj1 power_is_right_associative SmallLibm.libm (new SmallLibm.libm)
             Samples.tower_base Samples.tower_exponents); reflexivity.
Defined.

(** C4. An expression made of numeric literals and the binary operators
    [+ - * / %] is evaluated as a sum of terms, each term a product of
    literals, and each tier from left to right, every operator applied to
    the value so far and the next operand: [* / %] bind tighter than
    [+ -] and every operator is left-associative.  For every well-formed
    text of such an expression, with any blanks around the literals,
    [evaluate] returns exactly that value, or throws exactly the first
    error met from left to right.  [2 + 2 * 3] is 8 and [(2 + 3) * 4] is
    20. *)
Theorem arithmetic_is_left_associative_with_precedence :
  (forall libm reg e,
     Arithmetic.well_formed e = true ->
     evaluate libm reg (Arithmetic.render e) = Some (Arithmetic.value libm e)) /\
  (forall libm reg,
     evaluate libm reg "2 + 2 * 3" = Some (Return 8%float) /\
     evaluate libm reg "(2 + 3) * 4" = Some (Return 20%float) /\
     evaluate libm reg "10 - 4 - 3" = Some (Return 3%float) /\
     evaluate libm reg "100 / 10 / 5" = Some (Return 2%float) /\
     evaluate libm reg "8 / 4 * 2" = Some (Return 4%float) /\
     evaluate libm reg "7 - 2 * 3 + 1" = Some (Return 2%float) /\
     evaluate libm reg "2 * 3 + 4 * 5" = Some (Return 26%float) /\
     evaluate libm reg "7 % 4 * 2" =
       Some (Return (StandardCalculator.multiply (std.fmod libm 7%float 4%float) 2%float)) /\
     evaluate libm reg "1 + 6 / 0 * ." = Some (Throw (domain_error "Division by zero"))).
Proof.
  split.
  - intros libm reg e Hwf. exact (ArithmeticFacts.evaluate_render libm reg e Hwf).
  - intros libm reg.
    repeat match goal with |- _ /\ _ => split end; vm_compute; reflexivity.
Qed.

Lemma arithmetic_is_left_associative_with_precedence_witness :
  Arithmetic.well_formed Samples.sum = true /\
  evaluate SmallLibm.libm (new SmallLibm.libm) " 10 - 2.5e1 /4* 2 -1 " =
  Some (Return (-3.5)%float).
Proof.
  split; [reflexivity|].
  apply (proj1 arithmetic_is_left_associative_with_precedence
           SmallLibm.libm (new SmallLibm.libm) Samples.sum).
  reflexivity.
Defined.

(** C5. The scanner does not ask for a digit after the exponent marker.
    Wherever it meets [e] or [E] after the mantissa it consumes the marker,
    and a sign after it, and then as many digits as there are, which may
    be none.  In [2e] and in [2e+] the marker and the sign are part of the
    number token, the whole input is one token, and [std::stod] converts
    its longest valid prefix, so both evaluate to 2. *)
Theorem bare_exponent_marker_is_scanned :
  (forall input_ pos c,
     String.get pos input_ = Some c ->
     (c =? "e")%char || (c =? "E")%char = true ->
     exponent_part input_ pos =
     Some (Return tt,
           let p := if is_char "+" (String.get (S pos) input_) ||
                       is_char "-" (String.get (S pos) input_)
                    then S (S pos) else S pos in
           digits_loop input_ (String.length input_ - p) p)) /\
  (forall libm,
     parse_number libm "2e" 0 = Some (Return 2%float, 2) /\
     parse_number libm "2e+" 0 = Some (Return 2%float, 3) /\
     parse_number libm "2E-" 0 = Some (Return 2%float, 3) /\
     parse_number libm "2e*3" 0 = Some (Return 2%float, 2) /\
     evaluate libm (new libm) "2e" = Some (Return 2%float) /\
     evaluate libm (new libm) "2e+" = Some (Return 2%float) /\
     evaluate libm (new libm) "2e*3" = Some (Return 6%float) /\
     evaluate libm (new libm) "2e+3" = Some (Return 2000%float)).
Proof.
  split.
  - intros input_ pos c Hget Hc.
    exact (FactorFacts.exponent_part_marker input_ pos c Hget Hc).
  - intros libm.
    repeat match goal with |- _ /\ _ => split end; vm_compute; reflexivity.
Qed.

Lemma bare_exponent_marker_witness :
  String.get 1 "2e" = Some "e"%char /\
  exponent_part "2e" 1 = Some (Return tt, 2).
Proof.
  split; [reflexivity|].
  rewrite (proj1 bare_exponent_marker_is_scanned "2e" 1 "e"%char eq_refl eq_refl).
  reflexivity.
Defined.

(** C6. An identifier followed, after blanks, by an opening parenthesis
    is a call: one expression is parsed as its argument, a closing
    parenthesis is required, and the name is then looked up in the function
    registry alone -- an unknown name is the error "Unknown function" even
    if a constant of that name exists.  An identifier not followed by a
    parenthesis is looked up in the constant registry alone -- an unknown
    name is the error "Unknown identifier" even if a function of that name
    exists.  On the default registry, [foo(1)] is "Unknown function: foo"
    and [bar] is "Unknown identifier: bar". *)
Theorem identifier_is_call_or_constant :
  (forall libm reg input_ n pos c,
     String.get (after_blanks input_ pos) input_ = Some c ->
     isalpha c = true ->
     parse_factor libm reg input_ (S n) pos =
     let '(name, p1) := identifier_at input_ (after_blanks input_ pos) in
     let p2 := after_blanks input_ p1 in
     if is_char "(" (String.get p2 input_) then
       match parse_expression libm reg input_ n (S p2) with
       | Some (Return arg, p3) =>
           let p4 := after_blanks input_ p3 in
           if is_char ")" (String.get p4 input_) then
             match functions_ reg !! name with
             | Some func => Some (func arg, S p4)
             | None => Some (Throw (EvalError.UnknownFunction name), S p4)
             end
           else Some (Throw EvalError.MismatchedCallParentheses, p4)
       | Some (Throw e, p3) => Some (Throw e, p3)
       | None => None
       end
     else
       match constants_ reg !! name with
       | Some value => Some (Return value, p2)
       | None => Some (Throw (EvalError.UnknownIdentifier name), p2)
       end) /\
  (forall libm,
     evaluate libm (new libm) "foo(1)" =
       Some (Throw (EvalError.UnknownFunction "foo")) /\
     evaluate libm (new libm) "bar" =
       Some (Throw (EvalError.UnknownIdentifier "bar")) /\
     evaluate libm (register_constant "foo" 1%float (new libm)) "foo (1)" =
       Some (Throw (EvalError.UnknownFunction "foo")) /\
     evaluate libm (new libm) "pi(1)" =
       Some (Throw (EvalError.UnknownFunction "pi")) /\
     evaluate libm (new libm) "sin" =
       Some (Throw (EvalError.UnknownIdentifier "sin")) /\
     evaluate libm (new libm) "foo(1" =
       Some (Throw EvalError.MismatchedCallParentheses) /\
     evaluate libm (new libm) "foo(bar)" =
       Some (Throw (EvalError.UnknownIdentifier "bar"))).
Proof.
  split.
  - intros libm reg input_ n pos c Hget Hc.
    exact (FactorFacts.parse_factor_identifier libm reg input_ n pos c Hget Hc).
  - intros libm.
    repeat match goal with |- _ /\ _ => split end; vm_compute; reflexivity.
Qed.

Lemma identifier_is_call_or_constant_witness :
  String.get (after_blanks " abs ( 0 - 3 ) " 0) " abs ( 0 - 3 ) " = Some "a"%char /\
  isalpha "a" = true /\
  parse_factor SmallLibm.libm (new SmallLibm.libm) " abs ( 0 - 3 ) " 20 0 =
  Some (Return 3%float, 14).
Proof.
  split; [reflexivity|]. split; [reflexivity|].
  rewrite (proj1 identifier_is_call_or_constant
             SmallLibm.libm (new SmallLibm.libm) " abs ( 0 - 3 ) " 19 0 "a"%char
             eq_refl eq_refl).
  vm_compute. reflexivity.
Defined.

(** C7. Division and modulo throw a domain error exactly when the right
    operand compares equal to zero -- when it is one of the two zeros, and
    for no other operand however small -- and it is
    [StandardCalculator::divide] and [StandardCalculator::modulo] that
    throw: the loop of [parse_term] hands both operands over and passes on
    whatever comes back.  [evaluate("10 / 0")] is the domain error
    "Division by zero". *)
Theorem division_by_zero_is_a_domain_error :
  (forall b, (b =? 0)%float = true <-> b = 0%float \/ b = (- 0)%float) /\
  (forall a b,
     (exists e, StandardCalculator.divide a b = Throw e /\ EvalError.DomainError e)
     <-> (b =? 0)%float = true) /\
  (forall libm a b,
     (exists e, StandardCalculator.modulo libm a b = Throw e /\ EvalError.DomainError e)
     <-> (b =? 0)%float = true) /\
  (forall libm reg input_ n result pos op,
     String.get (after_blanks input_ pos) input_ = Some op ->
     op = "/"%char \/ op = "%"%char ->
     term_loop libm reg input_ (S n) result pos =
     match parse_factor libm reg input_ n (S (after_blanks input_ pos)) with
     | Some (Return rhs, p') =>
         match (if (op =? "/")%char then StandardCalculator.divide result rhs
                else StandardCalculator.modulo libm result rhs) with
         | Return result' => term_loop libm reg input_ n result' p'
         | Throw e => Some (Throw e, p')
         end
     | Some (Throw e, p') => Some (Throw e, p')
     | None => None
     end) /\
  (forall libm reg,
     evaluate libm reg "10 / 0" = Some (Throw (domain_error "Division by zero")) /\
     evaluate libm reg "10 % 0" = Some (Throw (domain_error "Modulo by zero")) /\
     evaluate libm reg "10 / -0" = Some (Throw (domain_error "Division by zero")) /\
     evaluate libm reg "10 / 4" = Some (Return 2.5%float) /\
     evaluate libm reg "10 / 1e-300" = Some (Return (10 / 1e-300)%float)).
Proof.
  split; [|split; [|split; [|split]]].
  - exact NumericFacts.eqb_zero_iff.
  - intros a b. unfold StandardCalculator.divide.
    destruct (b =? 0)%float; split.
    + reflexivity.
    + intros _. eexists. split; [reflexivity|exact I].
    + intros (e & H & _). discriminate H.
    + discriminate.
  - intros libm a b. unfold StandardCalculator.modulo.
    destruct (b =? 0)%float; split.
    + reflexivity.
    + intros _. eexists. split; [reflexivity|exact I].
    + intros (e & H & _). discriminate H.
    + discriminate.
  - intros libm reg input_ n result pos op Hget Hop.
    rewrite (FactorFacts.term_loop_operator libm reg input_ n result pos op Hget).
    + destruct Hop as [-> | ->]; reflexivity.
    + destruct Hop as [-> | ->]; reflexivity.
  - intros libm reg.
    repeat match goal with |- _ /\ _ => split end; vm_compute; reflexivity.
Qed.

Lemma division_by_zero_witness :
  String.get (after_blanks "10 / 0" 2) "10 / 0" = Some "/"%char /\
  term_loop SmallLibm.libm (new SmallLibm.libm) "10 / 0" 3 10%float 2 =
  Some (Throw (domain_error "Division by zero"), 6).
Proof.
  split; [reflexivity|].
  rewrite (proj1 (proj2 (proj2 (proj2 division_by_zero_is_a_domain_error)))
             SmallLibm.libm (new SmallLibm.libm) "10 / 0" 2 10%float 2 "/"%char
             eq_refl (or_introl eq_refl)).
  vm_compute. reflexivity.
Defined.

(** C8. A numeric literal with two decimal points is the fatal error
    "Invalid number format", never a silently corrected number: whatever
    follows the second point, an expression that starts with digits, a
    point, digits and a second point makes [evaluate] throw it; in
    particular [evaluate("1.2.3")] does. *)
Theorem two_decimal_points_are_invalid_number_format :
  (forall libm reg d1 d2 rest,
     string_forall isdigit d1 = true -> string_forall isdigit d2 = true ->
     evaluate libm reg (d1 +:+ String "." (d2 +:+ String "." rest)) =
     Some (Throw EvalError.InvalidNumberFormat)) /\
  (forall libm reg,
     evaluate libm reg "1.2.3" = Some (Throw EvalError.InvalidNumberFormat) /\
     evaluate libm reg "1..2" = Some (Throw EvalError.InvalidNumberFormat) /\
     evaluate libm reg "2 * (3 + .5.)" = Some (Throw EvalError.InvalidNumberFormat)).
Proof.
  split.
  - intros libm reg d1 d2 rest H1 H2.
    apply (EvaluateFacts.evaluate_run _ _ _ 3 _
             (0 + String.length d1 + 1 + String.length d2)).
    rewrite CursorFacts.parse_expression_S. unfold bind at 1.
    rewrite CursorFacts.parse_term_S. unfold bind at 1.
    rewrite (FactorFacts.parse_factor_two_dots libm reg _ 0 d1 d2 rest 0);
      auto.
  - intros libm reg.
    repeat match goal with |- _ /\ _ => split end; vm_compute; reflexivity.
Qed.

Lemma two_decimal_points_witness :
  string_forall isdigit "12" = true /\ string_forall isdigit "5" = true /\
  evaluate SmallLibm.libm (new SmallLibm.libm) "12.5.75 + 1" =
  Some (Throw EvalError.InvalidNumberFormat).
Proof.
  split; [reflexivity|]. split; [reflexivity|].
  apply (proj1 two_decimal_points_are_invalid_number_format
           SmallLibm.libm (new SmallLibm.libm) "12" "5" "75 + 1");
    reflexivity.
Defined.

(** C9. The cursor never leaves the input and never moves back: whatever
    production, scanning step or loop runs from a position inside the
    input, and however it ends -- with a value or with an exception -- the
    cursor is then at or after where it started and at most at the end.
    [evaluate] starts its one run at position zero. *)
Theorem cursor_stays_in_bounds :
  forall libm reg input_,
    (forall fuel pos r pos',
       pos <= String.length input_ ->
       parse_expression libm reg input_ fuel pos = Some (r, pos') \/
       parse_term libm reg input_ fuel pos = Some (r, pos') \/
       parse_factor libm reg input_ fuel pos = Some (r, pos') \/
       parse_number libm input_ pos = Some (r, pos') \/
       (exists result, expression_loop libm reg input_ fuel result pos = Some (r, pos')) \/
       (exists result, term_loop libm reg input_ fuel result pos = Some (r, pos')) ->
       pos <= pos' <= String.length input_) /\
    (forall pos r pos',
       pos <= String.length input_ ->
       skip_whitespace input_ pos = Some (r, pos') \/
       scan_mantissa input_ pos = Some (r, pos') \/
       exponent_part input_ pos = Some (r, pos') ->
       pos <= pos' <= String.length input_) /\
    (forall pos r pos',
       pos <= String.length input_ ->
       scan_name input_ pos = Some (r, pos') ->
       pos <= pos' <= String.length input_) /\
    (forall n pos,
       pos <= String.length input_ ->
       pos <= skip_whitespace_loop input_ n pos <= String.length input_ /\
       pos <= digits_loop input_ n pos <= String.length input_ /\
       (forall has_dot,
          pos <= snd (number_loop input_ n has_dot pos) <= String.length input_) /\
       (forall name,
          pos <= snd (name_loop input_ n name pos) <= String.length input_)) /\
    exists r pos',
      parse_expression libm reg input_ (fuel_for input_) 0 = Some (r, pos') /\
      0 <= pos' <= String.length input_ /\
      evaluate libm reg input_ = Some r.
Proof.
  intros libm reg input_. split; [|split; [|split; [|split]]].
  - intros fuel pos r pos' Hle H.
    destruct (CursorFacts.kb_productions libm reg input_ fuel)
      as (He & Hel & Ht & Htl & Hf).
    destruct H as [H|[H|[H|[H|[(result & H)|(result & H)]]]]].
    + exact (He _ _ _ Hle H).
    + exact (Ht _ _ _ Hle H).
    + exact (Hf _ _ _ Hle H).
    + exact (CursorFacts.kb_parse_number libm input_ _ _ _ Hle H).
    + exact (Hel result _ _ _ Hle H).
    + exact (Htl result _ _ _ Hle H).
  - intros pos r pos' Hle [H|[H|H]].
    + exact (CursorFacts.kb_skip_whitespace input_ _ _ _ Hle H).
    + exact (CursorFacts.kb_scan_mantissa input_ _ _ _ Hle H).
    + exact (CursorFacts.kb_exponent_part input_ _ _ _ Hle H).
  - intros pos r pos' Hle H.
    exact (CursorFacts.kb_scan_name input_ _ _ _ Hle H).
  - intros n pos Hle. split; [|split; [|split]].
    + exact (CursorFacts.skip_whitespace_loop_bounds input_ n pos Hle).
    + exact (CursorFacts.digits_loop_bounds input_ n pos Hle).
    + intros has_dot. exact (CursorFacts.number_loop_bounds input_ n has_dot pos Hle).
    + intros name. exact (CursorFacts.name_loop_bounds input_ n name pos Hle).
  - destruct (EvaluateFacts.parse_expression_enough libm reg input_)
      as (r & pos' & E & Hle).
    exists r, pos'. split; [exact E|]. split; [lia|].
    unfold evaluate. rewrite E. reflexivity.
Qed.

Lemma cursor_stays_in_bounds_witness :
  2 <= String.length "1 + (2 * 3" /\
  expression_loop SmallLibm.libm (new SmallLibm.libm) "1 + (2 * 3" 20 1%float 2 =
    Some (Throw EvalError.MismatchedParentheses, 10) /\
  2 <= 10 <= String.length "1 + (2 * 3".
Proof.
  assert (Hle : 2 <= String.length "1 + (2 * 3") by (vm_compute; lia).
  assert (Hrun : expression_loop SmallLibm.libm (new SmallLibm.libm) "1 + (2 * 3"
                   20 1%float 2 = Some (Throw EvalError.MismatchedParentheses, 10))
    by reflexivity.
  split; [exact Hle|]. split; [exact Hrun|].
  apply (proj1 (cursor_stays_in_bounds SmallLibm.libm (new SmallLibm.libm) "1 + (2 * 3")
           20 2 (Throw EvalError.MismatchedParentheses) 10 Hle).
  right. right. right. right. left. exists 1%float. exact Hrun.
Defined.

(** C10. [evaluate] does not check that the input is used up: the value
    of the top-level expression is returned wherever the cursor stopped,
    also before the end.  So an expression that evaluates to a value
    evaluates to the same value with anything appended that starts with a
    character that cannot continue it -- [2+2)] is 4 -- and [2 2] is 2,
    with no error. *)
Theorem trailing_input_is_ignored :
  (forall libm reg input_ n v pos',
     parse_expression libm reg input_ n 0 = Some (Return v, pos') ->
     pos' < String.length input_ ->
     evaluate libm reg input_ = Some (Return v)) /\
  (forall libm reg s c t v,
     cannot_continue c = true ->
     evaluate libm reg s = Some (Return v) ->
     evaluate libm reg (s +:+ String c t) = Some (Return v)) /\
  (forall libm reg,
     parse_expression libm reg "2+2)" (fuel_for "2+2)") 0 = Some (Return 4%float, 3) /\
     evaluate libm reg "2+2)" = Some (Return 4%float) /\
     parse_expression libm reg "2 2" (fuel_for "2 2") 0 = Some (Return 2%float, 2) /\
     evaluate libm reg "2 2" = Some (Return 2%float)).
Proof.
  split; [|split].
  - intros libm reg input_ n v pos' H _.
    exact (EvaluateFacts.evaluate_run _ _ _ _ _ _ H).
  - intros libm reg s c t v Hc H.
    exact (TrailingFacts.evaluate_longer libm reg s c t Hc v H).
  - intros libm reg.
    repeat match goal with |- _ /\ _ => split end; vm_compute; reflexivity.
Qed.

Lemma trailing_input_is_ignored_witness :
  cannot_continue ")" = true /\
  evaluate SmallLibm.libm (new SmallLibm.libm) "(1 + 2) * 3" = Some (Return 9%float) /\
  evaluate SmallLibm.libm (new SmallLibm.libm) ("(1 + 2) * 3" +:+ String ")" " + 4") =
  Some (Return 9%float).
Proof.
  assert (Hc : cannot_continue ")" = true) by reflexivity.
  assert (Hs : evaluate SmallLibm.libm (new SmallLibm.libm) "(1 + 2) * 3" =
               Some (Return 9%float)) by reflexivity.
  split; [exact Hc|]. split; [exact Hs|].
  exact (proj1 (proj2 trailing_input_is_ignored) SmallLibm.libm (new SmallLibm.libm)
           "(1 + 2) * 3" ")"%char " + 4" 9%float Hc Hs).
Defined.

(** * Further properties of the evaluator *)

(** X1. An input with nothing in it but whitespace -- the empty input
    included -- makes [evaluate] throw "Unexpected end of expression", and
    so does every place where a factor is due and only whitespace is left:
    after a binary operator, whatever was evaluated before it, the missing
    right operand is reported by the same error with the cursor at the end
    of the input. *)
Theorem missing_factor_is_unexpected_end :
  (forall libm reg s,
     string_forall isspace s = true ->
     evaluate libm reg s = Some (Throw EvalError.UnexpectedEnd)) /\
  (forall libm reg input_ n pos,
     pos <= String.length input_ ->
     string_forall isspace (drop pos input_) = true ->
     parse_factor libm reg input_ (S n) pos =
     Some (Throw EvalError.UnexpectedEnd, String.length input_)) /\
  (forall libm reg input_ n result pos op,
     String.get (after_blanks input_ pos) input_ = Some op ->
     string_forall isspace (drop (S (after_blanks input_ pos)) input_) = true ->
     ((op =? "+")%char || (op =? "-")%char = true ->
      expression_loop libm reg input_ (S (S (S n))) result pos =
      Some (Throw EvalError.UnexpectedEnd, String.length input_)) /\
     ((op =? "*")%char || (op =? "/")%char || (op =? "%")%char = true ->
      term_loop libm reg input_ (S (S n)) result pos =
      Some (Throw EvalError.UnexpectedEnd, String.length input_))).
Proof.
  split; [|split].
  - intros libm reg s Hs. exact (InputFacts.evaluate_blank libm reg s Hs).
  - intros libm reg input_ n pos Hle Hb.
    exact (EdgeFacts.parse_factor_blank libm reg input_ n pos Hb Hle).
  - intros libm reg input_ n result pos op Hget Hb. split; intros Hop.
    + exact (EdgeFacts.expression_loop_dangling libm reg input_ n result pos op
               Hget Hop Hb).
    + exact (EdgeFacts.term_loop_dangling libm reg input_ n result pos op
               Hget Hop Hb).
Qed.

Lemma missing_factor_is_unexpected_end_witness :
  (string_forall isspace "  " = true /\
   evaluate SmallLibm.libm (new SmallLibm.libm) "  " =
   Some (Throw EvalError.UnexpectedEnd)) /\
  (String.get (after_blanks "2 * 3 +  " 5) "2 * 3 +  " = Some "+"%char /\
   string_forall isspace (drop (S (after_blanks "2 * 3 +  " 5)) "2 * 3 +  ") = true /\
   expression_loop SmallLibm.libm (new SmallLibm.libm) "2 * 3 +  " 3 6%float 5 =
   Some (Throw EvalError.UnexpectedEnd, 9)).
Proof.
  split.
  - split; [reflexivity|].
    apply (proj1 missing_factor_is_unexpected_end). reflexivity.
  - split; [reflexivity|]. split; [reflexivity|].
    apply (proj1 (proj2 (proj2 missing_factor_is_unexpected_end)
                    SmallLibm.libm (new SmallLibm.libm) "2 * 3 +  " 0 6%float 5 "+"%char
                    eq_refl eq_refl)).
    reflexivity.
Defined.

(** X2. Where a factor is due and the next character after the whitespace
    can start none -- it is no sign, no opening parenthesis, no letter, no
    digit and no decimal point, as [*], [)], [^] or [#] -- the factor
    throws "Expected number" with the cursor on that character.  An input
    that starts with such a character, after any whitespace, makes
    [evaluate] throw it whatever follows. *)
Theorem stray_character_is_expected_number :
  (forall libm reg input_ n pos c,
     String.get (after_blanks input_ pos) input_ = Some c ->
     starts_no_factor c = true ->
     parse_factor libm reg input_ (S n) pos =
     Some (Throw (runtime_error "Expected number"), after_blanks input_ pos)) /\
  (forall libm reg ws c rest,
     string_forall isspace ws = true -> starts_no_factor c = true ->
     evaluate libm reg (ws +:+ String c rest) =
     Some (Throw (runtime_error "Expected number"))).
Proof.
  split.
  - intros libm reg input_ n pos c Hget Hc.
    exact (EdgeFacts.parse_factor_no_factor libm reg input_ n pos c Hget Hc).
  - intros libm reg ws c rest Hws Hc.
    exact (InputFacts.evaluate_no_factor libm reg ws c rest Hws Hc).
Qed.

Lemma stray_character_is_expected_number_witness :
  (String.get (after_blanks "2 * * 3" 3) "2 * * 3" = Some "*"%char /\
   starts_no_factor "*" = true /\
   parse_factor SmallLibm.libm (new SmallLibm.libm) "2 * * 3" 1 3 =
   Some (Throw (runtime_error "Expected number"), 4)) /\
  (string_forall isspace " " = true /\ starts_no_factor ")" = true /\
   evaluate SmallLibm.libm (new SmallLibm.libm) (" " +:+ String ")" "2 + 2") =
   Some (Throw (runtime_error "Expected number"))).
Proof.
  split; (split; [reflexivity|split; [reflexivity|]]).
  - apply (proj1 stray_character_is_expected_number
             SmallLibm.libm (new SmallLibm.libm) "2 * * 3" 0 3 "*"%char);
      reflexivity.
  - apply (proj2 stray_character_is_expected_number); reflexivity.
Defined.

(** X3. A call [name ( argument )] whose argument is an arithmetic
    expression evaluates the argument first, requires the closing
    parenthesis, and only then looks the name up: the outcome is the
    function applied to the argument's value, an error of the argument
    takes precedence over "Unknown function", and whitespace between the
    name and the parenthesis changes nothing. *)
Theorem call_evaluates_argument_before_lookup :
  forall libm reg name blanks argument,
    is_identifier name = true -> string_forall isspace blanks = true ->
    Arithmetic.well_formed argument = true ->
    evaluate libm reg (render_call name blanks argument) =
    Some match Arithmetic.value libm argument with
         | Return v =>
             match functions_ reg !! name with
             | Some func => func v
             | None => Throw (EvalError.UnknownFunction name)
             end
         | Throw e => Throw e
         end.
Proof.
  intros libm reg name blanks argument Hname Hb Hwf.
  rewrite (InputFacts.evaluate_call libm reg name blanks argument Hname Hb Hwf).
  unfold call_value. destruct (Arithmetic.value libm argument); reflexivity.
Qed.

Lemma call_evaluates_argument_before_lookup_witness :
  is_identifier "nosuch" = true /\ string_forall isspace " " = true /\
  Arithmetic.well_formed Samples.sum = true /\
  evaluate SmallLibm.libm (new SmallLibm.libm)
    (render_call "nosuch" " " Samples.sum) =
  Some (Throw (EvalError.UnknownFunction "nosuch")).
Proof.
  split; [reflexivity|]. split; [reflexivity|]. split; [reflexivity|].
  rewrite (call_evaluates_argument_before_lookup SmallLibm.libm (new SmallLibm.libm)
             "nosuch" " " Samples.sum eq_refl eq_refl eq_refl).
  reflexivity.
Defined.

(** X4. [register_function] and a call are a round trip: after
    [register_function(name, func)], a call of [name] applies [func] to the
    value of the argument, whatever was registered under the name before;
    registering a function under another name, or a constant under any
    name, does not change what a call of [name] evaluates to. *)
Theorem registered_function_is_called :
  forall libm reg name blanks argument,
    is_identifier name = true -> string_forall isspace blanks = true ->
    Arithmetic.well_formed argument = true ->
    (forall func,
       evaluate libm (register_function name func reg)
         (render_call name blanks argument) =
       Some (Arithmetic.and_then (Arithmetic.value libm argument) func)) /\
    (forall other func,
       other <> name ->
       evaluate libm (register_function other func reg)
         (render_call name blanks argument) =
       evaluate libm reg (render_call name blanks argument)) /\
    (forall other value,
       evaluate libm (register_constant other value reg)
         (render_call name blanks argument) =
       evaluate libm reg (render_call name blanks argument)).
Proof.
  intros libm reg name blanks argument Hname Hb Hwf.
  split; [|split]; intros; rewrite !InputFacts.evaluate_call by assumption;
    unfold call_value; cbn [register_function register_constant functions_].
  - rewrite lookup_insert_eq. reflexivity.
  - rewrite lookup_insert_ne by assumption. reflexivity.
  - reflexivity.
Qed.

Lemma registered_function_is_called_witness :
  is_identifier "twice" = true /\ string_forall isspace "" = true /\
  Arithmetic.well_formed CallSamples.argument = true /\
  evaluate SmallLibm.libm
    (register_function "twice" CallSamples.twice (new SmallLibm.libm))
    "twice( 1 + 2*3 )" = Some (Return 14%float).
Proof.
  split; [reflexivity|]. split; [reflexivity|]. split; [reflexivity|].
  apply (proj1 (registered_function_is_called SmallLibm.libm (new SmallLibm.libm)
                  "twice" "" CallSamples.argument eq_refl eq_refl eq_refl)
           CallSamples.twice).
Defined.

(** X5. [register_constant] and a reference are a round trip: an input
    that is one identifier evaluates to the value registered last under
    that name and is "Unknown identifier" if there is none; functions live
    in a registry of their own, so registering a function under the same
    name neither provides nor hides the constant. *)
Theorem registered_constant_is_read :
  forall libm reg name,
    is_identifier name = true ->
    (forall value,
       evaluate libm (register_constant name value reg) name = Some (Return value)) /\
    (forall first second,
       evaluate libm
         (register_constant name second (register_constant name first reg)) name =
       Some (Return second)) /\
    (forall other value,
       other <> name ->
       evaluate libm (register_constant other value reg) name =
       evaluate libm reg name) /\
    (forall other func,
       evaluate libm (register_function other func reg) name =
       evaluate libm reg name) /\
    (constants_ reg !! name = None ->
     evaluate libm reg name = Some (Throw (EvalError.UnknownIdentifier name))).
Proof.
  intros libm reg name Hname.
  split; [|split; [|split; [|split]]]; intros;
    rewrite !InputFacts.evaluate_constant by assumption;
    cbn [register_function register_constant constants_].
  - rewrite lookup_insert_eq. reflexivity.
  - rewrite lookup_insert_eq. reflexivity.
  - rewrite lookup_insert_ne by assumption. reflexivity.
  - reflexivity.
  - rewrite H. reflexivity.
Qed.

Lemma registered_constant_is_read_witness :
  is_identifier "tau_2" = true /\
  evaluate SmallLibm.libm
    (register_constant "tau_2" 6.25%float (new SmallLibm.libm)) "tau_2" =
  Some (Return 6.25%float).
Proof.
  split; [reflexivity|].
  apply (proj1 (registered_constant_is_read SmallLibm.libm (new SmallLibm.libm)
                  "tau_2" eq_refl)).
Defined.

(** X6. Parentheses are transparent: an arithmetic expression inside any
    number of balanced pairs of parentheses evaluates to what it evaluates
    to without them, value or exception.  With the closing parenthesis
    missing, the expression inside is still evaluated first: its exception
    wins, and otherwise the error is "Mismatched parentheses". *)
Theorem parentheses_are_transparent :
  forall libm reg e,
    Arithmetic.well_formed e = true ->
    (forall k,
       evaluate libm reg
         (replicate_char k "(" +:+ (Arithmetic.render e +:+ replicate_char k ")")) =
       evaluate libm reg (Arithmetic.render e)) /\
    evaluate libm reg (String "(" (Arithmetic.render e)) =
    Some match Arithmetic.value libm e with
         | Return _ => Throw EvalError.MismatchedParentheses
         | Throw x => Throw x
         end.
Proof.
  intros libm reg e Hwf. split.
  - intros k. rewrite (InputFacts.evaluate_nested libm reg k e Hwf).
    rewrite (ArithmeticFacts.evaluate_render libm reg e Hwf). reflexivity.
  - rewrite (InputFacts.evaluate_unclosed libm reg e Hwf).
    destruct (Arithmetic.value libm e); reflexivity.
Qed.

Lemma parentheses_are_transparent_witness :
  Arithmetic.well_formed Samples.sum = true /\
  evaluate SmallLibm.libm (new SmallLibm.libm) "(( 10 - 2.5e1 /4* 2 -1 ))" =
  Some (Return (-3.5)%float) /\
  evaluate SmallLibm.libm (new SmallLibm.libm) "( 10 - 2.5e1 /4* 2 -1 " =
  Some (Throw EvalError.MismatchedParentheses).
Proof.
  split; [reflexivity|]. split.
  - exact (eq_trans
             (proj1 (parentheses_are_transparent SmallLibm.libm (new SmallLibm.libm)
                       Samples.sum eq_refl) 2)
             eq_refl).
  - exact (eq_trans
             (proj2 (parentheses_are_transparent SmallLibm.libm (new SmallLibm.libm)
                       Samples.sum eq_refl))
             eq_refl).
Defined.

(** X7. Whatever the input and whatever is registered, an exception that
    leaves [evaluate] is one of the eight errors of the parser, one of the
    two errors of division and modulo, or an exception a registered
    function threw.  With the built-in functions it is therefore always a
    [runtime_error] or a [domain_error] with one of six messages: the
    [invalid_argument] and [out_of_range] of [std::stod] never escape. *)
Theorem evaluate_throws_only_its_own_errors :
  (forall libm reg expression e,
     evaluate libm reg expression = Some (Throw e) ->
     Errors.syntax_error e \/ Errors.arithmetic_error e \/
     exists name func x, functions_ reg !! name = Some func /\ func x = Throw e) /\
  (forall libm expression e,
     evaluate libm (new libm) expression = Some (Throw e) ->
     Errors.syntax_error e \/
     exists what, In what Errors.domain_messages /\ e = domain_error what) /\
  (forall libm expression e,
     evaluate libm (new libm) expression = Some (Throw e) ->
     (exists what, e = runtime_error what) \/ (exists what, e = domain_error what)).
Proof.
  assert (Hnew : forall libm expression e,
            evaluate libm (new libm) expression = Some (Throw e) ->
            Errors.syntax_error e \/
            exists what, In what Errors.domain_messages /\ e = domain_error what).
  { intros libm expression e H.
    apply ErrorFacts.evaluate_throws in H as [H|[H|(name & func & x & Hf & Hx)]].
    - left. exact H.
    - right. destruct H as [-> | ->]; eexists; (split; [|reflexivity]); cbn; tauto.
    - right. exact (proj2 (RegistryFacts.builtin_throws libm name func x e Hf Hx)). }
  split; [|split].
  - intros libm reg expression e H. exact (ErrorFacts.evaluate_throws _ _ _ _ H).
  - exact Hnew.
  - intros libm expression e H. apply Hnew in H as [H|(what & _ & ->)]; [|eauto].
    left. unfold Errors.syntax_error, EvalError.UnknownFunction,
      EvalError.UnknownIdentifier in H.
    destruct H as [->|[->|[->|[->|[->|[(t & ->)|[(t & ->)|(t & ->)]]]]]]]; eexists;
      reflexivity.
Qed.

Lemma evaluate_throws_only_its_own_errors_witness :
  evaluate SmallLibm.libm (new SmallLibm.libm) "sqrt(0 - 4)" =
    Some (Throw (domain_error "Square root of negative number")) /\
  (Errors.syntax_error (domain_error "Square root of negative number") \/
   exists what, In what Errors.domain_messages /\
                domain_error "Square root of negative number" = domain_error what).
Proof.
  assert (H : evaluate SmallLibm.libm (new SmallLibm.libm) "sqrt(0 - 4)" =
              Some (Throw (domain_error "Square root of negative number")))
    by reflexivity.
  split; [exact H|].
  exact (proj1 (proj2 evaluate_throws_only_its_own_errors) SmallLibm.libm
           "sqrt(0 - 4)" (domain_error "Square root of negative number") H).
Defined.

(** X8. Of the nineteen built-in functions only the six with a domain
    check -- [asin], [acos], [sqrt], [ln], [log], [log2] -- ever throw, and
    what they throw is a [domain_error] with one of the messages of
    [StandardCalculator]; the other thirteen return a value for every
    argument, infinities and NaN included. *)
Theorem only_checked_builtins_throw :
  forall libm name func,
    functions_ (new libm) !! name = Some func ->
    (forall x e, func x = Throw e ->
       In name Builtin.checked /\
       exists what, In what Errors.domain_messages /\ e = domain_error what) /\
    (~ In name Builtin.checked -> forall x, exists v, func x = Return v).
Proof.
  intros libm name func Hf.
  assert (H : forall x e, func x = Throw e ->
            In name Builtin.checked /\
            exists what, In what Errors.domain_messages /\ e = domain_error what)
    by (intros x e; apply (RegistryFacts.builtin_throws libm name func x e Hf)).
  split; [exact H|].
  intros Hn x. destruct (func x) as [v|e] eqn:E; [eauto|].
  destruct (Hn (proj1 (H x e E))).
Qed.

Lemma only_checked_builtins_throw_witness :
  functions_ (new SmallLibm.libm) !! "ln"%string =
    Some (StandardCalculator.log SmallLibm.libm) /\
  In "ln"%string Builtin.checked /\
  exists what, In what Errors.domain_messages /\
    domain_error "Logarithm of non-positive number" = domain_error what.
Proof.
  split; [reflexivity|].
  exact (proj1 (only_checked_builtins_throw SmallLibm.libm "ln"
                  (StandardCalculator.log SmallLibm.libm) eq_refl)
           0%float (domain_error "Logarithm of non-positive number") eq_refl).
Defined.

(** X9. The constructor registers the nineteen function names and the
    three constant names of its body and nothing else.  A call of any other
    identifier is "Unknown function" once its argument has a value -- also
    for [exp2], [asinh], [acosh], [atanh], which [StandardCalculator]
    implements but the parser does not register -- and any other bare
    identifier is "Unknown identifier". *)
Theorem unregistered_names_are_unknown :
  forall libm,
    (forall name,
       functions_ (new libm) !! name = None <->
       ~ In name (map fst (Builtin.functions libm))) /\
    (forall name,
       constants_ (new libm) !! name = None <->
       ~ In name (map fst Builtin.constants)) /\
    (forall name blanks argument v,
       is_identifier name = true -> string_forall isspace blanks = true ->
       Arithmetic.well_formed argument = true ->
       Arithmetic.value libm argument = Return v ->
       ~ In name (map fst (Builtin.functions libm)) ->
       evaluate libm (new libm) (render_call name blanks argument) =
       Some (Throw (EvalError.UnknownFunction name))) /\
    (forall name,
       is_identifier name = true ->
       ~ In name (map fst Builtin.constants) ->
       evaluate libm (new libm) name =
       Some (Throw (EvalError.UnknownIdentifier name))).
Proof.
  intros libm.
  assert (Hf : forall name,
            functions_ (new libm) !! name = None <->
            ~ In name (map fst (Builtin.functions libm))).
  { intros name. split.
    - intros Hnone Hin. apply in_map_iff in Hin as ([name' func] & Heq & Hin).
      cbn [fst] in Heq. subst name'.
      apply RegistryFacts.functions_new in Hin. congruence.
    - intros Hn. destruct (functions_ (new libm) !! name) as [func|] eqn:E;
        [|reflexivity].
      destruct Hn. apply RegistryFacts.functions_new in E.
      apply in_map_iff. exists (name, func). split; [reflexivity|exact E]. }
  assert (Hc : forall name,
            constants_ (new libm) !! name = None <->
            ~ In name (map fst Builtin.constants)).
  { intros name. split.
    - intros Hnone Hin. apply in_map_iff in Hin as ([name' value] & Heq & Hin).
      cbn [fst] in Heq. subst name'.
      apply (RegistryFacts.constants_new libm) in Hin. congruence.
    - intros Hn. destruct (constants_ (new libm) !! name) as [value|] eqn:E;
        [|reflexivity].
      destruct Hn. apply RegistryFacts.constants_new in E.
      apply in_map_iff. exists (name, value). split; [reflexivity|exact E]. }
  split; [exact Hf|]. split; [exact Hc|]. split.
  - intros name blanks argument v Hname Hb Hwf Hv Hn.
    rewrite (InputFacts.evaluate_call libm (new libm) name blanks argument Hname Hb Hwf).
    unfold call_value. rewrite Hv. cbn [Arithmetic.and_then].
    rewrite (proj2 (Hf name) Hn). reflexivity.
  - intros name Hname Hn.
    rewrite (InputFacts.evaluate_constant libm (new libm) name Hname).
    rewrite (proj2 (Hc name) Hn). reflexivity.
Qed.

Lemma unregistered_names_are_unknown_witness :
  is_identifier "acosh" = true /\ string_forall isspace "" = true /\
  Arithmetic.well_formed CallSamples.argument = true /\
  Arithmetic.value SmallLibm.libm CallSamples.argument = Return 7%float /\
  evaluate SmallLibm.libm (new SmallLibm.libm) "acosh( 1 + 2*3 )" =
  Some (Throw (EvalError.UnknownFunction "acosh")).
Proof.
  split; [reflexivity|]. split; [reflexivity|]. split; [reflexivity|].
  split; [reflexivity|].
  apply (proj1 (proj2 (proj2 (unregistered_names_are_unknown SmallLibm.libm)))
           "acosh"%string ""%string CallSamples.argument 7%float
           eq_refl eq_refl eq_refl eq_refl).
  cbn. intros H.
  repeat (destruct H as [H|H]; [discriminate H|]). exact H.
Defined.

(** X10. The domain checks of [StandardCalculator] by the class of the
    argument.  [sqrt] throws exactly on the negative numbers that are not
    zero, so [-0.0] is accepted; [log], [log10] and [log2] throw exactly on
    those and on the two zeros.  No check rejects a NaN: every comparison
    with it is false, so a NaN argument is handed to the library function
    by [sqrt], the logarithms, [asin], [acos], [acosh] and [atanh], and a
    NaN divisor is divided by. *)
Theorem domain_checks_by_class :
  forall libm libm' x,
    StandardCalculator.sqrt x =
      (if Class.negative x
       then Throw (domain_error "Square root of negative number")
       else Return (std.sqrt x)) /\
    (StandardCalculator.log libm x =
       (if Class.negative x || Class.zero x
        then Throw (domain_error "Logarithm of non-positive number")
        else Return (std.log libm x)) /\
     StandardCalculator.log10 libm x =
       (if Class.negative x || Class.zero x
        then Throw (domain_error "Logarithm of non-positive number")
        else Return (std.log10 libm x)) /\
     StandardCalculator.log2 libm x =
       (if Class.negative x || Class.zero x
        then Throw (domain_error "Logarithm of non-positive number")
        else Return (std.log2 libm x))) /\
    (PrimFloat.is_nan x = true ->
     StandardCalculator.sqrt x = Return (std.sqrt x) /\
     StandardCalculator.log libm x = Return (std.log libm x) /\
     StandardCalculator.log10 libm x = Return (std.log10 libm x) /\
     StandardCalculator.log2 libm x = Return (std.log2 libm x) /\
     StandardCalculator.asin libm x = Return (std.asin libm x) /\
     StandardCalculator.acos libm x = Return (std.acos libm x) /\
     StandardCalculator.acosh libm' x = Return (std.acosh libm' x) /\
     StandardCalculator.atanh libm' x = Return (std.atanh libm' x) /\
     (forall a, StandardCalculator.divide a x = Return (a / x)%float) /\
     (forall a, StandardCalculator.modulo libm a x = Return (std.fmod libm a x))).
Proof.
  intros libm libm' x. split; [|split; [split; [|split]|]].
  - unfold StandardCalculator.sqrt. rewrite CheckFacts.ltb_zero. reflexivity.
  - unfold StandardCalculator.log. rewrite CheckFacts.leb_zero. reflexivity.
  - unfold StandardCalculator.log10. rewrite CheckFacts.leb_zero. reflexivity.
  - unfold StandardCalculator.log2. rewrite CheckFacts.leb_zero. reflexivity.
  - intros Hnan.
    pose proof (CheckFacts.compare_nan x Hnan) as H.
    destruct (H 0%float) as (H0 & _ & H0' & _ & H0e).
    destruct (H 1%float) as (H1 & H1' & H1le & H1ge & _).
    destruct (H (-1)%float) as (Hm & _ & Hmle & _).
    unfold StandardCalculator.sqrt, StandardCalculator.log, StandardCalculator.log10,
      StandardCalculator.log2, StandardCalculator.asin, StandardCalculator.acos,
      StandardCalculator.acosh, StandardCalculator.atanh, StandardCalculator.divide,
      StandardCalculator.modulo.
    rewrite H0, H0', H0e, H1, H1', H1ge, Hm, Hmle.
    repeat split; reflexivity.
Qed.

Lemma domain_checks_by_class_witness :
  PrimFloat.is_nan nan = true /\
  StandardCalculator.sqrt nan = Return (std.sqrt nan) /\
  StandardCalculator.divide 1%float nan = Return (1 / nan)%float.
Proof.
  split; [reflexivity|].
  destruct (proj2 (proj2 (domain_checks_by_class SmallLibm.libm SmallInverse.libm'
                            nan)) eq_refl)
    as (Hsqrt & _ & _ & _ & _ & _ & _ & _ & Hdiv & _).
  split; [exact Hsqrt|exact (Hdiv 1%float)].
Defined.

(** X11. A literal that [std::stod] cannot convert is reported as the
    [runtime_error] "Invalid number: " followed by the scanned token.  That
    is the outcome of every literal whose mantissa is a lone decimal point,
    with or without an exponent part; and of a literal too large for a
    double, as [1e309]. *)
Theorem unconvertible_literal_is_invalid_number :
  (forall libm reg x,
     Arithmetic.well_formed_operand x = true ->
     Arithmetic.mantissa x = "."%string ->
     evaluate libm reg (Arithmetic.render_operand x) =
     Some (Throw (runtime_error
                    ("Invalid number: " +:+ String "." (Arithmetic.exponent x))))) /\
  (forall libm reg,
     evaluate libm reg "1e309" = Some (Throw (runtime_error "Invalid number: 1e309")) /\
     evaluate libm reg "2 * ." = Some (Throw (runtime_error "Invalid number: ."))).
Proof.
  split.
  - intros libm reg x Hwf Hm.
    rewrite (LiteralFacts.evaluate_operand libm reg x Hwf).
    unfold Arithmetic.operand_value, Arithmetic.literal. rewrite Hm.
    rewrite SuffixFacts.append_cons, SuffixFacts.append_nil.
    rewrite LiteralFacts.stod_lone_point; [reflexivity|].
    unfold Arithmetic.well_formed_operand in Hwf.
    apply andb_true_iff in Hwf as (Hwf & _). apply andb_true_iff in Hwf as (_ & Hex).
    exact Hex.
  - intros libm reg. split; vm_compute; reflexivity.
Qed.

Lemma unconvertible_literal_is_invalid_number_witness :
  Arithmetic.well_formed_operand (Samples.spaced " " "." "e5" "") = true /\
  evaluate SmallLibm.libm (new SmallLibm.libm) " .e5" =
  Some (Throw (runtime_error "Invalid number: .e5")).
Proof.
  split; [reflexivity|].
  exact (proj1 unconvertible_literal_is_invalid_number SmallLibm.libm
           (new SmallLibm.libm) (Samples.spaced " " "." "e5" "") eq_refl eq_refl).
Defined.

(** X12. What a production does depends only on the text from the cursor
    on.  On a text that stands behind a prefix, each production started
    behind the prefix ends in the same outcome -- value or exception -- as
    on the text alone, with the cursor further by the length of the
    prefix; running out of fuel is the same on both sides too. *)
Theorem productions_do_not_depend_on_the_prefix :
  forall libm reg pre s n pos,
    parse_expression libm reg (pre +:+ s) n (String.length pre + pos) =
      Shift.shifted (String.length pre) (parse_expression libm reg s n pos) /\
    parse_term libm reg (pre +:+ s) n (String.length pre + pos) =
      Shift.shifted (String.length pre) (parse_term libm reg s n pos) /\
    parse_factor libm reg (pre +:+ s) n (String.length pre + pos) =
      Shift.shifted (String.length pre) (parse_factor libm reg s n pos) /\
    parse_number libm (pre +:+ s) (String.length pre + pos) =
      Shift.shifted (String.length pre) (parse_number libm s pos) /\
    (forall result,
       expression_loop libm reg (pre +:+ s) n result (String.length pre + pos) =
         Shift.shifted (String.length pre) (expression_loop libm reg s n result pos) /\
       term_loop libm reg (pre +:+ s) n result (String.length pre + pos) =
         Shift.shifted (String.length pre) (term_loop libm reg s n result pos)).
Proof.
  intros libm reg pre s n pos.
  destruct (ShiftFacts.agrees_productions libm reg pre s n)
    as (He & Hel & Ht & Htl & Hf).
  split; [apply He|]. split; [apply Ht|]. split; [apply Hf|].
  split; [apply ShiftFacts.agrees_parse_number|].
  intros result. split; [apply Hel|apply Htl].
Qed.

(** X13. Whitespace around the input changes nothing: with any whitespace
    before it and any whitespace after it, an input evaluates to the same
    outcome -- the same value or the same exception -- as without. *)
Theorem surrounding_whitespace_is_ignored :
  forall libm reg before s after,
    string_forall isspace before = true -> string_forall isspace after = true ->
    evaluate libm reg (before +:+ (s +:+ after)) = evaluate libm reg s.
Proof.
  intros libm reg before s after Hb Ha.
  rewrite (LeadingFacts.evaluate_leading libm reg before _ Hb).
  exact (PaddedFacts.evaluate_trailing libm reg after s Ha).
Qed.

Lemma surrounding_whitespace_is_ignored_witness :
  string_forall isspace "  " = true /\ string_forall isspace " " = true /\
  evaluate SmallLibm.libm (new SmallLibm.libm) "  2 * (3 + " =
  Some (Throw EvalError.UnexpectedEnd).
Proof.
  split; [reflexivity|]. split; [reflexivity|].
  exact (eq_trans
           (surrounding_whitespace_is_ignored SmallLibm.libm (new SmallLibm.libm)
              "  " "2 * (3 +" " " eq_refl eq_refl)
           eq_refl).
Defined.

(** * The read-eval-print loop *)

(** X14. The two [erase] statements of the loop trim the line: they take
    the blanks and tabs off its front and off its end and nothing else.
    What is left neither starts nor ends with a blank or a tab; it is the
    text between the blanks, so a text that is trimmed already comes back
    unchanged from between any blanks and tabs, and trimming twice is
    trimming once.  The line is emptied exactly when it holds nothing but
    blanks and tabs -- where the search returns [npos] and [npos + 1]
    wraps around to zero. *)
Theorem trim_takes_blanks_and_tabs_off_both_ends :
  (forall input,
     exists before after,
       input = before +:+ (Main.trim input +:+ after) /\
       string_forall Repl.blank before = true /\
       string_forall Repl.blank after = true /\
       Repl.trimmed (Main.trim input) = true) /\
  (forall before middle after,
     string_forall Repl.blank before = true ->
     string_forall Repl.blank after = true ->
     Repl.trimmed middle = true ->
     Main.trim (before +:+ (middle +:+ after)) = middle) /\
  (forall input, Main.trim (Main.trim input) = Main.trim input) /\
  (forall input,
     Main.trim input = ""%string <-> string_forall Repl.blank input = true).
Proof.
  split; [exact MainFacts.trim_spec|]. split; [exact MainFacts.trim_middle|].
  split; [exact MainFacts.trim_idempotent|exact MainFacts.trim_blanks].
Qed.

Lemma trim_takes_blanks_and_tabs_off_both_ends_witness :
  string_forall Repl.blank "  " = true /\
  string_forall Repl.blank (String "009" " ") = true /\
  Repl.trimmed "mode  complex" = true /\
  Main.trim ("  " +:+ ("mode  complex" +:+ String "009" " ")) = "mode  complex"%string.
Proof.
  split; [reflexivity|]. split; [reflexivity|]. split; [reflexivity|].
  exact (proj1 (proj2 trim_takes_blanks_and_tabs_off_both_ends)
           "  "%string "mode  complex"%string (String "009" " ")
           eq_refl eq_refl eq_refl).
Defined.

(** X15. A line that is no command is handed to the parser, and the loop
    writes one report of the outcome -- "Result: " and the value on
    standard output, or "Error: " and the message of the exception on
    standard error -- and goes on in the state it was in.  The outcome is
    that of [evaluate] on the line as read: trimming does not change it.
    Neither the mode nor the GPU flag has any influence on it. *)
Theorem expression_line_is_evaluated_and_reported :
  forall libm input,
    Repl.is_command (Main.trim input) = false ->
    exists r,
      evaluate libm (new libm) input = Some r /\
      forall st, Main.step libm st input = (Repl.report r, Some st).
Proof.
  intros libm input H.
  destruct (EvaluateFacts.evaluate_total libm (new libm) input) as (r & Hr).
  exists r. split; [exact Hr|]. intros st.
  destruct (MainFacts.step_expression libm st input H) as (r' & Hr' & Hstep).
  congruence.
Qed.

Lemma expression_line_is_evaluated_and_reported_witness :
  Repl.is_command (Main.trim " 10 / 4 ") = false /\
  exists r,
    evaluate SmallLibm.libm (new SmallLibm.libm) " 10 / 4 " = Some r /\
    forall st, Main.step SmallLibm.libm st " 10 / 4 " = (Repl.report r, Some st).
Proof.
  split; [reflexivity|].
  exact (expression_line_is_evaluated_and_reported SmallLibm.libm " 10 / 4 " eq_refl).
Defined.

(** X16. A line of blanks and tabs is skipped without a word.  The loop
    trims nothing else: a line of other whitespace, as a lone carriage
    return, is not empty after trimming; it is handed to the parser and
    reported as "Error: Unexpected end of expression". *)
Theorem only_blank_lines_are_skipped :
  forall libm st input,
    (string_forall Repl.blank input = true ->
     Main.step libm st input = (nil, Some st)) /\
    (string_forall isspace input = true -> string_forall Repl.blank input = false ->
     Main.step libm st input =
     (Main.cerr (Main.text "Error: ") ::
      Main.cerr (Main.text "Unexpected end of expression") ::
      Main.cerr Main.endl :: nil, Some st)).
Proof.
  intros libm st input. split.
  - exact (MainFacts.step_blank libm st input).
  - exact (MainFacts.step_whitespace libm st input).
Qed.

Lemma only_blank_lines_are_skipped_witness :
  string_forall isspace (String "013" "") = true /\
  string_forall Repl.blank (String "013" "") = false /\
  Main.step SmallLibm.libm {| Main.mode := "standard"; Main.gpu_enabled := false |}
    (String "013" "") =
  (Main.cerr (Main.text "Error: ") ::
   Main.cerr (Main.text "Unexpected end of expression") ::
   Main.cerr Main.endl :: nil,
   Some {| Main.mode := "standard"; Main.gpu_enabled := false |}).
Proof.
  split; [reflexivity|]. split; [reflexivity|].
  exact (proj2 (only_blank_lines_are_skipped SmallLibm.libm
                  {| Main.mode := "standard"; Main.gpu_enabled := false |}
                  (String "013" "")) eq_refl eq_refl).
Defined.

(** X17. Only two commands change the state of the loop: [gpu] flips the
    flag, and [mode] followed by a blank sets the mode to the rest of the
    trimmed line, whatever it is.  That rest is never empty and never ends
    in a blank or a tab, so a mode that is not empty stays so.  [mode]
    alone is no command: it is handed to the parser and reported as
    "Unknown identifier: mode". *)
Theorem state_changes_by_gpu_and_mode_only :
  forall libm st input,
    (forall st',
       snd (Main.step libm st input) = Some st' ->
       (st' = st \/
        (Main.trim input = "gpu"%string /\
         st' = {| Main.mode := Main.mode st;
                  Main.gpu_enabled := negb (Main.gpu_enabled st) |}) \/
        (exists m, Main.trim input = "mode " +:+ m /\
                   st' = {| Main.mode := m;
                            Main.gpu_enabled := Main.gpu_enabled st |})) /\
       (Main.mode st <> ""%string -> Main.mode st' <> ""%string)) /\
    (forall m,
       Main.trim input = "mode " +:+ m ->
       Main.step libm st input =
         (Main.cout (Main.text "Switched to ") :: Main.cout (Main.text m) ::
          Main.cout (Main.text " mode") :: Main.cout Main.endl :: nil,
          Some {| Main.mode := m; Main.gpu_enabled := Main.gpu_enabled st |}) /\
       exists c, Repl.last m = Some c /\ Repl.blank c = false) /\
    (Main.trim input = "mode"%string ->
     Main.step libm st input =
     (Repl.report (Throw (EvalError.UnknownIdentifier "mode")), Some st)).
Proof.
  intros libm st input. split; [|split].
  - intros st' H. pose proof (MainFacts.step_state libm st input) as Hs.
    rewrite H in Hs. destruct Hs as (_ & _ & Hs). split; [exact Hs|].
    intros Hmode. destruct Hs as [->|[(_ & ->)|(m & Hm & ->)]]; cbn [Main.mode];
      try exact Hmode.
    destruct (proj2 (MainFacts.step_mode libm st input m Hm)) as (c & Hc & _).
    intros ->. discriminate Hc.
  - intros m Hm. exact (MainFacts.step_mode libm st input m Hm).
  - exact (MainFacts.step_bare_mode libm st input).
Qed.

Lemma state_changes_by_gpu_and_mode_only_witness :
  Main.trim " mode  complex " = "mode " +:+ " complex" /\
  Main.step SmallLibm.libm {| Main.mode := "standard"; Main.gpu_enabled := true |}
    " mode  complex " =
  (Main.cout (Main.text "Switched to ") :: Main.cout (Main.text " complex") ::
   Main.cout (Main.text " mode") :: Main.cout Main.endl :: nil,
   Some {| Main.mode := " complex"; Main.gpu_enabled := true |}).
Proof.
  split; [reflexivity|].
  exact (proj1 (proj1 (proj2 (state_changes_by_gpu_and_mode_only SmallLibm.libm
                                {| Main.mode := "standard"; Main.gpu_enabled := true |}
                                " mode  complex ")) " complex"%string eq_refl)).
Defined.

(** X18. The loop ends at the first line that is [exit] or [quit] once
    trimmed, and at the end of the input; nothing else ends it, no error
    of an evaluation in particular.  Whatever comes behind that line is
    never read: the session writes the same with and without it. *)
Theorem loop_ends_at_exit_or_quit_only :
  forall libm,
    (forall st input,
       snd (Main.step libm st input) = None <->
       Main.trim input = "exit"%string \/ Main.trim input = "quit"%string) /\
    (forall st before input behind,
       Main.trim input = "exit"%string \/ Main.trim input = "quit"%string ->
       Main.loop libm st (before ++ input :: behind) =
       Main.loop libm st (before ++ input :: nil)).
Proof.
  intros libm. split.
  - intros st input. split.
    + intros H. pose proof (MainFacts.step_state libm st input) as Hs.
      rewrite H in Hs. exact Hs.
    + intros [H|H]; unfold Main.step; cbn zeta; rewrite H; reflexivity.
  - intros st before input behind H.
    exact (MainFacts.loop_stops libm before st input behind H).
Qed.

Lemma loop_ends_at_exit_or_quit_only_witness :
  Main.trim " quit" = "quit"%string /\
  Main.loop SmallLibm.libm {| Main.mode := "standard"; Main.gpu_enabled := false |}
    (("1/0" :: nil) ++ " quit" :: "2+2" :: nil) =
  Main.loop SmallLibm.libm {| Main.mode := "standard"; Main.gpu_enabled := false |}
    (("1/0" :: nil) ++ " quit" :: nil).
Proof.
  split; [reflexivity|].
  exact (proj2 (loop_ends_at_exit_or_quit_only SmallLibm.libm)
           {| Main.mode := "standard"; Main.gpu_enabled := false |}
           ("1/0" :: nil) " quit" ("2+2" :: nil) (or_intror eq_refl)).
Defined.

(** * The matrix products *)

(** X19. With operands of the sizes the dimensions say, inner dimensions
    that agree and a [result] that is a vector of its own -- the two
    operands may be one vector -- [MatrixCalculator::multiply] and
    [MetalInterface::matrix_multiply] read nothing outside a vector and
    leave in [result] the product in row-major order: [a_rows * b_cols]
    elements, the one at [i * b_cols + j] being row [i] of [a] times column
    [j] of [b], summed up from [0.0] in the order of [k].  What [result]
    held before has no influence, whatever its size, and every other
    vector, the operands included, is left as it was.  Where [result] is
    one of the operands the loops read what they have written: with
    [a = {1,2,3,4}] and [b = {5,6,7,8}], [multiply(a,2,2,b,2,2,a)] leaves
    [{19,130,43,290}] in [a], where the product is [{19,22,43,50}]. *)
Theorem matrix_product_is_computed :
  (forall multiply_add a a_rows a_cols b b_rows b_cols result
          (m : RowMajor.store double) va vb vr,
     m !! a = Some va -> m !! b = Some vb -> m !! result = Some vr ->
     result <> a -> result <> b ->
     Product.well_sized va a_rows a_cols vb b_rows b_cols ->
     MatrixCalculator.multiply multiply_add a a_rows a_cols b b_rows b_cols result m =
     Some (Return tt,
           <[result := Product.product double 0%float multiply_add va vb
                         (N.to_nat a_rows) (N.to_nat a_cols) (N.to_nat b_cols)]> m)) /\
  (forall multiply_add a a_rows a_cols b b_rows b_cols result
          (m : RowMajor.store MetalInterface.float) va vb vr,
     m !! a = Some va -> m !! b = Some vb -> m !! result = Some vr ->
     result <> a -> result <> b ->
     Product.well_sized va a_rows a_cols vb b_rows b_cols ->
     MetalInterface.matrix_multiply multiply_add a a_rows a_cols b b_rows b_cols
       result m =
     Some (Return tt,
           <[result := Product.product MetalInterface.float (S754_zero false)
                         multiply_add va vb
                         (N.to_nat a_rows) (N.to_nat a_cols) (N.to_nat b_cols)]> m)) /\
  (forall T zero multiply_add a b rows inner cols,
     length (Product.product T zero multiply_add a b rows inner cols) = rows * cols /\
     forall i j,
       i < rows -> j < cols ->
       nth (i * cols + j) (Product.product T zero multiply_add a b rows inner cols) zero =
       fold_left
         (fun sum k => multiply_add sum (nth (i * inner + k) a zero)
                                        (nth (k * cols + j) b zero))
         (seq 0 inner) zero) /\
  (MatrixCalculator.multiply MatrixCalculator.rounded_twice 0 2 2 1 2 2 0
     MatrixSamples.squares =
   Some (Return tt, <[0 := (19 :: 130 :: 43 :: 290 :: nil)%float]> MatrixSamples.squares) /\
   Product.product double 0%float MatrixCalculator.rounded_twice
     MatrixSamples.square_a MatrixSamples.square_b 2 2 2 =
   (19 :: 22 :: 43 :: 50 :: nil)%float).
Proof.
  split; [|split; [|split]].
  - intros multiply_add a a_rows a_cols b b_rows b_cols result m va vb vr
      Ha Hb Hr Hra Hrb (<- & Hsa & Hsb & Hfa & Hfb & Hfr).
    exact (MatrixFacts.multiply_product double 0%float multiply_add _ a a_rows a_cols
             b b_cols result va vb Hsa Hsb Hfa Hfb Hfr Hra Hrb m vr (conj Ha Hb) Hr).
  - intros multiply_add a a_rows a_cols b b_rows b_cols result m va vb vr
      Ha Hb Hr Hra Hrb (<- & Hsa & Hsb & Hfa & Hfb & Hfr).
    exact (MatrixFacts.multiply_product MetalInterface.float (S754_zero false)
             multiply_add _ a a_rows a_cols b b_cols result va vb Hsa Hsb Hfa Hfb Hfr
             Hra Hrb m vr (conj Ha Hb) Hr).
  - intros T zero multiply_add a b rows inner cols. split.
    + apply MatrixFacts.product_length.
    + intros i j Hi Hj.
      exact (MatrixFacts.product_nth T zero multiply_add a b inner cols zero rows i j
               Hi Hj).
  - split; vm_compute; reflexivity.
Qed.

Lemma matrix_product_is_computed_witness :
  Product.well_sized MatrixSamples.a 2 3 MatrixSamples.b 3 2 /\
  MatrixCalculator.multiply MatrixCalculator.rounded_twice 0 2 3 1 3 2 2
    MatrixSamples.memory =
  Some (Return tt, <[2 := (58 :: 64 :: 139 :: 154 :: nil)%float]> MatrixSamples.memory).
Proof.
  assert (H : Product.well_sized MatrixSamples.a 2 3 MatrixSamples.b 3 2)
    by (repeat split).
  split; [exact H|].
  exact (eq_trans
           (proj1 matrix_product_is_computed MatrixCalculator.rounded_twice
              0 2%N 3%N 1 3%N 2%N 2 MatrixSamples.memory
              MatrixSamples.a MatrixSamples.b MatrixSamples.stale
              eq_refl eq_refl eq_refl ltac:(discriminate) ltac:(discriminate) H)
           eq_refl).
Defined.

(** X20. The one thing the two matrix products check is that the inner
    dimensions agree: if they do not, the exception is thrown before any
    vector is touched.  The sizes of the vectors are not checked against
    the dimensions: an operand that is not [result] and has fewer elements
    than its dimensions say is read past its end -- undefined behaviour --
    as soon as the result has a column, for the first operand, or a row,
    for the second.  An operand that is [result] is resized before the
    loops read it: with an empty [v], [multiply(v,1,1,{5},1,1,v)] is
    defined and leaves [{0}] in [v]. *)
Theorem matrix_product_checks_inner_dimensions_only :
  (forall T zero multiply_add mismatch a a_rows a_cols b b_rows b_cols result
          (m : RowMajor.store T),
     (a_cols <> b_rows ->
      RowMajor.multiply T zero multiply_add mismatch a a_rows a_cols b b_rows b_cols
        result m =
      Some (Throw (runtime_error mismatch), m)) /\
     (forall va,
        a_cols = b_rows -> result <> a -> m !! a = Some va ->
        (N.of_nat (length va) < a_rows * a_cols)%N -> (a_rows * a_cols < 2 ^ 64)%N ->
        (0 < b_cols)%N ->
        RowMajor.multiply T zero multiply_add mismatch a a_rows a_cols b b_rows b_cols
          result m = None) /\
     (forall vb,
        a_cols = b_rows -> result <> b -> m !! b = Some vb ->
        (N.of_nat (length vb) < b_rows * b_cols)%N -> (b_rows * b_cols < 2 ^ 64)%N ->
        (0 < a_rows)%N ->
        RowMajor.multiply T zero multiply_add mismatch a a_rows a_cols b b_rows b_cols
          result m = None)) /\
  MatrixCalculator.multiply MatrixCalculator.rounded_twice 0 1 1 1 1 1 0
    MatrixSamples.short =
  Some (Return tt, <[0 := (0 :: nil)%float]> MatrixSamples.short).
Proof.
  split; [|vm_compute; reflexivity].
  intros T zero multiply_add mismatch a a_rows a_cols b b_rows b_cols result m.
  split; [|split].
  - intros Hne. unfold RowMajor.multiply.
    destruct (N.eqb_spec a_cols b_rows) as [E|_]; [contradiction|reflexivity].
  - intros va <- Hra Ha Hshort Hfits Hcols.
    exact (MatrixFacts.multiply_short_a T zero multiply_add mismatch a a_rows a_cols
             b b_cols result m va Hra Ha Hshort Hfits Hcols).
  - intros vb <- Hrb Hb Hshort Hfits Hrows.
    exact (MatrixFacts.multiply_short_b T zero multiply_add mismatch a a_rows a_cols
             b b_cols result m vb Hrb Hb Hshort Hfits Hrows).
Qed.

Lemma matrix_product_checks_inner_dimensions_only_witness :
  ((3 <> 2)%N /\
   MatrixCalculator.multiply MatrixCalculator.rounded_twice 0 2 3 1 2 3 2
     MatrixSamples.memory =
   Some (Throw (runtime_error "Matrix dimension mismatch"), MatrixSamples.memory)) /\
  ((N.of_nat (length MatrixSamples.a) < 4 * 2)%N /\
   MatrixCalculator.multiply MatrixCalculator.rounded_twice 0 4 2 1 2 3 2
     MatrixSamples.memory = None).
Proof.
  assert (H : (3 <> 2)%N) by discriminate.
  assert (Hshort : (N.of_nat (length MatrixSamples.a) < 4 * 2)%N) by reflexivity.
  split; (split; [assumption|]).
  - exact (proj1 (proj1 matrix_product_checks_inner_dimensions_only double 0%float
                    MatrixCalculator.rounded_twice "Matrix dimension mismatch"
                    0 2%N 3%N 1 2%N 3%N 2 MatrixSamples.memory)
             H).
  - exact (proj1 (proj2 (proj1 matrix_product_checks_inner_dimensions_only double 0%float
                          MatrixCalculator.rounded_twice "Matrix dimension mismatch"
                          0 4%N 2%N 1 2%N 3%N 2 MatrixSamples.memory))
             MatrixSamples.a eq_refl ltac:(discriminate) eq_refl Hshort
             ltac:(reflexivity) ltac:(reflexivity)).
Defined.

(** X21. Signs stack and each applies to the whole factor behind it: a
    run of [+] and [-] before a literal, or before a tower of powers of
    literals, evaluates the tower first -- its exception, if any, is the
    outcome -- and then negates the value once for every [-], from the
    innermost sign to the outermost. *)
Theorem signs_apply_to_the_whole_factor :
  forall libm reg signs x l,
    Arithmetic.well_formed_operand x = true ->
    forallb Arithmetic.well_formed_operand l = true ->
    evaluate libm reg (Signs.render_signs signs +:+ Arithmetic.render_tower x l) =
    Some match Arithmetic.tower_value libm x l with
         | Return v => Return (Signs.apply_signs signs v)
         | Throw e => Throw e
         end.
Proof.
  intros libm reg signs x l Hx Hl.
  rewrite (SignFacts.evaluate_signs libm reg x l signs Hx Hl).
  destruct (Arithmetic.tower_value libm x l); reflexivity.
Qed.

Lemma signs_apply_to_the_whole_factor_witness :
  Arithmetic.well_formed_operand (Samples.spaced " " "3" "" "") = true /\
  forallb Arithmetic.well_formed_operand (Samples.spaced "" "2" "" " " :: nil) = true /\
  evaluate SmallLibm.libm (new SmallLibm.libm) "-+- 3^2 " = Some (Return 9%float).
Proof.
  split; [reflexivity|]. split; [reflexivity|].
  exact (eq_trans
           (signs_apply_to_the_whole_factor SmallLibm.libm (new SmallLibm.libm)
              (Signs.Negative :: Signs.Positive :: Signs.Negative :: nil)
              (Samples.spaced " " "3" "" "") (Samples.spaced "" "2" "" " " :: nil)
              eq_refl eq_refl)
           eq_refl).
Defined.

(** * The grammar *)

(** X22. The parser implements its grammar.  For every syntax tree of

      expression ::= term { ("+" | "-") term }
      term       ::= factor { ("*" | "/" | "%") factor }
      factor     ::= number [ "^" factor ] | ("+" | "-") factor
                   | "(" expression ")" [ "^" factor ]
                   | name | name "(" expression ")"

    written with any whitespace before each of its tokens and after the
    last one, [evaluate] has the outcome of the tree: operators of one
    tier are applied from left to right, a power binds its exponent
    factor, a sign applies to the whole factor behind it, a name is
    looked up among the constants and the name of a call among the
    functions after its argument is evaluated -- and the first exception
    in this order is the one that is thrown. *)
Theorem grammar_is_evaluated :
  forall libm reg e ws,
    Syntax.well_formed_expression e = true -> string_forall isspace ws = true ->
    evaluate libm reg (Syntax.render_expression e +:+ ws) =
    Some (Syntax.value_expression libm reg e).
Proof.
  intros libm reg e ws He Hws.
  rewrite (PaddedFacts.evaluate_trailing libm reg ws _ Hws).
  exact (SyntaxFacts.evaluate_tree libm reg e He).
Qed.

Lemma grammar_is_evaluated_witness :
  Syntax.well_formed_expression SyntaxSamples.sample = true /\
  string_forall isspace " " = true /\
  evaluate SmallLibm.libm (new SmallLibm.libm) " -2 ^ 3 *(1 + abs (-5.5e0 ))^2 - pi " =
  Some (Return (-338 - StandardCalculator.PI)%float).
Proof.
  split; [reflexivity|]. split; [reflexivity|].
  exact (eq_trans
           (grammar_is_evaluated SmallLibm.libm (new SmallLibm.libm)
              SyntaxSamples.sample " " eq_refl eq_refl)
           eq_refl).
Defined.
